(* ===== verification/_CoqProject ===== *)
-Q . S2P
Prelude.v
CString.v
OrderEvent.v
EventLog.v
Handle.v
Concurrency.v
SlotTable.v
PositionTracker.v
Snapshot.v
OrderManager.v
RiskChecker.v
Fixed.v
FixMessages.v
MessageTranslator.v
Environment.v
Killswitch.v
Projection.v
FIXGateway.v
Scripts.v
Trade.v
Main.v
Layout.v
Shutdown.v
Resumption.v
Commute.v
Writes.v
Handler.v
Unwind.v
Flatten.v
Calls.v
Threads.v
Forward.v
Schedules.v
Termination.v
Interrupts.v
Exposure.v
Stale.v
Races.v
Crash.v
Lives.v
Conformance.v
Bench.v
Cases.v
