(* ===== verification/Prelude.v ===== *)
(** * The order bookkeeping engine: a verification library

    ** The program

    The program keeps the books of a trading client.  Every order and every execution
    is an [OrderEvent] of 64 bytes (include/OrderEvent.h) appended to a memory-mapped
    file (include/EventLog.h).  Two in-memory books are projections of that log: the
    positions by symbol (include/PositionTracker.h) and the orders by identifier
    (include/OrderManager.h), both flat arrays searched from the front.  A risk check
    (include/RiskChecker.h) reads both books before an order goes out.  The gateway
    (gateway/FIXGateway.cpp) translates FIX reports to events
    (gateway/MessageTranslator.h), books them, and sends orders; a kill switch
    (gateway/Killswitch.h) cancels everything; src/main.cpp replays the log at start,
    runs the engine and handles signals.

    ** Conventions

    - An [outcome] is how a C++ call ends: [Ok], [Throw], [UB] (undefined behaviour)
      or [Terminate] (an exception leaving a [noexcept] function).  Signed arithmetic
      that leaves its type, reads outside an array and conversions of doubles that do
      not fit are [UB]; theorems that a call returns exclude it.
    - Integers are [Z] with the width written out ([i32], [i64], [u64]); arrays of
      [char] are lists whose length is the array's; a [std::string_view] is the memory
      behind its pointer with its size; a null pointer is [None]; a pointer into a
      slot array is an index.  Enumerations carry a constructor for byte values
      outside the enumerators.
    - Code that has effects beyond one object is a computation [stO S A]: a state
      survives an exception ([Environment]).
    - Loops are structural recursions over the slots in use, the events of the log or
      an explicit counter ([find_loop], [replay_loop]).  The one loop with fuel is
      [Calls.cancel_loop], which reads its bound again on every iteration: it gets
      [S MAX_ORDERS], and [Termination] shows that no schedule uses them up.
    - A call that others may interrupt is a resumption ([Resumption]): an outcome, or one
      more atomic step and the rest.

    ** Files, in dependency order

    - [Prelude]: outcomes, machine integers, sums, tactics.
    - [CString]: [strnlen], [strncmp], [strncpy], views, and the key (the bytes before
      the first NUL, at most 8) that comparisons see.
    - [OrderEvent]: the event, its factories and its 64-byte image with encoder and
      decoder.
    - [EventLog]: the file as bytes, opening and creating, [append], [read], [replay];
      the interface [LogOps]/[LogLaws] (a log promises to hold a list of events), with
      the byte-level log and a list as instances.  Clients are proved against the
      interface.
    - [Handle]: the descriptor and the mapping that a log holds, and what is left of them
      when its constructor throws.
    - [Concurrency]: [append] write by write, with readers, crashes and a second
      thread in between.
    - [SlotTable]: the array of slots that both books share ([find], [get_or_create],
      updates through a pointer), as a refinement of a finite map; class [Slot].
    - [Snapshot]: [replay] iteration by iteration, with a writer going on beside it.
    - [PositionTracker], [OrderManager], [RiskChecker]: one per header, with the
      source's methods in the module of the class, a reference rule over unbounded
      integers and the refinement between them.
    - [Fixed]: [to_fixed], [from_fixed] and the [_d] accessors on executable IEEE 754
      binary64, with their error analysis.
    - [FixMessages]: the parameters that stand for the FIX engine's messages and
      constants, with laws and a concrete instance.
    - [MessageTranslator]: reports to events, events to orders and cancel requests.
    - [Environment]: the effect monad; the engine's [sendToTarget], the clocks and the
      console; decimal numbers.
    - [Killswitch], [FIXGateway], [Main]: the kill switch, the gateway and the process,
      as computations and transition systems ([gw_step]; [main_step], [proc_step]).
    - [Projection]: events and books up to sequence numbers, an equivalence that both
      [apply_event]s respect ([Proper] instances).
    - [Scripts]: runs of the gateway that are evaluated, for the examples.
    - [Trade]: an order from [send_order] to its last execution report.
    - [Unwind], [Flatten]: the kill switch together with the reports that answer its cancel
      requests and its closing orders.
    - [Layout]: the slots as 64-byte structs, with encoders and decoders.
    - [Shutdown]: infinite executions of the process, and fairness.
    - [Resumption]: interruptible computations; what their steps change ([within]), how
      many there are ([bounded]) and how they end ([returns]).
    - [Commute]: events of different orders may be applied in either order, and slots
      stay where they are.
    - [Writes]: [OrderManager::apply_event] one memory write at a time; [Handler]: the kill
      switch run by a signal handler between two of them.
    - [Calls]: the gateway's and the kill switch's calls as resumptions, one call into a
      component per step; equal to those of [FIXGateway] when they run alone
      ([run_fromApp], [run_send_order], [run_emergency]).
    - [Threads]: the machine [mc_step] in which the engine's thread, the strategy's
      thread and any number of signal handlers interleave, a component call at a time,
      and what is in flight.
    - [Forward]: what no step of any thread takes back (slots, counts, the log).
    - [Schedules], [Termination], [Interrupts]: calls that run alone as schedules of the
      machine, bounds on the steps of every schedule, and signals in the middle of
      other calls.
    - [Exposure]: what the position limit does and does not bound.
    - [Stale]: a fill that is booked between the two reads of the risk check.
    - [Races]: the machine in which component calls take time and overlap, and what a
      race of two of them is; without races its executions are those of [Threads].
    - [Crash]: such executions, torn appends and the next start, together; [Lives]: any
      number of such runs on one file.
    - [Conformance]: the tests under src/tests, case by case, evaluated on the model.
    - [Bench], [Cases]: the benchmark harness, and the benchmarks themselves.

    ** What the theorems show

    - The log: a new, reopened or crashed file holds exactly the events appended, in
      order ([append_refines], [reopen_replays_session], [append_frame]); readers need
      no lock and a crash between any two writes loses no finished append
      ([readers_see_complete_events], [crash_recovers_returned_appends]); a replay beside a
      writer is the fold over the events of one moment
      ([replay_beside_writer_is_snapshot]).
    - The books: replaying gives each symbol and each order exactly its own events
      ([replay_projects_fills], [replay_projects_orders]); both sides of the fill code
      implement one rule, reconcile with cash up to a stated rounding bound and do not
      overflow within stated limits; orders follow the documented life cycle and keep
      an invariant between state and quantity until they are amended
      ([order_book_invariant]).
    - Risk: the check decides the reference rule on the true exposure; that exposure
      is the signed sum over open orders plus the position, is preserved by fills and
      stays within the limit after every order that is sent.
    - An order end to end: from the check to the last execution both books, the log and the
      exposure hold exactly what was executed, nothing else moves, and the position limit
      holds throughout ([order_trades_to_its_end]); the kill switch closes the book when the
      counterparty confirms under the identifiers of the orders
      ([confirmed_cancels_close_the_book]) and the executions of [flatten] leave no position
      ([executed_flatten_leaves_no_position]).
    - The gateway: after any sequence of calls the live books are the projection of
      the log ([live_state_is_projection]) and a restart rebuilds them
      ([restart_recovers_books]); every outcome of [send_order] and [fromApp]; what an
      order and its report have in common.
    - The kill switch: one cancel per open order, one exactly closing market order
      per open position, whether or not a session is found; a clean exit sent them; a
      signalled process hands over one cancel request for each of its open orders, and
      exits in every fair execution ([signalled_process_exits]).
    - Overlapping calls.  In executions without a race, at every moment the log and the
      books differ by at most two events in flight, provided no report is handled about
      the order being entered ([overlapping_calls_project]); after a crash at any step of
      any thread and any write of an append the next start has the books
      ([crash_at_any_moment_recovers]), and no number of such lives loses an event
      ([history_survives_every_life]).  The code does race: an order and a report come to
      be appended at once, and the order's event is lost ([gateway_calls_race]).  With
      component calls one at a time, every call ends within a stated number of steps
      ([calls_end_under_every_schedule]) and the kill switch misses no order that stays
      open ([interleaved_cancel_all_misses_no_order]).  The order manager is consistent
      between any two of its writes ([orders_consistent_between_stores]), and the kill
      switch in a signal handler between two of them still reaches every order that stays
      open ([handler_cancels_between_stores]).
    - The repository's own tests: every case, evaluated on these definitions, has the result
      it expects ([suite_passes]); the benchmark harness prints samples of the ranks it
      names ([printed_statistics]); all benchmark cases return and are reported
      ([bench_main_reports_every_case]), though some of them time less than they say
      ([hot_path_holds_no_orders], [new_order_case_creates_256]).
    - Slots: a pointer that a search returned stays good whatever comes later
      ([slots_never_move]); every slot of a running gateway is a value of its struct
      ([gateway_slots_wf]).
    - Where the code does less than its comments or its README say, the behaviour is
      stated as a theorem of its own (slots that are never freed, identifiers that
      collide or restart, terminal orders that change, prices one tick low, crashes
      during creation, two writing threads, orders that escape the kill switch, fills
      that a check counts twice or not at all, resting orders that hide a position,
      confirmations of cancels that close nothing).

    ** Assumptions and limits

    - Objects have the values of their types ([wf_event], [ids_ok], [sv_ok]); padding
      is part of the image.
    - The FIX engine, clocks and file system calls are parameters.  The mapping
      survives the process (page cache); power loss is not modelled.  The
      release/acquire pairs order the event before the count, so executions are
      interleavings of the writes listed in [Concurrency].
    - In [Threads] a call into one component is one step.  The header of FIXGateway.h asks
      for that ("must be protected") and the code does not do it, so what is proved of the
      log under threads is proved of the executions of [Races] in which no two threads are
      inside component calls of which one writes what the other uses; the session's
      atomics, the engine and the console are not counted as shared data.
      [two_writers_lose_an_event] and [gateway_calls_race] say what happens otherwise, and
      [Writes] what a signal handler sees in the middle of [OrderManager::apply_event];
      the stores of one thread are taken in program order.  A racing access is undefined
      in C++ and is otherwise not given a meaning.
    - That no report is handled about the order being entered ([apart]) is a condition of
      the theorems on the manager that need it: the exchange cannot know an order before
      it is sent, but identifiers start again after a restart.
    - In [Main] a signal is handled between two calls of the gateway; signals in the
      middle of calls are those of [Threads].  The liveness theorem assumes that the
      main thread keeps being scheduled and that no call terminates the process.
    - How a counterparty answers is a hypothesis: [answers] (executions echo the order's
      identifier, symbol and side), [confirms_order] and [confirms_request] (a cancel is
      confirmed under the order's identifier, or under the request's as FIX 4.2 has it).
    - The readings of the benchmarks' counter (inline assembly) are a parameter; the wait of
      [measure_tsc_ghz] has fuel, enough once the clock has reached its target
      ([measurement_ends]).
    - Not modelled: [printf] formatting beyond what it reads; the build files; the session
      settings, which the engine reads. *)

From stdpp Require Export base tactics list numbers strings gmap pretty.
From Stdlib Require Export ZArith Lia Ascii.

#[export] Set Default Goal Selector "!".

(** ** Outcomes

    A C++ call ends in one of four ways: it returns, it throws, it runs into
    undefined behaviour, or (an exception leaving a [noexcept] function) it
    calls [std::terminate]. *)

Inductive exn : Type :=
  | overflow_error (what : string)
  | runtime_error (what : string)
  | FieldNotFound (field : string)
  | SessionNotFound
  | UnsupportedMessageType
  | ConfigError (what : string).

#[export] Instance exn_eq_dec : EqDecision exn.
Proof. solve_decision. Defined.

Inductive outcome (A : Type) : Type :=
  | Ok (a : A)
  | Throw (e : exn)
  | UB
  | Terminate.
Arguments Ok {A} a.
Arguments Throw {A} e.
Arguments UB {A}.
Arguments Terminate {A}.

#[export] Instance outcome_eq_dec `{EqDecision A} : EqDecision (outcome A).
Proof. solve_decision. Defined.

#[export] Instance outcome_ret : MRet outcome := @Ok.
#[export] Instance outcome_bind : MBind outcome := λ A B f m,
  match m with
  | Ok a => f a
  | Throw e => Throw e
  | UB => UB
  | Terminate => Terminate
  end.
#[export] Instance outcome_fmap : FMap outcome := λ A B f m, m ≫= λ a, Ok (f a).

(** An exception that leaves a [noexcept] function terminates the program. *)
Definition noexcept {A} (m : outcome A) : outcome A :=
  match m with
  | Throw _ => Terminate
  | _ => m
  end.

(** [foldO f xs s] runs [f] over [xs] from left to right and stops at the first
    element whose call does not return. *)
Fixpoint foldO {A S} (f : A → S → outcome S) (xs : list A) (s : S) : outcome S :=
  match xs with
  | [] => Ok s
  | x :: xs => s' ← f x s; foldO f xs s'
  end.

(** Whether a computation returned; for examples that are evaluated. *)
Definition is_Ok {A} (m : outcome A) : bool := match m with Ok _ => true | _ => false end.

Lemma Ok_ex {A} (m : outcome A) : is_Ok m = true → ∃ a, m = Ok a.
Proof. destruct m; cbn; try discriminate. eauto. Qed.

(** A test that holds of an evaluated computation holds of its result. *)
Lemma Ok_check {A} (m : outcome A) a (P : A → bool) :
  m = Ok a → P <$> m = Ok true → P a = true.
Proof. intros ->. cbn. by intros [= ->]. Qed.

Lemma bind_Ok {A B} (m : outcome A) (f : A → outcome B) b :
  m ≫= f = Ok b ↔ ∃ a, m = Ok a ∧ f a = Ok b.
Proof. destruct m; cbn; naive_solver. Qed.

Lemma fmap_Ok {A B} (m : outcome A) (f : A → B) b :
  f <$> m = Ok b ↔ ∃ a, m = Ok a ∧ b = f a.
Proof. destruct m; cbn; naive_solver. Qed.

Lemma bind_assoc {A B C} (m : outcome A) (f : A → outcome B) (g : B → outcome C) :
  (m ≫= f) ≫= g = m ≫= λ a, f a ≫= g.
Proof. by destruct m. Qed.

Lemma bind_ext {A B} (m : outcome A) (f g : A → outcome B) :
  (∀ a, f a = g a) → m ≫= f = m ≫= g.
Proof. intros H. destruct m; cbn; auto. Qed.

Lemma foldO_app {A S} (f : A → S → outcome S) xs ys s :
  foldO f (xs ++ ys) s = foldO f xs s ≫= foldO f ys.
Proof.
  revert s. induction xs as [|x xs IH]; intros s; cbn; [done|].
  rewrite bind_assoc. apply bind_ext. intros a. apply IH.
Qed.

(** ** Calls that throw nothing *)

Definition no_throw {A} (m : outcome A) : Prop :=
  match m with Throw _ | Terminate => False | _ => True end.

Lemma no_throw_bind {A B} (m : outcome A) (f : A → outcome B) :
  no_throw m → (∀ a, no_throw (f a)) → no_throw (m ≫= f).
Proof. destruct m; cbn; auto. Qed.

Lemma no_throw_cases {A} (m : outcome A) : no_throw m → m = UB ∨ ∃ a, m = Ok a.
Proof. destruct m; cbn; intros; try done; eauto. Qed.

(** Rule of induction for a loop that returned: an invariant of the body holds
    at the end. *)
Lemma foldO_ind {A S} (I : S → Prop) (f : A → S → outcome S) xs s s' :
  I s → (∀ x a b, x ∈ xs → I a → f x a = Ok b → I b) →
  foldO f xs s = Ok s' → I s'.
Proof.
  revert s. induction xs as [|x xs IH]; intros s Hs Hf Hrun; cbn in Hrun.
  { by simplify_eq. }
  apply bind_Ok in Hrun as (a & Ha & Hrun).
  apply (IH a); [|by intros; eapply Hf; [right|..]|done].
  eapply Hf; [by left|done..].
Qed.

Lemma foldO_no_throw {A S} (f : A → S → outcome S) xs s :
  (∀ x s, no_throw (f x s)) → no_throw (foldO f xs s).
Proof.
  intros Hf. revert s. induction xs as [|x xs IH]; intros s; [done|].
  cbn [foldO]. apply no_throw_bind; [apply Hf|apply IH].
Qed.

(** ** Machine integers

    A value of a [w]-bit type is a [Z].  Signed arithmetic that leaves the range
    of its type is undefined behaviour; unsigned arithmetic wraps around;
    a [static_cast] to a signed type takes the two's complement value. *)

Section Integers.
Local Open Scope Z_scope.

Definition INT32_MAX : Z := 2147483647.
Definition INT64_MAX : Z := 9223372036854775807.
Definition UINT64_MOD : Z := 18446744073709551616.

Definition in_i32 (z : Z) : bool := (- INT32_MAX - 1 <=? z) && (z <=? INT32_MAX).
Definition in_i64 (z : Z) : bool := (- INT64_MAX - 1 <=? z) && (z <=? INT64_MAX).
Definition in_u64 (z : Z) : bool := (0 <=? z) && (z <? UINT64_MOD).

Definition i32 (z : Z) : outcome Z := if in_i32 z then Ok z else UB.
Definition i64 (z : Z) : outcome Z := if in_i64 z then Ok z else UB.
Definition u64 (z : Z) : Z := z mod UINT64_MOD.

Definition signed (w z : Z) : Z := (z + 2 ^ (w - 1)) mod 2 ^ w - 2 ^ (w - 1).

(** C++ integer division truncates towards zero. *)
Definition div64 (a b : Z) : outcome Z := if b =? 0 then UB else i64 (Z.quot a b).

Lemma in_i32_spec z : in_i32 z = true ↔ - 2147483648 <= z <= 2147483647.
Proof. unfold in_i32, INT32_MAX. rewrite andb_true_iff, !Z.leb_le. lia. Qed.

Lemma in_i64_spec z :
  in_i64 z = true ↔ - 9223372036854775808 <= z <= 9223372036854775807.
Proof. unfold in_i64, INT64_MAX. rewrite andb_true_iff, !Z.leb_le. lia. Qed.

Lemma in_u64_spec z : in_u64 z = true ↔ 0 <= z < 18446744073709551616.
Proof. unfold in_u64, UINT64_MOD. rewrite andb_true_iff, Z.leb_le, Z.ltb_lt. lia. Qed.

Lemma i32_Ok z w : i32 z = Ok w ↔ w = z ∧ in_i32 z = true.
Proof. unfold i32. destruct (in_i32 z); naive_solver. Qed.

Lemma i64_Ok z w : i64 z = Ok w ↔ w = z ∧ in_i64 z = true.
Proof. unfold i64. destruct (in_i64 z); naive_solver. Qed.

Lemma i32_ok z : - 2147483648 <= z <= 2147483647 → i32 z = Ok z.
Proof. intros H. apply i32_Ok. by rewrite in_i32_spec. Qed.

Lemma i64_ok z : - 9223372036854775808 <= z <= 9223372036854775807 → i64 z = Ok z.
Proof. intros H. apply i64_Ok. by rewrite in_i64_spec. Qed.

Lemma div64_Ok a b w :
  div64 a b = Ok w ↔ b ≠ 0 ∧ w = Z.quot a b ∧ in_i64 (Z.quot a b) = true.
Proof.
  unfold div64. destruct (Z.eqb_spec b 0); [naive_solver|].
  rewrite i64_Ok. naive_solver.
Qed.

Lemma div64_ok a b :
  0 < b → - 9223372036854775808 <= Z.quot a b <= 9223372036854775807 →
  div64 a b = Ok (Z.quot a b).
Proof. intros Hb H. apply div64_Ok. rewrite in_i64_spec. lia. Qed.

Lemma u64_id z : in_u64 z = true → u64 z = z.
Proof. rewrite in_u64_spec. intros. apply Z.mod_small. unfold UINT64_MOD. lia. Qed.

Lemma signed_id w z : 0 < w → - 2 ^ (w - 1) <= z < 2 ^ (w - 1) → signed w z = z.
Proof.
  intros Hw Hz. unfold signed.
  assert (2 ^ w = 2 * 2 ^ (w - 1)) as ->.
  { rewrite <- Z.pow_succ_r by lia. f_equal. lia. }
  rewrite Z.mod_small; lia.
Qed.

Lemma signed_mod w z : 0 < w → signed w (z mod 2 ^ w) = signed w z.
Proof.
  intros Hw. unfold signed. f_equal.
  rewrite Z.add_mod_idemp_l; [done|]. apply Z.pow_nonzero; lia.
Qed.

Lemma i32_no_throw z : no_throw (i32 z).
Proof. unfold i32. by destruct (in_i32 z). Qed.

Lemma i64_no_throw z : no_throw (i64 z).
Proof. unfold i64. by destruct (in_i64 z). Qed.

Lemma div64_no_throw a b : no_throw (div64 a b).
Proof. unfold div64. destruct (b =? 0); [done|apply i64_no_throw]. Qed.

(** A weighted average, rounded towards zero, stays between its terms. *)
Lemma quot_average_bound (lo hi a n b q : Z) :
  0 <= lo → 0 <= n → 0 < q → (n = 0 ∨ lo <= a <= hi) → lo <= b <= hi →
  lo <= Z.quot (a * n + b * q) (n + q) <= hi.
Proof.
  intros Hlo Hn Hq Ha Hb. assert (0 <= a * n + b * q) by (destruct Ha; [subst|]; nia).
  rewrite Z.quot_div_nonneg by lia. split.
  - apply Z.div_le_lower_bound; [lia|]. destruct Ha; [subst|]; nia.
  - apply Z.div_le_upper_bound; [lia|]. destruct Ha; [subst|]; nia.
Qed.
End Integers.

(** Sums of an integer measure over a list. *)
Definition sumZ {A} (f : A → Z) (xs : list A) : Z := foldr (λ x n, f x + n)%Z 0%Z xs.

Lemma sumZ_app {A} (f : A → Z) xs ys : sumZ f (xs ++ ys) = (sumZ f xs + sumZ f ys)%Z.
Proof. induction xs; cbn; unfold sumZ in *; lia. Qed.

Lemma sumZ_nonneg {A} (f : A → Z) xs : (∀ x, x ∈ xs → 0 <= f x)%Z → (0 <= sumZ f xs)%Z.
Proof.
  induction xs as [|x xs IH]; intros H; cbn; [done|].
  pose proof (H x ltac:(left)). assert (0 <= sumZ f xs)%Z by (apply IH; intros; apply H; by right).
  unfold sumZ in *. lia.
Qed.

Lemma sumZ_fmap {A B} (f : B → Z) (g : A → B) xs : sumZ f (g <$> xs) = sumZ (λ x, f (g x)) xs.
Proof. unfold sumZ. induction xs as [|x xs IH]; [done|]. cbn in *. by rewrite IH. Qed.

Lemma filter_all {A} (P : A → Prop) `{∀ y, Decision (P y)} (s : list A) : Forall P s → base.filter P s = s.
Proof. induction 1 as [|x s Hx _ IH]; [done|]. by rewrite filter_cons_True, IH. Qed.

Lemma sumZ_perm {A} (f : A → Z) xs ys : xs ≡ₚ ys → sumZ f xs = sumZ f ys.
Proof. induction 1; cbn; unfold sumZ in *; lia. Qed.

(** The sum of a measure over the values of a finite map. *)
Definition map_sum `{Countable K} {A} (f : A → Z) (m : gmap K A) : Z :=
  sumZ (λ x, f x.2) (map_to_list m).

Lemma map_sum_empty `{Countable K} {A} (f : A → Z) : map_sum f (∅ : gmap K A) = 0%Z.
Proof. unfold map_sum. by rewrite map_to_list_empty. Qed.

Lemma map_sum_insert_None `{Countable K} {A} (f : A → Z) (m : gmap K A) k x :
  m !! k = None → map_sum f (<[k := x]> m) = (f x + map_sum f m)%Z.
Proof.
  intros Hk. unfold map_sum.
  by rewrite (sumZ_perm _ _ _ (map_to_list_insert m k x Hk)).
Qed.

Lemma map_sum_insert `{Countable K} {A} (f : A → Z) (m : gmap K A) k x :
  map_sum f (<[k := x]> m)
    = (map_sum f m + f x - default 0 (f <$> m !! k))%Z.
Proof.
  destruct (m !! k) as [y|] eqn:Hk; cbn.
  - rewrite <- (insert_delete_id m k y Hk) at 2. rewrite <- insert_delete_eq.
    rewrite !map_sum_insert_None by apply lookup_delete_eq. lia.
  - rewrite map_sum_insert_None by done. lia.
Qed.

(** ** Automation

    [ok_inv] takes apart a hypothesis that says a computation returned; the
    [outcome] hints discharge the common side conditions of a return. *)

Ltac ok_inv_step :=
  match goal with
  | H : Ok _ = Ok _ |- _ => injection H as H; subst
  | H : UB = Ok _ |- _ => discriminate H
  | H : Throw _ = Ok _ |- _ => discriminate H
  | H : Terminate = Ok _ |- _ => discriminate H
  | H : (_ ≫= _) = Ok _ |- _ =>
      let a := fresh "a" in let Ha := fresh "Ha" in
      apply bind_Ok in H as (a & Ha & H); cbn beta in H
  | H : (_ <$> _) = Ok _ |- _ =>
      let a := fresh "a" in let Ha := fresh "Ha" in
      apply fmap_Ok in H as (a & Ha & H); cbn beta in H
  | H : i32 _ = Ok _ |- _ =>
      let Hr := fresh "Hr" in apply i32_Ok in H as [-> Hr]
  | H : i64 _ = Ok _ |- _ =>
      let Hr := fresh "Hr" in apply i64_Ok in H as [-> Hr]
  | H : div64 _ _ = Ok _ |- _ =>
      let Hr := fresh "Hr" in let Hz := fresh "Hz" in
      apply div64_Ok in H as (Hz & -> & Hr)
  end.
Ltac ok_inv := repeat ok_inv_step.

Create HintDb outcome.
#[export] Hint Resolve u64_id : outcome.

(** Boolean tests of the code as propositions, for [lia]. *)
Ltac btauto_Z :=
  repeat match goal with
  | H : (_ <? _)%Z = true |- _ => apply Z.ltb_lt in H
  | H : (_ <? _)%Z = false |- _ => apply Z.ltb_ge in H
  | H : (_ <=? _)%Z = true |- _ => apply Z.leb_le in H
  | H : (_ <=? _)%Z = false |- _ => apply Z.leb_gt in H
  | H : (_ =? _)%Z = true |- _ => apply Z.eqb_eq in H
  | H : (_ =? _)%Z = false |- _ => apply Z.eqb_neq in H
  end.

#[export] Hint Resolve no_throw_bind i32_no_throw i64_no_throw div64_no_throw : no_throw.

(** Walks a straight-line computation and discharges [no_throw]. *)
Ltac no_throw :=
  repeat match goal with
  | |- no_throw (Ok _) => exact I
  | |- no_throw (_ ≫= _) => apply no_throw_bind; [|intros ?]
  | |- no_throw (i32 _) => apply i32_no_throw
  | |- no_throw (i64 _) => apply i64_no_throw
  | |- no_throw (div64 _ _) => apply div64_no_throw
  | |- no_throw (if ?b then _ else _) => destruct b
  | |- no_throw (let '(_, _) := ?x in _) => destruct x
  end; eauto with no_throw.
