(* ===== verification/CString.v ===== *)
(** * Byte strings: [strnlen], [strncmp], [strncpy], [%s] and [std::string_view]

    The structs of the program hold their symbols and order ids in [char[8]]
    arrays that are padded with NUL bytes and, at eight characters, are not
    terminated.  A pointer to characters is modelled by the bytes that can be
    read from it up to the end of its object; a function that reads past them
    has undefined behaviour. *)

From Stdlib Require String.
From S2P Require Import Prelude.

Notation char := ascii (only parsing).
Definition NUL : char := "000"%char.

(** ** The C functions *)

Fixpoint strnlen (p : list char) (n : nat) : outcome nat :=
  match n, p with
  | O, _ => Ok O
  | S _, [] => UB
  | S n, c :: p => if decide (c = NUL) then Ok O else S <$> strnlen p n
  end.

Definition char_code (c : char) : Z := Z.of_N (N_of_ascii c).

Fixpoint strncmp (p q : list char) (n : nat) : outcome Z :=
  match n, p, q with
  | O, _, _ => Ok 0%Z
  | S n, c :: p, d :: q =>
      if decide (c = d)
      then if decide (c = NUL) then Ok 0%Z else strncmp p q n
      else Ok (char_code c - char_code d)%Z
  | S _, _, _ => UB
  end.

(** [strncpy src n]: the [n] bytes that [strncpy(dst, src, n)] writes. *)
Fixpoint strncpy (src : list char) (n : nat) : outcome (list char) :=
  match n, src with
  | O, _ => Ok []
  | S _, [] => UB
  | S n', c :: src =>
      if decide (c = NUL) then Ok (replicate n NUL) else cons c <$> strncpy src n'
  end.

(** The characters that [printf("%s")] prints: up to the terminating NUL. *)
Fixpoint c_str (p : list char) : outcome (list char) :=
  match p with
  | [] => UB
  | c :: p => if decide (c = NUL) then Ok [] else cons c <$> c_str p
  end.

(** ** Strings with a length *)

(** A [std::string_view]: what can be read from [data()], and [size()]. *)
Record string_view := { sv_data : list char; sv_size : nat }.

(** The view of a [std::string] (or of a literal): [data()] is followed by a
    terminating NUL. *)
Definition sv_of_string (s : list char) : string_view :=
  {| sv_data := s ++ [NUL]; sv_size := length s |}.

Definition lit (s : string) : list char := String.list_ascii_of_string s.

(** [std::string(p, k)], the characters a view covers. *)
Definition sv_chars (v : string_view) : list char := take (sv_size v) (sv_data v).

(** ** Specification: the key of a string

    [cstr n p] is what an [n]-byte comparison sees of [p]: its characters before
    the first NUL, at most [n] of them.  [readable n p] says that such a
    comparison stays inside the object. *)

Fixpoint cstr (n : nat) (p : list char) : list char :=
  match n, p with
  | O, _ | _, [] => []
  | S n, c :: p => if decide (c = NUL) then [] else c :: cstr n p
  end.

Fixpoint readable (n : nat) (p : list char) : bool :=
  match n, p with
  | O, _ => true
  | S _, [] => false
  | S n, c :: p => if decide (c = NUL) then true else readable n p
  end.

(** The padded array that stores a key. *)
Definition pad (n : nat) (k : list char) : list char := k ++ replicate (n - length k) NUL.

Definition no_nul (s : list char) : Prop := Forall (λ c, c ≠ NUL) s.

#[export] Instance no_nul_dec s : Decision (no_nul s).
Proof. unfold no_nul. apply _. Defined.

(** ** Lemmas *)

Lemma readable_length n p : n ≤ length p → readable n p = true.
Proof.
  revert p. induction n as [|n IH]; intros [|c p] H; cbn in *; [done|done|lia|].
  destruct (decide (c = NUL)); [done|]. apply IH. lia.
Qed.

Lemma readable_string n s : readable n (s ++ [NUL]) = true.
Proof.
  revert n. induction s as [|c s IH]; intros [|n]; cbn; try done.
  destruct (decide (c = NUL)); auto.
Qed.

Lemma strnlen_spec n p : readable n p = true → strnlen p n = Ok (length (cstr n p)).
Proof.
  revert p. induction n as [|n IH]; intros [|c p] H; cbn in *; try done.
  destruct (decide (c = NUL)); [done|]. by rewrite IH.
Qed.

Lemma char_code_inj c d : char_code c = char_code d → c = d.
Proof.
  unfold char_code. intros H%N2Z.inj.
  rewrite <- (ascii_N_embedding c), <- (ascii_N_embedding d). by rewrite H.
Qed.

(** [strncmp] returns when both sides are readable, and returns 0 exactly on
    equal keys. *)
Lemma strncmp_spec n p q :
  readable n p = true → readable n q = true →
  ∃ z, strncmp p q n = Ok z ∧ (z = 0%Z ↔ cstr n p = cstr n q).
Proof.
  revert p q. induction n as [|n IH]; intros [|c p] [|d q] Hp Hq; cbn in *; try done.
  1-4: by eexists.
  destruct (decide (c = d)) as [->|Hne].
  - destruct (decide (d = NUL)); [by eexists|].
    destruct (IH p q Hp Hq) as (z & -> & Hz). exists z. split; [done|].
    rewrite Hz. split; congruence.
  - exists (char_code c - char_code d)%Z. split; [done|].
    assert (char_code c ≠ char_code d) by (intros ?%char_code_inj; done).
    repeat destruct (decide _); subst; split; intros; simplify_eq; lia.
Qed.

Lemma cstr_length n p : length (cstr n p) ≤ n.
Proof.
  revert p. induction n as [|n IH]; intros [|c p]; cbn; try lia.
  destruct (decide (c = NUL)); cbn; [lia|]. specialize (IH p). lia.
Qed.

Lemma cstr_no_nul n p : no_nul (cstr n p).
Proof.
  revert p. induction n as [|n IH]; intros [|c p]; cbn; try constructor.
  destruct (decide (c = NUL)); constructor; [done|apply IH].
Qed.

Lemma pad_cons n c k : pad (S n) (c :: k) = c :: pad n k.
Proof. done. Qed.

Lemma pad_nil n : pad n [] = replicate n NUL.
Proof. unfold pad. cbn. by rewrite Nat.sub_0_r. Qed.

(** [strncpy] stores the padded key of its source. *)
Lemma strncpy_spec n p : readable n p = true → strncpy p n = Ok (pad n (cstr n p)).
Proof.
  revert p. induction n as [|n IH]; intros [|c p] H; cbn in *; try done.
  destruct (decide (c = NUL)); [done|].
  rewrite IH by done. done.
Qed.

Lemma pad_length n k : length k ≤ n → length (pad n k) = n.
Proof. intros. unfold pad. rewrite length_app, length_replicate. lia. Qed.

(** Reading back a stored key gives the key. *)
Lemma cstr_pad n k : no_nul k → length k ≤ n → cstr n (pad n k) = k.
Proof.
  revert k. induction n as [|n IH]; intros [|c k] Hk Hl; cbn in *; try done; try lia.
  apply Forall_cons in Hk as [Hc Hk]. rewrite decide_False by done.
  fold (pad n k). rewrite IH; [done|done|lia].
Qed.

Lemma cstr_idemp n p : cstr n (pad n (cstr n p)) = cstr n p.
Proof. apply cstr_pad; [apply cstr_no_nul|apply cstr_length]. Qed.

(** The key of a NUL-free string is its first [n] characters. *)
Lemma cstr_string n s q : no_nul s → cstr n (s ++ NUL :: q) = take n s.
Proof.
  revert n. induction s as [|c s IH]; intros [|n] Hs; cbn; try done.
  apply Forall_cons in Hs as [Hc Hs]. rewrite decide_False by done. by rewrite IH.
Qed.

Lemma c_str_string s q : no_nul s → c_str (s ++ NUL :: q) = Ok s.
Proof.
  induction s as [|c s IH]; intros Hs; cbn; [done|].
  apply Forall_cons in Hs as [Hc Hs]. rewrite decide_False by done. by rewrite IH.
Qed.

(** Printing an array that holds no NUL reads past its end. *)
Lemma c_str_no_nul p : no_nul p → c_str p = UB.
Proof.
  induction 1 as [|c p Hc Hp IH]; cbn; [done|]. rewrite decide_False by done. by rewrite IH.
Qed.

Lemma c_str_pad n k : no_nul k → length k < n → c_str (pad n k) = Ok k.
Proof.
  intros Hk Hl. unfold pad. destruct (n - length k) as [|m] eqn:E; [lia|].
  cbn. by apply c_str_string.
Qed.

(** ** Keys of string views *)

(** The struct members of the program are all eight bytes wide. *)
Definition key (v : string_view) : list char := cstr 8 (sv_data v).
Definition sv_ok (v : string_view) : bool := readable 8 (sv_data v).

Lemma sv_ok_string s : sv_ok (sv_of_string s) = true.
Proof. apply readable_string. Qed.

Lemma key_string s : no_nul s → key (sv_of_string s) = take 8 s.
Proof. intros. unfold key. by apply cstr_string. Qed.

#[export] Hint Resolve readable_length readable_string sv_ok_string cstr_no_nul cstr_length
  : outcome.

(** ** The functions of [<cstring>] throw nothing *)

Lemma strnlen_no_throw p n : no_throw (strnlen p n).
Proof.
  revert p. induction n as [|n IH]; intros [|c p]; cbn; try done. case_match; [done|].
  apply no_throw_bind; [apply IH|done].
Qed.

Lemma strncmp_no_throw p q n : no_throw (strncmp p q n).
Proof.
  revert p q. induction n as [|n IH]; intros [|c p] [|d q]; cbn; try done.
  repeat case_match; done || apply IH.
Qed.

Lemma strncpy_no_throw p n : no_throw (strncpy p n).
Proof.
  revert p. induction n as [|n IH]; intros [|c p]; cbn; try done. case_match; [done|].
  apply no_throw_bind; [apply IH|done].
Qed.

Lemma c_str_no_throw p : no_throw (c_str p).
Proof.
  induction p as [|c p IH]; cbn; [done|]. case_match; [done|].
  apply no_throw_bind; [apply IH|done].
Qed.
