(* ===== verification/OrderEvent.v ===== *)
(** * [OrderEvent]: the 64-byte event record (include/OrderEvent.h)

    The record and its enums, its accessors and factories, and its memory image:
    the 64 little-endian bytes that the event log writes into the mapped file. *)

From S2P Require Import Prelude CString.

Local Open Scope Z_scope.

Definition PRICE_SCALE : Z := 1000000.

(** ** Enums

    An [enum class : uint8_t] holds any byte; the last constructor is a byte that
    names no enumerator, such as the 0 of a zero-initialised struct. *)

Inductive EventType : Type :=
  | NewOrder | PartialFill | FullFill | Cancel | Reject | Amend
  | EventType_raw (b : Z).

Inductive Side : Type :=
  | Buy | Sell
  | Side_raw (b : Z).

#[export] Instance EventType_eq_dec : EqDecision EventType.
Proof. solve_decision. Defined.
#[export] Instance Side_eq_dec : EqDecision Side.
Proof. solve_decision. Defined.

Definition EventType_byte (t : EventType) : Z :=
  match t with
  | NewOrder => 1 | PartialFill => 2 | FullFill => 3
  | Cancel => 4 | Reject => 5 | Amend => 6
  | EventType_raw b => b
  end.

Definition EventType_of_byte (b : Z) : EventType :=
  match b with
  | 1 => NewOrder | 2 => PartialFill | 3 => FullFill
  | 4 => Cancel | 5 => Reject | 6 => Amend
  | _ => EventType_raw b
  end.

Definition Side_byte (s : Side) : Z :=
  match s with Buy => 1 | Sell => 2 | Side_raw b => b end.

Definition Side_of_byte (b : Z) : Side :=
  match b with 1 => Buy | 2 => Sell | _ => Side_raw b end.

(** ** The record *)

Record OrderEvent : Type := {
  oe_sequence     : Z;          (* uint64_t *)
  oe_timestamp_ns : Z;          (* uint64_t *)
  oe_price        : Z;          (* int64_t, fixed-point *)
  oe_fill_price   : Z;          (* int64_t, fixed-point *)
  oe_qty          : Z;          (* int32_t *)
  oe_fill_qty     : Z;          (* int32_t *)
  oe_symbol       : list char;  (* char[8] *)
  oe_order_id     : list char;  (* char[8] *)
  oe_type         : EventType;
  oe_side         : Side;
  oe_pad          : list char;  (* uint8_t[6] *)
}.

(** [OrderEvent e{}] *)
Definition OrderEvent_zero : OrderEvent := {|
  oe_sequence := 0; oe_timestamp_ns := 0; oe_price := 0; oe_fill_price := 0;
  oe_qty := 0; oe_fill_qty := 0;
  oe_symbol := replicate 8 NUL; oe_order_id := replicate 8 NUL;
  oe_type := EventType_raw 0; oe_side := Side_raw 0; oe_pad := replicate 6 NUL;
|}.

(** The view of a [char[n]] member: [{member, strnlen(member, sizeof(member))}]. *)
Definition array_view (a : list char) : outcome string_view :=
  n ← strnlen a (length a); Ok {| sv_data := a; sv_size := n |}.

Definition symbol_view (e : OrderEvent) : outcome string_view := array_view (oe_symbol e).
Definition order_id_view (e : OrderEvent) : outcome string_view := array_view (oe_order_id e).

Definition is_fill (e : OrderEvent) : bool :=
  bool_decide (oe_type e = PartialFill) || bool_decide (oe_type e = FullFill).

Definition make_fill (sym : string_view) (side : Side) (fqty fprice : Z)
    (oid : string_view) (partial : bool) : outcome OrderEvent :=
  symbol ← strncpy (sv_data sym) 8;
  order_id ← strncpy (sv_data oid) 8;
  Ok {|
    oe_sequence := 0; oe_timestamp_ns := 0;
    oe_price := 0; oe_fill_price := fprice;
    oe_qty := fqty; oe_fill_qty := fqty;
    oe_symbol := symbol; oe_order_id := order_id;
    oe_type := if partial then PartialFill else FullFill;
    oe_side := side; oe_pad := replicate 6 NUL;
  |}.

Definition make_new_order (sym : string_view) (side : Side) (qty price_fp : Z)
    (oid : string_view) : outcome OrderEvent :=
  symbol ← strncpy (sv_data sym) 8;
  order_id ← strncpy (sv_data oid) 8;
  Ok {|
    oe_sequence := 0; oe_timestamp_ns := 0;
    oe_price := price_fp; oe_fill_price := 0;
    oe_qty := qty; oe_fill_qty := 0;
    oe_symbol := symbol; oe_order_id := order_id;
    oe_type := NewOrder;
    oe_side := side; oe_pad := replicate 6 NUL;
  |}.

(** ** Memory image *)

Definition byte_of (z : Z) : char := ascii_of_N (Z.to_N (z mod 256)).

Fixpoint le_bytes (n : nat) (z : Z) : list char :=
  match n with
  | O => []
  | S n => byte_of z :: le_bytes n (z / 256)
  end.

Fixpoint le_value (bs : list char) : Z :=
  match bs with
  | [] => 0
  | b :: bs => char_code b + 256 * le_value bs
  end.

(** Bytes [off .. off + n) of an image. *)
Definition slice (off n : nat) (bs : list char) : list char := take n (drop off bs).

Definition encode_event (e : OrderEvent) : list char :=
  le_bytes 8 (oe_sequence e) ++ le_bytes 8 (oe_timestamp_ns e) ++
  le_bytes 8 (oe_price e) ++ le_bytes 8 (oe_fill_price e) ++
  le_bytes 4 (oe_qty e) ++ le_bytes 4 (oe_fill_qty e) ++
  oe_symbol e ++ oe_order_id e ++
  le_bytes 1 (EventType_byte (oe_type e)) ++ le_bytes 1 (Side_byte (oe_side e)) ++
  oe_pad e.

Definition decode_event (bs : list char) : OrderEvent := {|
  oe_sequence     := le_value (slice 0 8 bs);
  oe_timestamp_ns := le_value (slice 8 8 bs);
  oe_price        := signed 64 (le_value (slice 16 8 bs));
  oe_fill_price   := signed 64 (le_value (slice 24 8 bs));
  oe_qty          := signed 32 (le_value (slice 32 4 bs));
  oe_fill_qty     := signed 32 (le_value (slice 36 4 bs));
  oe_symbol       := slice 40 8 bs;
  oe_order_id     := slice 48 8 bs;
  oe_type         := EventType_of_byte (le_value (slice 56 1 bs));
  oe_side         := Side_of_byte (le_value (slice 57 1 bs));
  oe_pad          := slice 58 6 bs;
|}.

(** ** Well-formed events: every field within its C++ type *)

Definition wf_event (e : OrderEvent) : bool :=
  in_u64 (oe_sequence e) && in_u64 (oe_timestamp_ns e) &&
  in_i64 (oe_price e) && in_i64 (oe_fill_price e) &&
  in_i32 (oe_qty e) && in_i32 (oe_fill_qty e) &&
  bool_decide (length (oe_symbol e) = 8%nat) &&
  bool_decide (length (oe_order_id e) = 8%nat) &&
  bool_decide (length (oe_pad e) = 6%nat) &&
  ((0 <=? EventType_byte (oe_type e)) && (EventType_byte (oe_type e) <? 256) &&
   bool_decide (EventType_of_byte (EventType_byte (oe_type e)) = oe_type e)) &&
  ((0 <=? Side_byte (oe_side e)) && (Side_byte (oe_side e) <? 256) &&
   bool_decide (Side_of_byte (Side_byte (oe_side e)) = oe_side e)).

(** ** Lemmas on the codec *)

Lemma char_code_bound c : 0 <= char_code c < 256.
Proof. unfold char_code. pose proof (N_ascii_bounded c). lia. Qed.

Lemma char_code_byte_of z : char_code (byte_of z) = z mod 256.
Proof.
  unfold char_code, byte_of. pose proof (Z.mod_pos_bound z 256 ltac:(lia)).
  rewrite N_ascii_embedding; lia.
Qed.

Lemma byte_of_char_code c b : byte_of (char_code c + 256 * b) = c.
Proof.
  apply char_code_inj. rewrite char_code_byte_of, Z.mul_comm, Z.mod_add by lia.
  apply Z.mod_small, char_code_bound.
Qed.

Lemma le_bytes_length n z : length (le_bytes n z) = n.
Proof. revert z. induction n; intros; cbn; auto. Qed.

Lemma le_value_bytes n z : le_value (le_bytes n z) = z mod 256 ^ Z.of_nat n.
Proof.
  revert z. induction n as [|n IH]; intros z; [by rewrite Z.mod_1_r|].
  cbn [le_bytes le_value]. rewrite IH, char_code_byte_of, Nat2Z.inj_succ, Z.pow_succ_r by lia.
  pose proof (Z.pow_pos_nonneg 256 (Z.of_nat n) ltac:(lia) ltac:(lia)).
  rewrite Z.rem_mul_r; lia.
Qed.

Lemma le_bytes_value bs : le_bytes (length bs) (le_value bs) = bs.
Proof.
  induction bs as [|b bs IH]; cbn [length le_bytes le_value]; [done|].
  rewrite byte_of_char_code. f_equal.
  rewrite Z.mul_comm, Z.div_add, Z.div_small by (try apply char_code_bound; lia). apply IH.
Qed.

Lemma le_value_bound bs : 0 <= le_value bs < 256 ^ Z.of_nat (length bs).
Proof.
  induction bs as [|b bs IH]; cbn [length le_value]; [lia|].
  rewrite Nat2Z.inj_succ, Z.pow_succ_r by lia. pose proof (char_code_bound b). lia.
Qed.

Lemma le_value_u64 z : in_u64 z = true → le_value (le_bytes 8 z) = z.
Proof. rewrite in_u64_spec, le_value_bytes. intros. by apply Z.mod_small. Qed.

Lemma le_value_i64 z : in_i64 z = true → signed 64 (le_value (le_bytes 8 z)) = z.
Proof.
  rewrite in_i64_spec, le_value_bytes. intros.
  change (256 ^ Z.of_nat 8) with (2 ^ 64). rewrite signed_mod by lia.
  apply signed_id; lia.
Qed.

Lemma le_value_i32 z : in_i32 z = true → signed 32 (le_value (le_bytes 4 z)) = z.
Proof.
  rewrite in_i32_spec, le_value_bytes. intros.
  change (256 ^ Z.of_nat 4) with (2 ^ 32). rewrite signed_mod by lia.
  apply signed_id; lia.
Qed.

Lemma le_value_u8 z : 0 <= z < 256 → le_value (le_bytes 1 z) = z.
Proof. rewrite le_value_bytes. intros. by apply Z.mod_small. Qed.

Lemma slice_here n bs tl : length bs = n → slice 0 n (bs ++ tl) = bs.
Proof. intros <-. unfold slice. rewrite drop_0. apply take_app_length. Qed.

Lemma slice_skip off n bs tl :
  (length bs ≤ off)%nat → slice off n (bs ++ tl) = slice (off - length bs) n tl.
Proof. intros H. unfold slice. by rewrite drop_app_ge. Qed.

Create HintDb wf.
#[export] Hint Resolve le_bytes_length le_value_u64 le_value_i64 le_value_i32 le_value_u8 : wf.

Ltac wf_split :=
  repeat match goal with
  | H : (_ && _) = true |- _ => apply andb_true_iff in H as [? H]
  | H : bool_decide _ = true |- _ => apply bool_decide_eq_true in H
  end.

Lemma wf_event_lengths e :
  wf_event e = true →
  length (oe_symbol e) = 8%nat ∧ length (oe_order_id e) = 8%nat ∧ length (oe_pad e) = 6%nat.
Proof.
  unfold wf_event. rewrite !andb_true_iff, !bool_decide_eq_true. naive_solver.
Qed.

Lemma encode_event_length e : wf_event e = true → length (encode_event e) = 64%nat.
Proof.
  intros (Hs & Ho & Hp)%wf_event_lengths. unfold encode_event.
  by rewrite !length_app, !le_bytes_length, Hs, Ho, Hp.
Qed.

Lemma slice_all n bs : length bs = n → slice 0 n bs = bs.
Proof. intros <-. unfold slice. rewrite drop_0. by rewrite take_ge. Qed.

(** Finds the field at an offset of a concatenation of fields of known length. *)
Ltac known_lengths :=
  repeat match goal with
  | |- context [length (le_bytes ?n ?z)] => rewrite (le_bytes_length n z)
  | H : length ?l = _ |- context [length ?l] => rewrite H
  end; cbn [Nat.sub].
Ltac slice_field :=
  repeat (rewrite slice_skip by (known_lengths; lia); known_lengths);
  first [rewrite slice_here by (known_lengths; done)
        |rewrite slice_all by (known_lengths; done)].

(** ** Round trip *)

Lemma decode_encode e : wf_event e = true → decode_event (encode_event e) = e.
Proof.
  intros Hwf. pose proof (wf_event_lengths e Hwf) as (Hs & Ho & Hp).
  unfold wf_event in Hwf. rewrite !andb_true_iff, !bool_decide_eq_true in Hwf.
  destruct Hwf as ((((((((((? & ?) & ?) & ?) & ?) & ?) & _) & _) & _) & Ht) & Hd).
  destruct Ht as ((?%Z.leb_le & ?%Z.ltb_lt) & Ht), Hd as ((?%Z.leb_le & ?%Z.ltb_lt) & Hd).
  unfold decode_event, encode_event.
  destruct e as [q t p fp n fn s o ty sd pd]; cbn -[slice le_bytes le_value] in *.
  f_equal; slice_field; rewrite ?le_value_i64, ?le_value_i32, ?le_value_u64, ?le_value_u8; auto; lia.
Qed.

Lemma le_bytes_cong n z z' :
  z mod 256 ^ Z.of_nat n = z' mod 256 ^ Z.of_nat n → le_bytes n z = le_bytes n z'.
Proof.
  rewrite <- !le_value_bytes. intros H.
  rewrite <- (le_bytes_value (le_bytes n z)), <- (le_bytes_value (le_bytes n z')).
  by rewrite H, !le_bytes_length.
Qed.

Lemma le_bytes_signed n z :
  (0 < n)%nat → le_bytes n (signed (8 * Z.of_nat n) z) = le_bytes n z.
Proof.
  intros Hn. apply le_bytes_cong. unfold signed.
  replace (2 ^ (8 * Z.of_nat n)) with (256 ^ Z.of_nat n) by (rewrite Z.pow_mul_r by lia; done).
  rewrite Zminus_mod_idemp_l. f_equal. lia.
Qed.

Lemma EventType_byte_of_byte b : EventType_byte (EventType_of_byte b) = b.
Proof. destruct b as [|[[[]|[]|]|[[]|[]|]|]|]; done. Qed.

Lemma Side_byte_of_byte b : Side_byte (Side_of_byte b) = b.
Proof. destruct b as [|[|[]|]|]; done. Qed.

Lemma le_bytes_slice off n bs :
  (off + n ≤ length bs)%nat → le_bytes n (le_value (slice off n bs)) = slice off n bs.
Proof.
  intros H. rewrite <- (le_bytes_value (slice off n bs)) at 2. f_equal.
  unfold slice. rewrite length_take, length_drop. lia.
Qed.

Lemma slice_drop off n bs : slice off n bs ++ drop (off + n) bs = drop off bs.
Proof. unfold slice. rewrite <- drop_drop. apply take_drop. Qed.

Lemma encode_decode bs : length bs = 64%nat → encode_event (decode_event bs) = bs.
Proof.
  intros Hl. unfold encode_event, decode_event. cbn -[slice le_bytes le_value].
  rewrite EventType_byte_of_byte, Side_byte_of_byte.
  rewrite !(le_bytes_signed 8), !(le_bytes_signed 4) by lia.
  rewrite !le_bytes_slice by (rewrite Hl; lia).
  replace (slice 58 6 bs) with (drop 58 bs)
    by (unfold slice; rewrite take_ge; [done|rewrite length_drop, Hl; lia]).
  rewrite !slice_drop. apply drop_0.
Qed.

(** The memory image of an event is faithful in both directions: decoding the
    64 bytes written for a well-formed event gives back the event, and every
    64-byte image is the image of the event decoded from it. *)
Theorem event_image_roundtrip e bs :
  wf_event e = true → length bs = 64%nat →
  length (encode_event e) = 64%nat ∧ decode_event (encode_event e) = e ∧
  encode_event (decode_event bs) = bs.
Proof. auto using encode_event_length, decode_encode, encode_decode. Qed.

Lemma event_image_roundtrip_witness :
  let e := {| oe_sequence := 7; oe_timestamp_ns := 18446744073709551615;
              oe_price := -175500000; oe_fill_price := 9223372036854775807;
              oe_qty := -2147483648; oe_fill_qty := 100;
              oe_symbol := pad 8 (lit "AAPL"); oe_order_id := pad 8 (lit "ORD12345");
              oe_type := PartialFill; oe_side := Sell; oe_pad := replicate 6 NUL |} in
  length (encode_event e) = 64%nat ∧ decode_event (encode_event e) = e ∧
  encode_event (decode_event (replicate 64 "A"%char)) = replicate 64 "A"%char.
Proof. apply event_image_roundtrip; vm_compute; reflexivity. Defined.

(** ** Factories *)

Lemma array_view_ok a :
  array_view a = Ok {| sv_data := a; sv_size := length (cstr (length a) a) |}.
Proof. unfold array_view. by rewrite strnlen_spec by (by apply readable_length). Qed.

Lemma key_array_view a v : length a = 8%nat → array_view a = Ok v → key v = cstr 8 a.
Proof. rewrite array_view_ok. intros _ [= <-]. done. Qed.

Lemma sv_ok_array_view a v : length a = 8%nat → array_view a = Ok v → sv_ok v = true.
Proof. rewrite array_view_ok. intros Ha [= <-]. apply readable_length. cbn. lia. Qed.

Lemma make_fill_ok sym side q p oid partial :
  sv_ok sym = true → sv_ok oid = true →
  make_fill sym side q p oid partial =
    Ok {| oe_sequence := 0; oe_timestamp_ns := 0; oe_price := 0; oe_fill_price := p;
          oe_qty := q; oe_fill_qty := q;
          oe_symbol := pad 8 (key sym); oe_order_id := pad 8 (key oid);
          oe_type := if partial then PartialFill else FullFill;
          oe_side := side; oe_pad := replicate 6 NUL |}.
Proof. intros Hs Ho. unfold make_fill. by rewrite !strncpy_spec. Qed.

Lemma make_new_order_ok sym side q p oid :
  sv_ok sym = true → sv_ok oid = true →
  make_new_order sym side q p oid =
    Ok {| oe_sequence := 0; oe_timestamp_ns := 0; oe_price := p; oe_fill_price := 0;
          oe_qty := q; oe_fill_qty := 0;
          oe_symbol := pad 8 (key sym); oe_order_id := pad 8 (key oid);
          oe_type := NewOrder;
          oe_side := side; oe_pad := replicate 6 NUL |}.
Proof. intros Hs Ho. unfold make_new_order. by rewrite !strncpy_spec. Qed.
