(* ===== verification/EventLog.v ===== *)
(** * [EventLog]: the append-only, memory-mapped event log (include/EventLog.h)

    The mapped file is modelled byte by byte; [append], [read], [replay] and
    [open_or_create] act on those bytes and on the counter [next_seq_].  The
    log's contract is the interface [LogOps]/[LogLaws]: a log stands for the list
    of the events appended so far.  The clients (the two trackers and the
    gateway) are verified against the interface; the byte-level log and the
    reference list are its two instances. *)

From S2P Require Import Prelude CString OrderEvent.

Local Open Scope Z_scope.

(** ** Constants *)

Definition LOG_MAGIC : Z := 0xBAADF00D1337CAFE.
Definition MAX_EVENTS : Z := 10000000.
Definition HEADER_SIZE : Z := 64.                   (* sizeof(LogHeader) *)
Definition EVENT_SIZE : Z := 64.                    (* sizeof(OrderEvent) *)
Definition FILE_SIZE : Z := HEADER_SIZE + MAX_EVENTS * EVENT_SIZE.

(** ** The mapped file

    A byte that was never written is 0: [ftruncate] extends a file with zeros.
    An access outside the file is undefined (SIGBUS or a wild access). *)

Record LogFile : Type := { lf_size : Z; lf_bytes : gmap Z char }.

Definition byte_at (m : gmap Z char) (k : Z) : char := default NUL (m !! k).

Fixpoint put_bytes (off : Z) (bs : list char) (m : gmap Z char) : gmap Z char :=
  match bs with
  | [] => m
  | b :: bs => <[off := b]> (put_bytes (off + 1) bs m)
  end.

Definition get_bytes (off : Z) (n : nat) (m : gmap Z char) : list char :=
  byte_at m <$> seqZ off (Z.of_nat n).

Definition in_file (f : LogFile) (off : Z) (n : nat) : bool :=
  (0 <=? off) && (off + Z.of_nat n <=? lf_size f).

Definition load_bytes (f : LogFile) (off : Z) (n : nat) : outcome (list char) :=
  if in_file f off n then Ok (get_bytes off n (lf_bytes f)) else UB.

Definition store_bytes (f : LogFile) (off : Z) (bs : list char) : outcome LogFile :=
  if in_file f off (length bs)
  then Ok {| lf_size := lf_size f; lf_bytes := put_bytes off bs (lf_bytes f) |}
  else UB.

Definition load_u64 (f : LogFile) (off : Z) : outcome Z := le_value <$> load_bytes f off 8.
Definition store_u64 (f : LogFile) (off z : Z) : outcome LogFile :=
  store_bytes f off (le_bytes 8 z).

(** Header fields: [magic] at byte 0, [next_sequence] at byte 8. *)
Definition OFF_MAGIC : Z := 0.
Definition OFF_NEXT_SEQUENCE : Z := 8.

(** [events_ + seq]. *)
Definition event_off (seq : Z) : Z := HEADER_SIZE + EVENT_SIZE * seq.

Definition load_event (f : LogFile) (seq : Z) : outcome OrderEvent :=
  decode_event <$> load_bytes f (event_off seq) 64.
Definition store_event (f : LogFile) (seq : Z) (e : OrderEvent) : outcome LogFile :=
  store_bytes f (event_off seq) (encode_event e).

(** ** The log object *)

Record EventLog : Type := { el_file : LogFile; el_next_seq : Z }.

(** What the system calls of [open_or_create] answered. *)
Record syscalls : Type := { sys_open : bool; sys_ftruncate : bool; sys_mmap : bool }.

(** The constructor on path [path], whose file is [fs] ([None]: no such file).
    The first component is the file afterwards, which a throwing constructor
    leaves behind too. *)
Definition open_or_create (sys : syscalls) (path : string) (fs : option LogFile) :
    option LogFile * outcome EventLog :=
  let exists_ := bool_decide (is_Some fs) in
  if negb (sys_open sys) then
    (fs, Throw (runtime_error ("EventLog: cannot open " +:+ path)))
  else
  let f := default {| lf_size := 0; lf_bytes := ∅ |} fs in
  if negb exists_ && negb (sys_ftruncate sys) then
    (Some f, Throw (runtime_error "EventLog: ftruncate failed"))
  else
  let f := if exists_ then f else {| lf_size := FILE_SIZE; lf_bytes := lf_bytes f |} in
  if negb (sys_mmap sys) then
    (Some f, Throw (runtime_error "EventLog: mmap failed"))
  else
  if negb exists_ then
    match (f ← store_u64 f OFF_MAGIC LOG_MAGIC; store_u64 f OFF_NEXT_SEQUENCE 0) with
    | Ok f => (Some f, Ok {| el_file := f; el_next_seq := 0 |})
    | _ => (Some f, UB)
    end
  else
    (Some f,
     magic ← load_u64 f OFF_MAGIC;
     if negb (magic =? LOG_MAGIC) then Throw (runtime_error "EventLog: corrupt file") else
     next ← load_u64 f OFF_NEXT_SEQUENCE;
     Ok {| el_file := f; el_next_seq := next |}).

(** [clock_gettime]'s answer, and [now_ns] on it. *)
Record timespec : Type := { tv_sec : Z; tv_nsec : Z }.

Definition now_ns (ts : timespec) : Z :=
  u64 (u64 (u64 (tv_sec ts) * 1000000000) + u64 (tv_nsec ts)).

(** [evt.sequence = seq; evt.timestamp_ns = now_ns();] *)
Definition stamp (e : OrderEvent) (seq ts : Z) : OrderEvent := {|
  oe_sequence := seq; oe_timestamp_ns := ts;
  oe_price := oe_price e; oe_fill_price := oe_fill_price e;
  oe_qty := oe_qty e; oe_fill_qty := oe_fill_qty e;
  oe_symbol := oe_symbol e; oe_order_id := oe_order_id e;
  oe_type := oe_type e; oe_side := oe_side e; oe_pad := oe_pad e;
|}.

Definition append (evt : OrderEvent) (ts : timespec) (l : EventLog) :
    outcome (Z * EventLog) :=
  let seq := el_next_seq l in
  if MAX_EVENTS <=? seq then Throw (overflow_error "EventLog full") else
  let evt := stamp evt seq (now_ns ts) in
  f ← store_event (el_file l) seq evt;
  let next := u64 (seq + 1) in
  f ← store_u64 f OFF_NEXT_SEQUENCE next;
  Ok (seq, {| el_file := f; el_next_seq := next |}).

(** [read]: the event pointed to, or the null pointer. *)
Definition read (seq : Z) (l : EventLog) : outcome (option OrderEvent) :=
  if el_next_seq l <=? seq then Ok None
  else Some <$> load_event (el_file l) seq.

(** The loop of [replay] from index [i] on, [n] iterations to go. *)
Fixpoint replay_loop {S} (fn : OrderEvent → S → outcome S) (f : LogFile)
    (i : Z) (n : nat) (s : S) : outcome S :=
  match n with
  | O => Ok s
  | Datatypes.S n =>
      e ← load_event f i;
      s ← fn e s;
      replay_loop fn f (i + 1) n s
  end.

Definition replay {S} (fn : OrderEvent → S → outcome S) (l : EventLog) (s : S) : outcome S :=
  replay_loop fn (el_file l) 0 (Z.to_nat (el_next_seq l)) s.

Definition el_size (l : EventLog) : Z := el_next_seq l.
Definition el_empty (l : EventLog) : bool := el_size l =? 0.

(** ** The contract of a log

    [log_rep l es]: the log [l] holds exactly the events [es], oldest first.  An
    event handed to [append] is recorded with the sequence number and the
    timestamp of the append. *)

Class LogOps (L : Type) : Type := {
  log_append : OrderEvent → timespec → L → outcome (Z * L);
  log_replay : ∀ S : Type, (OrderEvent → S → outcome S) → L → S → outcome S;
  log_size : L → Z;
  log_rep : L → list OrderEvent → Prop;
}.
Arguments log_replay {L _ S} fn l s : rename.

Class LogLaws (L : Type) `{LogOps L} : Prop := {
  log_rep_fun l es es' : log_rep l es → log_rep l es' → es = es';
  log_size_rep l es : log_rep l es → log_size l = Z.of_nat (length es);
  log_bound_rep l es : log_rep l es → Z.of_nat (length es) <= MAX_EVENTS;
  log_append_rep l es e ts :
    log_rep l es → wf_event e = true → Z.of_nat (length es) < MAX_EVENTS →
    ∃ l', log_append e ts l = Ok (Z.of_nat (length es), l') ∧
          log_rep l' (es ++ [stamp e (Z.of_nat (length es)) (now_ns ts)]);
  log_append_full l es e ts :
    log_rep l es → Z.of_nat (length es) = MAX_EVENTS →
    log_append e ts l = Throw (overflow_error "EventLog full");
  log_replay_rep {S : Type} l es (fn : OrderEvent → S → outcome S) s :
    log_rep l es → log_replay fn l s = foldO fn es s;
}.

(** ** Lemmas on the mapped file *)

Lemma byte_at_put off bs m k :
  byte_at (put_bytes off bs m) k =
    if (off <=? k) && (k <? off + Z.of_nat (length bs))
    then default NUL (bs !! Z.to_nat (k - off)) else byte_at m k.
Proof.
  revert off. induction bs as [|b bs IH]; intros off; cbn [put_bytes length].
  { destruct (Z.leb_spec off k), (Z.ltb_spec k (off + Z.of_nat 0)); cbn; auto; lia. }
  unfold byte_at in *. rewrite lookup_insert. case_decide as Hk.
  - subst. rewrite Z.sub_diag, Z.leb_refl. cbn.
    destruct (Z.ltb_spec k (k + Z.of_nat (S (length bs)))); [done|lia].
  - rewrite IH. destruct (Z.leb_spec off k), (Z.leb_spec (off + 1) k); try lia; cbn; [|done].
    destruct (Z.ltb_spec k (off + 1 + Z.of_nat (length bs))),
      (Z.ltb_spec k (off + Z.of_nat (S (length bs)))); try lia; [|done].
    by replace (Z.to_nat (k - off)) with (S (Z.to_nat (k - (off + 1)))) by lia.
Qed.

Lemma length_get_bytes off n m : length (get_bytes off n m) = n.
Proof. unfold get_bytes. rewrite length_fmap, length_seqZ. lia. Qed.

Lemma get_bytes_ext off n m m' :
  (∀ k, off <= k < off + Z.of_nat n → byte_at m k = byte_at m' k) →
  get_bytes off n m = get_bytes off n m'.
Proof.
  intros H. unfold get_bytes. apply list_fmap_ext. intros i k Hk.
  apply lookup_seqZ in Hk. apply H. lia.
Qed.

Lemma get_put_same off bs m n :
  n = length bs → get_bytes off n (put_bytes off bs m) = bs.
Proof.
  intros ->. apply list_eq. intros i. unfold get_bytes. rewrite list_lookup_fmap.
  destruct (decide (i < length bs)%nat) as [Hi|Hi].
  - rewrite lookup_seqZ_lt by lia. cbn. rewrite byte_at_put.
    destruct (Z.leb_spec off (off + Z.of_nat i)); [|lia].
    destruct (Z.ltb_spec (off + Z.of_nat i) (off + Z.of_nat (length bs))); [|lia]. cbn.
    replace (Z.to_nat (off + Z.of_nat i - off)) with i by lia.
    destruct (lookup_lt_is_Some_2 bs i) as [b ->]; done.
  - rewrite lookup_seqZ_ge by lia. symmetry. apply lookup_ge_None. lia.
Qed.

Lemma get_put_disjoint off n off' bs m :
  off + Z.of_nat n <= off' ∨ off' + Z.of_nat (length bs) <= off →
  get_bytes off n (put_bytes off' bs m) = get_bytes off n m.
Proof.
  intros H. apply get_bytes_ext. intros k Hk. rewrite byte_at_put.
  destruct (Z.leb_spec off' k), (Z.ltb_spec k (off' + Z.of_nat (length bs))); auto; lia.
Qed.

(** What a load sees of a store: the same range reads the stored bytes, a
    disjoint range is untouched, and a store changes neither the size nor which
    accesses are in the file. *)
Lemma store_bytes_ok f off bs :
  in_file f off (length bs) = true →
  store_bytes f off bs =
    Ok {| lf_size := lf_size f; lf_bytes := put_bytes off bs (lf_bytes f) |}.
Proof. unfold store_bytes. by intros ->. Qed.

Lemma load_store_same f off bs f' n :
  store_bytes f off bs = Ok f' → n = length bs → load_bytes f' off n = Ok bs.
Proof.
  unfold store_bytes, load_bytes. intros Hst ->. destruct (in_file _ _ _) eqn:E; [|done].
  injection Hst as <-. unfold in_file in *. cbn in *. rewrite E. by rewrite get_put_same.
Qed.

Lemma load_store_disjoint f off bs f' off' n :
  store_bytes f off bs = Ok f' →
  off' + Z.of_nat n <= off ∨ off + Z.of_nat (length bs) <= off' →
  load_bytes f' off' n = load_bytes f off' n.
Proof.
  unfold store_bytes, load_bytes. intros Hst Hd. destruct (in_file _ _ _) eqn:E; [|done].
  injection Hst as <-. unfold in_file in *. cbn in *. by rewrite get_put_disjoint.
Qed.

Lemma store_bytes_frame f off bs f' k :
  store_bytes f off bs = Ok f' → k < off ∨ off + Z.of_nat (length bs) <= k →
  byte_at (lf_bytes f') k = byte_at (lf_bytes f) k.
Proof.
  unfold store_bytes. intros Hst Hk. destruct (in_file _ _ _); [|done].
  injection Hst as <-. cbn [lf_bytes]. rewrite byte_at_put.
  destruct (Z.leb_spec off k), (Z.ltb_spec k (off + Z.of_nat (length bs))); auto; lia.
Qed.

Lemma store_bytes_size f off bs f' : store_bytes f off bs = Ok f' → lf_size f' = lf_size f.
Proof. unfold store_bytes. destruct (in_file _ _ _); [|done]. by intros [= <-]. Qed.

(** ** Representation invariant of the byte-level log *)

Record log_wf (l : EventLog) (es : list OrderEvent) : Prop := {
  lw_size : lf_size (el_file l) = FILE_SIZE;
  lw_magic : load_u64 (el_file l) OFF_MAGIC = Ok LOG_MAGIC;
  lw_header : load_u64 (el_file l) OFF_NEXT_SEQUENCE = Ok (el_next_seq l);
  lw_next : el_next_seq l = Z.of_nat (length es);
  lw_max : Z.of_nat (length es) <= MAX_EVENTS;
  lw_event i e : es !! i = Some e → load_event (el_file l) (Z.of_nat i) = Ok e;
  lw_seq i e : es !! i = Some e → wf_event e = true ∧ oe_sequence e = Z.of_nat i;
}.

Lemma u64_range z : in_u64 (u64 z) = true.
Proof. apply in_u64_spec. unfold u64, UINT64_MOD. apply Z.mod_pos_bound. lia. Qed.

Lemma wf_stamp e seq ts :
  wf_event e = true → in_u64 seq = true → in_u64 ts = true → wf_event (stamp e seq ts) = true.
Proof.
  intros Hwf Hs Ht. unfold wf_event, stamp in *.
  cbn [oe_sequence oe_timestamp_ns oe_price oe_fill_price oe_qty oe_fill_qty
       oe_symbol oe_order_id oe_type oe_side oe_pad].
  rewrite !andb_true_iff in *. rewrite Hs, Ht. tauto.
Qed.

Lemma load_u64_store_same f off z f' :
  store_u64 f off z = Ok f' → in_u64 z = true → load_u64 f' off = Ok z.
Proof.
  unfold store_u64, load_u64. intros Hst Hz.
  rewrite (load_store_same _ _ _ _ 8 Hst) by (by rewrite le_bytes_length). cbn -[le_bytes].
  by rewrite le_value_u64.
Qed.

Lemma load_u64_store_disjoint f off bs f' off' :
  store_bytes f off bs = Ok f' → off' + 8 <= off ∨ off + Z.of_nat (length bs) <= off' →
  load_u64 f' off' = load_u64 f off'.
Proof. intros Hst Hd. unfold load_u64. by rewrite (load_store_disjoint _ _ _ _ _ _ Hst). Qed.

Lemma load_event_store_disjoint f off bs f' i :
  store_bytes f off bs = Ok f' →
  event_off i + 64 <= off ∨ off + Z.of_nat (length bs) <= event_off i →
  load_event f' i = load_event f i.
Proof. intros Hst Hd. unfold load_event. by rewrite (load_store_disjoint _ _ _ _ _ _ Hst). Qed.

Lemma load_event_store_same f i e f' :
  store_event f i e = Ok f' → wf_event e = true → load_event f' i = Ok e.
Proof.
  unfold store_event, load_event. intros Hst Hwf.
  rewrite (load_store_same _ _ _ _ 64 Hst) by (by rewrite encode_event_length).
  cbn -[decode_event encode_event]. by rewrite decode_encode.
Qed.

(** Writes that stay in the mapping succeed. *)
Lemma store_event_ok f i e :
  lf_size f = FILE_SIZE → 0 <= i < MAX_EVENTS → wf_event e = true →
  ∃ f', store_event f i e = Ok f' ∧ lf_size f' = FILE_SIZE.
Proof.
  intros Hsz Hi Hwf. unfold store_event. rewrite store_bytes_ok; [eauto|].
  unfold in_file. rewrite encode_event_length, Hsz by done.
  apply andb_true_iff. rewrite !Z.leb_le.
  unfold event_off, FILE_SIZE, HEADER_SIZE, EVENT_SIZE in *. lia.
Qed.

Lemma store_u64_ok f off z :
  lf_size f = FILE_SIZE → 0 <= off <= 56 →
  ∃ f', store_u64 f off z = Ok f' ∧ lf_size f' = FILE_SIZE.
Proof.
  intros Hsz Hi. unfold store_u64. rewrite store_bytes_ok; [eauto|].
  unfold in_file. rewrite le_bytes_length, Hsz. apply andb_true_iff. rewrite !Z.leb_le.
  unfold FILE_SIZE, HEADER_SIZE, MAX_EVENTS, EVENT_SIZE. lia.
Qed.

Ltac log_offsets :=
  unfold event_off, HEADER_SIZE, EVENT_SIZE, OFF_MAGIC, OFF_NEXT_SEQUENCE, MAX_EVENTS in *;
  rewrite ?le_bytes_length; lia.

(** The two stores of an append, on a well-formed log with room. *)
Lemma append_wf l es e ts :
  log_wf l es → wf_event e = true → Z.of_nat (length es) < MAX_EVENTS →
  ∃ l', append e ts l = Ok (Z.of_nat (length es), l') ∧
        log_wf l' (es ++ [stamp e (Z.of_nat (length es)) (now_ns ts)]).
Proof.
  intros [Hsz Hm Hh Hn Hmax Hev Hsq] Hwf Hroom. set (n := Z.of_nat (length es)) in *.
  assert (Hwf' : wf_event (stamp e n (now_ns ts)) = true).
  { apply wf_stamp; [done| |apply u64_range]. apply in_u64_spec. unfold MAX_EVENTS in *. lia. }
  destruct (store_event_ok (el_file l) n _ Hsz ltac:(lia) Hwf') as (f1 & H1 & Hsz1).
  assert (Hu : u64 (n + 1) = n + 1).
  { apply u64_id, in_u64_spec. unfold MAX_EVENTS in *. lia. }
  destruct (store_u64_ok f1 OFF_NEXT_SEQUENCE (n + 1) Hsz1 ltac:(log_offsets)) as (f2 & H2 & Hsz2).
  exists {| el_file := f2; el_next_seq := n + 1 |}. split.
  { unfold append. rewrite Hn. destruct (Z.leb_spec MAX_EVENTS n); [lia|].
    rewrite H1. cbn. rewrite Hu, H2. done. }
  pose proof H1 as H1'. unfold store_event in H1'. unfold store_u64 in H2.
  split; cbn [el_file el_next_seq].
  - done.
  - rewrite (load_u64_store_disjoint _ _ _ _ _ H2) by log_offsets.
    rewrite (load_u64_store_disjoint _ _ _ _ _ H1'); [done|log_offsets].
  - apply (load_u64_store_same f1); [done|]. apply in_u64_spec. unfold MAX_EVENTS in *. lia.
  - rewrite length_app. cbn. lia.
  - rewrite length_app. cbn. lia.
  - intros i x Hi. rewrite (load_event_store_disjoint _ _ _ _ _ H2) by log_offsets.
    apply lookup_app_Some in Hi as [Hi|[Hge Hi]].
    + rewrite (load_event_store_disjoint _ _ _ _ _ H1'); [by apply Hev|].
      apply lookup_lt_Some in Hi. log_offsets.
    + apply list_lookup_singleton_Some in Hi as [Hi <-].
      replace (Z.of_nat i) with n by lia. by apply (load_event_store_same (el_file l)).
  - intros i x Hi. apply lookup_app_Some in Hi as [Hi|[Hge Hi]]; [by apply Hsq|].
    apply list_lookup_singleton_Some in Hi as [Hi <-]. split; [done|]. cbn. lia.
Qed.

Lemma append_full l es e ts :
  log_wf l es → Z.of_nat (length es) = MAX_EVENTS →
  append e ts l = Throw (overflow_error "EventLog full").
Proof. intros [? ? ? Hn ? ? ?] Hfull. unfold append. by rewrite Hn, Hfull. Qed.

Lemma read_wf l es seq :
  log_wf l es → 0 <= seq → read seq l = Ok (es !! Z.to_nat seq).
Proof.
  intros [? ? ? Hn ? Hev ?] Hs. unfold read. rewrite Hn.
  destruct (Z.leb_spec (Z.of_nat (length es)) seq).
  { f_equal. symmetry. apply lookup_ge_None. lia. }
  destruct (lookup_lt_is_Some_2 es (Z.to_nat seq)) as [e He]; [lia|].
  apply Hev in He as Hl. rewrite Z2Nat.id in Hl by done. by rewrite Hl, He.
Qed.

Lemma replay_loop_wf {S} l es (fn : OrderEvent → S → outcome S) i n s :
  log_wf l es → (i + n = length es)%nat →
  replay_loop fn (el_file l) (Z.of_nat i) n s = foldO fn (drop i es) s.
Proof.
  intros Hwf. revert i s. induction n as [|n IH]; intros i s Hin; cbn.
  { by rewrite drop_ge by lia. }
  destruct (lookup_lt_is_Some_2 es i) as [e He]; [lia|].
  rewrite (lw_event _ _ Hwf _ _ He), (drop_S _ _ _ He). cbn.
  apply bind_ext. intros s'. rewrite <- (IH (Datatypes.S i)) by lia. f_equal. lia.
Qed.

Lemma replay_wf {S} l es (fn : OrderEvent → S → outcome S) s :
  log_wf l es → replay fn l s = foldO fn es s.
Proof.
  intros Hwf. unfold replay. rewrite (lw_next _ _ Hwf), Nat2Z.id.
  by rewrite (replay_loop_wf l es fn 0).
Qed.

Lemma log_wf_fun l es es' : log_wf l es → log_wf l es' → es = es'.
Proof.
  intros H H'. assert (Hlen : length es = length es').
  { pose proof (lw_next _ _ H). pose proof (lw_next _ _ H'). lia. }
  apply (list_eq_same_length _ _ (length es)); [done|done|].
  intros i x y _ Hx%(lw_event _ _ H) Hy%(lw_event _ _ H'). congruence.
Qed.

(** ** The two instances of the interface *)

#[export] Instance EventLog_ops : LogOps EventLog := {
  log_append := append;
  log_replay := @replay;
  log_size := el_size;
  log_rep := log_wf;
}.

#[export] Instance EventLog_laws : LogLaws EventLog.
Proof.
  split; cbn.
  - apply log_wf_fun.
  - intros l es Hwf. apply (lw_next _ _ Hwf).
  - intros l es Hwf. apply (lw_max _ _ Hwf).
  - apply append_wf.
  - apply append_full.
  - intros S l es fn s. apply replay_wf.
Qed.

(** The reference log: the list of its events. *)
Definition ref_append (e : OrderEvent) (ts : timespec) (l : list OrderEvent) :
    outcome (Z * list OrderEvent) :=
  if MAX_EVENTS <=? Z.of_nat (length l) then Throw (overflow_error "EventLog full")
  else Ok (Z.of_nat (length l), l ++ [stamp e (Z.of_nat (length l)) (now_ns ts)]).

#[export] Instance ref_log_ops : LogOps (list OrderEvent) := {
  log_append := ref_append;
  log_replay := λ S fn l s, foldO fn l s;
  log_size := λ l, Z.of_nat (length l);
  log_rep := λ l es, l = es ∧ Z.of_nat (length es) <= MAX_EVENTS;
}.

#[export] Instance ref_log_laws : LogLaws (list OrderEvent).
Proof.
  split; cbn; unfold ref_append.
  - naive_solver.
  - by intros l es [-> ?].
  - by intros l es [-> ?].
  - intros l es e ts [-> ?] ? Hroom. rewrite (proj2 (Z.leb_gt _ _)) by done.
    eexists. split; [done|]. split; [done|]. rewrite length_app. cbn. lia.
  - intros l es e ts [-> ?] Hfull. by rewrite (proj2 (Z.leb_le _ _)) by lia.
  - by intros S l es fn s [-> ?].
Qed.

(** ** Opening *)

Definition sys_ok : syscalls := {| sys_open := true; sys_ftruncate := true; sys_mmap := true |}.

Lemma create_wf path :
  ∃ l, open_or_create sys_ok path None = (Some (el_file l), Ok l) ∧ log_wf l [].
Proof.
  set (f0 := {| lf_size := FILE_SIZE; lf_bytes := ∅ |}).
  destruct (store_u64_ok f0 OFF_MAGIC LOG_MAGIC) as (f1 & H1 & Hsz1); [done|log_offsets|].
  destruct (store_u64_ok f1 OFF_NEXT_SEQUENCE 0) as (f2 & H2 & Hsz2); [done|log_offsets|].
  exists {| el_file := f2; el_next_seq := 0 |}. split.
  { unfold open_or_create. cbn -[store_u64 FILE_SIZE]. fold f0. rewrite H1. cbn -[store_u64].
    by rewrite H2. }
  pose proof H2 as H2'. unfold store_u64 in H2'.
  split; cbn [el_file el_next_seq]; try done.
  - rewrite (load_u64_store_disjoint _ _ _ _ _ H2') by log_offsets.
    by apply (load_u64_store_same f0).
  - by apply (load_u64_store_same f1).
Qed.

Lemma reopen_wf path l es :
  log_wf l es → open_or_create sys_ok path (Some (el_file l)) = (Some (el_file l), Ok l).
Proof.
  intros Hwf. unfold open_or_create. cbn -[load_u64].
  rewrite (lw_magic _ _ Hwf). cbn -[load_u64]. rewrite (lw_header _ _ Hwf). by destruct l.
Qed.

(** ** A session of appends, over any log *)

Fixpoint stamped (seq : nat) (evs : list (OrderEvent * timespec)) : list OrderEvent :=
  match evs with
  | [] => []
  | (e, ts) :: evs => stamp e (Z.of_nat seq) (now_ns ts) :: stamped (S seq) evs
  end.

Section Session.
Context {L : Type} `{LogLaws L}.

Definition append_all (evs : list (OrderEvent * timespec)) (l : L) : outcome L :=
  foldO (λ x l, snd <$> log_append x.1 x.2 l) evs l.

Lemma append_all_rep evs l es :
  log_rep l es → Forall (λ x, wf_event x.1 = true) evs →
  Z.of_nat (length es + length evs) <= MAX_EVENTS →
  ∃ l', append_all evs l = Ok l' ∧ log_rep l' (es ++ stamped (length es) evs).
Proof.
  intros Hrep Hwf Hlen. revert l es Hrep Hlen.
  induction Hwf as [|[e ts] evs He Hwf IH]; intros l es Hrep Hlen; cbn in *.
  { exists l. by rewrite app_nil_r. }
  destruct (log_append_rep l es e ts Hrep He) as (l1 & Happ & Hrep1); [lia|].
  rewrite Happ. cbn. destruct (IH l1 _ Hrep1) as (l' & Hl' & Hrep').
  { rewrite length_app. cbn. lia. }
  exists l'. split; [done|]. rewrite length_app in Hrep'. cbn in Hrep'.
  rewrite <- app_assoc in Hrep'. cbn in Hrep'. by rewrite Nat.add_1_r in Hrep'.
Qed.
End Session.

(** ** Properties *)

(** A zeroed event with a symbol and an order id, for the examples. *)
Definition sample_event (t : EventType) (sym oid : string) (sd : Side) (q p : Z) : OrderEvent := {|
  oe_sequence := 0; oe_timestamp_ns := 0; oe_price := p; oe_fill_price := p;
  oe_qty := q; oe_fill_qty := q;
  oe_symbol := pad 8 (take 8 (lit sym)); oe_order_id := pad 8 (take 8 (lit oid));
  oe_type := t; oe_side := sd; oe_pad := replicate 6 NUL;
|}.
Definition sample_clock : timespec := {| tv_sec := 1700000000; tv_nsec := 5 |}.

(** C24. [append] implements the abstract log: on a log that holds [es] with room
    left it returns the next sequence number, and the log then holds [es] followed
    by the event stamped with that number; a full log throws and is unchanged;
    [read] and [size] see exactly [es]. *)
Theorem append_refines l es e ts :
  log_wf l es → wf_event e = true →
  el_size l = Z.of_nat (length es) ∧
  (∀ seq, 0 <= seq → read seq l = Ok (es !! Z.to_nat seq)) ∧
  (if decide (Z.of_nat (length es) < MAX_EVENTS)
   then ∃ l', append e ts l = Ok (Z.of_nat (length es), l') ∧
              log_wf l' (es ++ [stamp e (Z.of_nat (length es)) (now_ns ts)])
   else append e ts l = Throw (overflow_error "EventLog full")).
Proof.
  intros Hwf He. split; [apply (lw_next _ _ Hwf)|]. split; [intros; by apply read_wf|].
  case_decide; [by apply append_wf|].
  apply (append_full l es); [done|]. pose proof (lw_max _ _ Hwf). lia.
Qed.

Lemma append_refines_witness :
  ∃ l, open_or_create sys_ok "session.bin" None = (Some (el_file l), Ok l) ∧
       el_size l = 0 ∧ ∃ l', append (sample_event FullFill "AAPL" "O1" Buy 100 175000000)
                               sample_clock l = Ok (0, l').
Proof.
  destruct (create_wf "session.bin") as (l & Hopen & Hwf). exists l. split; [done|].
  destruct (append_refines l [] (sample_event FullFill "AAPL" "O1" Buy 100 175000000)
              sample_clock Hwf ltac:(vm_compute; reflexivity)) as (Hsz & _ & Happ).
  split; [exact Hsz|]. destruct Happ as (l' & Happ & _). exists l'. exact Happ.
Defined.

(** C23. Durability: a session that creates the log and appends any events the file
    has room for leaves a file that reopens to the same log, whose replay delivers
    exactly those events, in order, stamped with the gapless numbers 0, 1, 2, ... *)
Theorem reopen_replays_session path evs :
  Forall (λ x, wf_event x.1 = true) evs → Z.of_nat (length evs) <= MAX_EVENTS →
  ∃ l0 l, (open_or_create sys_ok path None).2 = Ok l0 ∧
    append_all evs l0 = Ok l ∧
    open_or_create sys_ok path (Some (el_file l)) = (Some (el_file l), Ok l) ∧
    (∀ S (fn : OrderEvent → S → outcome S) s, replay fn l s = foldO fn (stamped 0 evs) s).
Proof.
  intros Hwf Hlen. destruct (create_wf path) as (l0 & -> & H0).
  change (log_rep l0 []) in H0.
  destruct (append_all_rep evs l0 [] H0 Hwf Hlen) as (l & Hall & Hl).
  exists l0, l. split_and!; [done|done|by eapply reopen_wf|].
  intros S fn s. by apply replay_wf.
Qed.

Lemma reopen_replays_session_witness :
  let evs := [(sample_event NewOrder "TSLA" "O1" Sell 50 250000000, sample_clock);
              (sample_event FullFill "TSLA" "O1" Sell 50 250100000, sample_clock)] in
  ∃ l, replay (λ e s, Ok (s ++ [oe_sequence e])) l [] = Ok [0; 1].
Proof.
  intros evs. destruct (reopen_replays_session "session.bin" evs) as (l0 & l & _ & _ & _ & Hr).
  - unfold evs. repeat constructor.
  - vm_compute. discriminate.
  - exists l. rewrite Hr. reflexivity.
Defined.

(** Append-only: a successful append changes no byte of the file outside the
    new event's 64 bytes and the header's [next_sequence]. *)
Theorem append_frame e ts l seq l' k :
  append e ts l = Ok (seq, l') → wf_event e = true → in_u64 (el_next_seq l) = true →
  (k < OFF_NEXT_SEQUENCE ∨ OFF_NEXT_SEQUENCE + 8 <= k) →
  (k < event_off seq ∨ event_off seq + EVENT_SIZE <= k) →
  byte_at (lf_bytes (el_file l')) k = byte_at (lf_bytes (el_file l)) k.
Proof.
  unfold append. intros Happ Hwf Hseq Hh He.
  destruct (MAX_EVENTS <=? el_next_seq l); [done|].
  apply bind_Ok in Happ as (f1 & H1 & Happ). apply bind_Ok in Happ as (f2 & H2 & Happ).
  assert (seq = el_next_seq l ∧ el_file l' = f2) as [-> ->].
  { apply (f_equal (λ o, match o with Ok p => p | _ => (seq, l') end)) in Happ.
    by inversion Happ. }
  unfold store_u64 in H2. unfold store_event in H1.
  rewrite (store_bytes_frame _ _ _ _ _ H2), (store_bytes_frame _ _ _ _ _ H1); [done|..].
  - rewrite encode_event_length by (apply wf_stamp; [done|done|apply u64_range]). done.
  - by rewrite le_bytes_length.
Qed.

Lemma append_frame_witness :
  ∃ l seq l', append (sample_event Cancel "AAPL" "O9" Buy 0 0) sample_clock l = Ok (seq, l') ∧
    byte_at (lf_bytes (el_file l')) 0 = byte_at (lf_bytes (el_file l)) 0.
Proof.
  set (l := {| el_file := {| lf_size := FILE_SIZE; lf_bytes := {[ 0 := "Z"%char ]} |};
               el_next_seq := 3 |}).
  destruct (Ok_ex (append (sample_event Cancel "AAPL" "O9" Buy 0 0) sample_clock l))
    as [[seq l'] E]; [vm_compute; reflexivity|].
  exists l, seq, l'. split; [exact E|].
  assert (fst <$> Ok (seq, l') = Ok 3) as [= ->] by (rewrite <- E; vm_compute; reflexivity).
  apply (append_frame _ _ _ _ _ 0 E); [reflexivity|reflexivity|left; reflexivity|left; reflexivity].
Defined.

(** The windows of a crash while the file is being created.  After [open] the
    file is empty and reopening it faults; after [ftruncate] it is all zeros and
    every later start refuses it as corrupt; once [magic] is written it opens as
    the empty log. *)
Theorem creation_crash_windows path :
  let empty_file := {| lf_size := 0; lf_bytes := ∅ |} in
  let zero_file := {| lf_size := FILE_SIZE; lf_bytes := ∅ |} in
  (open_or_create sys_ok path (Some empty_file)).2 = UB ∧
  (open_or_create sys_ok path (Some zero_file)).2 =
    Throw (runtime_error "EventLog: corrupt file") ∧
  (∃ f, store_u64 zero_file OFF_MAGIC LOG_MAGIC = Ok f ∧
        (open_or_create sys_ok path (Some f)).2 = Ok {| el_file := f; el_next_seq := 0 |}).
Proof. split_and!; [vm_compute; reflexivity..|]. eexists. split; vm_compute; reflexivity. Qed.

(** [next_sequence] is not validated on reopening: a file with the right magic
    and a [next_sequence] above the capacity opens, every append to it throws, and
    reading the first event past the capacity leaves the mapping. *)
Theorem oversized_header_accepted path f n e ts :
  lf_size f = FILE_SIZE → load_u64 f OFF_MAGIC = Ok LOG_MAGIC →
  load_u64 f OFF_NEXT_SEQUENCE = Ok n → MAX_EVENTS < n →
  let l := {| el_file := f; el_next_seq := n |} in
  (open_or_create sys_ok path (Some f)).2 = Ok l ∧
  append e ts l = Throw (overflow_error "EventLog full") ∧
  read MAX_EVENTS l = UB.
Proof.
  intros Hsz Hm Hn Hbig l. split_and!.
  - unfold open_or_create. cbn -[load_u64]. rewrite Hm. cbn -[load_u64]. by rewrite Hn.
  - unfold append, l. cbn [el_next_seq]. destruct (Z.leb_spec MAX_EVENTS n); [done|lia].
  - unfold read, l, load_event, load_bytes, in_file. cbn [el_next_seq el_file]. rewrite Hsz.
    destruct (Z.leb_spec n MAX_EVENTS); [lia|]. reflexivity.
Qed.

Lemma oversized_header_accepted_witness :
  ∃ f, (open_or_create sys_ok "session.bin" (Some f)).2 =
         Ok {| el_file := f; el_next_seq := 10000001 |} ∧
       read MAX_EVENTS {| el_file := f; el_next_seq := 10000001 |} = UB.
Proof.
  set (f := {| lf_size := FILE_SIZE;
               lf_bytes := put_bytes 0 (le_bytes 8 LOG_MAGIC ++ le_bytes 8 10000001) ∅ |}).
  exists f.
  destruct (oversized_header_accepted "session.bin" f 10000001
              (sample_event Cancel "AAPL" "O9" Buy 0 0) sample_clock) as (Ho & _ & Hr);
    [reflexivity|vm_compute; reflexivity|vm_compute; reflexivity|reflexivity|].
  split; [exact Ho|exact Hr].
Defined.
