(* ===== verification/Handle.v ===== *)
(** * [Handle]: what a log holds of the system (include/EventLog.h)

    The constructor of [EventLog] acquires a file descriptor and a mapping, the
    destructor gives them back.  The file and the outcome of the constructor are those of
    [open_or_create]; here are the descriptors and mappings of the process around it. *)

From stdpp Require Import gmap.
From S2P Require Import Prelude CString OrderEvent EventLog.

Local Open Scope Z_scope.

(** The open descriptors and the mappings of the process. *)
Record resources : Type := { rs_fds : gset Z; rs_maps : gset Z }.

Definition open_fd (fd : Z) (r : resources) : resources :=
  {| rs_fds := {[fd]} ∪ rs_fds r; rs_maps := rs_maps r |}.
Definition map_base (base : Z) (r : resources) : resources :=
  {| rs_fds := rs_fds r; rs_maps := {[base]} ∪ rs_maps r |}.

(** The answers of the kernel: whether the calls succeed, and the descriptor and the
    address that [open] and [mmap] then return. *)
Record kernel : Type := { k_sys : syscalls; k_fd : Z; k_base : Z }.

(** The members [fd_] and [mmap_base_]; -1 and [MAP_FAILED] are [None]. *)
Record members : Type := { fd_ : option Z; mmap_base_ : option Z }.
Definition members_init : members := {| fd_ := None; mmap_base_ := None |}.

(** The system calls of [open_or_create], in their order, up to the one that fails. *)
Definition acquire (k : kernel) (exists_ : bool) (r : resources) : resources * members :=
  if negb (sys_open (k_sys k)) then (r, members_init) else
  let r := open_fd (k_fd k) r in
  let m := {| fd_ := Some (k_fd k); mmap_base_ := None |} in
  if negb exists_ && negb (sys_ftruncate (k_sys k)) then (r, m) else
  if negb (sys_mmap (k_sys k)) then (r, m) else
  (map_base (k_base k) r, {| fd_ := Some (k_fd k); mmap_base_ := Some (k_base k) |}).

(** [~EventLog]: [munmap] and [close] of what was acquired. *)
Definition destroy (m : members) (r : resources) : resources :=
  let r := match mmap_base_ m with
           | Some base => {| rs_fds := rs_fds r; rs_maps := rs_maps r ∖ {[base]} |}
           | None => r
           end in
  match fd_ m with
  | Some fd => {| rs_fds := rs_fds r ∖ {[fd]}; rs_maps := rs_maps r |}
  | None => r
  end.

(** The life of a log in a scope: the destructor runs when the constructor has returned,
    and does not when the constructor throws. *)
Definition log_scope (k : kernel) (path : string) (fs : option LogFile) (r : resources) :
    resources * outcome EventLog :=
  let opened := (open_or_create (k_sys k) path fs).2 in
  let '(r, m) := acquire k (bool_decide (is_Some fs)) r in
  (match opened with Ok _ => destroy m r | _ => r end, opened).

(** A kernel hands out what is not in use. *)
Definition fresh_for (k : kernel) (r : resources) : Prop :=
  k_fd k ∉ rs_fds r ∧ k_base k ∉ rs_maps r.

Lemma resources_eq r r' : rs_fds r = rs_fds r' → rs_maps r = rs_maps r' → r = r'.
Proof. destruct r, r'. cbn. by intros -> ->. Qed.

(** A log that was opened leaves nothing behind. *)
Theorem opened_log_releases k path fs r l :
  fresh_for k r → (log_scope k path fs r).2 = Ok l → (log_scope k path fs r).1 = r.
Proof.
  intros [Hfd Hbase]. unfold log_scope, acquire, open_or_create.
  destruct (sys_open (k_sys k)); cbn [negb]; [|done].
  destruct (negb _ && negb _) eqn:Htr; [done|].
  destruct (sys_mmap (k_sys k)); cbn [negb]; [|done].
  match goal with |- context [match ?o with Ok _ => _ | _ => _ end] => set (opened := o) end.
  destruct opened as [l'| | |]; [|done..]. intros _. apply resources_eq; cbn; set_solver.
Qed.

(** A constructor that throws after [open] leaves the descriptor open, and the mapping
    too when the file is corrupt: the destructor does not run. *)
Theorem failed_log_leaks k path fs r what :
  (log_scope k path fs r).2 = Throw (runtime_error what) →
  let r' := (log_scope k path fs r).1 in
  what = "EventLog: cannot open " +:+ path ∧ r' = r ∨
  (what = "EventLog: ftruncate failed" ∨ what = "EventLog: mmap failed") ∧ r' = open_fd (k_fd k) r ∨
  what = "EventLog: corrupt file" ∧ r' = map_base (k_base k) (open_fd (k_fd k) r).
Proof.
  unfold log_scope, acquire, open_or_create.
  destruct (sys_open (k_sys k)); cbn [negb snd fst]; [|intros [= <-]; by left].
  destruct (bool_decide (is_Some fs)) eqn:Hfs; cbn [negb andb].
  - destruct (sys_mmap (k_sys k)); cbn [negb snd fst]; [|intros [= <-]; right; left; auto].
    set (f := default _ fs). unfold load_u64, load_bytes.
    destruct (in_file f OFF_MAGIC 8); [|done]. cbn [fmap outcome_fmap mbind outcome_bind].
    destruct (_ =? LOG_MAGIC); cbn [negb].
    + destruct (in_file f OFF_NEXT_SEQUENCE 8); done.
    + intros [= <-]. right. right. done.
  - destruct (sys_ftruncate (k_sys k)); cbn [negb snd fst]; [|intros [= <-]; right; left; auto].
    destruct (sys_mmap (k_sys k)); cbn [negb snd fst]; [|intros [= <-]; right; left; auto].
    by destruct (f ← _; _).
Qed.

Lemma failed_log_leaks_witness :
  let k := {| k_sys := sys_ok; k_fd := 3; k_base := 4096 |} in
  let none := {| rs_fds := ∅; rs_maps := ∅ |} in
  let zeros := {| lf_size := FILE_SIZE; lf_bytes := ∅ |} in
  rs_fds (log_scope k "session.bin" (Some zeros) none).1 = {[3]}.
Proof.
  intros k none zeros.
  destruct (failed_log_leaks k "session.bin" (Some zeros) none "EventLog: corrupt file")
    as [[Hw _]|[[[Hw|Hw] _]|[_ Hr]]]; [vm_compute; reflexivity|done..|].
  rewrite Hr. reflexivity.
Defined.
