(* ===== verification/Concurrency.v ===== *)
(** * [Concurrency]: the log under readers, crashes and a second writer

    [EventLog::append] as the machine performs it, one memory write at a time: the 64
    bytes of the event in any order, then the release store of [next_seq_], then the
    count in the header.  Readers and a crash may come between any two writes.  The
    release/acquire pairs of the code order the event before the count, so that
    interleavings of these writes are the executions to consider; the mapping is
    shared with the page cache, which survives the process. *)

From stdpp Require Import relations.
From S2P Require Import Prelude CString OrderEvent EventLog.

Local Open Scope Z_scope.

(** ** Threads inside [append] *)

Inductive append_pc : Type :=
  | Idle                                              (* not in append *)
  | Writing (seq : Z) (e : OrderEvent) (todo : list nat)  (* bytes of events_[seq] not yet written *)
  | Published (seq : Z).                              (* next_seq_ stored, header not yet *)

Record log_machine : Type := {
  cs_file : LogFile;          (* the mapping *)
  cs_next : Z;                (* next_seq_ *)
  cs_pcs : list append_pc;    (* one per writing thread *)
  cs_returned : list Z;       (* what the finished appends returned, oldest first *)
}.

Inductive append_action : Type :=
  | A_start (e : OrderEvent) (ts : timespec)
  | A_byte (k : nat)
  | A_publish
  | A_header.

(** One write of thread [t]; [None] when the thread is not there. *)
Definition append_step (t : nat) (a : append_action) (s : log_machine) : option log_machine :=
  match cs_pcs s !! t, a with
  | Some Idle, A_start e ts =>
      let seq := cs_next s in
      if MAX_EVENTS <=? seq then None else
      Some {| cs_file := cs_file s; cs_next := seq;
              cs_pcs := <[t := Writing seq (stamp e seq (now_ns ts)) (List.seq 0 64)]> (cs_pcs s);
              cs_returned := cs_returned s |}
  | Some (Writing seq e todo), A_byte k =>
      if bool_decide (k ∈ todo) then
        match store_bytes (cs_file s) (event_off seq + Z.of_nat k)
                [nth k (encode_event e) NUL] with
        | Ok f => Some {| cs_file := f; cs_next := cs_next s;
                          cs_pcs := <[t := Writing seq e (base.filter (λ j, j ≠ k) todo)]> (cs_pcs s);
                          cs_returned := cs_returned s |}
        | _ => None
        end
      else None
  | Some (Writing seq e []), A_publish =>
      Some {| cs_file := cs_file s; cs_next := u64 (seq + 1);
              cs_pcs := <[t := Published seq]> (cs_pcs s); cs_returned := cs_returned s |}
  | Some (Published seq), A_header =>
      match store_u64 (cs_file s) OFF_NEXT_SEQUENCE (u64 (seq + 1)) with
      | Ok f => Some {| cs_file := f; cs_next := cs_next s;
                        cs_pcs := <[t := Idle]> (cs_pcs s);
                        cs_returned := cs_returned s ++ [seq] |}
      | _ => None
      end
  | _, _ => None
  end.

(** The log object [l] with one writing thread outside [append]. *)
Definition machine_of (threads : nat) (l : EventLog) : log_machine := {|
  cs_file := el_file l; cs_next := el_next_seq l;
  cs_pcs := replicate threads Idle; cs_returned := [];
|}.

(** The argument of [append] is an object of its type. *)
Definition action_ok (a : append_action) : Prop :=
  match a with A_start e _ => wf_event e = true | _ => True end.

(** The documented use: a single writer. *)
Definition single_writer (s s' : log_machine) : Prop :=
  ∃ a, action_ok a ∧ append_step 0 a s = Some s'.

(** A schedule of several threads. *)
Fixpoint run_schedule (sched : list (nat * append_action)) (s : log_machine) : option log_machine :=
  match sched with
  | [] => Some s
  | (t, a) :: sched => s' ← append_step t a s; run_schedule sched s'
  end.

(** The file has [n] recorded events and the first of the slots hold [es]. *)
Record holds (f : LogFile) (n : Z) (es : list OrderEvent) : Prop := {
  h_size : lf_size f = FILE_SIZE;
  h_magic : load_u64 f OFF_MAGIC = Ok LOG_MAGIC;
  h_header : load_u64 f OFF_NEXT_SEQUENCE = Ok n;
  h_max : Z.of_nat (length es) <= MAX_EVENTS;
  h_event i e : es !! i = Some e → load_event f (Z.of_nat i) = Ok e;
  h_seq i e : es !! i = Some e → wf_event e = true ∧ oe_sequence e = Z.of_nat i;
}.

(** The single writer's state between two writes; [es] is what readers see. *)
Definition machine_inv (es : list OrderEvent) (s : log_machine) : Prop :=
  ∃ pc, cs_pcs s = [pc] ∧ cs_next s = Z.of_nat (length es) ∧
  match pc with
  | Idle => holds (cs_file s) (Z.of_nat (length es)) es
  | Writing seq e todo =>
      holds (cs_file s) (Z.of_nat (length es)) es ∧
      seq = Z.of_nat (length es) ∧ seq < MAX_EVENTS ∧
      wf_event e = true ∧ oe_sequence e = seq ∧
      ∀ k, (k < 64)%nat → k ∉ todo →
        byte_at (lf_bytes (cs_file s)) (event_off seq + Z.of_nat k) = nth k (encode_event e) NUL
  | Published seq =>
      0 <= seq ∧ seq + 1 = Z.of_nat (length es) ∧ holds (cs_file s) seq es
  end.

(** The events an append that has returned has recorded. *)
Definition recorded (es : list OrderEvent) (s : log_machine) : list OrderEvent :=
  match cs_pcs s with
  | [Published seq] => take (Z.to_nat seq) es
  | _ => es
  end.

(** ** Lemmas *)

Lemma holds_wf f n es :
  holds f n es → n = Z.of_nat (length es) → log_wf {| el_file := f; el_next_seq := n |} es.
Proof. intros [Hs Hm Hh Hx He Hq] ->. by split. Qed.

Lemma wf_holds l es : log_wf l es → holds (el_file l) (Z.of_nat (length es)) es.
Proof.
  intros Hwf. pose proof (lw_next _ _ Hwf) as Hn. destruct Hwf as [Hs Hm Hh _ Hx He Hq].
  rewrite Hn in Hh. by split.
Qed.

(** The events before [n] of a file with more. *)
Lemma holds_take f n es :
  holds f n es → 0 <= n <= Z.of_nat (length es) → holds f n (take (Z.to_nat n) es).
Proof.
  intros [Hs Hm Hh Hx He Hq] Hn. split; try done.
  - rewrite length_take. lia.
  - intros i e Hi%lookup_take_Some. apply He, Hi.
  - intros i e Hi%lookup_take_Some. apply Hq, Hi.
Qed.

(** A write outside the header and the held slots. *)
Lemma holds_store f n es off bs f' :
  holds f n es → store_bytes f off bs = Ok f' → event_off (Z.of_nat (length es)) <= off →
  holds f' n es.
Proof.
  intros [Hs Hm Hh Hx He Hq] Hst Hoff. split; try done.
  - by rewrite (store_bytes_size _ _ _ _ Hst).
  - rewrite (load_u64_store_disjoint _ _ _ _ _ Hst); [done|]. log_offsets.
  - rewrite (load_u64_store_disjoint _ _ _ _ _ Hst); [done|]. log_offsets.
  - intros i e Hi. rewrite (load_event_store_disjoint _ _ _ _ _ Hst); [by apply He|].
    apply lookup_lt_Some in Hi. log_offsets.
Qed.

Lemma get_bytes_nth bs : ∀ off (m : gmap Z char),
  (∀ k, (k < length bs)%nat → byte_at m (off + Z.of_nat k) = nth k bs NUL) →
  get_bytes off (length bs) m = bs.
Proof.
  intros off m Hk. apply (list_eq_same_length _ _ (length bs)); [done|apply length_get_bytes|].
  intros i x y Hi Hx Hy. unfold get_bytes in Hx.
  rewrite list_lookup_fmap in Hx. apply fmap_Some in Hx as (j & Hj & ->).
  apply lookup_seqZ in Hj as [-> _]. rewrite Hk by done.
  by apply nth_lookup_Some.
Qed.

(** When no byte is left to write, the slot holds the event. *)
Lemma written_event f seq e :
  lf_size f = FILE_SIZE → 0 <= seq < MAX_EVENTS → wf_event e = true →
  (∀ k, (k < 64)%nat → byte_at (lf_bytes f) (event_off seq + Z.of_nat k)
                       = nth k (encode_event e) NUL) →
  load_event f seq = Ok e.
Proof.
  intros Hs Hq He Hk. unfold load_event, load_bytes.
  assert (in_file f (event_off seq) 64 = true) as ->.
  { unfold in_file. rewrite Hs. apply andb_true_iff. rewrite !Z.leb_le.
    unfold event_off, FILE_SIZE, HEADER_SIZE, EVENT_SIZE. lia. }
  cbn [fmap outcome_fmap mbind outcome_bind]. f_equal.
  pose proof (encode_event_length e He) as Hlen. rewrite <- Hlen at 1.
  rewrite get_bytes_nth; [by apply decode_encode|]. rewrite Hlen. exact Hk.
Qed.

(** One more event below the count that is to come. *)
Lemma holds_snoc f n es x :
  holds f n es → load_event f (Z.of_nat (length es)) = Ok x → wf_event x = true →
  oe_sequence x = Z.of_nat (length es) → Z.of_nat (length es) < MAX_EVENTS → holds f n (es ++ [x]).
Proof.
  intros [Hs Hm Hd Hx Hev Hq] Hld Hwf Hsx Hroom. split; try done.
  - rewrite length_app. cbn. lia.
  - intros i e Hi. apply lookup_app_Some in Hi as [Hi|[Hge Hi]]; [by apply Hev|].
    apply list_lookup_singleton_Some in Hi as [Hi <-]. by replace i with (length es) by lia.
  - intros i e Hi. apply lookup_app_Some in Hi as [Hi|[Hge Hi]]; [by apply Hq|].
    apply list_lookup_singleton_Some in Hi as [Hi <-]. split; [done|]. lia.
Qed.

(** ** The invariant, write by write *)

Lemma start_inv es s s' e ts :
  cs_pcs s = [Idle] → machine_inv es s → wf_event e = true →
  append_step 0 (A_start e ts) s = Some s' → machine_inv es s'.
Proof.
  intros Hpcs (pc & Hpc & Hnext & Hh) He Hstep. rewrite Hpcs in Hpc. injection Hpc as <-.
  unfold append_step in Hstep. rewrite Hpcs in Hstep. cbn in Hstep.
  destruct (Z.leb_spec MAX_EVENTS (cs_next s)) as [?|Hroom]; [done|]. injection Hstep as <-.
  exists (Writing (cs_next s) (stamp e (cs_next s) (now_ns ts)) (List.seq 0 64)).
  cbn [cs_pcs cs_next cs_file]. split_and!; try done.
  - apply wf_stamp; [done| |apply u64_range]. apply in_u64_spec. unfold MAX_EVENTS in *. lia.
  - intros k Hk Hn. exfalso. apply Hn, elem_of_seq. lia.
Qed.

Lemma byte_inv es s s' seq e todo k :
  cs_pcs s = [Writing seq e todo] → machine_inv es s →
  append_step 0 (A_byte k) s = Some s' → machine_inv es s'.
Proof.
  intros Hpcs (pc & Hpc & Hnext & Hh) Hstep. rewrite Hpcs in Hpc. injection Hpc as <-.
  destruct Hh as (Hh & Hseq & Hmax & He & Hes & Hbytes).
  unfold append_step in Hstep. rewrite Hpcs in Hstep. cbn in Hstep.
  assert (Hst : ∃ f, store_bytes (cs_file s) (event_off seq + Z.of_nat k)
    [nth k (encode_event e) NUL] = Ok f ∧ s' = {| cs_file := f; cs_next := cs_next s;
      cs_pcs := [Writing seq e (base.filter (λ j, j ≠ k) todo)];
      cs_returned := cs_returned s |}).
  { destruct todo; (destruct (bool_decide _); [|done]);
      (destruct (store_bytes _ _ _) as [f| | |]; try done; injection Hstep as <-; by exists f). }
  destruct Hst as (f & Hst & ->).
  exists (Writing seq e (base.filter (λ j, j ≠ k) todo)). cbn [cs_pcs cs_next cs_file].
  split_and!; try done.
  - eapply holds_store; [done|done|]. subst seq. lia.
  - intros j Hj Hn. unfold store_bytes in Hst. destruct (in_file _ _ _); [|done].
    injection Hst as <-. cbn [lf_bytes put_bytes]. unfold byte_at.
    destruct (decide (j = k)) as [-> |Hne]; [by rewrite lookup_insert_eq|].
    rewrite lookup_insert_ne by lia. apply Hbytes; [done|].
    intros Hin. by apply Hn, list_elem_of_filter.
Qed.

(** The publishing store makes one more event visible. *)
Lemma publish_inv es s s' seq e :
  cs_pcs s = [Writing seq e []] → machine_inv es s →
  append_step 0 A_publish s = Some s' → machine_inv (es ++ [e]) s'.
Proof.
  intros Hpcs (pc & Hpc & Hnext & Hh) Hstep. rewrite Hpcs in Hpc. injection Hpc as <-.
  destruct Hh as (Hh & Hseq & Hmax & He & Hes & Hbytes).
  unfold append_step in Hstep. rewrite Hpcs in Hstep. cbn in Hstep. injection Hstep as <-.
  exists (Published seq). cbn [cs_pcs cs_next cs_file]. rewrite length_app. cbn [length].
  split_and!; [done|rewrite u64_id; [lia|apply in_u64_spec; unfold MAX_EVENTS in *; lia]|lia|lia|].
  rewrite Hseq. apply holds_snoc; [done| |done|by rewrite Hes|lia]. rewrite <- Hseq.
  apply written_event; [apply (h_size _ _ _ Hh)|lia|done|]. intros k Hk. apply Hbytes; [done|]. apply not_elem_of_nil.
Qed.

Lemma header_inv es s s' seq :
  cs_pcs s = [Published seq] → machine_inv es s →
  append_step 0 A_header s = Some s' →
  machine_inv es s' ∧ cs_returned s' = cs_returned s ++ [seq].
Proof.
  intros Hpcs (pc & Hpc & Hnext & Hh) Hstep. rewrite Hpcs in Hpc. injection Hpc as <-.
  destruct Hh as (Hpos & Hseq & Hh). unfold append_step in Hstep. rewrite Hpcs in Hstep. cbn in Hstep.
  destruct (store_u64_ok (cs_file s) OFF_NEXT_SEQUENCE (u64 (seq + 1)) (h_size _ _ _ Hh)
    ltac:(log_offsets)) as (f & Hst & Hs). rewrite Hst in Hstep. injection Hstep as <-.
  split; [|done]. exists Idle. cbn [cs_pcs cs_next cs_file]. split_and!; [done..|].
  destruct Hh as [_ Hm Hd Hx Hev Hq].
  assert (Hu : u64 (seq + 1) = seq + 1)
    by (apply u64_id, in_u64_spec; unfold MAX_EVENTS in *; lia).
  rewrite Hu in Hst. pose proof Hst as Hst'. unfold store_u64 in Hst'. split; try done.
  - rewrite (load_u64_store_disjoint _ _ _ _ _ Hst') by log_offsets. done.
  - rewrite <- Hseq. apply (load_u64_store_same (cs_file s)); [done|].
    apply in_u64_spec. unfold MAX_EVENTS in *. lia.
  - intros i e Hi. rewrite (load_event_store_disjoint _ _ _ _ _ Hst') by log_offsets.
    by apply Hev.
Qed.

(** Appends that have stored their event but not returned: none or one. *)
Definition in_flight (s : log_machine) : nat :=
  match cs_pcs s with [Published _] => 1 | _ => 0 end.

(** [es] is visible in [s], a continuation of [es0] by the appends that returned and
    the one in flight. *)
Record reached (es0 es : list OrderEvent) (s : log_machine) : Prop := {
  re_prefix : es0 `prefix_of` es;
  re_inv : machine_inv es s;
  re_length : length es = (length es0 + length (cs_returned s) + in_flight s)%nat;
}.

Lemma append_step_kind s s' a :
  append_step 0 a s = Some s' → ∀ pc, cs_pcs s = [pc] →
  match pc, a with
  | Idle, A_start _ _ | Writing _ _ [], A_publish | Published _, A_header => True
  | Writing _ _ _, A_byte _ => True
  | _, _ => False
  end.
Proof.
  unfold append_step. intros Hstep pc Hpc. rewrite Hpc in Hstep. cbn in Hstep.
  destruct pc as [|seq e [|k todo]|seq], a; done.
Qed.

(** The writes of an append other than the publishing one keep the visible events. *)
Lemma reached_step es0 es s s' :
  reached es0 es s → single_writer s s' → ∃ es', es `prefix_of` es' ∧ reached es0 es' s'.
Proof.
  intros [Hpre Hinv Hlen] (a & Hok & Hstep). pose proof Hinv as (pc & Hpcs & _).
  pose proof (append_step_kind s s' a Hstep pc Hpcs) as Hkind.
  unfold in_flight in Hlen. rewrite Hpcs in Hlen.
  destruct pc as [|seq e todo|seq].
  - destruct a as [e ts| | |]; try done. exists es. split; [done|].
    pose proof (start_inv es s s' e ts Hpcs Hinv Hok Hstep) as Hinv'. split; [done|done|].
    unfold append_step in Hstep. rewrite Hpcs in Hstep. cbn in Hstep.
    destruct (_ <=? _); [done|]. by injection Hstep as <-.
  - destruct a as [|k| |]; try (by destruct todo).
    + exists es. split; [done|]. pose proof (byte_inv es s s' seq e todo k Hpcs Hinv Hstep) as Hinv'.
      split; [done|done|]. unfold append_step in Hstep. rewrite Hpcs in Hstep. cbn in Hstep.
      destruct todo; (destruct (bool_decide _); [|done]);
        (destruct (store_bytes _ _ _) as [f| | |]; try done; by injection Hstep as <-).
    + destruct todo; [|done]. exists (es ++ [e]). split; [by apply prefix_app_r|].
      pose proof (publish_inv es s s' seq e Hpcs Hinv Hstep) as Hinv'.
      split; [by apply prefix_app_r|done|]. unfold append_step in Hstep. rewrite Hpcs in Hstep.
      cbn in Hstep. injection Hstep as <-. unfold in_flight. cbn [cs_pcs cs_returned].
      rewrite length_app. cbn. lia.
  - destruct a; try done. exists es. split; [done|].
    destruct (header_inv es s s' seq Hpcs Hinv Hstep) as [Hinv' Hret]. split; [done|done|].
    rewrite Hret, length_app. cbn [length].
    assert (in_flight s' = 0%nat) as ->; [|lia].
    unfold append_step in Hstep. rewrite Hpcs in Hstep. cbn in Hstep.
    destruct (store_u64 _ _ _) as [f| | |]; try done. by injection Hstep as <-.
Qed.

Lemma reached_steps es0 es s s' :
  reached es0 es s → rtc single_writer s s' → ∃ es', es `prefix_of` es' ∧ reached es0 es' s'.
Proof.
  intros Hr Hsteps. revert es Hr. induction Hsteps as [s|s1 s2 s3 Hstep _ IH]; intros es Hr.
  { by exists es. }
  destruct (reached_step es0 es s1 s2 Hr Hstep) as (es1 & Hp1 & Hr1).
  destruct (IH es1 Hr1) as (es2 & Hp2 & Hr2). exists es2. split; [by etrans|done].
Qed.

Lemma reached_start l es : log_wf l es → reached es es (machine_of 1 l).
Proof.
  intros Hwf. split; [done| |cbn; lia]. exists Idle. split; [done|].
  split; [apply (lw_next _ _ Hwf)|]. by apply wf_holds.
Qed.

(** What readers see can be read. *)
Lemma machine_inv_read es s i e :
  machine_inv es s → es !! i = Some e → load_event (cs_file s) (Z.of_nat i) = Ok e.
Proof.
  intros (pc & _ & _ & Hpc) Hi. destruct pc.
  - by apply (h_event _ _ _ Hpc).
  - destruct Hpc as (Hh & _). by apply (h_event _ _ _ Hh).
  - destruct Hpc as (_ & _ & Hh). by apply (h_event _ _ _ Hh).
Qed.

(** The header counts the appends that returned. *)
Lemma machine_inv_header es s :
  machine_inv es s → (in_flight s ≤ length es)%nat ∧
  holds (cs_file s) (Z.of_nat (length es - in_flight s)) es.
Proof.
  intros (pc & Hpcs & _ & Hpc). unfold in_flight. rewrite Hpcs. destruct pc as [|seq e todo|seq].
  - split; [lia|]. by rewrite Nat.sub_0_r.
  - split; [lia|]. rewrite Nat.sub_0_r. by destruct Hpc.
  - destruct Hpc as (Hpos & Hseq & Hh). split; [lia|].
    by replace (Z.of_nat (length es - 1)) with seq by lia.
Qed.

(** The schedule of the examples: one whole append of thread [t]. *)
Definition append_schedule (t : nat) (e : OrderEvent) (ts : timespec) : list (nat * append_action) :=
  [(t, A_start e ts)] ++ ((λ k, (t, A_byte k)) <$> List.seq 0 64) ++ [(t, A_publish); (t, A_header)].

Lemma run_schedule_single sched s s' :
  Forall (λ x, x.1 = 0%nat ∧ action_ok x.2) sched → run_schedule sched s = Some s' →
  rtc single_writer s s'.
Proof.
  intros Hs. revert s. induction Hs as [|[t a] sched [Ht Ha] Hs IH]; intros s Hrun; cbn in Hrun.
  { injection Hrun as ->. apply rtc_refl. }
  cbn in Ht. subst t. destruct (append_step 0 a s) as [s1|] eqn:Hstep; [|done].
  eapply rtc_l; [exists a; split; [exact Ha|exact Hstep]|]. by apply IH.
Qed.

(** The examples: a new log, one append returned and a second one torn after 40 bytes. *)
Definition example_schedule : list (nat * append_action) :=
  append_schedule 0 (sample_event NewOrder "AAPL" "ORD0" Buy 100 175500000) sample_clock ++
  take 41 (append_schedule 0 (sample_event FullFill "AAPL" "ORD0" Buy 100 175500000) sample_clock).

Lemma example_run l s :
  run_schedule example_schedule (machine_of 1 l) = Some s → rtc single_writer (machine_of 1 l) s.
Proof.
  apply run_schedule_single. unfold example_schedule.
  apply Forall_app. split; [|apply Forall_take].
  all: apply Forall_app; split; [by repeat constructor|].
  all: apply Forall_app; split; [by apply Forall_fmap, Forall_true|by repeat constructor].
Qed.

(** ** Properties *)

(** C26. Readers need no lock against the single writer: whatever [next_seq_] a reader
    loads between two writes of the writer, every event below it is complete, and
    stays readable and unchanged at every later moment; the events that were in the
    log at the start are its beginning. *)
Theorem readers_see_complete_events l es0 s1 s2 :
  log_wf l es0 → rtc single_writer (machine_of 1 l) s1 → rtc single_writer s1 s2 →
  ∃ es, es0 `prefix_of` es ∧ cs_next s1 = Z.of_nat (length es) ∧
    ∀ i e, es !! i = Some e → load_event (cs_file s2) (Z.of_nat i) = Ok e.
Proof.
  intros Hwf H1 H2.
  destruct (reached_steps es0 es0 _ s1 (reached_start l es0 Hwf) H1) as (es & Hp & Hr1).
  destruct (reached_steps es0 es s1 s2 Hr1 H2) as (es2 & Hp2 & Hr2).
  exists es. split; [done|]. destruct (re_inv _ _ _ Hr1) as (pc & _ & Hn & _). split; [done|].
  intros i e Hi. apply (machine_inv_read es2); [apply Hr2|]. by eapply prefix_lookup_Some.
Qed.

Lemma readers_see_complete_events_witness :
  ∃ l s es, rtc single_writer (machine_of 1 l) s ∧ cs_next s = 1 ∧ length es = 1%nat ∧
    (∀ i e, es !! i = Some e → load_event (cs_file s) (Z.of_nat i) = Ok e).
Proof.
  destruct (create_wf "session.bin") as (l & Hopen & Hwf).
  assert (Hrun : (λ s, cs_next s) <$> (l ← match (open_or_create sys_ok "session.bin" None).2 with
      Ok l => Some l | _ => None end; run_schedule example_schedule (machine_of 1 l)) = Some 1)
    by (vm_compute; reflexivity).
  rewrite Hopen in Hrun. cbn [snd mbind option_bind] in Hrun.
  apply fmap_Some in Hrun as (s & Hrun & Hnext). apply example_run in Hrun.
  destruct (readers_see_complete_events l [] s s Hwf Hrun (rtc_refl _ _)) as (es & _ & Hlen & Hes).
  exists l, s, es. split; [exact Hrun|]. split; [by symmetry|]. split; [lia|exact Hes].
Defined.

(** The file at any write, reopened. *)
Lemma crash_reopens path l es0 s :
  log_wf l es0 → rtc single_writer (machine_of 1 l) s →
  ∃ es l', open_or_create sys_ok path (Some (cs_file s)) = (Some (cs_file s), Ok l') ∧
    el_file l' = cs_file s ∧ log_wf l' es ∧ es0 `prefix_of` es ∧
    length es = (length es0 + length (cs_returned s))%nat.
Proof.
  intros Hwf Hsteps.
  destruct (reached_steps es0 es0 _ s (reached_start l es0 Hwf) Hsteps) as (es & _ & Hr).
  destruct Hr as [Hp Hinv Hlen]. destruct (machine_inv_header es s Hinv) as [Hle Hh].
  remember (length es - in_flight s)%nat as n eqn:Hdef.
  apply holds_take in Hh; [|lia]. rewrite Nat2Z.id in Hh.
  assert (Hn : length (take n es) = n) by (rewrite length_take; lia).
  pose proof (holds_wf _ _ _ Hh ltac:(lia)) as Hwf'.
  eexists (take n es), _. split; [apply (reopen_wf path _ _ Hwf')|]. split; [done|]. split; [done|].
  split; [|lia]. destruct Hp as [k ->]. rewrite take_app_ge by lia. by apply prefix_app_r.
Qed.

(** C8. A crash loses no append that returned: at whatever write the process stops,
    reopening the file succeeds and the log then holds the events from before followed
    by exactly one event for each append that returned; at most the append in flight
    is missing, and no torn event is visible. *)
Theorem crash_recovers_returned_appends path l es0 s :
  log_wf l es0 → rtc single_writer (machine_of 1 l) s →
  ∃ es l', open_or_create sys_ok path (Some (cs_file s)) = (Some (cs_file s), Ok l') ∧
    log_wf l' es ∧ es0 `prefix_of` es ∧
    length es = (length es0 + length (cs_returned s))%nat.
Proof.
  intros Hwf Hsteps.
  destruct (crash_reopens path l es0 s Hwf Hsteps) as (es & l' & ? & _ & ? & ? & ?). by exists es, l'.
Qed.

Lemma crash_recovers_returned_appends_witness :
  ∃ l s es l', rtc single_writer (machine_of 1 l) s ∧
    open_or_create sys_ok "session.bin" (Some (cs_file s)) = (Some (cs_file s), Ok l') ∧
    log_wf l' es ∧ length es = 1%nat.
Proof.
  destruct (create_wf "session.bin") as (l & Hopen & Hwf).
  assert (Hrun : (λ s, length (cs_returned s)) <$> (l ← match (open_or_create sys_ok "session.bin" None).2 with
      Ok l => Some l | _ => None end; run_schedule example_schedule (machine_of 1 l)) = Some 1%nat)
    by (vm_compute; reflexivity).
  rewrite Hopen in Hrun. cbn [snd mbind option_bind] in Hrun.
  apply fmap_Some in Hrun as (s & Hrun & Hret). apply example_run in Hrun.
  destruct (crash_recovers_returned_appends "session.bin" l [] s Hwf Hrun)
    as (es & l' & Hre & Hwf' & _ & Hlen).
  exists l, s, es, l'. split; [exact Hrun|]. split; [exact Hre|]. split; [exact Hwf'|].
  rewrite Hlen, <- Hret. reflexivity.
Defined.

(** ** Two writers *)

(** Two appends that overlap: both threads load [next_seq_] before either stores it. *)
Definition overlapped (e1 e2 : OrderEvent) (ts1 ts2 : timespec) : list (nat * append_action) :=
  let bytes t := (λ k, (t, A_byte k)) <$> List.seq 0 64 in
  [(0%nat, A_start e1 ts1); (1%nat, A_start e2 ts2)] ++ bytes 0%nat ++ bytes 1%nat ++
  [(0%nat, A_publish); (1%nat, A_publish); (0%nat, A_header); (1%nat, A_header)].

Lemma run_schedule_app sched sched' s :
  run_schedule (sched ++ sched') s = s' ← run_schedule sched s; run_schedule sched' s'.
Proof.
  revert s. induction sched as [|[t a] sched IH]; intros s; [done|].
  cbn. destruct (append_step t a s); [apply IH|done].
Qed.

(** One byte of the event of thread [t]. *)
Lemma byte_written t n es seq e k todo s :
  cs_pcs s !! t = Some (Writing seq e todo) → k ∈ todo → (k < 64)%nat →
  holds (cs_file s) n es → Z.of_nat (length es) <= seq < MAX_EVENTS →
  ∃ f, append_step t (A_byte k) s
         = Some {| cs_file := f; cs_next := cs_next s;
                   cs_pcs := <[t := Writing seq e (base.filter (λ j, j ≠ k) todo)]> (cs_pcs s);
                   cs_returned := cs_returned s |} ∧
    holds f n es ∧ byte_at (lf_bytes f) (event_off seq + Z.of_nat k) = nth k (encode_event e) NUL ∧
    ∀ z, z ≠ event_off seq + Z.of_nat k → byte_at (lf_bytes f) z = byte_at (lf_bytes (cs_file s)) z.
Proof.
  intros Hpc Hin Hk Hh Hseq.
  assert (Hfile : in_file (cs_file s) (event_off seq + Z.of_nat k) 1 = true).
  { unfold in_file. rewrite (h_size _ _ _ Hh). apply andb_true_iff. rewrite !Z.leb_le.
    unfold event_off, FILE_SIZE, HEADER_SIZE, EVENT_SIZE. lia. }
  pose proof (store_bytes_ok (cs_file s) (event_off seq + Z.of_nat k) [nth k (encode_event e) NUL] Hfile) as Hst.
  eexists. split; [|split; [|split]].
  - unfold append_step. rewrite Hpc, bool_decide_true, Hst by done. by destruct todo.
  - eapply holds_store; [done|exact Hst|]. unfold event_off, EVENT_SIZE. lia.
  - cbn. unfold byte_at. by rewrite lookup_insert_eq.
  - intros z Hz. apply (store_bytes_frame _ _ _ _ _ Hst). cbn [length]. lia.
Qed.

(** All its bytes, in order. *)
Lemma run_bytes t n es seq e m : ∀ k s,
  (k + m = 64)%nat → cs_pcs s !! t = Some (Writing seq e (List.seq k m)) →
  holds (cs_file s) n es → Z.of_nat (length es) <= seq < MAX_EVENTS →
  (∀ j, (j < k)%nat → byte_at (lf_bytes (cs_file s)) (event_off seq + Z.of_nat j)
                      = nth j (encode_event e) NUL) →
  ∃ f, run_schedule ((λ j, (t, A_byte j)) <$> List.seq k m) s
         = Some {| cs_file := f; cs_next := cs_next s;
                   cs_pcs := <[t := Writing seq e []]> (cs_pcs s); cs_returned := cs_returned s |} ∧
    holds f n es ∧
    ∀ j, (j < 64)%nat → byte_at (lf_bytes f) (event_off seq + Z.of_nat j) = nth j (encode_event e) NUL.
Proof.
  induction m as [|m IH]; intros k s Hk Hpc Hh Hseq Hdone.
  { exists (cs_file s). cbn. rewrite list_insert_id by done. replace k with 64%nat in Hdone by lia.
    by destruct s. }
  destruct (byte_written t n es seq e k (k :: List.seq (S k) m) s Hpc) as (f & Hstep & Hf & Hbk & Hbz);
    [by left|lia|done|done|].
  cbn [List.seq fmap list_fmap run_schedule]. rewrite Hstep. cbn [mbind option_bind].
  rewrite filter_cons_False, filter_all by (try tauto; apply Forall_forall; intros j Hj%elem_of_seq; lia).
  pose proof (lookup_lt_Some _ _ _ Hpc) as Hlt.
  match goal with |- context [run_schedule _ ?x] => destruct (IH (S k) x) as (f' & Hrun & Hf' & Hb) end;
    [lia|by apply list_lookup_insert_eq|done|done| |].
  { intros j Hj. cbn [cs_file]. destruct (decide (j = k)) as [-> |Hne]; [done|].
    rewrite Hbz by lia. apply Hdone. lia. }
  exists f'. split; [|done]. rewrite Hrun. cbn [cs_next cs_pcs cs_returned].
  by rewrite list_insert_insert_eq.
Qed.

(** The header's count of thread [t]. *)
Lemma header_written t n es seq s :
  cs_pcs s !! t = Some (Published seq) → holds (cs_file s) n es → 0 <= seq < MAX_EVENTS →
  ∃ f, append_step t A_header s
         = Some {| cs_file := f; cs_next := cs_next s; cs_pcs := <[t := Idle]> (cs_pcs s);
                   cs_returned := cs_returned s ++ [seq] |} ∧
    holds f (seq + 1) es.
Proof.
  intros Hpc [Hs Hm Hd Hx Hev Hq] Hseq.
  destruct (store_u64_ok (cs_file s) OFF_NEXT_SEQUENCE (u64 (seq + 1)) Hs ltac:(log_offsets))
    as (f & Hst & Hsz).
  exists f. split; [unfold append_step; by rewrite Hpc, Hst|].
  rewrite u64_id in Hst by (apply in_u64_spec; unfold MAX_EVENTS in *; lia).
  pose proof Hst as Hst'. unfold store_u64 in Hst'. split; try done.
  - by rewrite (load_u64_store_disjoint _ _ _ _ _ Hst') by log_offsets.
  - apply (load_u64_store_same (cs_file s)); [done|]. apply in_u64_spec. unfold MAX_EVENTS in *. lia.
  - intros i e Hi. rewrite (load_event_store_disjoint _ _ _ _ _ Hst') by log_offsets. by apply Hev.
Qed.

(** The single-writer rule is necessary: when two threads append at the same time, on
    any log with room, both can be given the same slot; both appends return its
    number, the count grows by one, and the log then holds only one of the events. *)
Lemma two_writers_lose_an_event l es e1 e2 ts1 ts2 :
  let n := Z.of_nat (length es) in
  log_wf l es → wf_event e1 = true → wf_event e2 = true → n < MAX_EVENTS →
  ∃ s, run_schedule (overlapped e1 e2 ts1 ts2) (machine_of 2 l) = Some s ∧
    cs_returned s = [n; n] ∧
    log_wf {| el_file := cs_file s; el_next_seq := cs_next s |} (es ++ [stamp e2 n (now_ns ts2)]).
Proof.
  intros n Hwf H1 H2 Hroom. pose proof (wf_holds l es Hwf) as Hh0. fold n in Hh0.
  assert (Hn : el_next_seq l = n) by exact (lw_next _ _ Hwf).
  set (x1 := stamp e1 n (now_ns ts1)). set (x2 := stamp e2 n (now_ns ts2)).
  assert (Hx2 : wf_event x2 = true).
  { apply wf_stamp; [done| |apply u64_range]. apply in_u64_spec. unfold MAX_EVENTS in *. lia. }
  unfold overlapped. rewrite run_schedule_app.
  assert (run_schedule [(0%nat, A_start e1 ts1); (1%nat, A_start e2 ts2)] (machine_of 2 l)
    = Some {| cs_file := el_file l; cs_next := n; cs_returned := [];
              cs_pcs := [Writing n x1 (List.seq 0 64); Writing n x2 (List.seq 0 64)] |}) as ->.
  { cbn -[List.seq]. rewrite Hn. assert (Hle : (MAX_EVENTS <=? n) = false) by (apply Z.leb_gt; lia).
    rewrite Hle. cbn -[List.seq]. rewrite Hle. done. }
  cbn [mbind option_bind].
  rewrite run_schedule_app.
  match goal with |- context [run_schedule _ ?x ≫= _] =>
    destruct (run_bytes 0 n es n x1 64 0 x) as (f1 & -> & Hh1 & _); [done..|lia|lia|] end.
  cbn [mbind option_bind cs_file cs_next cs_pcs cs_returned].
  rewrite run_schedule_app.
  match goal with |- context [run_schedule _ ?x ≫= _] =>
    destruct (run_bytes 1 n es n x2 64 0 x) as (f2 & -> & Hh2 & Hb2); [done..|lia|lia|] end.
  apply (holds_snoc f2 n es x2) in Hh2; [|by apply written_event; [apply Hh2|lia|..]|done|done|done].
  cbn [mbind option_bind cs_file cs_next cs_pcs cs_returned].
  assert (Hu : u64 (n + 1) = n + 1) by (apply u64_id, in_u64_spec; unfold MAX_EVENTS in *; lia).
  match goal with |- context [run_schedule _ ?x] =>
    change (run_schedule _ x) with (run_schedule [(0%nat, A_header); (1%nat, A_header)]
      {| cs_file := f2; cs_next := u64 (n + 1); cs_pcs := [Published n; Published n]; cs_returned := [] |}) end.
  rewrite Hu. cbn [run_schedule].
  match goal with |- context [append_step 0 _ ?x] =>
    destruct (header_written 0 n (es ++ [x2]) n x) as (f3 & -> & Hh3); [done..|lia|] end.
  cbn [mbind option_bind cs_file cs_next cs_pcs cs_returned].
  match goal with |- context [append_step 1 _ ?x] =>
    destruct (header_written 1 (n + 1) (es ++ [x2]) n x) as (f4 & -> & Hh4); [done..|lia|] end.
  eexists. split; [done|]. split; [done|]. cbn [cs_file cs_next].
  apply holds_wf; [done|]. rewrite length_app. cbn [length]. lia.
Qed.
