(* ===== verification/SlotTable.v ===== *)
(** * The flat slot arrays of the trackers

    [PositionTracker] and [OrderManager] keep their records in a fixed array
    [slots_] with a fill count [count_] and share, line for line, the search and
    allocation code ([find], [get], [get_or_create]).  The code is modelled once,
    over the interface [Slot] that a record type provides, and refined to a finite
    map from keys to records. *)

From S2P Require Import Prelude CString.

(** What a record type promises: its [char[8]] key member, the record that
    [memset] and the copy of a key produce, and the capacity of its array. *)
Class Slot (A : Type) : Type := {
  slot_id : A → list char;
  slot_fresh : list char → A;
  slot_max : nat;
}.
Class SlotLaws (A : Type) `{Slot A} : Prop := {
  slot_id_fresh k : slot_id (slot_fresh k) = k;
}.

Record table (A : Type) : Type := { slots_ : list A; count_ : nat }.
Arguments slots_ {A} t : rename.
Arguments count_ {A} t : rename.

Section Table.
Context {A : Type} `{Slot A}.

(** ** The code *)

(** [memset(slots_.data(), 0, ...); count_ = 0] *)
Definition table_init : table A :=
  {| slots_ := replicate slot_max (slot_fresh (replicate 8 NUL)); count_ := 0 |}.

(** The search loop, from index [i] with [n] slots left. *)
Fixpoint find_loop (ss : list A) (p : list char) (i n : nat) : outcome (option nat) :=
  match n with
  | O => Ok None
  | S n =>
      match ss !! i with
      | None => UB
      | Some s =>
          c ← strncmp (slot_id s) p 8;
          if (c =? 0)%Z then Ok (Some i) else find_loop ss p (S i) n
      end
  end.

(** A pointer into [slots_] is the index of its slot; null is [None]. *)
Definition find (v : string_view) (t : table A) : outcome (option nat) :=
  find_loop (slots_ t) (sv_data v) 0 (count_ t).

Definition get_or_create (v : string_view) (t : table A) : outcome (option nat * table A) :=
  p ← find v t;
  match p with
  | Some i => Ok (Some i, t)
  | None =>
      if decide (slot_max ≤ count_ t) then Ok (None, t) else
      k ← strncpy (sv_data v) 8;
      Ok (Some (count_ t),
          {| slots_ := <[count_ t := slot_fresh k]> (slots_ t); count_ := S (count_ t) |})
  end.

(** The record a pointer returned by [get] points to. *)
Definition deref (p : option nat) (t : table A) : option A := i ← p; slots_ t !! i.
Definition get (v : string_view) (t : table A) : outcome (option A) :=
  p ← find v t; Ok (deref p t).

(** The null check of a found pointer, [if (!p) return;], and the writes through it. *)
Definition on_slot (body : A → outcome A) (p : option nat) (t : table A) : outcome (table A) :=
  match p with
  | None => Ok t
  | Some i =>
      match slots_ t !! i with
      | None => UB
      | Some s =>
          s' ← body s;
          Ok {| slots_ := <[i := s']> (slots_ t); count_ := count_ t |}
      end
  end.

(** The slots that a [for_each] visits, in order. *)
Definition live (t : table A) : list A := take (count_ t) (slots_ t).

(** ** The specification: a finite map *)

Definition slot_key (s : A) : list char := cstr 8 (slot_id s).

Definition table_map (t : table A) : gmap (list char) A :=
  list_to_map ((λ s, (slot_key s, s)) <$> live t).

Record table_wf (t : table A) : Prop := {
  tw_length : length (slots_ t) = slot_max;
  tw_count : count_ t ≤ slot_max;
  tw_id s : s ∈ live t → length (slot_id s) = 8;
  tw_nodup : NoDup (slot_key <$> live t);
}.

Definition map_update (k : list char) (body : A → outcome A) (m : gmap (list char) A) :
    outcome (gmap (list char) A) :=
  match m !! k with
  | None => Ok m
  | Some s => s' ← body s; Ok (<[k := s']> m)
  end.

Definition map_upsert (k : list char) (body : A → outcome A) (m : gmap (list char) A) :
    outcome (gmap (list char) A) :=
  match m !! k with
  | Some s => s' ← body s; Ok (<[k := s']> m)
  | None =>
      if decide (slot_max ≤ size m) then Ok m else
      s' ← body (slot_fresh (pad 8 k)); Ok (<[k := s']> m)
  end.

(** A body that only changes other members keeps the key. *)
Definition keeps_id (body : A → outcome A) : Prop :=
  ∀ s s', body s = Ok s' → slot_id s' = slot_id s.
End Table.

(** ** Lemmas *)

Section Lemmas.
Context {A : Type} `{SlotLaws A}.
Implicit Types (t : table A) (v : string_view) (s : A).

Lemma live_lookup t i s : live t !! i = Some s ↔ slots_ t !! i = Some s ∧ i < count_ t.
Proof. unfold live. rewrite lookup_take_Some. done. Qed.

Lemma live_length t : table_wf t → length (live t) = count_ t.
Proof. intros Hwf. unfold live. rewrite length_take, (tw_length _ Hwf). pose proof (tw_count _ Hwf). lia. Qed.

Lemma table_map_Some t k s :
  table_wf t → table_map t !! k = Some s ↔ s ∈ live t ∧ slot_key s = k.
Proof.
  intros Hwf. unfold table_map. rewrite <- elem_of_list_to_map.
  - rewrite list_elem_of_fmap. naive_solver.
  - rewrite <- list_fmap_compose. apply (tw_nodup _ Hwf).
Qed.

Lemma table_map_None t k :
  table_wf t → table_map t !! k = None ↔ ∀ s, s ∈ live t → slot_key s ≠ k.
Proof.
  intros Hwf. rewrite eq_None_not_Some. unfold is_Some. setoid_rewrite table_map_Some; [|done].
  naive_solver.
Qed.

Lemma table_map_size t : table_wf t → size (table_map t) = count_ t.
Proof.
  intros Hwf. unfold table_map. rewrite map_size_list_to_map.
  - by rewrite length_fmap, live_length.
  - rewrite <- list_fmap_compose. apply (tw_nodup _ Hwf).
Qed.

Lemma table_init_wf : table_wf (A:=A) table_init.
Proof.
  split; cbn; [apply length_replicate|lia|..]; unfold live; cbn; [|constructor].
  intros s Hs. by apply not_elem_of_nil in Hs.
Qed.

Lemma table_init_map : table_map (A:=A) table_init = ∅.
Proof. done. Qed.

(** The loop finds the first slot with the key, or nothing. *)
Lemma find_loop_spec ss p i n :
  readable 8 p = true → i + n ≤ length ss →
  (∀ j s, i ≤ j < i + n → ss !! j = Some s → length (slot_id s) = 8) →
  ∃ r, find_loop ss p i n = Ok r ∧
    match r with
    | Some j => i ≤ j < i + n ∧ ∃ s, ss !! j = Some s ∧ slot_key s = cstr 8 p
    | None => ∀ j s, i ≤ j < i + n → ss !! j = Some s → slot_key s ≠ cstr 8 p
    end.
Proof.
  intros Hp. revert i. induction n as [|n IH]; intros i Hlen Hid; cbn.
  { eexists. split; [done|]. cbn. intros. lia. }
  destruct (lookup_lt_is_Some_2 ss i) as [s Hs]; [lia|]. rewrite Hs.
  destruct (strncmp_spec 8 (slot_id s) p) as (z & -> & Hz); [|done|].
  { apply readable_length. rewrite (Hid i s); [lia|lia|done]. }
  cbn [mbind outcome_bind]. destruct (Z.eqb_spec z 0) as [Heq|Hne].
  { exists (Some i). split; [done|]. split; [lia|]. exists s. split; [done|]. by apply Hz. }
  destruct (IH (S i)) as (r & -> & Hr); [lia|intros; eapply Hid; [|done]; lia|].
  exists r. split; [done|]. destruct r as [j|].
  - destruct Hr as [? ?]. split; [lia|done].
  - intros j s' Hj Hs'. destruct (decide (j = i)) as [->|]; [|eapply Hr; [|done]; lia].
    simplify_eq. intros Hk. apply Hne, Hz, Hk.
Qed.

Lemma find_spec v t :
  table_wf t → sv_ok v = true →
  ∃ r, find v t = Ok r ∧
    match r with
    | Some i => i < count_ t ∧
        ∃ s, slots_ t !! i = Some s ∧ slot_key s = key v ∧ table_map t !! key v = Some s
    | None => table_map t !! key v = None
    end.
Proof.
  intros Hwf Hv. pose proof (tw_length _ Hwf). pose proof (tw_count _ Hwf).
  destruct (find_loop_spec (slots_ t) (sv_data v) 0 (count_ t)) as (r & Hr & Hspec); [done|lia| |].
  { intros j s Hj Hs. apply (tw_id _ Hwf), (list_elem_of_lookup_2 _ j), live_lookup. split; [done|lia]. }
  exists r. split; [done|]. destruct r as [i|].
  - destruct Hspec as (Hi & s & Hs & Hk). split; [lia|]. exists s. split_and!; [done..|].
    apply table_map_Some; [done|]. split; [|done].
    apply (list_elem_of_lookup_2 _ i), live_lookup. split; [done|lia].
  - apply table_map_None; [done|]. intros s [i Hi]%list_elem_of_lookup_1.
    apply live_lookup in Hi as [Hi ?]. eapply Hspec; [|done]. lia.
Qed.

(** [get] is the map's lookup. *)
Lemma get_spec v t :
  table_wf t → sv_ok v = true → get v t = Ok (table_map t !! key v).
Proof.
  intros Hwf Hv. unfold get. destruct (find_spec v t Hwf Hv) as ([i|] & -> & Hspec);
    cbn [mbind outcome_bind]; f_equal.
  - destruct Hspec as (_ & s & Hs & _ & ->). exact Hs.
  - by rewrite Hspec.
Qed.

(** Storing a record with the same key in a live slot. *)
Lemma live_set t i s' :
  live {| slots_ := <[i := s']> (slots_ t); count_ := count_ t |} = <[i := s']> (live t).
Proof.
  unfold live. cbn. destruct (decide (i < count_ t)).
  - by rewrite take_insert_lt.
  - rewrite take_insert_ge by lia. rewrite list_insert_ge; [done|]. rewrite length_take. lia.
Qed.

Lemma set_slot_keys t i s s' :
  slots_ t !! i = Some s → i < count_ t → slot_id s' = slot_id s →
  slot_key <$> <[i := s']> (live t) = slot_key <$> live t.
Proof.
  intros Hs Hi Hid. rewrite list_fmap_insert. apply list_insert_id.
  rewrite list_lookup_fmap, (proj2 (live_lookup t i s)) by done. cbn.
  unfold slot_key. by rewrite Hid.
Qed.

Lemma set_slot_wf t i s s' :
  table_wf t → slots_ t !! i = Some s → i < count_ t → slot_id s' = slot_id s →
  table_wf {| slots_ := <[i := s']> (slots_ t); count_ := count_ t |}.
Proof.
  intros Hwf Hs Hi Hid. split.
  - cbn. rewrite length_insert. apply (tw_length _ Hwf).
  - apply (tw_count _ Hwf).
  - intros x. rewrite live_set. intros [j Hj]%list_elem_of_lookup_1.
    rewrite list_lookup_insert in Hj. case_decide as Hd; simplify_eq.
    + rewrite Hid. apply (tw_id _ Hwf), (list_elem_of_lookup_2 _ i), live_lookup.
      destruct Hd as [<- ?]. done.
    + apply (tw_id _ Hwf), (list_elem_of_lookup_2 _ j). done.
  - rewrite live_set, (set_slot_keys t i s s') by done. apply (tw_nodup _ Hwf).
Qed.

Lemma list_to_map_split (l1 l2 : list A) s :
  NoDup (slot_key <$> (l1 ++ s :: l2)) →
  list_to_map ((λ s, (slot_key s, s)) <$> (l1 ++ s :: l2))
    =@{gmap (list char) A}
    <[slot_key s := s]> (list_to_map ((λ s, (slot_key s, s)) <$> (l1 ++ l2))).
Proof.
  intros Hnd. rewrite <- list_to_map_cons.
  apply list_to_map_proper.
  - by rewrite <- list_fmap_compose.
  - rewrite !fmap_app, fmap_cons. symmetry. apply Permutation_middle.
Qed.

Lemma set_slot_map t i s s' :
  table_wf t → slots_ t !! i = Some s → i < count_ t → slot_id s' = slot_id s →
  table_map {| slots_ := <[i := s']> (slots_ t); count_ := count_ t |}
    = <[slot_key s := s']> (table_map t).
Proof.
  intros Hwf Hs Hi Hid. assert (Hk : slot_key s' = slot_key s) by (unfold slot_key; by rewrite Hid).
  assert (Hl : live t !! i = Some s) by (by apply live_lookup).
  pose proof (set_slot_keys t i s s' Hs Hi Hid) as Hkeys.
  pose proof (tw_nodup _ Hwf) as Hnd. rewrite <- Hkeys in Hnd.
  unfold table_map. rewrite live_set.
  rewrite insert_take_drop in * by (by apply lookup_lt_Some in Hl).
  rewrite list_to_map_split by done.
  rewrite <- (take_drop_middle (live t) i s) at 3 by done.
  rewrite list_to_map_split, Hk, insert_insert_eq; [done|].
  rewrite take_drop_middle by done. apply (tw_nodup _ Hwf).
Qed.

(** Allocating the next slot for a key that is not in the table. *)
Lemma live_alloc t s' :
  table_wf t → count_ t < slot_max →
  live {| slots_ := <[count_ t := s']> (slots_ t); count_ := S (count_ t) |} = live t ++ [s'].
Proof.
  intros Hwf Hroom. unfold live. cbn [slots_ count_].
  assert (Hlt : count_ t < length (slots_ t)) by (rewrite (tw_length _ Hwf); lia).
  rewrite take_S_r with (x := s') by (by apply list_lookup_insert_eq).
  by rewrite take_insert_ge by lia.
Qed.

Lemma alloc_wf t s' :
  table_wf t → count_ t < slot_max → length (slot_id s') = 8 →
  table_map t !! slot_key s' = None →
  table_wf {| slots_ := <[count_ t := s']> (slots_ t); count_ := S (count_ t) |} ∧
  table_map {| slots_ := <[count_ t := s']> (slots_ t); count_ := S (count_ t) |}
    = <[slot_key s' := s']> (table_map t).
Proof.
  intros Hwf Hroom Hid Hnone.
  assert (Hfresh : slot_key s' ∉ slot_key <$> live t).
  { rewrite list_elem_of_fmap. intros (s & Hk & Hs).
    by apply (proj1 (table_map_None t _ Hwf) Hnone s Hs). }
  pose proof (live_alloc t s' Hwf Hroom) as Hlive. split.
  - split; rewrite ?Hlive.
    + cbn. rewrite length_insert. apply (tw_length _ Hwf).
    + cbn. lia.
    + intros s [Hs|Hs]%elem_of_app; [by apply (tw_id _ Hwf)|].
      by apply list_elem_of_singleton in Hs as ->.
    + rewrite fmap_app. apply NoDup_app. split_and!; [apply (tw_nodup _ Hwf)| |apply NoDup_singleton].
      intros k Hk1 Hk2. apply list_elem_of_singleton in Hk2 as ->. done.
  - unfold table_map. rewrite Hlive, fmap_app. cbn. apply list_to_map_snoc.
    by rewrite <- list_fmap_compose.
Qed.

(** Writing through a pointer to a live slot. *)
Lemma on_slot_spec body t i s :
  table_wf t → slots_ t !! i = Some s → i < count_ t → keeps_id body →
  table_map <$> on_slot body (Some i) t =
    (s' ← body s; Ok (<[slot_key s := s']> (table_map t))) ∧
  (∀ t', on_slot body (Some i) t = Ok t' → table_wf t').
Proof.
  intros Hwf Hs Hi Hkeep. unfold on_slot. rewrite Hs.
  destruct (body s) as [s'| | |] eqn:Hb; cbn [mbind outcome_bind fmap outcome_fmap]; try done.
  pose proof (Hkeep _ _ Hb) as Hid. split; [by rewrite (set_slot_map t i s)|].
  intros t' [= <-]. by apply (set_slot_wf t i s).
Qed.

(** [find] and a write refine the update of the key's record in the map. *)
Lemma find_update_refines v body t :
  table_wf t → sv_ok v = true → keeps_id body →
  table_map <$> (p ← find v t; on_slot body p t) = map_update (key v) body (table_map t) ∧
  (∀ t', (p ← find v t; on_slot body p t) = Ok t' → table_wf t').
Proof.
  intros Hwf Hv Hkeep. unfold map_update.
  destruct (find_spec v t Hwf Hv) as ([i|] & -> & Hspec); cbn [mbind outcome_bind].
  - destruct Hspec as (Hi & s & Hs & <- & ->). by apply on_slot_spec.
  - rewrite Hspec. split; [done|]. by intros t' [= <-].
Qed.

(** [get_or_create] and a write refine the insertion or update of the record. *)
Lemma get_or_create_update_refines v body t :
  table_wf t → sv_ok v = true → keeps_id body →
  table_map <$> (r ← get_or_create v t; on_slot body r.1 r.2)
    = map_upsert (key v) body (table_map t) ∧
  (∀ t', (r ← get_or_create v t; on_slot body r.1 r.2) = Ok t' → table_wf t').
Proof.
  intros Hwf Hv Hkeep. unfold get_or_create, map_upsert. rewrite (table_map_size t Hwf).
  destruct (find_spec v t Hwf Hv) as ([i|] & -> & Hspec); cbn [mbind outcome_bind fst snd].
  { destruct Hspec as (Hi & s & Hs & <- & ->). by apply on_slot_spec. }
  rewrite Hspec. destruct (decide (slot_max ≤ count_ t)) as [Hfull|Hroom].
  { split; [done|]. by intros t' [= <-]. }
  rewrite strncpy_spec by done. fold (key v). cbn [mbind outcome_bind fst snd].
  set (s := slot_fresh (pad 8 (key v))).
  assert (Hkey : slot_key s = key v) by (unfold slot_key, s; rewrite slot_id_fresh; apply cstr_idemp).
  destruct (alloc_wf t s Hwf) as [Hwf1 Hm1]; [lia| |by rewrite Hkey|].
  { unfold s. rewrite slot_id_fresh. apply pad_length, cstr_length. }
  set (t1 := {| slots_ := _; count_ := _ |}) in *.
  destruct (on_slot_spec body t1 (count_ t) s Hwf1) as [Heq Hwf']; [|cbn; lia|done|].
  { cbn. apply list_lookup_insert_eq. rewrite (tw_length _ Hwf). lia. }
  split; [|done]. rewrite Heq, Hm1, Hkey. apply bind_ext. intros s'. by rewrite insert_insert_eq.
Qed.

(** Nothing but the fill count and the slots with a key decides which keys a
    table holds; a key that is held is 8 bytes at most and has no NUL. *)
Lemma table_map_key t k s : table_wf t → table_map t !! k = Some s → slot_key s = k.
Proof. intros Hwf Hk. by apply (table_map_Some t k s Hwf) in Hk as [_ ?]. Qed.

Lemma map_to_list_live t :
  table_wf t → map_to_list (table_map t) ≡ₚ (λ s, (slot_key s, s)) <$> live t.
Proof.
  intros Hwf. unfold table_map. apply map_to_list_to_map.
  rewrite <- list_fmap_compose. apply (tw_nodup _ Hwf).
Qed.
End Lemmas.

#[export] Hint Resolve table_init_wf : wf.

(** Operations that refine map operations one by one refine them in sequence. *)
Lemma fold_refines {A E} `{SlotLaws A} (P : E → Prop)
    (f : E → table A → outcome (table A))
    (g : E → gmap (list char) A → outcome (gmap (list char) A)) es t :
  (∀ e t, P e → table_wf t →
    table_map <$> f e t = g e (table_map t) ∧ (∀ t', f e t = Ok t' → table_wf t')) →
  Forall P es → table_wf t →
  table_map <$> foldO f es t = foldO g es (table_map t) ∧
  (∀ t', foldO f es t = Ok t' → table_wf t').
Proof.
  intros Hfg Hes. revert t. induction Hes as [|e es He Hes IH]; intros t Hwf; cbn [foldO].
  { split; [done|]. by intros t' [= <-]. }
  destruct (Hfg e t He Hwf) as [Heq Hwf']. rewrite <- Heq.
  destruct (f e t) as [t1| | |]; cbn [mbind outcome_bind fmap outcome_fmap]; try done.
  apply IH. by apply Hwf'.
Qed.

(** One key's record after an upsert, and the keys held. *)
Lemma map_upsert_Ok {A} `{Slot A} (k : list char) (body : A → outcome A) (m m' : gmap (list char) A) :
  map_upsert k body m = Ok m' →
  (∃ s', body (default (slot_fresh (pad 8 k)) (m !! k)) = Ok s' ∧ m' = <[k := s']> m) ∨
  (m' = m ∧ m !! k = None ∧ slot_max ≤ size m).
Proof.
  unfold map_upsert. destruct (m !! k) as [s|] eqn:Hk; cbn [default from_option].
  - intros (s' & ? & [= <-])%bind_Ok. left. eauto.
  - case_decide; [intros [= <-]; auto|]. intros (s' & ? & [= <-])%bind_Ok. left. eauto.
Qed.

Lemma map_update_Ok {A} (k : list char) (body : A → outcome A) (m m' : gmap (list char) A) :
  map_update k body m = Ok m' →
  (∃ s s', m !! k = Some s ∧ body s = Ok s' ∧ m' = <[k := s']> m) ∨ (m' = m ∧ m !! k = None).
Proof.
  unfold map_update. destruct (m !! k) as [s|] eqn:Hk; [|intros [= <-]; auto].
  intros (s' & ? & [= <-])%bind_Ok. left. eauto.
Qed.

(** ** The table throws nothing of its own *)

Lemma find_no_throw {A} `{Slot A} v (t : table A) : no_throw (find v t).
Proof.
  unfold find. generalize 0 as i. generalize (count_ t) as n. intros n.
  induction n as [|n IH]; intros i; cbn; [done|].
  destruct (slots_ t !! i); [|done]. apply no_throw_bind; [apply strncmp_no_throw|].
  intros c. case_match; [done|apply IH].
Qed.

Lemma get_or_create_no_throw {A} `{Slot A} v (t : table A) : no_throw (get_or_create v t).
Proof.
  unfold get_or_create. apply no_throw_bind; [apply find_no_throw|]. intros [i|]; [done|].
  case_decide; [done|]. apply no_throw_bind; [apply strncpy_no_throw|done].
Qed.

Lemma on_slot_no_throw {A} (body : A → outcome A) p t :
  (∀ s, no_throw (body s)) → no_throw (on_slot body p t).
Proof.
  intros Hb. destruct p as [i|]; [|done]. cbn. destruct (slots_ t !! i); [|done].
  by apply no_throw_bind.
Qed.

(** ** Changing the records behind the table's back

    A function on records that leaves the key alone commutes with the searches, and
    with every update whose body it commutes with. *)
Section TableMap.
Context {A : Type} `{Slot A} (f : A → A).
Hypothesis f_id : ∀ s, slot_id (f s) = slot_id s.
Hypothesis f_fresh : ∀ k, f (slot_fresh k) = slot_fresh k.

Definition tmap (t : table A) : table A := {| slots_ := f <$> slots_ t; count_ := count_ t |}.

Lemma tmap_init : tmap table_init = table_init.
Proof. unfold tmap, table_init. cbn. f_equal. by rewrite fmap_replicate, f_fresh. Qed.

Lemma find_loop_tmap ss p i n : find_loop (f <$> ss) p i n = find_loop ss p i n.
Proof.
  revert i. induction n as [|n IH]; intros i; cbn; [done|].
  rewrite list_lookup_fmap. destruct (ss !! i) as [s|]; cbn; [|done].
  rewrite f_id. apply bind_ext. intros c. by rewrite IH.
Qed.

Lemma find_tmap v t : find v (tmap t) = find v t.
Proof. apply find_loop_tmap. Qed.

Lemma get_or_create_tmap v t :
  get_or_create v (tmap t) = (λ r, (r.1, tmap r.2)) <$> get_or_create v t.
Proof.
  unfold get_or_create. rewrite find_tmap. destruct (find v t) as [[i|]| | |]; try done.
  cbn. case_decide; [done|]. destruct (strncpy (sv_data v) 8); try done. cbn. do 3 f_equal.
  unfold tmap. cbn. f_equal. by rewrite list_fmap_insert, f_fresh.
Qed.

Lemma on_slot_tmap (body body' : A → outcome A) i t :
  (∀ s, body' (f s) = f <$> body s) →
  on_slot body' i (tmap t) = tmap <$> on_slot body i t.
Proof.
  intros Hb. destruct i as [i|]; [|done]. cbn. rewrite list_lookup_fmap.
  destruct (slots_ t !! i) as [s|]; [|done]. cbn. rewrite Hb.
  destruct (body s); try done. cbn. do 2 f_equal. unfold tmap. cbn. by rewrite list_fmap_insert.
Qed.

Lemma live_tmap t : live (tmap t) = f <$> live t.
Proof. unfold live, tmap. cbn. by rewrite firstn_map. Qed.

Lemma get_tmap v t : get v (tmap t) = option_map f <$> get v t.
Proof.
  unfold get. rewrite find_tmap. destruct (find v t) as [[i|]| | |]; try done. cbn.
  by rewrite list_lookup_fmap.
Qed.
End TableMap.
