(* ===== verification/PositionTracker.v ===== *)
(** * [PositionTracker]: positions projected from fills (include/PositionTracker.h)

    The position record and its fill arithmetic, with every signed operation
    checked for overflow; the tracker as a slot table keyed by symbol; the
    refinement of the tracker to a map from symbols to positions; the accounting
    theorems (conservation, P&L reconciliation, bounds). *)

From S2P Require Import Prelude CString OrderEvent EventLog SlotTable.

Local Open Scope Z_scope.

(** ** The record *)

Record Position : Type := {
  p_symbol           : list char;  (* char[8] *)
  p_net_qty          : Z;          (* int64_t *)
  p_avg_entry_price  : Z;          (* int64_t, fixed-point *)
  p_realized_pnl     : Z;          (* int64_t, fixed-point *)
  p_unrealized_pnl   : Z;          (* int64_t, fixed-point *)
  p_total_buy_qty    : Z;          (* int32_t *)
  p_total_sell_qty   : Z;          (* int32_t *)
  p_last_price       : Z;          (* int64_t, fixed-point *)
  p_last_updated_seq : Z;          (* int64_t *)
}.

Definition is_flat (p : Position) : bool := p_net_qty p =? 0.

Definition MAX_SYMBOLS : nat := 1024.

Definition Position_fresh (sym : list char) : Position := {|
  p_symbol := sym; p_net_qty := 0; p_avg_entry_price := 0;
  p_realized_pnl := 0; p_unrealized_pnl := 0;
  p_total_buy_qty := 0; p_total_sell_qty := 0;
  p_last_price := 0; p_last_updated_seq := 0;
|}.

#[export] Instance Position_slot : Slot Position := {
  slot_id := p_symbol; slot_fresh := Position_fresh; slot_max := MAX_SYMBOLS;
}.
#[export] Instance Position_slot_laws : SlotLaws Position.
Proof. by split. Qed.

(** ** Fill arithmetic *)

(** The value [refresh_unrealized] stores. *)
Definition refresh_unrealized (last_price avg_entry_price net_qty : Z) : outcome Z :=
  if (0 <? last_price) && negb (net_qty =? 0)
  then d ← i64 (last_price - avg_entry_price); i64 (d * net_qty)
  else Ok 0.

(** The average of a position of [new_qty] units that cost [new_cost]. *)
Definition average (new_cost new_qty : Z) : outcome Z :=
  if 0 <? new_qty then div64 new_cost new_qty else Ok 0.

(** The two branches of [apply_buy]: add to a long or flat position, or cover a
    short one.  The results are [net_qty], [avg_entry_price], [realized_pnl]. *)
Definition buy_core (p : Position) (qty price : Z) : outcome (Z * Z * Z) :=
  if 0 <=? p_net_qty p then
    new_qty ← i64 (p_net_qty p + qty);
    cost_held ← i64 (p_avg_entry_price p * p_net_qty p);
    cost_fill ← i64 (price * qty);
    new_cost ← i64 (cost_held + cost_fill);
    avg ← average new_cost new_qty;
    Ok (new_qty, avg, p_realized_pnl p)
  else
    short ← i64 (- p_net_qty p);
    let cover := if qty <=? short then qty else short in
    d ← i64 (p_avg_entry_price p - price);
    gain ← i64 (d * cover);
    realized ← i64 (p_realized_pnl p + gain);
    net ← i64 (p_net_qty p + qty);
    let avg := if 0 <? net then price
               else if net =? 0 then 0 else p_avg_entry_price p in
    Ok (net, avg, realized).

(** The two branches of [apply_sell]: close a long position, or add to a short or
    flat one. *)
Definition sell_core (p : Position) (qty price : Z) : outcome (Z * Z * Z) :=
  if 0 <? p_net_qty p then
    let close := if qty <=? p_net_qty p then qty else p_net_qty p in
    d ← i64 (price - p_avg_entry_price p);
    gain ← i64 (d * close);
    realized ← i64 (p_realized_pnl p + gain);
    net ← i64 (p_net_qty p - qty);
    let avg := if net <? 0 then price
               else if net =? 0 then 0 else p_avg_entry_price p in
    Ok (net, avg, realized)
  else
    short ← i64 (- p_net_qty p);
    new_qty ← i64 (short + qty);
    cost_held ← i64 (p_avg_entry_price p * short);
    cost_fill ← i64 (price * qty);
    new_cost ← i64 (cost_held + cost_fill);
    avg ← average new_cost new_qty;
    net ← i64 (p_net_qty p - qty);
    Ok (net, avg, p_realized_pnl p).

Definition apply_buy (p : Position) (qty price seq : Z) : outcome Position :=
  total_buy ← i32 (p_total_buy_qty p + qty);
  c ← buy_core p qty price;
  let '(net, avg, realized) := c in
  unrealized ← refresh_unrealized (p_last_price p) avg net;
  Ok {|
    p_symbol := p_symbol p; p_net_qty := net; p_avg_entry_price := avg;
    p_realized_pnl := realized; p_unrealized_pnl := unrealized;
    p_total_buy_qty := total_buy; p_total_sell_qty := p_total_sell_qty p;
    p_last_price := p_last_price p; p_last_updated_seq := signed 64 seq;
  |}.

Definition apply_sell (p : Position) (qty price seq : Z) : outcome Position :=
  total_sell ← i32 (p_total_sell_qty p + qty);
  c ← sell_core p qty price;
  let '(net, avg, realized) := c in
  unrealized ← refresh_unrealized (p_last_price p) avg net;
  Ok {|
    p_symbol := p_symbol p; p_net_qty := net; p_avg_entry_price := avg;
    p_realized_pnl := realized; p_unrealized_pnl := unrealized;
    p_total_buy_qty := p_total_buy_qty p; p_total_sell_qty := total_sell;
    p_last_price := p_last_price p; p_last_updated_seq := signed 64 seq;
  |}.

(** Any side but [Buy] sells. *)
Definition apply_fill (e : OrderEvent) (p : Position) : outcome Position :=
  if decide (oe_side e = Buy)
  then apply_buy p (oe_fill_qty e) (oe_fill_price e) (oe_sequence e)
  else apply_sell p (oe_fill_qty e) (oe_fill_price e) (oe_sequence e).

(** The body of [mark_to_market] on the found position. *)
Definition mark_position (mkt_price_fp : Z) (p : Position) : outcome Position :=
  if is_flat p then Ok p else
  d ← i64 (mkt_price_fp - p_avg_entry_price p);
  unrealized ← i64 (d * p_net_qty p);
  Ok {|
    p_symbol := p_symbol p; p_net_qty := p_net_qty p;
    p_avg_entry_price := p_avg_entry_price p; p_realized_pnl := p_realized_pnl p;
    p_unrealized_pnl := unrealized;
    p_total_buy_qty := p_total_buy_qty p; p_total_sell_qty := p_total_sell_qty p;
    p_last_price := mkt_price_fp; p_last_updated_seq := p_last_updated_seq p;
  |}.

(** ** The tracker *)

Module PositionTracker.
Definition t : Type := table Position.

Definition init : t := table_init.

Definition apply_event (e : OrderEvent) (s : t) : outcome t :=
  if negb (is_fill e) then Ok s else
  sym ← symbol_view e;
  r ← get_or_create sym s;
  on_slot (apply_fill e) r.1 r.2.

Definition get (sym : string_view) (s : t) : outcome (option Position) := SlotTable.get sym s.

Definition mark_to_market (sym : string_view) (mkt_price_fp : Z) (s : t) : outcome t :=
  p ← find sym s;
  on_slot (mark_position mkt_price_fp) p s.

Definition for_each {S} (fn : Position → S → outcome S) (s : t) (x : S) : outcome S :=
  foldO fn (live s) x.

Definition symbol_count (s : t) : nat := count_ s.

Definition replay_from {L} `{LogOps L} (log : L) : outcome t :=
  log_replay apply_event log init.
End PositionTracker.

(** ** The reference rule for a fill

    Over unbounded integers and for both sides at once: [sg] is 1 for a buy and
    -1 for a sell.  A fill in the direction of the position averages the entry
    price; a fill against it realizes P&L on the closed part and, when it crosses
    zero, reopens at the fill price. *)

Definition sgn_side (s : Side) : Z := if decide (s = Buy) then 1 else -1.

Definition fill_rule (sg qty price : Z) (x : Z * Z * Z) : Z * Z * Z :=
  let '(net, avg, realized) := x in
  let net' := net + sg * qty in
  if 0 <=? sg * net then
    let held := Z.abs net in
    (net',
     if 0 <? held + qty then Z.quot (avg * held + price * qty) (held + qty) else 0,
     realized)
  else
    let closed := Z.min qty (Z.abs net) in
    (net',
     if 0 <? sg * net' then price else if net' =? 0 then 0 else avg,
     realized + sg * (avg - price) * closed).

Definition core (p : Position) : Z * Z * Z :=
  (p_net_qty p, p_avg_entry_price p, p_realized_pnl p).

Definition rule_of (e : OrderEvent) : Z * Z * Z → Z * Z * Z :=
  fill_rule (sgn_side (oe_side e)) (oe_fill_qty e) (oe_fill_price e).

(** What the unrealized P&L is after any fill. *)
Definition marked (p : Position) : Z :=
  if (0 <? p_last_price p) && negb (p_net_qty p =? 0)
  then (p_last_price p - p_avg_entry_price p) * p_net_qty p else 0.

Lemma refresh_unrealized_Ok last avg net u :
  refresh_unrealized last avg net = Ok u →
  u = if (0 <? last) && negb (net =? 0) then (last - avg) * net else 0.
Proof. unfold refresh_unrealized. destruct (_ && _); intros; ok_inv; auto. Qed.

Ltac case_Z :=
  repeat match goal with
  | |- context [(?a <=? ?b)%Z] => destruct (Z.leb_spec a b)
  | |- context [(?a <? ?b)%Z] => destruct (Z.ltb_spec a b)
  | |- context [(?a =? ?b)%Z] => destruct (Z.eqb_spec a b)
  end.

Lemma average_Ok cost qty a :
  average cost qty = Ok a → a = if 0 <? qty then Z.quot cost qty else 0.
Proof. unfold average. destruct (0 <? qty); intros; ok_inv; auto. Qed.

Lemma triple_eq (a a' b b' c c' : Z) : a = a' → b = b' → c = c' → (a, b, c) = (a', b', c').
Proof. congruence. Qed.

Lemma buy_core_Ok p q px x : buy_core p q px = Ok x → x = fill_rule 1 q px (core p).
Proof.
  unfold buy_core, core, fill_rule. rewrite !Z.mul_1_l.
  destruct (Z.leb_spec 0 (p_net_qty p)); intros; ok_inv; apply triple_eq; try done.
  - rewrite Z.abs_eq by lia. by apply average_Ok.
  - rewrite Z.abs_neq by lia. do 2 f_equal. case_Z; lia.
Qed.

Lemma sell_core_Ok p q px x : sell_core p q px = Ok x → x = fill_rule (-1) q px (core p).
Proof.
  unfold sell_core, core, fill_rule.
  destruct (Z.ltb_spec 0 (p_net_qty p)); intros; ok_inv.
  - rewrite (proj2 (Z.leb_gt 0 (-1 * p_net_qty p))), (Z.abs_eq (p_net_qty p)) by lia.
    apply triple_eq; [lia|case_Z; lia|].
    replace (if q <=? p_net_qty p then q else p_net_qty p) with (Z.min q (p_net_qty p))
      by (case_Z; lia). ring.
  - rewrite (proj2 (Z.leb_le 0 (-1 * p_net_qty p))), (Z.abs_neq (p_net_qty p)) by lia.
    apply triple_eq; [lia| |done]. by apply average_Ok.
Qed.

(** Everything a fill does to a position. *)
Record filled (e : OrderEvent) (p p' : Position) : Prop := {
  filled_core : core p' = rule_of e (core p);
  filled_unrealized : p_unrealized_pnl p' = marked p';
  filled_symbol : p_symbol p' = p_symbol p;
  filled_last : p_last_price p' = p_last_price p;
  filled_buy : p_total_buy_qty p' =
    p_total_buy_qty p + if decide (oe_side e = Buy) then oe_fill_qty e else 0;
  filled_sell : p_total_sell_qty p' =
    p_total_sell_qty p + if decide (oe_side e = Buy) then 0 else oe_fill_qty e;
  filled_seq : p_last_updated_seq p' = signed 64 (oe_sequence e);
}.

Lemma apply_fill_Ok e p p' : apply_fill e p = Ok p' → filled e p p'.
Proof.
  unfold apply_fill. intros H.
  assert (Hc : core p' = rule_of e (core p)).
  { unfold rule_of, sgn_side. case_decide; unfold apply_buy, apply_sell in H; ok_inv;
      destruct a0 as [[net avg] realized]; ok_inv.
    - by apply buy_core_Ok in Ha0 as <-.
    - by apply sell_core_Ok in Ha0 as <-. }
  destruct (decide (oe_side e = Buy)) as [Hs|Hs]; unfold apply_buy, apply_sell in H; ok_inv;
    destruct a0 as [[net avg] realized]; ok_inv.
  all: split; rewrite ?decide_True, ?decide_False by done; cbn; auto.
  all: try lia; by apply refresh_unrealized_Ok.
Qed.

Lemma apply_fill_keeps_id e : keeps_id (apply_fill e).
Proof. intros p p' H. apply (filled_symbol _ _ _ (apply_fill_Ok e p p' H)). Qed.

Lemma mark_position_Ok px p p' :
  mark_position px p = Ok p' →
  core p' = core p ∧ p_symbol p' = p_symbol p ∧
  p_total_buy_qty p' = p_total_buy_qty p ∧ p_total_sell_qty p' = p_total_sell_qty p ∧
  p_last_updated_seq p' = p_last_updated_seq p ∧
  if is_flat p then p' = p
  else p_last_price p' = px ∧ p_unrealized_pnl p' = (px - p_avg_entry_price p) * p_net_qty p.
Proof. unfold mark_position. destruct (is_flat p) eqn:E; intros; ok_inv; done. Qed.

Lemma mark_position_keeps_id px : keeps_id (mark_position px).
Proof. intros p p' H. apply (mark_position_Ok _ _ _ H). Qed.

(** ** Accounting of a sequence of fills *)

Definition run_fills (es : list OrderEvent) (p : Position) : outcome Position :=
  foldO apply_fill es p.

Definition signed_qty (e : OrderEvent) : Z := sgn_side (oe_side e) * oe_fill_qty e.
Definition cash_flow (e : OrderEvent) : Z := - (signed_qty e * oe_fill_price e).
Definition bought (e : OrderEvent) : Z := if decide (oe_side e = Buy) then oe_fill_qty e else 0.
Definition sold (e : OrderEvent) : Z := if decide (oe_side e = Buy) then 0 else oe_fill_qty e.

Lemma sgn_side_cases s : sgn_side s = 1 ∨ sgn_side s = -1.
Proof. unfold sgn_side. case_decide; auto. Qed.

Lemma rule_net sg q px x : (fill_rule sg q px x).1.1 = x.1.1 + sg * q.
Proof. destruct x as [[net avg] realized]. unfold fill_rule. by destruct (0 <=? sg * net). Qed.

Lemma filled_net e p p' : filled e p p' → p_net_qty p' = p_net_qty p + signed_qty e.
Proof.
  intros H. pose proof (filled_core _ _ _ H) as Hc. unfold rule_of in Hc.
  apply (f_equal (λ x, x.1.1)) in Hc. rewrite rule_net in Hc. exact Hc.
Qed.

Lemma run_fills_cons e es p p' :
  run_fills (e :: es) p = Ok p' → ∃ p1, filled e p p1 ∧ run_fills es p1 = Ok p'.
Proof. unfold run_fills. cbn. intros H. ok_inv. eauto using apply_fill_Ok. Qed.

(** The rounding left behind by averaging: the value of the position plus the
    cash paid moves by less than the size of the position. *)
Definition book (x : Z * Z * Z) : Z := let '(net, avg, realized) := x in realized - net * avg.

Lemma rule_book sg q px x :
  sg = 1 ∨ sg = -1 → 0 < q →
  Z.abs (book (fill_rule sg q px x) - book x + sg * q * px)
    <= Z.max 0 (Z.abs (x.1.1 + sg * q) - 1).
Proof.
  destruct x as [[net avg] realized]. intros Hsg Hq. unfold fill_rule. cbn [fst].
  destruct (Z.leb_spec 0 (sg * net)) as [Hs|Hs]; unfold book.
  - rewrite (proj2 (Z.ltb_lt _ _)) by lia.
    set (N := Z.abs net + q). set (C := avg * Z.abs net + px * q).
    pose proof (Z.quot_rem' C N). pose proof (Z.rem_bound_abs C N ltac:(lia)).
    assert (net + sg * q = sg * N) as -> by (unfold N; destruct Hsg; subst sg; lia).
    assert (net = sg * Z.abs net) as Hnet by (destruct Hsg; subst sg; lia).
    assert (realized - sg * N * Z.quot C N - (realized - net * avg) + sg * q * px
            = sg * Z.rem C N) as ->.
    { replace (sg * N * Z.quot C N) with (sg * (C - Z.rem C N)) by lia.
      rewrite Hnet at 1. unfold C. ring. }
    destruct Hsg; subst sg; lia.
  - assert (Hnet : net = - sg * Z.abs net) by (destruct Hsg; subst sg; lia).
    set (n := Z.abs net) in *. assert (0 < n) by lia.
    match goal with |- Z.abs ?d <= _ => assert (d = 0) as -> end; [|lia].
    clear Hs. rewrite Hnet. destruct Hsg; subst sg; case_Z;
      rewrite ?Z.min_l, ?Z.min_r by lia; try ring; try lia.
    all: replace q with n by lia; ring.
Qed.

(** The sum, over the fills, of the size of the position after each, less one. *)
Fixpoint rounding_bound (net : Z) (es : list OrderEvent) : Z :=
  match es with
  | [] => 0
  | e :: es =>
      let net := net + signed_qty e in
      Z.max 0 (Z.abs net - 1) + rounding_bound net es
  end.

Lemma run_fills_net es p p' :
  run_fills es p = Ok p' → p_net_qty p' = p_net_qty p + sumZ signed_qty es.
Proof.
  revert p. induction es as [|e es IH]; intros p H.
  { unfold run_fills in H. cbn in H. ok_inv. cbn. lia. }
  apply run_fills_cons in H as (p1 & Hf & H). apply IH in H.
  pose proof (filled_net _ _ _ Hf). cbn. unfold sumZ in *. lia.
Qed.

Lemma run_fills_totals es p p' :
  run_fills es p = Ok p' →
  p_total_buy_qty p' = p_total_buy_qty p + sumZ bought es ∧
  p_total_sell_qty p' = p_total_sell_qty p + sumZ sold es.
Proof.
  revert p. induction es as [|e es IH]; intros p H.
  { unfold run_fills in H. cbn in H. ok_inv. cbn. lia. }
  apply run_fills_cons in H as (p1 & Hf & H). apply IH in H as [Hb Hs].
  rewrite (filled_buy _ _ _ Hf) in Hb. rewrite (filled_sell _ _ _ Hf) in Hs.
  cbn. fold (bought e) in Hb. fold (sold e) in Hs. unfold sumZ in *. lia.
Qed.

Lemma run_fills_book es p p' :
  Forall (λ e, 0 < oe_fill_qty e) es → run_fills es p = Ok p' →
  Z.abs (book (core p') - book (core p) - sumZ cash_flow es)
    <= rounding_bound (p_net_qty p) es.
Proof.
  intros Hq. revert p. induction Hq as [|e es He Hq IH]; intros p H.
  { unfold run_fills in H. cbn in H. ok_inv. cbn. lia. }
  apply run_fills_cons in H as (p1 & Hf & H). apply IH in H.
  rewrite (filled_net _ _ _ Hf) in H.
  pose proof (rule_book (sgn_side (oe_side e)) (oe_fill_qty e) (oe_fill_price e) (core p)
                (sgn_side_cases _) He) as Hb.
  fold (rule_of e) in Hb. rewrite <- (filled_core _ _ _ Hf) in Hb.
  cbn [rounding_bound sumZ foldr]. fold (sumZ cash_flow es).
  change (core p).1.1 with (p_net_qty p) in Hb. unfold cash_flow at 1.
  fold (signed_qty e) in Hb. lia.
Qed.

Lemma sumZ_signed es : sumZ signed_qty es = sumZ bought es - sumZ sold es.
Proof.
  induction es as [|e es IH]; cbn; unfold sumZ in *; [done|].
  unfold signed_qty, bought, sold, sgn_side in *. case_decide; lia.
Qed.

(** ** Size of the numbers

    [bounded lo hi V p]: the position traded [V] units in all, at prices within
    [lo, hi]. *)
Record bounded (lo hi V : Z) (p : Position) : Prop := {
  bd_net : Z.abs (p_net_qty p) <= V;
  bd_avg : if p_net_qty p =? 0 then p_avg_entry_price p = 0
           else lo <= p_avg_entry_price p <= hi;
  bd_realized : Z.abs (p_realized_pnl p) <= hi * V;
  bd_totals : 0 <= p_total_buy_qty p ∧ 0 <= p_total_sell_qty p ∧
              p_total_buy_qty p + p_total_sell_qty p = V;
  bd_last : 0 <= p_last_price p <= hi;
}.

Lemma bounded_fresh lo hi k : 0 <= hi → bounded lo hi 0 (Position_fresh k).
Proof. split; cbn; lia. Qed.

Lemma rule_bounded lo hi V sg q px net avg realized :
  0 <= lo → sg = 1 ∨ sg = -1 → 0 < q → lo <= px <= hi →
  Z.abs net <= V → (if net =? 0 then avg = 0 else lo <= avg <= hi) → Z.abs realized <= hi * V →
  let '(net', avg', realized') := fill_rule sg q px (net, avg, realized) in
  Z.abs net' <= V + q ∧ (if net' =? 0 then avg' = 0 else lo <= avg' <= hi) ∧
  Z.abs realized' <= hi * (V + q).
Proof.
  intros Hlo Hsg Hq Hpx Hn Ha Hr. unfold fill_rule.
  assert (Havg : net = 0 ∨ lo <= avg <= hi) by (destruct (Z.eqb_spec net 0); auto).
  assert (Hnet : net = sg * (sg * net)) by (destruct Hsg; subst sg; lia).
  destruct (Z.leb_spec 0 (sg * net)) as [Hs|Hs].
  - rewrite (proj2 (Z.ltb_lt _ _)) by lia.
    split_and!; [destruct Hsg; subst sg; lia| |nia].
    destruct (Z.eqb_spec (net + sg * q) 0); [destruct Hsg; subst sg; lia|].
    apply quot_average_bound; lia.
  - split; [destruct Hsg; subst sg; lia|]. destruct (Z.eqb_spec net 0) as [->|]; [lia|].
    assert (Z.abs (sg * (avg - px) * Z.min q (Z.abs net)) <= hi * q).
    { rewrite Z.abs_mul. assert (Z.abs (sg * (avg - px)) <= hi) by (destruct Hsg; subst sg; lia).
      assert (0 <= Z.abs (Z.min q (Z.abs net)) <= q) by lia. nia. }
    split; [|lia]. case_Z; lia.
Qed.

Lemma filled_bounded lo hi V e p p' :
  0 <= lo → 0 < oe_fill_qty e → lo <= oe_fill_price e <= hi →
  bounded lo hi V p → filled e p p' → bounded lo hi (V + oe_fill_qty e) p'.
Proof.
  intros Hlo Hq Hpx [Hn Ha Hr Ht Hl] Hf.
  pose proof (rule_bounded lo hi V (sgn_side (oe_side e)) _ _ _ _ _ Hlo
                (sgn_side_cases _) Hq Hpx Hn Ha Hr) as Hb.
  pose proof (filled_core _ _ _ Hf) as Hc. unfold rule_of, core in Hc. rewrite <- Hc in Hb.
  destruct Hb as (? & ? & ?). split; try done.
  - rewrite (filled_buy _ _ _ Hf), (filled_sell _ _ _ Hf). case_decide; lia.
  - by rewrite (filled_last _ _ _ Hf).
Qed.

(** Each checked operation of a fill stays in range, so the fill returns. *)
Ltac in_range := first [rewrite i64_ok by nia | rewrite i32_ok by lia]; cbn [mbind outcome_bind].

Lemma refresh_unrealized_total hi V last avg net :
  0 <= last <= hi → 0 <= avg <= hi → Z.abs net <= V → 0 <= V →
  hi <= INT64_MAX → hi * V <= INT64_MAX →
  ∃ u, refresh_unrealized last avg net = Ok u.
Proof.
  unfold refresh_unrealized, INT64_MAX. intros. destruct (_ && _); [|eauto].
  assert (Z.abs ((last - avg) * net) <= hi * V).
  { rewrite Z.abs_mul. apply Z.mul_le_mono_nonneg; lia. }
  rewrite i64_ok by lia. cbn [mbind outcome_bind]. rewrite i64_ok by lia. eauto.
Qed.

Lemma average_total cost qty :
  0 <= cost <= INT64_MAX → ∃ a, average cost qty = Ok a.
Proof.
  unfold INT64_MAX, average. intros Hc. destruct (Z.ltb_spec 0 qty); [|eauto].
  rewrite div64_ok; [eauto|done|]. rewrite Z.quot_div_nonneg by lia.
  pose proof (Z.div_pos cost qty). pose proof (Z.div_le_upper_bound cost qty cost). nia.
Qed.

(** The products of a fill: the cost held, the cost of the fill, a gain. *)
Lemma fill_products hi V net avg q px :
  Z.abs net <= V → 0 <= avg <= hi → 0 < q → 0 <= px <= hi →
  0 <= avg * Z.abs net <= hi * V ∧ 0 <= px * q <= hi * q ∧
  Z.abs ((avg - px) * Z.min q (Z.abs net)) <= hi * q.
Proof.
  intros Hn Ha Hq Hp. split_and!; [nia..|]. rewrite Z.abs_mul.
  assert (0 <= Z.abs (Z.min q (Z.abs net)) <= q) by lia.
  apply Z.mul_le_mono_nonneg; lia.
Qed.

Lemma buy_core_total hi V p q px :
  Z.abs (p_net_qty p) <= V → 0 <= p_avg_entry_price p <= hi →
  Z.abs (p_realized_pnl p) <= hi * V → 0 < q → 0 <= px <= hi →
  V + q <= INT64_MAX → hi * (V + q) <= INT64_MAX → ∃ x, buy_core p q px = Ok x.
Proof.
  intros Hn Ha Hr Hq Hp HV Hmax. destruct (fill_products hi V (p_net_qty p) _ q px Hn Ha Hq Hp)
    as (Hheld & Hfill & Hgain). unfold buy_core.
  assert (hi <= hi * (V + q)) by nia. unfold INT64_MAX in *.
  destruct (Z.leb_spec 0 (p_net_qty p)) as [Hs|Hs].
  - rewrite (Z.abs_eq (p_net_qty p)) in Hheld by lia. repeat (rewrite i64_ok by lia; cbn [mbind outcome_bind]).
    edestruct (average_total (p_avg_entry_price p * p_net_qty p + px * q)) as [a ->];
      [unfold INT64_MAX; lia|]. cbn. eauto.
  - rewrite (Z.abs_neq (p_net_qty p)) in Hgain by lia.
    rewrite (i64_ok (- p_net_qty p)) by lia. cbn [mbind outcome_bind].
    cbv zeta.
    replace (if q <=? - p_net_qty p then q else - p_net_qty p) with (Z.min q (- p_net_qty p))
      by (case_Z; lia).
    repeat (rewrite i64_ok by lia; cbn [mbind outcome_bind]). eauto.
Qed.

Lemma sell_core_total hi V p q px :
  Z.abs (p_net_qty p) <= V → 0 <= p_avg_entry_price p <= hi →
  Z.abs (p_realized_pnl p) <= hi * V → 0 < q → 0 <= px <= hi →
  V + q <= INT64_MAX → hi * (V + q) <= INT64_MAX → ∃ x, sell_core p q px = Ok x.
Proof.
  intros Hn Ha Hr Hq Hp HV Hmax. destruct (fill_products hi V (p_net_qty p) _ q px Hn Ha Hq Hp)
    as (Hheld & Hfill & Hgain). unfold sell_core.
  assert (hi <= hi * (V + q)) by nia. unfold INT64_MAX in *.
  destruct (Z.ltb_spec 0 (p_net_qty p)) as [Hs|Hs].
  - rewrite (Z.abs_eq (p_net_qty p)) in Hgain by lia.
    cbv zeta.
    replace (if q <=? p_net_qty p then q else p_net_qty p) with (Z.min q (p_net_qty p))
      by (case_Z; lia).
    repeat (rewrite i64_ok by lia; cbn [mbind outcome_bind]). eauto.
  - rewrite (Z.abs_neq (p_net_qty p)) in Hheld by lia. repeat (rewrite i64_ok by lia; cbn [mbind outcome_bind]).
    edestruct (average_total (p_avg_entry_price p * - p_net_qty p + px * q)) as [a ->];
      [unfold INT64_MAX; lia|]. cbn [mbind outcome_bind].
    repeat (rewrite i64_ok by lia; cbn [mbind outcome_bind]). eauto.
Qed.

Lemma apply_fill_total lo hi V e p :
  0 <= lo → bounded lo hi V p → 0 < oe_fill_qty e → lo <= oe_fill_price e <= hi →
  V + oe_fill_qty e <= INT32_MAX → hi * (V + oe_fill_qty e) <= INT64_MAX →
  ∃ p', apply_fill e p = Ok p'.
Proof.
  intros Hlo Hbd Hq Hpx HV Hmax. pose proof Hbd as [Hn Ha Hr Ht Hl].
  assert (Havg : 0 <= p_avg_entry_price p <= hi) by (destruct (p_net_qty p =? 0); lia).
  assert (HV' : V + oe_fill_qty e <= INT64_MAX) by (unfold INT32_MAX, INT64_MAX in *; lia).
  assert (hi <= hi * (V + oe_fill_qty e)) by nia.
  pose proof (rule_bounded lo hi V (sgn_side (oe_side e)) _ _ _ _ _ Hlo
                (sgn_side_cases _) Hq Hpx Hn Ha Hr) as Hb.
  unfold apply_fill, apply_buy, apply_sell, sgn_side in *.
  case_decide; rewrite i32_ok by (unfold INT32_MAX in *; lia); cbn [mbind outcome_bind].
  - destruct (buy_core_total hi V p (oe_fill_qty e) (oe_fill_price e)) as [x Hx]; [lia..|].
    rewrite Hx. apply buy_core_Ok in Hx. change (fill_rule 1 _ _ _) with (fill_rule 1 (oe_fill_qty e) (oe_fill_price e) (core p)) in Hb.
    rewrite <- Hx in Hb. destruct x as [[net avg] realized]. cbn [mbind outcome_bind].
    destruct (refresh_unrealized_total hi (V + oe_fill_qty e) (p_last_price p) avg net) as [u ->];
      [lia|destruct (net =? 0); lia|lia..|]. cbn. eauto.
  - destruct (sell_core_total hi V p (oe_fill_qty e) (oe_fill_price e)) as [x Hx]; [lia..|].
    rewrite Hx. apply sell_core_Ok in Hx. change (fill_rule (-1) _ _ _) with (fill_rule (-1) (oe_fill_qty e) (oe_fill_price e) (core p)) in Hb.
    rewrite <- Hx in Hb. destruct x as [[net avg] realized]. cbn [mbind outcome_bind].
    destruct (refresh_unrealized_total hi (V + oe_fill_qty e) (p_last_price p) avg net) as [u ->];
      [lia|destruct (net =? 0); lia|lia..|]. cbn. eauto.
Qed.

Lemma run_fills_bounded lo hi es : ∀ V p,
  0 <= lo → bounded lo hi V p →
  Forall (λ e, 0 < oe_fill_qty e ∧ lo <= oe_fill_price e <= hi) es →
  V + sumZ oe_fill_qty es <= INT32_MAX → hi * (V + sumZ oe_fill_qty es) <= INT64_MAX →
  ∃ p', run_fills es p = Ok p' ∧ bounded lo hi (V + sumZ oe_fill_qty es) p'.
Proof.
  induction es as [|e es IH]; intros V p Hlo Hbd Hes HV Hmax.
  { exists p. cbn. by rewrite Z.add_0_r. }
  apply Forall_cons in Hes as [[Hq Hpx] Hes]. cbn [sumZ foldr] in *. fold (sumZ oe_fill_qty es) in *.
  assert (0 <= sumZ oe_fill_qty es).
  { apply sumZ_nonneg. intros x Hx. rewrite Forall_forall in Hes. destruct (Hes x Hx). lia. }
  destruct (apply_fill_total lo hi V e p) as [p1 Hp1]; try done; [lia|nia|].
  pose proof (filled_bounded lo hi V e p p1 Hlo Hq Hpx Hbd (apply_fill_Ok _ _ _ Hp1)) as Hbd1.
  destruct (IH _ _ Hlo Hbd1 Hes) as (p' & Hrun & Hbd'); [lia|by rewrite <- Z.add_assoc|].
  exists p'. unfold run_fills in *. cbn. rewrite Hp1. cbn. split; [done|].
  by rewrite Z.add_assoc.
Qed.

(** ** The tracker as a map of positions *)

Definition track (e : OrderEvent) (m : gmap (list char) Position) :
    outcome (gmap (list char) Position) :=
  if is_fill e then map_upsert (cstr 8 (oe_symbol e)) (apply_fill e) m else Ok m.

Definition symbol_ok (e : OrderEvent) : Prop := length (oe_symbol e) = 8%nat.

Lemma apply_event_tracks e t :
  symbol_ok e → table_wf t →
  table_map <$> PositionTracker.apply_event e t = track e (table_map t) ∧
  (∀ t', PositionTracker.apply_event e t = Ok t' → table_wf t').
Proof.
  intros He Hwf. unfold PositionTracker.apply_event, track, symbol_view.
  destruct (is_fill e); cbn [negb]; [|split; [done|by intros t' [= <-]]].
  rewrite array_view_ok. cbn [mbind outcome_bind].
  set (v := {| sv_data := _; sv_size := _ |}).
  apply (get_or_create_update_refines v); [done| |apply apply_fill_keeps_id].
  apply readable_length. cbn. unfold symbol_ok in He. lia.
Qed.

Lemma tracker_fold es t :
  Forall symbol_ok es → foldO PositionTracker.apply_event es PositionTracker.init = Ok t →
  table_wf t ∧ foldO track es ∅ = Ok (table_map t).
Proof.
  intros Hes Hrun. destruct (fold_refines symbol_ok PositionTracker.apply_event track es table_init)
    as [Heq Hwf]; [apply apply_event_tracks|done|apply table_init_wf|].
  split; [by apply Hwf|]. rewrite table_init_map in Heq. rewrite <- Heq.
  by replace (foldO _ es _) with (Ok t).
Qed.

(** What positive fills that stay within [int32_t] totals keep of every position. *)
Record position_inv (p : Position) : Prop := {
  pi_net : p_net_qty p = p_total_buy_qty p - p_total_sell_qty p;
  pi_buy : 0 <= p_total_buy_qty p <= INT32_MAX;
  pi_sell : 0 <= p_total_sell_qty p <= INT32_MAX;
}.

Lemma position_inv_net p : position_inv p → Z.abs (p_net_qty p) <= INT32_MAX.
Proof. intros [Hn Hb Hs]. lia. Qed.

Lemma apply_fill_inv e p p' :
  0 < oe_fill_qty e → apply_fill e p = Ok p' → position_inv p → position_inv p'.
Proof.
  intros Hq H [Hn Hb Hs]. pose proof (apply_fill_Ok e p p' H) as Hf.
  pose proof (filled_net _ _ _ Hf) as Hnet. unfold signed_qty, sgn_side in Hnet.
  pose proof (filled_buy _ _ _ Hf) as Hb'. pose proof (filled_sell _ _ _ Hf) as Hs'.
  unfold apply_fill in H. revert H Hnet Hb' Hs'.
  destruct (decide (oe_side e = Buy)); intros H Hnet Hb' Hs'; unfold apply_buy, apply_sell in H;
    apply bind_Ok in H as (tot & Htot & _); apply i32_Ok in Htot as [-> Htot];
    apply in_i32_spec in Htot; split; unfold INT32_MAX in *; lia.
Qed.

Lemma tracker_positions_inv es t :
  Forall (λ e, symbol_ok e ∧ (is_fill e = true → 0 < oe_fill_qty e)) es →
  foldO PositionTracker.apply_event es PositionTracker.init = Ok t →
  table_wf t ∧ ∀ p, p ∈ live t → position_inv p.
Proof.
  intros Hes Hrun. destruct (tracker_fold es t) as [Hwf Hm];
    [by eapply Forall_impl; [exact Hes|intros e [? _]]|done|]. split; [done|].
  assert (Hind : map_Forall (λ _, position_inv) (table_map t)).
  { revert Hm. apply (foldO_ind (map_Forall (λ _, position_inv))); [apply map_Forall_empty|].
    intros e m1 m2 He H1 Hm. rewrite Forall_forall in Hes. destruct (Hes e He) as [_ Hq].
    unfold track in Hm. destruct (is_fill e); [|by simplify_eq].
    apply map_upsert_Ok in Hm as [(p' & Hp' & ->)|(-> & _)]; [|done].
    apply map_Forall_insert_2; [|done]. eapply apply_fill_inv; [by apply Hq|done|].
    destruct (m1 !! _) as [p|] eqn:Hp; [by apply (H1 _ _ Hp)|].
    split; cbn; unfold INT32_MAX; lia. }
  intros p Hp. apply (Hind (slot_key p)). by apply table_map_Some.
Qed.

(** The fills of one symbol. *)
Definition fills_of (k : list char) (es : list OrderEvent) : list OrderEvent :=
  base.filter (λ e, is_fill e = true ∧ cstr 8 (oe_symbol e) = k) es.

Definition fill_symbols (es : list OrderEvent) : gset (list char) :=
  list_to_set ((λ e, cstr 8 (oe_symbol e)) <$> base.filter (λ e, is_fill e = true) es).

Lemma fill_symbols_cons e es :
  fill_symbols (e :: es) =
    (if is_fill e then {[ cstr 8 (oe_symbol e) ]} else ∅) ∪ fill_symbols es.
Proof.
  unfold fill_symbols. rewrite filter_cons. destruct (is_fill e); cbn.
  - done.
  - by rewrite (left_id_L ∅ (∪)).
Qed.

(** Folding [track] keeps, for every symbol, the position its own fills make, as
    long as no more symbols than slots have been seen. *)
Lemma track_projection es : ∀ m0 m k,
  foldO track es m0 = Ok m → (size (dom m0 ∪ fill_symbols es) ≤ MAX_SYMBOLS)%nat →
  if decide (fills_of k es = []) then m !! k = m0 !! k
  else ∃ p, run_fills (fills_of k es) (default (Position_fresh (pad 8 k)) (m0 !! k)) = Ok p ∧
            m !! k = Some p.
Proof.
  induction es as [|e es IH]; intros m0 m k Hrun Hsize; cbn [foldO] in Hrun.
  { ok_inv. done. }
  apply bind_Ok in Hrun as (m1 & H1 & Hrun). rewrite fill_symbols_cons in Hsize.
  unfold fills_of in *. rewrite filter_cons. unfold track in H1.
  destruct (is_fill e) eqn:Hf; cycle 1.
  { ok_inv. rewrite (decide_False (P := false = true ∧ _)) by (by intros [? _]).
    apply IH; [done|].
    by rewrite (left_id_L ∅ (∪)) in Hsize. }
  set (k0 := cstr 8 (oe_symbol e)) in *.
  apply map_upsert_Ok in H1 as [(p1 & Hp1 & ->)|(-> & Hnone & Hfull)]; cycle 1.
  { exfalso. assert (size ({[ k0 ]} ∪ dom m0) ≤ MAX_SYMBOLS)%nat.
    { etrans; [|exact Hsize]. apply subseteq_size. set_solver. }
    rewrite size_union, size_singleton in * by (apply not_elem_of_dom in Hnone; set_solver).
    rewrite size_dom in *. cbn in Hfull. lia. }
  assert (Hsize' : (size (dom (<[k0 := p1]> m0) ∪ fill_symbols es) ≤ MAX_SYMBOLS)%nat).
  { etrans; [|exact Hsize]. apply subseteq_size. rewrite dom_insert_L. set_solver. }
  specialize (IH _ _ k Hrun Hsize'). destruct (decide (k0 = k)) as [<-|Hk].
  - rewrite (decide_True (P := true = true ∧ _)) by done. rewrite decide_False by done.
    rewrite lookup_insert_eq in IH. unfold run_fills in *. cbn [foldO].
    change (slot_fresh (pad 8 k0)) with (Position_fresh (pad 8 k0)) in Hp1. rewrite Hp1.
    cbn [mbind outcome_bind default from_option] in *. case_decide as Hnil; [|done].
    rewrite Hnil. exists p1. done.
  - rewrite (decide_False (P := true = true ∧ _)) by (by intros [_ ?]). rewrite lookup_insert_ne in IH by done.
    exact IH.
Qed.

(** ** Properties *)

(** A fill of [q] at [px], for the examples. *)
Definition sample_fill (sym : string) (sd : Side) (q px : Z) : OrderEvent :=
  sample_event FullFill sym "O1" sd q px.
Definition round_trip : list OrderEvent :=
  [sample_fill "AAPL" Buy 100 175500000; sample_fill "AAPL" Sell 40 176000000;
   sample_fill "AAPL" Sell 90 177000000].

(** C20. The buy and the sell code, with their four branches, both implement the
    one reference rule for a fill: same net quantity, average price and realized
    P&L; the unrealized P&L is the mark of the new position at the last price; one
    of the two totals grows by the filled quantity; the symbol and the last price
    stay. *)
Theorem apply_fill_implements_rule e p p' :
  apply_fill e p = Ok p' →
  core p' = rule_of e (core p) ∧ p_unrealized_pnl p' = marked p' ∧
  p_symbol p' = p_symbol p ∧ p_last_price p' = p_last_price p ∧
  p_total_buy_qty p' = p_total_buy_qty p + bought e ∧
  p_total_sell_qty p' = p_total_sell_qty p + sold e ∧
  p_last_updated_seq p' = signed 64 (oe_sequence e).
Proof. intros []%apply_fill_Ok. done. Qed.

Lemma apply_fill_implements_rule_witness :
  let p := {| p_symbol := pad 8 (lit "AAPL"); p_net_qty := 60; p_avg_entry_price := 175500000;
              p_realized_pnl := 0; p_unrealized_pnl := 0; p_total_buy_qty := 60;
              p_total_sell_qty := 0; p_last_price := 0; p_last_updated_seq := 0 |} in
  ∃ p', apply_fill (sample_fill "AAPL" Sell 90 177000000) p = Ok p' ∧
        core p' = (-30, 177000000, 90000000).
Proof.
  intros p. destruct (Ok_ex (apply_fill (sample_fill "AAPL" Sell 90 177000000) p)) as [p' E];
    [vm_compute; reflexivity|].
  exists p'. split; [exact E|]. destruct (apply_fill_implements_rule _ _ _ E) as [-> _].
  vm_compute. reflexivity.
Defined.

(** C37. No undefined behaviour within the stated bounds: when every fill has a
    positive quantity and a price in [lo, hi], the traded quantity fits an int32
    and the traded notional at [hi] fits an int64, every fill returns; the average
    price of an open position stays within [lo, hi], a flat one has average 0, and
    the realized P&L is at most the traded notional. *)
Theorem fills_never_overflow lo hi k es :
  0 <= lo <= hi → Forall (λ e, 0 < oe_fill_qty e ∧ lo <= oe_fill_price e <= hi) es →
  sumZ oe_fill_qty es <= INT32_MAX → hi * sumZ oe_fill_qty es <= INT64_MAX →
  ∃ p, run_fills es (Position_fresh k) = Ok p ∧
    (if is_flat p then p_avg_entry_price p = 0 else lo <= p_avg_entry_price p <= hi) ∧
    Z.abs (p_realized_pnl p) <= hi * sumZ oe_fill_qty es ∧
    Z.abs (p_net_qty p) <= sumZ oe_fill_qty es.
Proof.
  intros [Hlo Hhi] Hes HV Hmax.
  destruct (run_fills_bounded lo hi es 0 (Position_fresh k)) as (p & Hrun & []); try done.
  { apply bounded_fresh. lia. }
  exists p. done.
Qed.

Lemma fills_never_overflow_witness :
  ∃ p, run_fills round_trip (Position_fresh (pad 8 (lit "AAPL"))) = Ok p ∧
       Z.abs (p_realized_pnl p) <= 177000000 * 230.
Proof.
  destruct (fills_never_overflow 175500000 177000000 (pad 8 (lit "AAPL")) round_trip)
    as (p & Hrun & _ & Hr & _); [lia| |vm_compute; discriminate..|].
  { unfold round_trip. repeat constructor; vm_compute; discriminate. }
  exists p. split; [exact Hrun|exact Hr].
Defined.

(** C3. Reconciliation: after any fills of positive quantity, the net quantity is
    what was bought less what was sold, the totals are those sums, and the
    realized P&L equals the cash received plus the cost of the open position, up
    to the rounding of the average price, which is less than one price unit per
    share held after each fill. *)
Theorem position_reconciles k es p :
  Forall (λ e, 0 < oe_fill_qty e) es → run_fills es (Position_fresh k) = Ok p →
  p_total_buy_qty p = sumZ bought es ∧ p_total_sell_qty p = sumZ sold es ∧
  p_net_qty p = sumZ bought es - sumZ sold es ∧
  Z.abs (p_realized_pnl p - (sumZ cash_flow es + p_net_qty p * p_avg_entry_price p))
    <= rounding_bound 0 es.
Proof.
  intros Hq Hrun. pose proof (run_fills_book es _ p Hq Hrun) as Hb.
  pose proof (run_fills_net es _ p Hrun) as Hn. pose proof (run_fills_totals es _ p Hrun) as [Htb Hts].
  rewrite sumZ_signed in Hn. unfold book, core in Hb. cbn in Hb, Hn, Htb, Hts.
  split_and!; [lia..|]. cbn. lia.
Qed.

Lemma position_reconciles_witness :
  ∃ p, run_fills round_trip (Position_fresh (pad 8 (lit "AAPL"))) = Ok p ∧
       p_net_qty p = 100 - 130.
Proof.
  eexists. split; [vm_compute; reflexivity|].
  apply (position_reconciles (pad 8 (lit "AAPL")) round_trip);
    [unfold round_trip; repeat constructor|vm_compute; reflexivity].
Defined.

(** The rounding is real, and the bound is attained: 1 share bought at 1 unit
    and 2 at 2 units, sold again at 2 units, leave the book flat with a realized
    P&L of 3 although only 1 unit of cash was made. *)
Theorem reconciliation_not_exact :
  let es := [sample_fill "AAPL" Buy 1 1; sample_fill "AAPL" Buy 2 2; sample_fill "AAPL" Sell 3 2] in
  sumZ cash_flow es = 1 ∧ rounding_bound 0 es = 2 ∧
  ∃ p, run_fills es (Position_fresh (pad 8 (lit "AAPL"))) = Ok p ∧
       is_flat p = true ∧ p_realized_pnl p = 3.
Proof. split; [done|]. split; [done|]. eexists. split; [vm_compute; reflexivity|done]. Qed.

(** The position of a symbol after a list of events. *)
Lemma folded_position es t sym :
  Forall symbol_ok es → (size (fill_symbols es) ≤ MAX_SYMBOLS)%nat →
  foldO PositionTracker.apply_event es PositionTracker.init = Ok t → sv_ok sym = true →
  PositionTracker.get sym t =
    if decide (fills_of (key sym) es = []) then Ok None
    else Some <$> run_fills (fills_of (key sym) es) (Position_fresh (pad 8 (key sym))).
Proof.
  intros Hes Hsize Hrun Hsym. apply tracker_fold in Hrun as [Hwf Hfold]; [|done].
  unfold PositionTracker.get. rewrite get_spec by done.
  pose proof (track_projection es ∅ _ (key sym) Hfold) as Hp.
  rewrite dom_empty_L, (left_id_L ∅ (∪)), lookup_empty in Hp. specialize (Hp Hsize).
  case_decide; [by rewrite Hp|]. destruct Hp as (p & Hrun & ->).
  cbn [default from_option] in Hrun. by rewrite Hrun.
Qed.

(** C28. Event sourcing: after [replay_from] on any log that holds [es], looking up
    a symbol gives exactly the position that the fills of that symbol make, in log
    order and independently of every other event; a symbol without fills has no
    position.  (At most as many symbols as there are slots.) *)
Theorem replay_projects_fills {L} `{LogLaws L} (log : L) es t sym :
  log_rep log es → Forall symbol_ok es → (size (fill_symbols es) ≤ MAX_SYMBOLS)%nat →
  PositionTracker.replay_from log = Ok t → sv_ok sym = true →
  PositionTracker.get sym t =
    if decide (fills_of (key sym) es = []) then Ok None
    else Some <$> run_fills (fills_of (key sym) es) (Position_fresh (pad 8 (key sym))).
Proof.
  intros Hlog Hes Hsize Hrun. unfold PositionTracker.replay_from in Hrun.
  rewrite (log_replay_rep log es) in Hrun by done. by apply folded_position.
Qed.

Lemma replay_projects_fills_witness :
  let es := [sample_fill "AAPL" Buy 100 175000000; sample_fill "TSLA" Buy 20 250000000;
             sample_fill "AAPL" Sell 40 176000000] in
  ∃ t p, PositionTracker.replay_from es = Ok t ∧
         PositionTracker.get (sv_of_string (lit "AAPL")) t = Ok (Some p) ∧
         p_net_qty p = 60 ∧ p_realized_pnl p = 40000000.
Proof.
  intros es. destruct (Ok_ex (PositionTracker.replay_from es)) as [t E];
    [vm_compute; reflexivity|].
  pose proof (replay_projects_fills es es t (sv_of_string (lit "AAPL"))) as H.
  exists t. eexists. split; [exact E|].
  rewrite H; [|done|unfold es; repeat constructor|apply (bool_decide_unpack _); vm_compute; exact I
             |exact E|reflexivity].
  split; [vm_compute; reflexivity|]. split; reflexivity.
Defined.

Lemma mark_to_market_refines sym px t :
  table_wf t → sv_ok sym = true →
  table_map <$> PositionTracker.mark_to_market sym px t
    = map_update (key sym) (mark_position px) (table_map t) ∧
  (∀ t', PositionTracker.mark_to_market sym px t = Ok t' → table_wf t').
Proof. intros. apply (find_update_refines sym); [done|done|apply mark_position_keeps_id]. Qed.

(** Marking to market: on an open position built from fills of positive
    quantity, [mark_to_market] sets the last price and makes realized plus
    unrealized P&L equal to the cash made plus the market value of the position,
    within the same rounding; net quantity, average price and realized P&L stay.
    On a flat or unknown symbol it does nothing. *)
Theorem mark_to_market_equity sym px t t' :
  table_wf t → sv_ok sym = true → PositionTracker.mark_to_market sym px t = Ok t' →
  table_wf t' ∧
  (∀ k, k ≠ key sym → table_map t' !! k = table_map t !! k) ∧
  match table_map t !! key sym with
  | None => table_map t' !! key sym = None
  | Some p => ∃ p', table_map t' !! key sym = Some p' ∧ core p' = core p ∧
      if is_flat p then p' = p else
      p_last_price p' = px ∧
      ∀ k es, run_fills es (Position_fresh k) = Ok p → Forall (λ e, 0 < oe_fill_qty e) es →
        Z.abs (p_realized_pnl p' + p_unrealized_pnl p' - (sumZ cash_flow es + p_net_qty p * px))
          <= rounding_bound 0 es
  end.
Proof.
  intros Hwf Hsym Hrun. destruct (mark_to_market_refines sym px t Hwf Hsym) as [Hmap Hwf'].
  rewrite Hrun in Hmap. split; [by apply Hwf'|].
  symmetry in Hmap. apply map_update_Ok in Hmap as [(p & p' & Hp & Hmark & ->)|[-> Hnone]].
  - split; [intros; by rewrite lookup_insert_ne|]. rewrite Hp, lookup_insert_eq.
    apply mark_position_Ok in Hmark as (Hc & _ & _ & _ & _ & Hm). exists p'.
    split_and!; [done|done|]. destruct (is_flat p) eqn:Hflat; [done|].
    destruct Hm as [Hl Hu]. split; [done|]. intros k es Hes Hq.
    pose proof (run_fills_book es _ p Hq Hes) as Hb. unfold book, core in *.
    injection Hc as _ _ ->. rewrite Hu. cbn in Hb. lia.
  - by rewrite Hnone.
Qed.

Lemma mark_to_market_equity_witness :
  let tsla := sv_of_string (lit "TSLA") in
  ∃ t t', PositionTracker.mark_to_market tsla 255000000 t = Ok t' ∧
    (∃ p, PositionTracker.get tsla t = Ok (Some p) ∧ is_flat p = false) ∧
    table_map t' !! lit "AAPL" = table_map t !! lit "AAPL".
Proof.
  intros tsla.
  set (es := [sample_fill "AAPL" Buy 7 1000000; sample_fill "TSLA" Buy 50 250000000]).
  set (run := foldO PositionTracker.apply_event es PositionTracker.init).
  destruct (Ok_ex (t ← run; t' ← PositionTracker.mark_to_market tsla 255000000 t; Ok (t, t')))
    as [[t t''] E]; [vm_compute; reflexivity|].
  apply bind_Ok in E as (t1 & E & E'). apply bind_Ok in E' as (t' & E' & _).
  destruct (tracker_fold es t1) as [Hwf _]; [unfold es; repeat constructor|exact E|].
  exists t1, t'. split; [exact E'|]. split.
  - assert (Hget : (t ← run; PositionTracker.get tsla t) = PositionTracker.get tsla t1)
      by (rewrite E; reflexivity).
    rewrite <- Hget. eexists. split; [vm_compute; reflexivity|reflexivity].
  - destruct (mark_to_market_equity tsla _ _ _ Hwf eq_refl E') as (_ & Hother & _).
    apply Hother. vm_compute. discriminate.
Defined.

(** A mark that arrives while the book is flat is lost: after buying and
    selling one share around a mark at 110, a mark at 50 and a purchase at 50, the
    position is still valued at the old price 110. *)
Theorem mark_ignored_while_flat :
  let sym := sv_of_string (lit "AAPL") in
  option_map (λ p, (p_last_price p, p_avg_entry_price p, p_unrealized_pnl p)) <$>
    (t ← PositionTracker.apply_event (sample_fill "AAPL" Buy 1 100) PositionTracker.init;
     t ← PositionTracker.mark_to_market sym 110 t;
     t ← PositionTracker.apply_event (sample_fill "AAPL" Sell 1 110) t;
     t ← PositionTracker.mark_to_market sym 50 t;
     t ← PositionTracker.apply_event (sample_fill "AAPL" Buy 1 50) t;
     PositionTracker.get sym t) = Ok (Some (110, 50, 60)).
Proof. vm_compute. reflexivity. Qed.

(** The capacity limit loses fills silently: once every slot is taken, a fill of
    a new symbol returns normally and changes nothing. *)
Theorem full_tracker_drops_fill e t :
  table_wf t → symbol_ok e → is_fill e = true → count_ t = MAX_SYMBOLS →
  table_map t !! cstr 8 (oe_symbol e) = None →
  PositionTracker.apply_event e t = Ok t.
Proof.
  intros Hwf He Hfill Hfull Hnone. unfold PositionTracker.apply_event, symbol_view.
  rewrite Hfill, array_view_ok. cbn [negb mbind outcome_bind].
  set (v := {| sv_data := _; sv_size := _ |}). unfold get_or_create.
  destruct (find_spec v t) as (r & -> & Hr); [done| |].
  { apply readable_length. cbn. unfold symbol_ok in He. lia. }
  unfold key, v in Hr. cbn [sv_data] in Hr. rewrite Hnone in Hr.
  destruct r as [i|]; [by destruct Hr as (_ & s & _ & _ & ?)|].
  cbn [mbind outcome_bind]. rewrite decide_True; [done|]. rewrite Hfull. cbn. lia.
Qed.

(** A tracker whose slots are all taken, by two-character symbols. *)
Definition small_symbol (i : nat) : list char :=
  [byte_of (1 + Z.of_nat i mod 64); byte_of (1 + Z.of_nat i / 64)].
Definition full_table : table Position := {|
  slots_ := (λ i, Position_fresh (pad 8 (small_symbol i))) <$> seq 0 MAX_SYMBOLS;
  count_ := MAX_SYMBOLS;
|}.

Lemma byte_of_inj x y : 0 <= x < 256 → 0 <= y < 256 → byte_of x = byte_of y → x = y.
Proof. intros ? ? H%(f_equal char_code). rewrite !char_code_byte_of, !Z.mod_small in H; lia. Qed.

Lemma small_symbol_digits i :
  (i < MAX_SYMBOLS)%nat → 0 <= Z.of_nat i mod 64 < 64 ∧ 0 <= Z.of_nat i / 64 < 16.
Proof.
  unfold MAX_SYMBOLS. intros. split; [apply Z.mod_pos_bound; lia|].
  split; [apply Z.div_pos; lia|apply Z.div_lt_upper_bound; lia].
Qed.

Lemma small_symbol_key i :
  (i < MAX_SYMBOLS)%nat → slot_key (Position_fresh (pad 8 (small_symbol i))) = small_symbol i.
Proof.
  intros Hi%small_symbol_digits. apply (cstr_pad 8); [|cbn; lia].
  repeat constructor; intros Hc; apply (byte_of_inj _ 0) in Hc; lia.
Qed.

Lemma full_table_live : live full_table = slots_ full_table.
Proof. unfold live. apply take_ge. unfold full_table. cbn [slots_ count_]. by rewrite length_fmap, length_seq. Qed.

Lemma full_table_wf : table_wf full_table.
Proof.
  split; rewrite ?full_table_live; unfold full_table; cbn [slots_ count_].
  - by rewrite length_fmap, length_seq.
  - reflexivity.
  - intros s (i & -> & _)%list_elem_of_fmap. reflexivity.
  - rewrite <- list_fmap_compose. apply NoDup_fmap_2_strong; [|apply NoDup_seq].
    intros i j Hi Hj. apply elem_of_seq in Hi, Hj. unfold compose.
    rewrite !small_symbol_key by lia. intros [= H1 H2].
    pose proof (small_symbol_digits i ltac:(lia)). pose proof (small_symbol_digits j ltac:(lia)).
    apply byte_of_inj in H1, H2; [|lia..].
    pose proof (Z.div_mod (Z.of_nat i) 64). pose proof (Z.div_mod (Z.of_nat j) 64). lia.
Qed.

Lemma full_tracker_drops_fill_witness :
  PositionTracker.apply_event (sample_fill "AAPL" Buy 100 175000000) full_table = Ok full_table.
Proof.
  apply full_tracker_drops_fill; [apply full_table_wf|reflexivity..|].
  apply table_map_None; [apply full_table_wf|]. rewrite full_table_live.
  intros s (i & -> & Hi)%list_elem_of_fmap. apply elem_of_seq in Hi.
  rewrite small_symbol_key by lia. vm_compute. discriminate.
Defined.
