(* ===== verification/Snapshot.v ===== *)
(** * [Snapshot]: replaying a log that is being written

    [EventLog::replay] loads [next_seq_] once and then reads that many events, one after
    another, with the writer of [Concurrency] going on in between. *)

From stdpp Require Import relations.
From S2P Require Import Prelude CString OrderEvent EventLog Concurrency SlotTable PositionTracker.

Local Open Scope Z_scope.

(** A reader: before the load, in the loop at index [i] of [n], or done. *)
Inductive reader (A : Type) : Type :=
  | R_begin (s : A)
  | R_loop (n i : Z) (s : A)
  | R_done (r : outcome A).
Arguments R_begin {A} s.
Arguments R_loop {A} n i s.
Arguments R_done {A} r.

Section Snapshot.
Context {A : Type} (fn : OrderEvent → A → outcome A).
Implicit Types (m : log_machine) (rd : reader A).

(** One step of [replay]: the load of the count, or the test and one iteration. *)
Definition reader_step m rd : reader A :=
  match rd with
  | R_begin s => R_loop (cs_next m) 0 s
  | R_loop n i s =>
      if i <? n then
        match (e ← load_event (cs_file m) i; fn e s) with
        | Ok s => R_loop n (i + 1) s
        | r => R_done r
        end
      else R_done (Ok s)
  | R_done r => R_done r
  end.

(** The writer and the reader beside each other. *)
Inductive beside : log_machine * reader A → log_machine * reader A → Prop :=
  | beside_writer m m' rd : single_writer m m' → beside (m, rd) (m', rd)
  | beside_reader m rd : beside (m, rd) (m, reader_step m rd).

(** What the reader has done so far, on the events of the moment [m1] of its load. *)
Definition read_so_far (s0 : A) (es0 : list OrderEvent) m0 m rd : Prop :=
  match rd with
  | R_begin s => s = s0
  | R_loop n i s => ∃ es m1, rtc single_writer m0 m1 ∧ rtc single_writer m1 m ∧
      reached es0 es m1 ∧ cs_next m1 = Z.of_nat (length es) ∧ n = Z.of_nat (length es) ∧
      0 <= i <= n ∧ foldO fn (take (Z.to_nat i) es) s0 = Ok s
  | R_done r => ∃ es m1, rtc single_writer m0 m1 ∧ rtc single_writer m1 m ∧
      reached es0 es m1 ∧ cs_next m1 = Z.of_nat (length es) ∧ foldO fn es s0 = r
  end.

(** The count of a moment, and events that stay readable from then on. *)
Lemma moment es0 es m : reached es0 es m → cs_next m = Z.of_nat (length es).
Proof. intros Hr. by destruct (re_inv _ _ _ Hr) as (pc & _ & Hn & _). Qed.

Lemma stays_readable es0 es m1 m i e :
  reached es0 es m1 → rtc single_writer m1 m → es !! i = Some e →
  load_event (cs_file m) (Z.of_nat i) = Ok e.
Proof.
  intros Hr Hsteps Hi. destruct (reached_steps es0 es m1 m Hr Hsteps) as (es2 & Hp & Hr2).
  apply (machine_inv_read es2); [apply Hr2|]. by eapply prefix_lookup_Some.
Qed.

Lemma foldO_failed (xs ys : list OrderEvent) s r :
  foldO fn xs s = r → (∀ s', r ≠ Ok s') → foldO fn (xs ++ ys) s = r.
Proof. intros Hrun Hr. rewrite foldO_app, Hrun. destruct r; [by destruct (Hr a)|done..]. Qed.

Lemma reader_step_read s0 es0 m0 m rd :
  reached es0 es0 m0 → rtc single_writer m0 m →
  read_so_far s0 es0 m0 m rd → read_so_far s0 es0 m0 m (reader_step m rd).
Proof.
  intros H0 Hm Hrd. destruct rd as [s|n i s|r]; cbn [read_so_far] in Hrd; [| |done].
  - subst s. destruct (reached_steps es0 es0 m0 m H0 Hm) as (es & _ & Hr).
    pose proof (moment _ _ _ Hr) as Hn. exists es, m. split_and!; try done; lia.
  - destruct Hrd as (es & m1 & H01 & H1m & Hr & Hn & -> & Hi & Hfold). cbn [reader_step].
    destruct (Z.ltb_spec i (Z.of_nat (length es))) as [Hlt|Hge]; cycle 1.
    { exists es, m1. split_and!; try done. by rewrite take_ge in Hfold by lia. }
    destruct (lookup_lt_is_Some_2 es (Z.to_nat i)) as [e He]; [lia|].
    pose proof (stays_readable _ _ _ _ _ _ Hr H1m He) as Hload. rewrite Z2Nat.id in Hload by lia.
    rewrite Hload. cbn [mbind outcome_bind].
    assert (Hnext : foldO fn (take (Z.to_nat (i + 1)) es) s0 = fn e s).
    { rewrite Z2Nat.inj_add by lia. rewrite Nat.add_1_r, (take_S_r _ _ e) by done.
      rewrite foldO_app, Hfold. cbn. by destruct (fn e s). }
    assert (Hall : ∀ r, fn e s = r → (∀ s', r ≠ Ok s') → foldO fn es s0 = r).
    { intros r <- Hno. rewrite <- (take_drop (Z.to_nat (i + 1)) es). by apply foldO_failed. }
    destruct (fn e s) as [s'|x| |]; exists es, m1; split_and!; try done; try lia; by apply Hall.
Qed.

Lemma beside_read s0 es0 m0 m rd m' rd' :
  reached es0 es0 m0 → rtc single_writer m0 m → read_so_far s0 es0 m0 m rd →
  rtc beside (m, rd) (m', rd') → rtc single_writer m0 m' ∧ read_so_far s0 es0 m0 m' rd'.
Proof.
  intros H0 Hm Hrd Hsteps. remember (m, rd) as p eqn:Hp. remember (m', rd') as p' eqn:Hp'.
  revert m rd Hp Hm Hrd. induction Hsteps as [p|p p1 p2 Hstep _ IH]; intros m rd -> Hm Hrd.
  { injection Hp' as <- <-. done. }
  inversion Hstep as [m1 m2 rd1 Hw|m1 rd1]; subst.
  - apply (IH eq_refl m2 rd eq_refl); [by eapply rtc_r|]. destruct rd as [s|n i s|r]; [done|..].
    + destruct Hrd as (es & m1 & H01 & H1m & Hrest). exists es, m1. split; [done|]. split; [by eapply rtc_r|done].
    + destruct Hrd as (es & m1 & H01 & H1m & Hrest). exists es, m1. split; [done|]. split; [by eapply rtc_r|done].
  - apply (IH eq_refl m (reader_step m rd) eq_refl); [done|]. by apply reader_step_read.
Qed.

(** The steps a reader still needs, whatever the writer does meanwhile. *)
Definition steps_left m rd : nat :=
  match rd with
  | R_begin _ => S (S (Z.to_nat (cs_next m)))
  | R_loop n i _ => S (Z.to_nat (n - i))
  | R_done _ => 0
  end.

Lemma reader_ends s0 es0 m0 m k : ∀ rd,
  reached es0 es0 m0 → rtc single_writer m0 m → read_so_far s0 es0 m0 m rd →
  (steps_left m rd ≤ k)%nat → ∃ r, Nat.iter k (reader_step m) rd = R_done r.
Proof.
  induction k as [|k IH]; intros rd H0 Hm Hrd Hk.
  { destruct rd as [s|n i s|r]; cbn in Hk; [lia..|]. by exists r. }
  rewrite Nat.iter_succ_r. apply IH; [done|done|by apply reader_step_read|].
  destruct rd as [s|n i s|r]; cbn [steps_left reader_step] in *; [lia| |lia].
  destruct (Z.ltb_spec i n); [|cbn; lia].
  destruct (e ← load_event (cs_file m) i; fn e s); cbn; lia.
Qed.
End Snapshot.

(** ** Properties *)

(** C27. Replaying beside the writer: however the iterations of [replay] interleave with
    the writes of appends that go on, the call ends, after at most two steps more than
    there were events when it began to read; and what it computes is the fold over
    exactly the events that the log held at the one moment it loaded the count, complete
    and in order, none of the later ones among them.  Both [replay_from]s are instances. *)
Theorem replay_beside_writer_is_snapshot {A} (fn : OrderEvent → A → outcome A) l es0 s0 m rd :
  log_wf l es0 → rtc (beside fn) (machine_of 1 l, R_begin s0) (m, rd) →
  (∃ r, Nat.iter (steps_left m rd) (reader_step fn m) rd = R_done r) ∧
  ∀ r, rd = R_done r → ∃ es m1,
    rtc single_writer (machine_of 1 l) m1 ∧ rtc single_writer m1 m ∧
    es0 `prefix_of` es ∧ cs_next m1 = Z.of_nat (length es) ∧
    (∀ i e, es !! i = Some e → load_event (cs_file m1) (Z.of_nat i) = Ok e) ∧
    r = foldO fn es s0.
Proof.
  intros Hwf Hsteps. pose proof (reached_start l es0 Hwf) as H0.
  destruct (beside_read fn s0 es0 (machine_of 1 l) (machine_of 1 l) (R_begin s0) m rd)
    as [Hm Hrd]; [done|apply rtc_refl|done|done|].
  split; [by apply (reader_ends fn s0 es0 (machine_of 1 l))|]. intros r ->.
  destruct Hrd as (es & m1 & H01 & H1m & Hr & Hn & <-). exists es, m1.
  split; [done|]. split; [done|]. split; [apply Hr|]. split; [done|]. split; [|done].
  intros i e Hi. by apply (stays_readable es0 es m1 m1 i e Hr (rtc_refl _ _)).
Qed.

(** A schedule of both: appends of the writer, steps of the reader. *)
Inductive beside_action : Type :=
  | B_write (a : append_action)
  | B_read.

Fixpoint run_beside {A} (fn : OrderEvent → A → outcome A) (sched : list beside_action)
    (p : log_machine * reader A) : option (log_machine * reader A) :=
  match sched with
  | [] => Some p
  | B_write a :: sched => m ← append_step 0 a p.1; run_beside fn sched (m, p.2)
  | B_read :: sched => run_beside fn sched (p.1, reader_step fn p.1 p.2)
  end.

Lemma run_beside_steps {A} (fn : OrderEvent → A → outcome A) sched p p' :
  Forall (λ b, match b with B_write a => action_ok a | B_read => True end) sched →
  run_beside fn sched p = Some p' → rtc (beside fn) p p'.
Proof.
  intros Hok. revert p. induction Hok as [|b sched Hb _ IH]; intros [m rd] Hrun; [by injection Hrun as ->|].
  destruct b as [a|]; cbn [run_beside fst snd] in Hrun.
  - apply bind_Some in Hrun as (m' & Hstep & Hrun).
    eapply rtc_l; [apply beside_writer; by exists a|by apply IH].
  - eapply rtc_l; [apply beside_reader|by apply IH].
Qed.

(** A tracker replays while a second fill is being appended. *)
Definition write_of (e : OrderEvent) : list beside_action :=
  (λ p, B_write p.2) <$> append_schedule 0 e sample_clock.
Definition snapshot_schedule : list beside_action :=
  write_of (sample_event FullFill "AAPL" "ORD0" Buy 100 175500000) ++ [B_read] ++
  write_of (sample_event FullFill "AAPL" "ORD1" Buy 50 175500000) ++ [B_read; B_read].

Lemma replay_beside_writer_is_snapshot_witness :
  ∃ l m t es, log_wf l [] ∧
    rtc (beside PositionTracker.apply_event) (machine_of 1 l, R_begin PositionTracker.init)
      (m, R_done (Ok t)) ∧ cs_next m = 2 ∧
    foldO PositionTracker.apply_event es PositionTracker.init = Ok t ∧ p_net_qty <$> live t = [100].
Proof.
  destruct (create_wf "session.bin") as (l & Hopen & Hwf).
  assert (Hrun : (λ p, (cs_next p.1, match p.2 with R_done (Ok t) => Some (p_net_qty <$> live t) | _ => None end)) <$>
      (l ← match (open_or_create sys_ok "session.bin" None).2 with Ok l => Some l | _ => None end;
       run_beside PositionTracker.apply_event snapshot_schedule
         (machine_of 1 l, R_begin PositionTracker.init)) = Some (2, Some [100]))
    by (vm_compute; reflexivity).
  rewrite Hopen in Hrun. cbn [snd mbind option_bind] in Hrun.
  apply fmap_Some in Hrun as ([m rd] & Hrun & Hres). cbn [fst snd] in Hres.
  assert (Hok : Forall (λ b, match b with B_write a => action_ok a | B_read => True end) snapshot_schedule)
    by (unfold snapshot_schedule, write_of; repeat constructor).
  pose proof (run_beside_steps _ _ _ _ Hok Hrun) as Hsteps.
  destruct rd as [?|?|[t|?| |]]; [discriminate Hres..| |discriminate Hres|discriminate Hres|discriminate Hres].
  injection Hres as Hn Ht.
  destruct (replay_beside_writer_is_snapshot _ l [] _ m _ Hwf Hsteps) as [_ Hsnap].
  destruct (Hsnap _ eq_refl) as (es & m1 & _ & _ & _ & _ & _ & Hfold).
  exists l, m, t, es. split; [exact Hwf|]. split; [exact Hsteps|]. split; [by symmetry|].
  split; by symmetry.
Defined.
