(* ===== verification/OrderManager.v ===== *)
(** * [OrderManager]: order lifecycle projected from events (include/OrderManager.h)

    The order record and the five event handlers, the manager as a slot table
    keyed by order id, its refinement to a map of orders, the lifecycle state
    machine and the open-exposure sum. *)

From S2P Require Import Prelude CString OrderEvent EventLog SlotTable.

Local Open Scope Z_scope.

(** ** States and orders *)

Inductive OrderState : Type :=
  | Pending | PartiallyFilled | Filled | Cancelled | Rejected
  | OrderState_raw (b : Z).

#[export] Instance OrderState_eq_dec : EqDecision OrderState.
Proof. solve_decision. Defined.

Definition OrderState_to_string (s : OrderState) : string :=
  match s with
  | Pending => "Pending"
  | PartiallyFilled => "PartiallyFilled"
  | Filled => "Filled"
  | Cancelled => "Cancelled"
  | Rejected => "Rejected"
  | OrderState_raw _ => "Unknown"
  end.

Record Order : Type := {
  o_order_id       : list char;  (* char[8] *)
  o_symbol         : list char;  (* char[8] *)
  o_limit_price    : Z;          (* int64_t *)
  o_avg_fill_price : Z;          (* int64_t *)
  o_opened_seq     : Z;          (* uint64_t *)
  o_last_seq       : Z;          (* uint64_t *)
  o_original_qty   : Z;          (* int32_t *)
  o_filled_qty     : Z;          (* int32_t *)
  o_state          : OrderState;
  o_side           : Side;
}.

Definition MAX_ORDERS : nat := 512.

Definition Order_fresh (oid : list char) : Order := {|
  o_order_id := oid; o_symbol := replicate 8 NUL;
  o_limit_price := 0; o_avg_fill_price := 0; o_opened_seq := 0; o_last_seq := 0;
  o_original_qty := 0; o_filled_qty := 0;
  o_state := OrderState_raw 0; o_side := Side_raw 0;
|}.

#[export] Instance Order_slot : Slot Order := {
  slot_id := o_order_id; slot_fresh := Order_fresh; slot_max := MAX_ORDERS;
}.
#[export] Instance Order_slot_laws : SlotLaws Order.
Proof. by split. Qed.

Definition Order_order_id_view (o : Order) : outcome string_view := array_view (o_order_id o).
Definition Order_symbol_view (o : Order) : outcome string_view := array_view (o_symbol o).

Definition remaining_qty (o : Order) : outcome Z := i32 (o_original_qty o - o_filled_qty o).

Definition state_open (s : OrderState) : bool :=
  bool_decide (s = Pending) || bool_decide (s = PartiallyFilled).
Definition is_open (o : Order) : bool := state_open (o_state o).
Definition is_terminal (o : Order) : bool := negb (is_open o).

(** ** The writes of the handlers to the order they found *)

Definition new_order (e : OrderEvent) (o : Order) : outcome Order :=
  symbol ← strncpy (oe_symbol e) 8;
  Ok {|
    o_order_id := o_order_id o; o_symbol := symbol;
    o_limit_price := oe_price e; o_avg_fill_price := 0;
    o_opened_seq := oe_sequence e; o_last_seq := oe_sequence e;
    o_original_qty := oe_qty e; o_filled_qty := 0;
    o_state := Pending; o_side := oe_side e;
  |}.

Definition fill_order (e : OrderEvent) (o : Order) : outcome Order :=
  prev_cost ← i64 (o_avg_fill_price o * o_filled_qty o);
  fill_cost ← i64 (oe_fill_price e * oe_fill_qty e);
  new_filled ← i32 (o_filled_qty o + oe_fill_qty e);
  avg ← (if 0 <? new_filled
         then cost ← i64 (prev_cost + fill_cost); div64 cost new_filled
         else Ok 0);
  remaining ← i32 (o_original_qty o - new_filled);
  Ok {|
    o_order_id := o_order_id o; o_symbol := o_symbol o;
    o_limit_price := o_limit_price o; o_avg_fill_price := avg;
    o_opened_seq := o_opened_seq o; o_last_seq := oe_sequence e;
    o_original_qty := o_original_qty o; o_filled_qty := new_filled;
    o_state := if remaining <=? 0 then Filled else PartiallyFilled;
    o_side := o_side o;
  |}.

(** [handle_cancel] and [handle_reject] differ in the state they set. *)
Definition close_order (s : OrderState) (e : OrderEvent) (o : Order) : outcome Order :=
  Ok {|
    o_order_id := o_order_id o; o_symbol := o_symbol o;
    o_limit_price := o_limit_price o; o_avg_fill_price := o_avg_fill_price o;
    o_opened_seq := o_opened_seq o; o_last_seq := oe_sequence e;
    o_original_qty := o_original_qty o; o_filled_qty := o_filled_qty o;
    o_state := s; o_side := o_side o;
  |}.

Definition amend_order (e : OrderEvent) (o : Order) : outcome Order :=
  Ok {|
    o_order_id := o_order_id o; o_symbol := o_symbol o;
    o_limit_price := if 0 <? oe_price e then oe_price e else o_limit_price o;
    o_avg_fill_price := o_avg_fill_price o;
    o_opened_seq := o_opened_seq o; o_last_seq := oe_sequence e;
    o_original_qty := if 0 <? oe_qty e then oe_qty e else o_original_qty o;
    o_filled_qty := o_filled_qty o;
    o_state := o_state o; o_side := o_side o;
  |}.

(** ** The manager *)

Module OrderManager.
Definition t : Type := table Order.

Definition init : t := table_init.

(** The pointers to the slots, as in the tracker. *)
Definition find (oid : string_view) (s : t) : outcome (option nat) := SlotTable.find oid s.
Definition get_or_create (oid : string_view) (s : t) : outcome (option nat * t) :=
  SlotTable.get_or_create oid s.

Definition handle_new (e : OrderEvent) (s : t) : outcome t :=
  v ← order_id_view e;
  r ← get_or_create v s;
  on_slot (new_order e) r.1 r.2.

Definition handle_fill (e : OrderEvent) (s : t) : outcome t :=
  v ← order_id_view e; p ← find v s; on_slot (fill_order e) p s.

Definition handle_cancel (e : OrderEvent) (s : t) : outcome t :=
  v ← order_id_view e; p ← find v s; on_slot (close_order Cancelled e) p s.

Definition handle_reject (e : OrderEvent) (s : t) : outcome t :=
  v ← order_id_view e; p ← find v s; on_slot (close_order Rejected e) p s.

Definition handle_amend (e : OrderEvent) (s : t) : outcome t :=
  v ← order_id_view e; p ← find v s; on_slot (amend_order e) p s.

(** [PartialFill] falls through to the case of [FullFill]. *)
Definition apply_event (e : OrderEvent) (s : t) : outcome t :=
  match oe_type e with
  | NewOrder => handle_new e s
  | PartialFill | FullFill => handle_fill e s
  | Cancel => handle_cancel e s
  | Reject => handle_reject e s
  | Amend => handle_amend e s
  | EventType_raw _ => Ok s
  end.

Definition get (oid : string_view) (s : t) : outcome (option Order) := SlotTable.get oid s.

Definition for_each {S} (fn : Order → S → outcome S) (s : t) (x : S) : outcome S :=
  foldO fn (live s) x.

Definition for_each_open {S} (fn : Order → S → outcome S) (s : t) (x : S) : outcome S :=
  foldO (λ o x, if is_open o then fn o x else Ok x) (live s) x.

(** One iteration of the loop of [open_exposure]. *)
Definition add_exposure (sym : string_view) (o : Order) (exp : Z) : outcome Z :=
  if negb (is_open o) then Ok exp else
  c ← strncmp (o_symbol o) (sv_data sym) 8;
  if negb (c =? 0) then Ok exp else
  signed_remaining ←
    (if decide (o_side o = Buy) then remaining_qty o
     else r ← remaining_qty o; i32 (- r));
  i32 (exp + signed_remaining).

Definition open_exposure (sym : string_view) (s : t) : outcome Z :=
  foldO (add_exposure sym) (live s) 0.

Definition order_count (s : t) : nat := count_ s.
Definition open_order_count (s : t) : nat := length (base.filter (λ o, is_open o = true) (live s)).

Definition replay_from {L} `{LogOps L} (log : L) : outcome t :=
  log_replay apply_event log init.
End OrderManager.

(** ** The manager as a map of orders *)

(** What an event does to an order that exists. *)
Definition order_step (e : OrderEvent) : Order → outcome Order :=
  match oe_type e with
  | NewOrder => new_order e
  | PartialFill | FullFill => fill_order e
  | Cancel => close_order Cancelled e
  | Reject => close_order Rejected e
  | Amend => amend_order e
  | EventType_raw _ => Ok
  end.

Definition order_key (e : OrderEvent) : list char := cstr 8 (oe_order_id e).

Definition manage (e : OrderEvent) (m : gmap (list char) Order) :
    outcome (gmap (list char) Order) :=
  if decide (oe_type e = NewOrder)
  then map_upsert (order_key e) (order_step e) m
  else map_update (order_key e) (order_step e) m.

Definition ids_ok (e : OrderEvent) : Prop :=
  length (oe_order_id e) = 8%nat ∧ length (oe_symbol e) = 8%nat.

Lemma fill_order_Ok e o o' :
  fill_order e o = Ok o' →
  o_order_id o' = o_order_id o ∧ o_symbol o' = o_symbol o ∧ o_side o' = o_side o ∧
  o_limit_price o' = o_limit_price o ∧ o_original_qty o' = o_original_qty o ∧
  o_opened_seq o' = o_opened_seq o ∧ o_last_seq o' = oe_sequence e ∧
  o_filled_qty o' = o_filled_qty o + oe_fill_qty e ∧
  o_avg_fill_price o' =
    (if 0 <? o_filled_qty o'
     then Z.quot (o_avg_fill_price o * o_filled_qty o + oe_fill_price e * oe_fill_qty e)
                 (o_filled_qty o')
     else 0) ∧
  o_state o' = if o_original_qty o - o_filled_qty o' <=? 0 then Filled else PartiallyFilled.
Proof.
  unfold fill_order. intros H. ok_inv. cbn. split_and!; try done.
  destruct (0 <? _); ok_inv; done.
Qed.

Lemma order_step_keeps_id e : keeps_id (order_step e).
Proof.
  intros o o'. unfold order_step. destruct (oe_type e); intros H.
  2,3: apply (fill_order_Ok _ _ _ H).
  all: unfold new_order, close_order, amend_order in H; ok_inv; done.
Qed.

Lemma order_id_view_ok e :
  ids_ok e → ∃ v, order_id_view e = Ok v ∧ sv_ok v = true ∧ key v = order_key e.
Proof.
  intros [Ho _]. unfold order_id_view. rewrite array_view_ok. eexists. split; [done|].
  split; [apply readable_length; cbn; lia|done].
Qed.

Lemma manager_apply_event e t :
  ids_ok e → table_wf t →
  table_map <$> OrderManager.apply_event e t = manage e (table_map t) ∧
  (∀ t', OrderManager.apply_event e t = Ok t' → table_wf t').
Proof.
  intros He Hwf. destruct (order_id_view_ok e He) as (v & Hv & Hok & Hk).
  pose proof (order_step_keeps_id e) as Hkeep. unfold OrderManager.apply_event, manage.
  unfold OrderManager.handle_new, OrderManager.handle_fill, OrderManager.handle_cancel,
    OrderManager.handle_reject, OrderManager.handle_amend, OrderManager.find,
    OrderManager.get_or_create. rewrite Hv. cbn [mbind outcome_bind].
  rewrite <- Hk. unfold order_step in *.
  destruct (oe_type e); cbn [decide decide_rel EventType_eq_dec].
  1: rewrite decide_True by done; by apply get_or_create_update_refines.
  1-5: rewrite decide_False by done; by apply find_update_refines.
  rewrite decide_False by done. unfold map_update. split; [|by intros t' [= <-]].
  destruct (table_map t !! key v) as [o|] eqn:Ho; [|done]. cbn. by rewrite insert_id.
Qed.

Lemma manager_fold es t :
  Forall ids_ok es → foldO OrderManager.apply_event es OrderManager.init = Ok t →
  table_wf t ∧ foldO manage es ∅ = Ok (table_map t).
Proof.
  intros Hes Hrun. destruct (fold_refines ids_ok OrderManager.apply_event manage es table_init)
    as [Heq Hwf]; [apply manager_apply_event|done|apply table_init_wf|].
  split; [by apply Hwf|]. rewrite table_init_map in Heq. rewrite <- Heq.
  by replace (foldO _ es _) with (Ok t).
Qed.

(** The history of one order id: nothing until its first [NewOrder], then a fold
    of its own events. *)
Definition order_history_step (e : OrderEvent) (o : option Order) : outcome (option Order) :=
  match o with
  | Some o => Some <$> order_step e o
  | None =>
      if decide (oe_type e = NewOrder)
      then Some <$> new_order e (Order_fresh (pad 8 (order_key e)))
      else Ok None
  end.
Definition order_history (es : list OrderEvent) (o : option Order) : outcome (option Order) :=
  foldO order_history_step es o.

Definition events_of (k : list char) (es : list OrderEvent) : list OrderEvent :=
  base.filter (λ e, order_key e = k) es.

Definition new_ids (es : list OrderEvent) : gset (list char) :=
  list_to_set (order_key <$> base.filter (λ e, oe_type e = NewOrder) es).

Lemma new_ids_cons e es :
  new_ids (e :: es) =
    (if decide (oe_type e = NewOrder) then {[ order_key e ]} else ∅) ∪ new_ids es.
Proof.
  unfold new_ids. rewrite filter_cons. case_decide; cbn; [done|].
  by rewrite (left_id_L ∅ (∪)).
Qed.

(** One event of the manager, seen from every id, while there is room. *)
Lemma manage_lookup e m m' k :
  manage e m = Ok m' →
  (oe_type e = NewOrder → order_key e ∉ dom m → (size m < MAX_ORDERS)%nat) →
  (if decide (order_key e = k)
   then order_history_step e (m !! k) = Ok (m' !! k) else m' !! k = m !! k) ∧
  dom m' ⊆ (if decide (oe_type e = NewOrder) then {[ order_key e ]} else ∅) ∪ dom m.
Proof.
  unfold manage. intros Hm Hroom. destruct (decide (oe_type e = NewOrder)) as [Hn|Hn].
  - apply map_upsert_Ok in Hm as [(o' & Ho' & ->)|(-> & Hnone & Hfull)].
    + rewrite dom_insert_L. split; [|done].
      case_decide as Hk; [subst k|by rewrite lookup_insert_ne].
      rewrite lookup_insert_eq. unfold order_history_step, order_step in *. rewrite Hn in *.
      destruct (m !! order_key e); cbn in *; by rewrite Ho'.
    + apply not_elem_of_dom in Hnone. specialize (Hroom Hn Hnone). cbn in Hfull. lia.
  - apply map_update_Ok in Hm as [(o & o' & Ho & Ho' & ->)|(-> & Hnone)].
    + rewrite dom_insert_lookup_L by eauto. split; [|set_solver].
      case_decide as Hk; [subst k|by rewrite lookup_insert_ne].
      by rewrite lookup_insert_eq, Ho; cbn; rewrite Ho'.
    + split; [|set_solver]. case_decide as Hk; [subst k|done].
      rewrite Hnone. cbn. by rewrite decide_False.
Qed.

Lemma manage_projection es : ∀ m0 m k,
  foldO manage es m0 = Ok m → (size (dom m0 ∪ new_ids es) ≤ MAX_ORDERS)%nat →
  order_history (events_of k es) (m0 !! k) = Ok (m !! k).
Proof.
  induction es as [|e es IH]; intros m0 m k Hrun Hsize; cbn [foldO] in Hrun.
  { ok_inv. done. }
  apply bind_Ok in Hrun as (m1 & H1 & Hrun). rewrite new_ids_cons in Hsize.
  destruct (manage_lookup e m0 m1 k H1) as [Hk Hdom].
  { intros Hn Hfresh. rewrite decide_True in Hsize by done.
    assert (size ({[ order_key e ]} ∪ dom m0) ≤ MAX_ORDERS)%nat as Hs.
    { etrans; [|exact Hsize]. apply subseteq_size. set_solver. }
    rewrite size_union, size_singleton, size_dom in Hs by set_solver. lia. }
  specialize (IH m1 m k Hrun). unfold events_of in *. rewrite filter_cons.
  assert (order_history (base.filter (λ e, order_key e = k) es) (m1 !! k) = Ok (m !! k)) as IH'.
  { apply IH. etrans; [|exact Hsize]. apply subseteq_size. set_solver. }
  destruct (decide (order_key e = k)); unfold order_history in *; cbn [foldO].
  - by rewrite Hk.
  - by rewrite <- Hk.
Qed.

(** ** Properties of the projection *)

(** Events of an order, for the examples. *)
Definition sample_new (oid : string) (sd : Side) (q p : Z) : OrderEvent :=
  sample_event NewOrder "AAPL" oid sd q p.
Definition sample_order_fill (oid : string) (q p : Z) : OrderEvent :=
  sample_event PartialFill "AAPL" oid Buy q p.
Definition sample_cancel (oid : string) : OrderEvent := sample_event Cancel "AAPL" oid Buy 0 0.

(** The order of an identifier after a list of events. *)
Lemma folded_order es t oid :
  Forall ids_ok es → (size (new_ids es) ≤ MAX_ORDERS)%nat →
  foldO OrderManager.apply_event es OrderManager.init = Ok t → sv_ok oid = true →
  OrderManager.get oid t = order_history (events_of (key oid) es) None.
Proof.
  intros Hes Hsize Hrun Hoid. apply manager_fold in Hrun as [Hwf Hfold]; [|done].
  unfold OrderManager.get. rewrite get_spec by done.
  pose proof (manage_projection es ∅ _ (key oid) Hfold) as Hp.
  rewrite dom_empty_L, (left_id_L ∅ (∪)), lookup_empty in Hp. by rewrite Hp.
Qed.

(** C29. Event sourcing of orders: after [replay_from] on any log that holds [es],
    looking up an order id gives exactly what the history of that id makes of its
    own events, in log order: nothing before its first [NewOrder], events of other
    ids play no part.  (At most as many order ids as there are slots.) *)
Theorem replay_projects_orders {L} `{LogLaws L} (log : L) es t oid :
  log_rep log es → Forall ids_ok es → (size (new_ids es) ≤ MAX_ORDERS)%nat →
  OrderManager.replay_from log = Ok t → sv_ok oid = true →
  OrderManager.get oid t = order_history (events_of (key oid) es) None.
Proof.
  intros Hlog Hes Hsize Hrun. unfold OrderManager.replay_from in Hrun.
  rewrite (log_replay_rep log es) in Hrun by done. by apply folded_order.
Qed.

Lemma replay_projects_orders_witness :
  let es := [sample_new "O1" Buy 100 175000000; sample_new "O2" Sell 30 176000000;
             sample_order_fill "O1" 60 174000000; sample_cancel "O2";
             sample_order_fill "O1" 40 176500000] in
  ∃ t o, OrderManager.replay_from es = Ok t ∧
         OrderManager.get (sv_of_string (lit "O1")) t = Ok (Some o) ∧
         o_state o = Filled ∧ o_filled_qty o = 100 ∧ o_avg_fill_price o = 175000000.
Proof.
  intros es. destruct (Ok_ex (OrderManager.replay_from es)) as [t E]; [vm_compute; reflexivity|].
  exists t. eexists. split; [exact E|].
  rewrite (replay_projects_orders es es t (sv_of_string (lit "O1")));
    [|done|unfold es; repeat constructor|apply (bool_decide_unpack _); vm_compute; exact I
     |exact E|reflexivity].
  split; [vm_compute; reflexivity|]. split_and!; reflexivity.
Defined.

(** ** The lifecycle *)

(** The transitions the documentation of [OrderState] draws. *)
Inductive lifecycle : OrderState → OrderState → Prop :=
  | lc_partial : lifecycle Pending PartiallyFilled
  | lc_filled : lifecycle PartiallyFilled Filled
  | lc_cancel_partial : lifecycle PartiallyFilled Cancelled
  | lc_cancel_pending : lifecycle Pending Cancelled
  | lc_reject : lifecycle Pending Rejected.
#[local] Hint Constructors lifecycle : core.

(** The state after an event, whatever the state before. *)
Definition next_state (e : OrderEvent) (o : Order) : OrderState :=
  match oe_type e with
  | NewOrder => Pending
  | PartialFill | FullFill =>
      if o_original_qty o <=? o_filled_qty o + oe_fill_qty e then Filled else PartiallyFilled
  | Cancel => Cancelled
  | Reject => Rejected
  | Amend | EventType_raw _ => o_state o
  end.

Lemma order_step_state e o o' : order_step e o = Ok o' → o_state o' = next_state e o.
Proof.
  unfold order_step, next_state. destruct (oe_type e); intros H.
  2,3: apply fill_order_Ok in H as (_ & _ & _ & _ & _ & _ & _ & Hf & _ & ->); rewrite Hf;
       destruct (Z.leb_spec (o_original_qty o - (o_filled_qty o + oe_fill_qty e)) 0),
         (Z.leb_spec (o_original_qty o) (o_filled_qty o + oe_fill_qty e)); auto; lia.
  all: unfold new_order, close_order, amend_order in H; ok_inv; done.
Qed.

(** Live orders follow the documented lifecycle: for an order in state
    [Pending] or [PartiallyFilled], any event other than a second [NewOrder] (and
    other than a rejection of a partially filled order) moves it along the drawn
    transitions, possibly several at once; a partial and a full fill are treated
    alike, the quantities alone decide between [PartiallyFilled] and [Filled]. *)
Theorem live_order_follows_lifecycle e o o' :
  is_open o = true → oe_type e ≠ NewOrder →
  (oe_type e = Reject → o_state o = Pending) → order_step e o = Ok o' →
  rtc lifecycle (o_state o) (o_state o') ∧
  (is_fill e = true →
    o_state o' = if o_original_qty o <=? o_filled_qty o + oe_fill_qty e
                 then Filled else PartiallyFilled).
Proof.
  intros Hopen Hnew Hrej Hstep. rewrite (order_step_state _ _ _ Hstep).
  unfold is_open, state_open in Hopen. apply orb_true_iff in Hopen.
  rewrite !bool_decide_eq_true in Hopen. unfold next_state, is_fill.
  assert (Hpf : rtc lifecycle (o_state o) PartiallyFilled)
    by (destruct Hopen as [-> | ->]; eauto using rtc_once, rtc_refl).
  split; [|by destruct (oe_type e)]. destruct (oe_type e); try done.
  1,2: case_match; [eapply rtc_r; eauto|done].
  - destruct Hopen as [-> | ->]; eauto using rtc_once.
  - rewrite Hrej by done. eauto using rtc_once.
Qed.

Lemma live_order_follows_lifecycle_witness :
  ∃ o o', new_order (sample_new "O1" Buy 100 175000000) (Order_fresh (pad 8 (lit "O1"))) = Ok o ∧
          order_step (sample_order_fill "O1" 100 175000000) o = Ok o' ∧
          o_state o' = Filled ∧ rtc lifecycle Pending (o_state o').
Proof.
  eexists. eexists. split; [vm_compute; reflexivity|]. split; [vm_compute; reflexivity|].
  split; [reflexivity|].
  match goal with |- rtc _ _ (o_state ?o') =>
    destruct (live_order_follows_lifecycle (sample_order_fill "O1" 100 175000000)
      {| o_order_id := pad 8 (lit "O1"); o_symbol := pad 8 (lit "AAPL");
         o_limit_price := 175000000; o_avg_fill_price := 0; o_opened_seq := 0; o_last_seq := 0;
         o_original_qty := 100; o_filled_qty := 0; o_state := Pending; o_side := Buy |} o')
      as [Hlc _]; [reflexivity|discriminate|discriminate|vm_compute; reflexivity|] end.
  exact Hlc.
Defined.

(** Terminal states are not final: the handlers do not look at the state, so
    an order in a terminal state is open again after an event exactly when the
    event is a [NewOrder] with its id or a fill that leaves quantity remaining,
    and a filled order becomes cancelled or rejected on such an event. *)
Theorem terminal_order_reopens e o o' :
  is_terminal o = true → order_step e o = Ok o' →
  (is_open o' = true ↔
    oe_type e = NewOrder ∨
    (is_fill e = true ∧ o_filled_qty o + oe_fill_qty e < o_original_qty o)) ∧
  (oe_type e = Cancel → o_state o' = Cancelled) ∧ (oe_type e = Reject → o_state o' = Rejected).
Proof.
  intros Hterm Hstep. pose proof (order_step_state _ _ _ Hstep) as Hs.
  unfold is_terminal, is_open, next_state, is_fill in *. rewrite Hs.
  apply negb_true_iff in Hterm.
  destruct (oe_type e); cbn; rewrite ?Hterm; split_and!; try done.
  all: try (destruct (Z.leb_spec (o_original_qty o) (o_filled_qty o + oe_fill_qty e)); cbn).
  all: split; [intros; try discriminate; auto|intros [?|[? ?]]; auto; try discriminate; lia].
Qed.

Lemma terminal_order_reopens_witness :
  ∃ o', fill_order (sample_order_fill "O1" 30 175000000)
          {| o_order_id := pad 8 (lit "O1"); o_symbol := pad 8 (lit "AAPL");
             o_limit_price := 175000000; o_avg_fill_price := 0; o_opened_seq := 0; o_last_seq := 1;
             o_original_qty := 100; o_filled_qty := 0; o_state := Cancelled; o_side := Buy |}
        = Ok o' ∧ is_open o' = true.
Proof.
  eexists. split; [vm_compute; reflexivity|].
  eapply (terminal_order_reopens (sample_order_fill "O1" 30 175000000)
    {| o_order_id := pad 8 (lit "O1"); o_symbol := pad 8 (lit "AAPL");
       o_limit_price := 175000000; o_avg_fill_price := 0; o_opened_seq := 0; o_last_seq := 1;
       o_original_qty := 100; o_filled_qty := 0; o_state := Cancelled; o_side := Buy |});
    [reflexivity|vm_compute; reflexivity|].
  right. split; reflexivity.
Defined.

(** ** Invariant of an order's history *)

(** What every order keeps; the consistency of its state with its quantities, which an
    amendment does not look after. *)
Record order_states (o : Order) : Prop := {
  os_filled : 0 <= o_filled_qty o;
  os_pending : o_state o = Pending → o_filled_qty o = 0 ∧ o_avg_fill_price o = 0;
  os_state : ∀ b, o_state o ≠ OrderState_raw b;
  os_lengths : length (o_symbol o) = 8%nat;
}.
Record order_quantities (o : Order) : Prop := {
  oq_partial : o_state o = PartiallyFilled → o_filled_qty o < o_original_qty o;
  oq_done : o_state o = Filled → o_original_qty o <= o_filled_qty o;
}.

Lemma new_order_Ok e o o' :
  length (oe_symbol e) = 8%nat → new_order e o = Ok o' →
  o_state o' = Pending ∧ o_filled_qty o' = 0 ∧ o_avg_fill_price o' = 0 ∧
  o_original_qty o' = oe_qty e ∧ o_side o' = oe_side e ∧ o_limit_price o' = oe_price e ∧
  o_symbol o' = pad 8 (cstr 8 (oe_symbol e)) ∧ o_order_id o' = o_order_id o ∧
  o_opened_seq o' = oe_sequence e ∧ o_last_seq o' = oe_sequence e.
Proof.
  intros Hl H. unfold new_order in H.
  rewrite strncpy_spec in H by (apply readable_length; lia).
  ok_inv. done.
Qed.

Lemma new_order_inv e o o' :
  length (oe_symbol e) = 8%nat → new_order e o = Ok o' → order_states o' ∧ order_quantities o'.
Proof.
  intros Hl (Hs & Hf & Ha & _ & _ & _ & Hsym & _)%new_order_Ok; [|done].
  repeat split; rewrite ?Hs, ?Hf, ?Ha, ?Hsym; try done; try lia. by apply pad_length, cstr_length.
Qed.

Lemma order_step_states e o o' :
  ids_ok e → (is_fill e = true → 0 < oe_fill_qty e) →
  order_states o → order_step e o = Ok o' → order_states o'.
Proof.
  intros [_ Hl] Hq [] H. unfold order_step, is_fill in *. destruct (oe_type e).
  1: by apply (new_order_inv e o o' Hl) in H as [? _].
  1,2: specialize (Hq eq_refl); apply fill_order_Ok in H as (_ & Hy & _ & _ & _ & _ & _ & Hf & _ & Hs);
    destruct (Z.leb_spec (o_original_qty o - o_filled_qty o') 0);
    split; rewrite ?Hs, ?Hf, ?Hy; try done; lia.
  all: unfold close_order, amend_order in *; ok_inv; by split.
Qed.

Lemma order_step_quantities e o o' :
  ids_ok e → oe_type e ≠ Amend → order_quantities o → order_step e o = Ok o' → order_quantities o'.
Proof.
  intros [_ Hl] Ham [] H. unfold order_step in H. destruct (oe_type e); try done.
  1: by apply (new_order_inv e o o' Hl) in H as [_ ?].
  1,2: apply fill_order_Ok in H as (_ & _ & _ & _ & Ho & _ & _ & _ & _ & Hs);
    destruct (Z.leb_spec (o_original_qty o - o_filled_qty o') 0);
    split; rewrite ?Hs, ?Ho; intros; try discriminate; lia.
  all: unfold close_order in *; ok_inv; by split.
Qed.

(** C39. Invariant of the order book: in the table that any sequence of events with
    positive fills leaves, amendments included, the filled quantity of every stored
    order is not negative, a pending order is unfilled, and no order is in an undefined
    state; and of every order that was never amended, a partially filled one has less
    filled than ordered and a filled one has nothing remaining.  (After an amendment
    the second part can fail: [amend_below_filled_stays_open].) *)
Theorem order_book_invariant es t o :
  Forall (λ e, ids_ok e ∧ (is_fill e = true → 0 < oe_fill_qty e)) es →
  foldO OrderManager.apply_event es OrderManager.init = Ok t → o ∈ live t →
  order_states o ∧
  ((∀ e, e ∈ es → oe_type e = Amend → order_key e ≠ slot_key o) → order_quantities o).
Proof.
  intros Hes Hrun Ho. rewrite Forall_forall in Hes.
  destruct (manager_fold es t) as [Hwf Hm]; [apply Forall_forall; by intros e [? _]%Hes|done|].
  assert (Hin : table_map t !! slot_key o = Some o) by (by apply table_map_Some).
  revert Hin. clear Ho. generalize (slot_key o) as k. revert o.
  set (kept k := ∀ e, e ∈ es → oe_type e = Amend → order_key e ≠ k).
  refine (foldO_ind (λ m, ∀ o k, m !! k = Some o → order_states o ∧ (kept k → order_quantities o))
    manage es ∅ _ _ _ Hm); [done|].
  intros e m1 m2 He IH Hstep o k. destruct (Hes e He) as [Hids Hq].
  unfold manage in Hstep. case_decide as Hn.
  - apply map_upsert_Ok in Hstep as [(o' & Ho' & ->)|(-> & _)]; [|by apply IH].
    intros [[<- <-]|[_ Hk]]%lookup_insert_Some; [|by apply IH].
    unfold order_step in Ho'. rewrite Hn in Ho'. by apply (new_order_inv e _ _ (proj2 Hids)) in Ho' as [? ?].
  - apply map_update_Ok in Hstep as [(o1 & o2 & Ho & Ho' & ->)|[-> _]]; [|by apply IH].
    intros [[<- <-]|[_ Hk]]%lookup_insert_Some; [|by apply IH].
    destruct (IH _ _ Ho) as [Hst Hqt]. split; [by eapply order_step_states|].
    intros Hkept. eapply order_step_quantities; [done| |by apply Hqt|done].
    intros Ham. by apply (Hkept e).
Qed.

Lemma order_book_invariant_witness :
  let es := [sample_new "O1" Buy 100 175000000; sample_order_fill "O1" 60 174000000;
             sample_new "O2" Sell 10 175000000; sample_event Amend "AAPL" "O2" Sell 20 0] in
  ∃ t o, foldO OrderManager.apply_event es OrderManager.init = Ok t ∧ live t !! 0%nat = Some o ∧
    order_states o ∧ order_quantities o.
Proof.
  intros es. destruct (Ok_ex (foldO OrderManager.apply_event es OrderManager.init)) as [t E];
    [vm_compute; reflexivity|].
  assert (Hk : (λ o, slot_key o) <$> live t !! 0%nat = Some (lit "O1")).
  { apply (bool_decide_eq_true_1 _),
      (Ok_check _ t (λ t, bool_decide ((λ o, slot_key o) <$> live t !! 0%nat = Some (lit "O1"))) E).
    vm_compute. reflexivity. }
  apply fmap_Some in Hk as (o & Ho & Hk).
  destruct (order_book_invariant es t o) as [Hs Hq];
    [unfold es; repeat constructor; discriminate|exact E|by eapply list_elem_of_lookup_2|].
  exists t, o. split; [exact E|]. split; [exact Ho|]. split; [exact Hs|]. apply Hq. rewrite <- Hk.
  unfold es. intros e He Ham Hkey. repeat (apply elem_of_cons in He as [->|He]); try discriminate.
  by apply not_elem_of_nil in He.
Defined.

(** ** Quantities and average price of an order *)

Lemma fill_order_total lo hi V e o :
  0 <= lo → 0 < oe_fill_qty e → lo <= oe_fill_price e <= hi →
  0 <= o_filled_qty o <= V → (o_filled_qty o = 0 ∨ lo <= o_avg_fill_price o <= hi) →
  0 <= o_original_qty o <= INT32_MAX →
  V + oe_fill_qty e <= INT32_MAX → hi * (V + oe_fill_qty e) <= INT64_MAX →
  Z.abs (o_avg_fill_price o) <= INT64_MAX →
  ∃ o', fill_order e o = Ok o' ∧ lo <= o_avg_fill_price o' <= hi.
Proof.
  intros Hlo Hq Hpx Hf Ha Ho HV Hmax Habs. unfold INT32_MAX, INT64_MAX in *.
  set (c := o_avg_fill_price o * o_filled_qty o) in *.
  assert (0 <= c <= hi * V) by (unfold c; destruct Ha as [->|]; nia).
  assert (0 <= oe_fill_price e * oe_fill_qty e <= hi * oe_fill_qty e) by nia.
  pose proof (quot_average_bound lo hi (o_avg_fill_price o) (o_filled_qty o)
                (oe_fill_price e) (oe_fill_qty e)) as Hqb. fold c in Hqb.
  assert (Hhi : hi <= hi * (V + oe_fill_qty e)) by nia.
  unfold fill_order. fold c.
  rewrite (i64_ok c), (i64_ok (oe_fill_price e * _)), (i32_ok (o_filled_qty o + _)) by lia.
  cbn [mbind outcome_bind]. rewrite (proj2 (Z.ltb_lt _ _)) by lia.
  rewrite (i64_ok (c + _)) by lia. cbn [mbind outcome_bind].
  rewrite div64_ok by lia. cbn [mbind outcome_bind]. rewrite i32_ok by lia.
  cbn [mbind outcome_bind]. eexists. split; [done|]. cbn. lia.
Qed.

Lemma order_step_fill e o : is_fill e = true → order_step e o = fill_order e o.
Proof. unfold is_fill, order_step. by destruct (oe_type e). Qed.

(** The state of an order is the sum of its fills. *)
Lemma fills_run_total lo hi es : ∀ V o,
  0 <= lo → Forall (λ e, is_fill e = true ∧ 0 < oe_fill_qty e ∧ lo <= oe_fill_price e <= hi) es →
  0 <= o_filled_qty o <= V → (o_filled_qty o = 0 ∨ lo <= o_avg_fill_price o <= hi) →
  0 <= o_original_qty o <= INT32_MAX →
  V + sumZ oe_fill_qty es <= INT32_MAX → hi * (V + sumZ oe_fill_qty es) <= INT64_MAX →
  Z.abs (o_avg_fill_price o) <= INT64_MAX → hi <= INT64_MAX →
  ∃ o', foldO order_step es o = Ok o' ∧
    o_filled_qty o' = o_filled_qty o + sumZ oe_fill_qty es ∧
    o_original_qty o' = o_original_qty o ∧ o_side o' = o_side o ∧
    (es ≠ [] → lo <= o_avg_fill_price o' <= hi ∧
       o_state o' = if o_original_qty o <=? o_filled_qty o' then Filled else PartiallyFilled).
Proof.
  induction es as [|e es IH]; intros V o Hlo Hes Hf Ha Ho HV Hmax Habs Hhi.
  { exists o. cbn. split_and!; [done|lia|done..]. }
  apply Forall_cons in Hes as ((Hfill & Hq & Hpx) & Hes). cbn [sumZ foldr] in *.
  fold (sumZ oe_fill_qty es) in *.
  assert (0 <= sumZ oe_fill_qty es).
  { apply sumZ_nonneg. intros x Hx. rewrite Forall_forall in Hes. destruct (Hes x Hx). lia. }
  destruct (fill_order_total lo hi V e o) as (o1 & H1 & Ha1); try done; [lia|nia|].
  pose proof (fill_order_Ok _ _ _ H1) as (_ & _ & Hs1 & _ & Ho1 & _ & _ & Hf1 & _ & Hst1).
  destruct (IH (V + oe_fill_qty e) o1) as (o' & Hrun & Hf' & Ho' & Hs' & Hne);
    try done; [lia|by right|by rewrite Ho1|lia|by rewrite <- Z.add_assoc|lia|].
  exists o'. cbn [foldO]. rewrite (order_step_fill e o Hfill), H1. cbn [mbind outcome_bind].
  rewrite Hs1, Ho1 in *. split_and!; [done|lia|done..|]. intros _.
  destruct es as [|e' es]; [|by apply Hne].
  cbn in Hrun. ok_inv. split; [done|]. rewrite Hst1.
  destruct (Z.leb_spec (o_original_qty o - o_filled_qty o') 0),
    (Z.leb_spec (o_original_qty o) (o_filled_qty o')); auto; lia.
Qed.

(** An order and its fills: a [NewOrder] followed by fills of positive quantity
    at prices in [lo, hi], within the int32 and int64 limits, always returns; the
    filled quantity is the sum of the fills, the average fill price lies in
    [lo, hi], and the order is [Filled] exactly when the fills reach the ordered
    quantity. *)
Theorem order_fills_accounted lo hi e0 es o0 :
  0 <= lo → lo <= hi <= INT64_MAX → oe_type e0 = NewOrder → length (oe_symbol e0) = 8%nat →
  0 <= oe_qty e0 <= INT32_MAX →
  Forall (λ e, is_fill e = true ∧ 0 < oe_fill_qty e ∧ lo <= oe_fill_price e <= hi) es →
  sumZ oe_fill_qty es <= INT32_MAX → hi * sumZ oe_fill_qty es <= INT64_MAX →
  ∃ o, foldO order_step (e0 :: es) o0 = Ok o ∧
    o_filled_qty o = sumZ oe_fill_qty es ∧ o_original_qty o = oe_qty e0 ∧
    o_side o = oe_side e0 ∧
    o_state o = (if decide (es = []) then Pending
                 else if oe_qty e0 <=? sumZ oe_fill_qty es then Filled else PartiallyFilled) ∧
    (es ≠ [] → lo <= o_avg_fill_price o <= hi).
Proof.
  intros Hlo Hhi Hnew Hl Hq0 Hes HV Hmax.
  destruct (new_order e0 o0) as [o1| | |] eqn:H1;
    try (unfold new_order in H1; rewrite strncpy_spec in H1 by (apply readable_length; lia);
         discriminate H1).
  pose proof (new_order_Ok e0 o0 o1 Hl H1) as (Hs & Hf & Ha & Ho & Hsd & _).
  destruct (fills_run_total lo hi es 0 o1) as (o & Hrun & Hfo & Hoo & Hso & Hne);
    rewrite ?Hf, ?Ha, ?Ho in *; try done; try lia; try (by left).
  exists o. cbn [foldO].
  assert (order_step e0 = new_order e0) as -> by (unfold order_step; by rewrite Hnew).
  rewrite H1. cbn [mbind outcome_bind].
  split; [done|]. split; [done|]. split; [done|]. split; [congruence|].
  case_decide as He; [subst es; cbn in Hrun; ok_inv; done|].
  destruct (Hne He) as [Havg Hst]. rewrite Hst, Hfo. done.
Qed.

Lemma order_fills_accounted_witness :
  ∃ o, foldO order_step [sample_new "O1" Buy 100 175000000; sample_order_fill "O1" 60 174000000;
                         sample_order_fill "O1" 40 176500000] (Order_fresh (pad 8 (lit "O1"))) = Ok o ∧
       o_state o = Filled ∧ 174000000 <= o_avg_fill_price o <= 176500000.
Proof.
  destruct (order_fills_accounted 174000000 176500000 (sample_new "O1" Buy 100 175000000)
    [sample_order_fill "O1" 60 174000000; sample_order_fill "O1" 40 176500000]
    (Order_fresh (pad 8 (lit "O1")))) as (o & Hrun & _ & _ & _ & Hst & Ha);
    [lia|unfold INT64_MAX; lia|reflexivity|reflexivity|unfold INT32_MAX; cbn; lia
    |repeat constructor; vm_compute; discriminate|vm_compute; discriminate..|].
  exists o. split; [exact Hrun|]. split; [rewrite Hst; reflexivity|]. apply Ha. discriminate.
Defined.

(** An amendment does not re-examine the state: reducing an order for 100 that
    has 60 filled to 50 leaves it open with -10 remaining, which [open_exposure]
    counts as a short exposure of 10. *)
Theorem amend_below_filled_stays_open :
  (t ← foldO OrderManager.apply_event
        [sample_new "O1" Buy 100 175000000; sample_order_fill "O1" 60 175000000;
         sample_event Amend "AAPL" "O1" Buy 50 0] OrderManager.init;
   o ← OrderManager.get (sv_of_string (lit "O1")) t;
   exp ← OrderManager.open_exposure (sv_of_string (lit "AAPL")) t;
   Ok (option_map o_state o, option_map o_original_qty o, exp))
  = Ok (Some PartiallyFilled, Some 50, -10).
Proof. vm_compute. reflexivity. Qed.

(** ** Open exposure *)

(** The signed remaining quantity of a live order on symbol [k]. *)
Definition exposure_of (k : list char) (o : Order) : Z :=
  if is_open o && bool_decide (cstr 8 (o_symbol o) = k)
  then (if decide (o_side o = Buy) then 1 else -1) * (o_original_qty o - o_filled_qty o)
  else 0.

(** Its size on any symbol. *)
Definition open_size (o : Order) : Z :=
  if is_open o then Z.abs (o_original_qty o - o_filled_qty o) else 0.

Definition symbols_ok (t : table Order) : Prop := ∀ o, o ∈ live t → length (o_symbol o) = 8%nat.

Lemma exposure_of_size k o : Z.abs (exposure_of k o) <= open_size o.
Proof.
  unfold exposure_of, open_size. destruct (is_open o); cbn; [|lia].
  case_bool_decide; [case_decide|]; lia.
Qed.

Lemma add_exposure_spec sym o exp x :
  length (o_symbol o) = 8%nat → sv_ok sym = true →
  OrderManager.add_exposure sym o exp = Ok x → x = exp + exposure_of (key sym) o.
Proof.
  intros Hl Hs. unfold OrderManager.add_exposure, exposure_of, remaining_qty.
  destruct (is_open o); cbn [negb andb]; [|intros [= <-]; lia].
  destruct (strncmp_spec 8 (o_symbol o) (sv_data sym)) as (c & -> & Hc);
    [apply readable_length; lia|done|]. cbn [mbind outcome_bind].
  fold (key sym) in Hc. destruct (Z.eqb_spec c 0) as [He|He]; cbn [negb].
  - rewrite bool_decide_true by tauto. case_decide; intros Hx; ok_inv; lia.
  - rewrite bool_decide_false by tauto. intros [= <-]. lia.
Qed.

Lemma add_exposure_total sym o exp :
  length (o_symbol o) = 8%nat → sv_ok sym = true →
  Z.abs exp + open_size o <= INT32_MAX → is_Ok (OrderManager.add_exposure sym o exp) = true.
Proof.
  intros Hl Hs Hb. unfold OrderManager.add_exposure, open_size, remaining_qty, INT32_MAX in *.
  destruct (is_open o); cbn [negb]; [|done].
  destruct (strncmp_spec 8 (o_symbol o) (sv_data sym)) as (c & -> & _);
    [apply readable_length; lia|done|]. cbn [mbind outcome_bind].
  destruct (negb (c =? 0)); [done|].
  case_decide; repeat (rewrite i32_ok by lia; cbn [mbind outcome_bind]); done.
Qed.

Lemma add_exposures_spec sym os : ∀ exp,
  (∀ o, o ∈ os → length (o_symbol o) = 8%nat) → sv_ok sym = true →
  Z.abs exp + sumZ open_size os <= INT32_MAX →
  foldO (OrderManager.add_exposure sym) os exp = Ok (exp + sumZ (exposure_of (key sym)) os).
Proof.
  induction os as [|o os IH]; intros exp Hl Hs Hb; cbn [foldO sumZ foldr] in *.
  { f_equal. lia. }
  fold (sumZ open_size os) in *. fold (sumZ (exposure_of (key sym)) os).
  assert (0 <= sumZ open_size os).
  { apply sumZ_nonneg. intros. unfold open_size. destruct (is_open _); lia. }
  destruct (Ok_ex (OrderManager.add_exposure sym o exp)) as [x Hx].
  { apply add_exposure_total; [apply Hl; left|done|lia]. }
  rewrite Hx. cbn [mbind outcome_bind].
  apply add_exposure_spec in Hx as ->; [|apply Hl; left|done].
  pose proof (exposure_of_size (key sym) o).
  rewrite IH; [f_equal; lia|by intros; apply Hl; right|done|lia].
Qed.

Lemma map_sum_live (f : Order → Z) t : table_wf t → map_sum f (table_map t) = sumZ f (live t).
Proof.
  intros Hwf. unfold map_sum.
  by rewrite (sumZ_perm _ _ _ (map_to_list_live t Hwf)), sumZ_fmap.
Qed.

Lemma exposure_sum_bound k (n : Z) t :
  table_wf t → map_sum open_size (table_map t) <= n →
  Z.abs (map_sum (exposure_of k) (table_map t)) <= n.
Proof.
  intros Hwf Hsum. rewrite !map_sum_live in * by done. revert n Hsum.
  induction (live t) as [|o l IH]; intros n Hn; cbn [sumZ foldr] in *; [lia|].
  fold (sumZ open_size l) in *. fold (sumZ (exposure_of k) l).
  pose proof (exposure_of_size k o). specialize (IH (n - open_size o)). lia.
Qed.

Lemma open_exposure_total sym t :
  table_wf t → symbols_ok t → sv_ok sym = true →
  map_sum open_size (table_map t) <= INT32_MAX →
  OrderManager.open_exposure sym t = Ok (map_sum (exposure_of (key sym)) (table_map t)).
Proof.
  intros Hwf Hl Hs. rewrite !map_sum_live by done. intros Hb.
  unfold OrderManager.open_exposure. by rewrite add_exposures_spec by done.
Qed.

Lemma add_exposures_Ok sym os exp x :
  (∀ o, o ∈ os → length (o_symbol o) = 8%nat) → sv_ok sym = true →
  foldO (OrderManager.add_exposure sym) os exp = Ok x →
  x = exp + sumZ (exposure_of (key sym)) os.
Proof.
  intros Hos Hs. revert exp. induction os as [|o os IH]; intros exp Hrun; cbn in Hrun; ok_inv;
    [cbn; lia|].
  apply add_exposure_spec in Ha; [|apply Hos; left|done].
  apply IH in Hrun; [|by intros; apply Hos; right].
  cbn [sumZ foldr]. fold (sumZ (exposure_of (key sym)) os). lia.
Qed.

Lemma open_exposure_Ok sym t x :
  table_wf t → symbols_ok t → sv_ok sym = true →
  OrderManager.open_exposure sym t = Ok x → x = map_sum (exposure_of (key sym)) (table_map t).
Proof.
  intros Hwf Hl Hs Hrun. rewrite map_sum_live by done.
  by rewrite (add_exposures_Ok sym (live t) 0 x Hl Hs Hrun).
Qed.

(** The symbols stored are always 8 bytes wide. *)
Lemma symbols_ok_map t :
  table_wf t → symbols_ok t ↔ map_Forall (λ _ o, length (o_symbol o) = 8%nat) (table_map t).
Proof.
  intros Hwf. unfold symbols_ok, map_Forall. setoid_rewrite table_map_Some; [|done].
  naive_solver.
Qed.

Lemma order_step_symbol e o o' :
  ids_ok e → length (o_symbol o) = 8%nat → order_step e o = Ok o' → length (o_symbol o') = 8%nat.
Proof.
  intros [_ Hl] Ho H. unfold order_step in H. destruct (oe_type e).
  1: apply (new_order_Ok _ _ _ Hl) in H as (_ & _ & _ & _ & _ & _ & -> & _);
     apply pad_length, cstr_length.
  1,2: apply fill_order_Ok in H as (_ & -> & _); done.
  all: unfold close_order, amend_order in H; ok_inv; done.
Qed.

Lemma manage_symbols e m m' :
  ids_ok e → map_Forall (λ _ o, length (o_symbol o) = 8%nat) m → manage e m = Ok m' →
  map_Forall (λ _ o, length (o_symbol o) = 8%nat) m'.
Proof.
  intros He Hm H. unfold manage in H. case_decide.
  - apply map_upsert_Ok in H as [(o' & Ho' & ->)|(-> & _)]; [|done].
    apply map_Forall_insert_2; [|done]. eapply order_step_symbol; [done| |done].
    destruct (m !! order_key e) eqn:Hk; cbn; [by eapply Hm|done].
  - apply map_update_Ok in H as [(o & o' & Ho & Ho' & ->)|[-> _]]; [|done].
    apply map_Forall_insert_2; [|done]. eapply order_step_symbol; [done| |done]. by eapply Hm.
Qed.

Lemma apply_event_symbols e t t' :
  ids_ok e → table_wf t → symbols_ok t → OrderManager.apply_event e t = Ok t' → symbols_ok t'.
Proof.
  intros He Hwf Hs Hrun. destruct (manager_apply_event e t He Hwf) as [Hm Hwf'].
  rewrite Hrun in Hm. symmetry in Hm.
  apply symbols_ok_map; [by apply Hwf'|]. eapply manage_symbols; [done| |done].
  by apply symbols_ok_map.
Qed.

Lemma manager_run es t :
  Forall ids_ok es → foldO OrderManager.apply_event es OrderManager.init = Ok t →
  table_wf t ∧ symbols_ok t.
Proof.
  intros Hes Hrun. destruct (manager_fold es t Hes Hrun) as [Hwf Hfold]. split; [done|].
  apply symbols_ok_map; [done|]. revert Hfold. apply foldO_ind; [apply map_Forall_empty|].
  intros e m1 m2 He. rewrite Forall_forall in Hes. apply manage_symbols. by apply Hes.
Qed.

(** What an event does to the exposure of a symbol: the old contribution of its
    order is replaced by the new one. *)
Lemma manage_exposure k e m m' :
  manage e m = Ok m' →
  map_sum (exposure_of k) m' = map_sum (exposure_of k) m
    + default 0 (exposure_of k <$> m' !! order_key e)
    - default 0 (exposure_of k <$> m !! order_key e).
Proof.
  unfold manage. intros H. case_decide.
  - apply map_upsert_Ok in H as [(o' & _ & ->)|(-> & _)]; [|lia].
    rewrite map_sum_insert, lookup_insert_eq. done.
  - apply map_update_Ok in H as [(o & o' & _ & _ & ->)|[-> _]]; [|lia].
    rewrite map_sum_insert, lookup_insert_eq. done.
Qed.

(** C22. [open_exposure] is the signed sum, over the live orders of the symbol, of
    the quantity remaining (buys positive, everything else negative), and it
    returns whenever the live orders' remaining quantities together fit an int32. *)
Theorem open_exposure_is_sum es t sym :
  Forall ids_ok es → foldO OrderManager.apply_event es OrderManager.init = Ok t →
  sv_ok sym = true →
  (map_sum open_size (table_map t) <= INT32_MAX →
     OrderManager.open_exposure sym t = Ok (map_sum (exposure_of (key sym)) (table_map t))) ∧
  (∀ x, OrderManager.open_exposure sym t = Ok x →
     x = map_sum (exposure_of (key sym)) (table_map t)).
Proof.
  intros Hes Hrun Hs. destruct (manager_run es t Hes Hrun) as [Hwf Hsym].
  split; [by apply open_exposure_total|]. intros x. by apply open_exposure_Ok.
Qed.

Lemma open_exposure_is_sum_witness :
  let es := [sample_new "O1" Buy 100 175000000; sample_new "O2" Buy 50 174500000;
             sample_new "O3" Sell 30 176000000; sample_order_fill "O1" 100 175000000] in
  ∃ t, foldO OrderManager.apply_event es OrderManager.init = Ok t ∧
       map_sum (exposure_of (lit "AAPL")) (table_map t) = 20.
Proof.
  intros es. destruct (Ok_ex (foldO OrderManager.apply_event es OrderManager.init)) as [t E];
    [vm_compute; reflexivity|].
  exists t. split; [exact E|]. symmetry.
  apply (open_exposure_is_sum es t (sv_of_string (lit "AAPL")));
    [unfold es; repeat constructor|exact E|reflexivity|].
  transitivity (foldO OrderManager.apply_event es OrderManager.init ≫=
                  OrderManager.open_exposure (sv_of_string (lit "AAPL")));
    [rewrite E; reflexivity|vm_compute; reflexivity].
Defined.

(** Order slots are never released: no event removes an order id, so the
    manager fills up with terminal orders; once the 512 slots are taken a
    [NewOrder] with a new id returns normally, changes nothing, and leaves every
    symbol's open exposure as it was. *)
Theorem order_slots_never_freed e t t' :
  ids_ok e → table_wf t → OrderManager.apply_event e t = Ok t' →
  dom (table_map t) ⊆ dom (table_map t') ∧
  (count_ t = MAX_ORDERS → oe_type e = NewOrder → order_key e ∉ dom (table_map t) →
   table_map t' = table_map t).
Proof.
  intros He Hwf Hrun. destruct (manager_apply_event e t He Hwf) as [Hm _].
  rewrite Hrun in Hm. symmetry in Hm. unfold manage in Hm. split.
  - case_decide as Hn.
    + apply map_upsert_Ok in Hm as [(o' & Ho' & ->)|(-> & _)]; [|done].
      rewrite dom_insert_L. set_solver.
    + apply map_update_Ok in Hm as [(o & o' & Ho & Ho' & ->)|[-> _]]; [|done].
      rewrite dom_insert_L. set_solver.
  - intros Hfull Hn Hnew%not_elem_of_dom. rewrite decide_True in Hm by done.
    unfold map_upsert in Hm. rewrite Hnew, (table_map_size t Hwf) in Hm.
    rewrite decide_True in Hm by (rewrite Hfull; cbn; lia). by injection Hm as ->.
Qed.

Lemma order_slots_never_freed_witness :
  ∃ t t', foldO OrderManager.apply_event [sample_new "O1" Buy 100 1; sample_cancel "O1"]
            OrderManager.init = Ok t ∧
          OrderManager.apply_event (sample_new "O2" Sell 5 1) t = Ok t' ∧
          dom (table_map t) ⊆ dom (table_map t').
Proof.
  set (es := [sample_new "O1" Buy 100 1; sample_cancel "O1"]).
  destruct (Ok_ex (foldO OrderManager.apply_event (es ++ [sample_new "O2" Sell 5 1])
    OrderManager.init)) as [t' E]; [vm_compute; reflexivity|].
  rewrite foldO_app in E. apply bind_Ok in E as (t & E & E'). cbn [foldO] in E'.
  apply bind_Ok in E' as (t1 & E' & _). exists t, t1. split; [exact E|]. split; [exact E'|].
  destruct (manager_run es t) as [Hwf _]; [unfold es; repeat constructor|exact E|].
  apply (order_slots_never_freed (sample_new "O2" Sell 5 1) t t1);
    [repeat constructor|exact Hwf|exact E'].
Defined.
