(* ===== verification/RiskChecker.v ===== *)
(** * [RiskChecker]: inline pre-trade checks (include/RiskChecker.h)

    The three [check] overloads with their arithmetic checked for overflow, a
    reference rule over unbounded integers, and how the overloads relate. *)

From S2P Require Import Prelude CString OrderEvent EventLog SlotTable PositionTracker OrderManager.

Local Open Scope Z_scope.

Inductive RiskResult : Type :=
  | Pass | FailMaxQty | FailMaxNotional | FailPositionLimit | FailMaxLoss | FailPositionCross.

#[export] Instance RiskResult_eq_dec : EqDecision RiskResult.
Proof. solve_decision. Defined.

Definition RiskResult_to_string (r : RiskResult) : string :=
  match r with
  | Pass => "PASS"
  | FailMaxQty => "FAIL_MAX_QTY"
  | FailMaxNotional => "FAIL_MAX_NOTIONAL"
  | FailPositionLimit => "FAIL_POSITION_LIMIT"
  | FailMaxLoss => "FAIL_MAX_LOSS"
  | FailPositionCross => "FAIL_POSITION_CROSS"
  end.

Record RiskLimits : Type := {
  max_order_qty        : Z;     (* int32_t *)
  max_order_notional   : Z;     (* int64_t *)
  max_net_position     : Z;     (* int64_t *)
  max_loss_fp          : Z;     (* int64_t *)
  allow_position_cross : bool;
}.

Definition default_limits : RiskLimits := {|
  max_order_qty := 10000;
  max_order_notional := 5000000 * PRICE_SCALE;
  max_net_position := 50000;
  max_loss_fp := 100000 * PRICE_SCALE;
  allow_position_cross := false;
|}.

(** [side == Side::Buy ? qty : -qty] *)
Definition signed_order_qty (side : Side) (qty : Z) : outcome Z :=
  if decide (side = Buy) then Ok qty else i32 (- qty).

(** [projected > max || projected < -max] *)
Definition over_limit (projected max : Z) : outcome bool :=
  if max <? projected then Ok true else low ← i64 (- max); Ok (projected <? low).

(** Would the order flip the sign of [qty]? *)
Definition crosses (qty projected : Z) : bool :=
  ((0 <? qty) && (projected <? 0)) || ((qty <? 0) && (0 <? projected)).

(** [pos->realized_pnl < -limits_.max_loss_fp] *)
Definition loss_breached (limits : RiskLimits) (p : Position) : outcome bool :=
  floor ← i64 (- max_loss_fp limits); Ok (p_realized_pnl p <? floor).

(** The check against a position only; null is [None]. *)
Definition check_position (limits : RiskLimits) (side : Side) (qty price_fp : Z)
    (pos : option Position) : outcome RiskResult :=
  if max_order_qty limits <? qty then Ok FailMaxQty else
  notional ← i64 (qty * price_fp);
  if max_order_notional limits <? notional then Ok FailMaxNotional else
  match pos with
  | None => Ok Pass
  | Some p =>
      delta ← signed_order_qty side qty;
      projected ← i64 (p_net_qty p + delta);
      over ← over_limit projected (max_net_position limits);
      if over : bool then Ok FailPositionLimit else
      if negb (allow_position_cross limits) && crosses (p_net_qty p) projected
      then Ok FailPositionCross else
      loss ← loss_breached limits p;
      if loss : bool then Ok FailMaxLoss else Ok Pass
  end.

(** The overload that looks the position up. *)
Definition check_tracker (limits : RiskLimits) (sym : string_view) (side : Side) (qty price_fp : Z)
    (tracker : PositionTracker.t) : outcome RiskResult :=
  pos ← PositionTracker.get sym tracker;
  check_position limits side qty price_fp pos.

(** The complete check, with the open orders' exposure. *)
Definition check (limits : RiskLimits) (sym : string_view) (side : Side) (qty price_fp : Z)
    (tracker : PositionTracker.t) (orders : OrderManager.t) : outcome RiskResult :=
  if max_order_qty limits <? qty then Ok FailMaxQty else
  notional ← i64 (qty * price_fp);
  if max_order_notional limits <? notional then Ok FailMaxNotional else
  pos ← PositionTracker.get sym tracker;
  let filled_qty := match pos with Some p => p_net_qty p | None => 0 end in
  pending_qty ← OrderManager.open_exposure sym orders;
  true_qty ← i64 (filled_qty + pending_qty);
  delta ← signed_order_qty side qty;
  projected ← i64 (true_qty + delta);
  over ← over_limit projected (max_net_position limits);
  if over : bool then Ok FailPositionLimit else
  if negb (allow_position_cross limits) && crosses true_qty projected
  then Ok FailPositionCross else
  match pos with
  | None => Ok Pass
  | Some p => loss ← loss_breached limits p; if loss : bool then Ok FailMaxLoss else Ok Pass
  end.

(** The checker as an object: its one member is the limits. *)
Module RiskChecker.
Definition t : Type := RiskLimits.
Definition make (limits : RiskLimits) : t := limits.
Definition set_limits (l : RiskLimits) (r : t) : t := l.
Definition limits (r : t) : RiskLimits := r.
End RiskChecker.

(** ** The reference rule, over unbounded integers *)

Definition risk_rule (limits : RiskLimits) (side : Side) (qty price exposure : Z)
    (realized : option Z) : RiskResult :=
  let projected := exposure + sgn_side side * qty in
  if max_order_qty limits <? qty then FailMaxQty
  else if max_order_notional limits <? qty * price then FailMaxNotional
  else if (max_net_position limits <? projected) || (projected <? - max_net_position limits)
  then FailPositionLimit
  else if negb (allow_position_cross limits) && crosses exposure projected
  then FailPositionCross
  else if match realized with Some r => r <? - max_loss_fp limits | None => false end
  then FailMaxLoss
  else Pass.

(** The exposure the complete check works with. *)
Definition net_of (k : list char) (m : gmap (list char) Position) : Z :=
  default 0 (p_net_qty <$> m !! k).
Definition true_exposure (k : list char) (ps : gmap (list char) Position)
    (os : gmap (list char) Order) : Z := net_of k ps + map_sum (exposure_of k) os.

Lemma signed_order_qty_Ok side qty x :
  signed_order_qty side qty = Ok x → x = sgn_side side * qty.
Proof. unfold signed_order_qty, sgn_side. case_decide; intros; ok_inv; lia. Qed.

Lemma signed_order_qty_ok side qty :
  Z.abs qty <= INT32_MAX → signed_order_qty side qty = Ok (sgn_side side * qty).
Proof.
  unfold signed_order_qty, sgn_side, INT32_MAX. intros Hq. case_decide; [f_equal; lia|].
  rewrite i32_ok by lia. f_equal; lia.
Qed.

Lemma over_limit_Ok projected max b :
  over_limit projected max = Ok b → b = (max <? projected) || (projected <? - max).
Proof. unfold over_limit. destruct (max <? projected); intros; ok_inv; done. Qed.

Lemma loss_breached_Ok limits p b :
  loss_breached limits p = Ok b → b = (p_realized_pnl p <? - max_loss_fp limits).
Proof. unfold loss_breached. intros. ok_inv. done. Qed.

Lemma check_rule limits sym side qty price t os r :
  table_wf t → table_wf os → symbols_ok os → sv_ok sym = true →
  check limits sym side qty price t os = Ok r →
  r = risk_rule limits side qty price (true_exposure (key sym) (table_map t) (table_map os))
        (p_realized_pnl <$> table_map t !! key sym).
Proof.
  intros Ht Ho Hos Hs. unfold check, risk_rule, true_exposure, net_of.
  unfold PositionTracker.get. rewrite get_spec by done.
  destruct (max_order_qty limits <? qty); [by intros [= <-]|]. intros H. ok_inv_step.
  apply i64_Ok in Ha as [-> _].
  destruct (max_order_notional limits <? qty * price); [by injection H|].
  cbn [mbind outcome_bind] in H.
  apply bind_Ok in H as (pending & Hp & H). apply open_exposure_Ok in Hp as ->; [|done..].
  apply bind_Ok in H as (tq & Htq & H). apply i64_Ok in Htq as [-> _].
  apply bind_Ok in H as (delta & Hd & H). apply signed_order_qty_Ok in Hd as ->.
  apply bind_Ok in H as (projected & Hpr & H). apply i64_Ok in Hpr as [-> _].
  apply bind_Ok in H as (over & Hov & H). apply over_limit_Ok in Hov as ->.
  destruct (table_map t !! key sym) as [p|]; cbn [fmap option_fmap option_map default from_option] in *.
  all: destruct (_ || _); [by injection H|]; destruct (_ && _); [by injection H|].
  - apply bind_Ok in H as (loss & Hl & H). apply loss_breached_Ok in Hl as ->.
    destruct (_ <? _); by injection H.
  - by injection H.
Qed.

Lemma risk_rule_pass limits side qty price exposure realized :
  risk_rule limits side qty price exposure realized = Pass ↔
    let projected := exposure + sgn_side side * qty in
    qty <= max_order_qty limits ∧ qty * price <= max_order_notional limits ∧
    - max_net_position limits <= projected <= max_net_position limits ∧
    (allow_position_cross limits = false → 0 <= exposure * projected) ∧
    (∀ r, realized = Some r → - max_loss_fp limits <= r).
Proof.
  cbn zeta. unfold risk_rule. set (pr := exposure + _).
  destruct (Z.ltb_spec (max_order_qty limits) qty); [split; [done|lia]|].
  destruct (Z.ltb_spec (max_order_notional limits) (qty * price)); [split; [done|lia]|].
  destruct (Z.ltb_spec (max_net_position limits) pr); cbn [orb]; [split; [done|lia]|].
  destruct (Z.ltb_spec pr (- max_net_position limits)); [split; [done|lia]|].
  assert (crosses exposure pr = false ↔ 0 <= exposure * pr) as Hc.
  { unfold crosses. destruct (Z.ltb_spec 0 exposure), (Z.ltb_spec pr 0),
      (Z.ltb_spec exposure 0), (Z.ltb_spec 0 pr); cbn; split; intros; try done; try nia. }
  assert (Hl : (match realized with Some r => r <? - max_loss_fp limits | None => false end) = false
                ↔ ∀ r, realized = Some r → - max_loss_fp limits <= r).
  { destruct realized as [r|]; [rewrite Z.ltb_ge|]; split; intros; simplify_eq; auto. }
  rewrite <- Hl. destruct (match realized with Some r => _ | None => _ end).
  - destruct (negb (allow_position_cross limits) && crosses exposure pr).
    all: split; [done|intros (_ & _ & _ & _ & ?); done].
  - destruct (allow_position_cross limits); cbn [negb andb].
    + split; [intros _; split_and!; try lia; done|done].
    + destruct (crosses exposure pr); rewrite <- Hc.
      * split; [done|]. intros (_ & _ & _ & Hx & _). by specialize (Hx eq_refl).
      * split; [intros _; split_and!; try lia; done|done].
Qed.

Lemma check_total limits sym side qty price t os :
  table_wf t → table_wf os → symbols_ok os → sv_ok sym = true →
  Z.abs qty <= INT32_MAX → Z.abs (qty * price) <= INT64_MAX →
  map_sum open_size (table_map os) <= INT32_MAX →
  Z.abs (net_of (key sym) (table_map t)) <= INT64_MAX - 2 * INT32_MAX →
  Z.abs (max_net_position limits) <= INT64_MAX → Z.abs (max_loss_fp limits) <= INT64_MAX →
  ∃ r, check limits sym side qty price t os = Ok r.
Proof.
  intros Ht Ho Hos Hs Hq Hn Hsum Hnet Hmax Hloss. unfold check, PositionTracker.get.
  rewrite get_spec by done. destruct (max_order_qty limits <? qty); [eauto|].
  pose proof (open_exposure_total sym os Ho Hos Hs Hsum) as Hexp.
  pose proof (exposure_sum_bound (key sym) INT32_MAX os Ho Hsum) as Hpend.
  set (pend := map_sum _ _) in *. unfold INT32_MAX, INT64_MAX, net_of in *.
  rewrite i64_ok by lia. cbn [mbind outcome_bind].
  destruct (max_order_notional limits <? qty * price); [eauto|]. rewrite Hexp.
  set (net := match table_map t !! key sym with Some p => p_net_qty p | None => 0 end).
  assert (Z.abs net <= 9223372036854775807 - 2 * 2147483647).
  { unfold net. by destruct (table_map t !! key sym). }
  cbn [mbind outcome_bind]. rewrite i64_ok by lia. cbn [mbind outcome_bind].
  rewrite signed_order_qty_ok by (unfold INT32_MAX; lia).
  cbn [mbind outcome_bind]. pose proof (sgn_side_cases side). rewrite i64_ok by lia.
  cbn [mbind outcome_bind]. unfold over_limit.
  destruct (_ <? _); cbn [mbind outcome_bind]; [eauto|].
  rewrite i64_ok by lia. cbn [mbind outcome_bind].
  destruct (_ <? _); cbn [mbind outcome_bind]; [eauto|]. destruct (_ && _); [eauto|].
  destruct (table_map t !! key sym); [|eauto]. unfold loss_breached.
  rewrite i64_ok by lia. cbn [mbind outcome_bind]. destruct (_ <? _); eauto.
Qed.

(** ** Changing the limits *)

(** [wide] allows whatever [l] allows. *)
Record limits_le (l wide : RiskLimits) : Prop := {
  le_qty : max_order_qty l <= max_order_qty wide;
  le_notional : max_order_notional l <= max_order_notional wide;
  le_position : max_net_position l <= max_net_position wide;
  le_loss : max_loss_fp l <= max_loss_fp wide;
  le_cross : allow_position_cross l = true → allow_position_cross wide = true;
}.

#[export] Instance limits_le_preorder : PreOrder limits_le.
Proof. split; [split; done || lia|]. intros l1 l2 l3 [] []. split; auto; lia. Qed.

Lemma risk_rule_widens l wide side qty price exposure realized :
  limits_le l wide → risk_rule l side qty price exposure realized = Pass →
  risk_rule wide side qty price exposure realized = Pass.
Proof.
  intros [Hq Hn Hp Hl Hc]. rewrite !risk_rule_pass. intros (? & ? & ? & Hcross & Hloss).
  split_and!; [lia..| |].
  - intros Hno. apply Hcross. by destruct (allow_position_cross l); [rewrite Hc in Hno|].
  - intros r Hr. specialize (Hloss r Hr). lia.
Qed.

(** Wider limits block no order that the narrower ones passed. *)
Lemma set_limits_widens l (r : RiskChecker.t) sym side qty price t os :
  table_wf t → table_wf os → symbols_ok os → sv_ok sym = true →
  Z.abs qty <= INT32_MAX → Z.abs (qty * price) <= INT64_MAX →
  map_sum open_size (table_map os) <= INT32_MAX →
  Z.abs (net_of (key sym) (table_map t)) <= INT64_MAX - 2 * INT32_MAX →
  Z.abs (max_net_position l) <= INT64_MAX → Z.abs (max_loss_fp l) <= INT64_MAX →
  limits_le (RiskChecker.limits r) l →
  check (RiskChecker.limits r) sym side qty price t os = Ok Pass →
  check (RiskChecker.limits (RiskChecker.set_limits l r)) sym side qty price t os = Ok Pass.
Proof.
  intros Ht Ho Hos Hs Hq Hn Hsum Hnet Hmax Hloss Hle Hpass. unfold RiskChecker.limits, RiskChecker.set_limits in *.
  apply check_rule in Hpass; [|done..].
  destruct (check_total l sym side qty price t os) as [v Hv]; [done..|].
  rewrite Hv. apply check_rule in Hv; [|done..]. rewrite Hv. f_equal.
  by eapply risk_rule_widens.
Qed.

(** ** The check throws nothing *)

Lemma open_exposure_no_throw sym t : no_throw (OrderManager.open_exposure sym t).
Proof.
  apply foldO_no_throw. intros o s. unfold OrderManager.add_exposure, remaining_qty.
  destruct (negb (is_open o)); [done|]. apply no_throw_bind; [apply strncmp_no_throw|]. intros c.
  destruct (negb (c =? 0)); [done|]. case_decide; no_throw.
Qed.

Lemma check_no_throw limits sym side qty price t os :
  no_throw (check limits sym side qty price t os).
Proof.
  unfold check, signed_order_qty, over_limit, loss_breached, PositionTracker.get, get.
  no_throw; try apply find_no_throw; try apply open_exposure_no_throw.
  all: repeat (case_decide || case_match); no_throw.
Qed.

(** ** Properties *)

(** C4. The complete check implements the reference rule: within the machine
    limits it always returns, its verdict is the rule's on the true exposure
    (filled plus open), and it passes exactly when the quantity and the notional
    are within their limits, the projected exposure is within the position limit
    and does not flip the sign of the exposure (unless allowed), and the realized
    loss of a known position is within its limit. *)
Theorem check_implements_rule limits sym side qty price t os :
  table_wf t → table_wf os → symbols_ok os → sv_ok sym = true →
  Z.abs qty <= INT32_MAX → Z.abs (qty * price) <= INT64_MAX →
  map_sum open_size (table_map os) <= INT32_MAX →
  Z.abs (net_of (key sym) (table_map t)) <= INT64_MAX - 2 * INT32_MAX →
  Z.abs (max_net_position limits) <= INT64_MAX → Z.abs (max_loss_fp limits) <= INT64_MAX →
  let exposure := true_exposure (key sym) (table_map t) (table_map os) in
  let realized := p_realized_pnl <$> table_map t !! key sym in
  let projected := exposure + sgn_side side * qty in
  check limits sym side qty price t os
    = Ok (risk_rule limits side qty price exposure realized) ∧
  (check limits sym side qty price t os = Ok Pass ↔
     qty <= max_order_qty limits ∧ qty * price <= max_order_notional limits ∧
     - max_net_position limits <= projected <= max_net_position limits ∧
     (allow_position_cross limits = false → 0 <= exposure * projected) ∧
     (∀ r, realized = Some r → - max_loss_fp limits <= r)).
Proof.
  intros Ht Ho Hos Hs Hq Hn Hsum Hnet Hmax Hloss exposure realized projected.
  destruct (check_total limits sym side qty price t os) as [r Hr]; [done..|].
  pose proof (check_rule limits sym side qty price t os r Ht Ho Hos Hs Hr) as Hrule.
  rewrite Hr, Hrule. split; [done|].
  etransitivity; [|exact (risk_rule_pass limits side qty price exposure realized)].
  split; intros Hx; [by injection Hx|exact (f_equal Ok Hx)].
Qed.

Lemma check_implements_rule_witness :
  check default_limits (sv_of_string (lit "AAPL")) Buy 100 175000000
    PositionTracker.init OrderManager.init = Ok Pass.
Proof.
  apply check_implements_rule;
    [apply table_init_wf|apply table_init_wf|intros o Ho; by apply not_elem_of_nil in Ho
    |reflexivity|vm_compute; discriminate..|].
  split_and!; try (vm_compute; discriminate).
Defined.

(** C40. The two overloads agree on a known symbol without open orders: when
    [open_exposure] is 0 the complete check and the position-only check give the
    same outcome. *)
Theorem overloads_agree_without_open_orders limits sym side qty price t os p :
  table_wf t → sv_ok sym = true → table_map t !! key sym = Some p →
  in_i64 (p_net_qty p) = true → OrderManager.open_exposure sym os = Ok 0 →
  check limits sym side qty price t os = check_tracker limits sym side qty price t.
Proof.
  intros Ht Hs Hp Hnet Hexp. unfold check, check_tracker, check_position, PositionTracker.get.
  rewrite get_spec, Hp by done. cbn [mbind outcome_bind].
  destruct (max_order_qty limits <? qty); [done|]. apply bind_ext. intros notional.
  destruct (max_order_notional limits <? notional); [done|]. rewrite Hexp.
  cbn [mbind outcome_bind]. rewrite Z.add_0_r.
  rewrite (proj2 (i64_Ok (p_net_qty p) (p_net_qty p))) by done. done.
Qed.

Lemma overloads_agree_without_open_orders_witness :
  let sym := sv_of_string (lit "AAPL") in
  ∃ t, check default_limits sym Sell 150 175000000 t OrderManager.init
         = check_tracker default_limits sym Sell 150 175000000 t ∧
       check_tracker default_limits sym Sell 150 175000000 t = Ok FailPositionCross.
Proof.
  intros sym. set (es := [sample_fill "AAPL" Buy 100 175000000]).
  destruct (Ok_ex (foldO PositionTracker.apply_event es PositionTracker.init)) as [t E];
    [vm_compute; reflexivity|].
  destruct (tracker_fold es t) as [Hwf Htrack]; [unfold es; repeat constructor|exact E|].
  assert (Hp : (m ← foldO track es ∅; Ok (m !! key sym)) = Ok (table_map t !! key sym))
    by (rewrite Htrack; reflexivity).
  exists t. split.
  - vm_compute (_ ← _; _) in Hp. injection Hp as Hp.
    eapply (overloads_agree_without_open_orders default_limits sym Sell 150 175000000 t
             OrderManager.init); [exact Hwf|reflexivity|symmetry; exact Hp|reflexivity|reflexivity].
  - transitivity (t ← foldO PositionTracker.apply_event es PositionTracker.init;
                  check_tracker default_limits sym Sell 150 175000000 t);
      [rewrite E; reflexivity|vm_compute; reflexivity].
Defined.

(** The position-only checks have no position limit for a symbol that was never
    filled: they pass any order within the per-order limits, whatever
    [max_net_position] and whatever is already open; the complete check refuses a
    buy beyond the limit. *)
Theorem position_check_blind_to_new_symbols limits sym qty price t os :
  table_wf t → table_wf os → symbols_ok os → sv_ok sym = true →
  table_map t !! key sym = None → qty <= max_order_qty limits →
  Z.abs (qty * price) <= INT64_MAX → qty * price <= max_order_notional limits →
  check_tracker limits sym Buy qty price t = Ok Pass ∧
  (∀ r, check limits sym Buy qty price t os = Ok r →
     max_net_position limits < map_sum (exposure_of (key sym)) (table_map os) + qty →
     r = FailPositionLimit).
Proof.
  intros Ht Ho Hos Hs Hnone Hq Hn Hnot. split.
  - unfold check_tracker, check_position, PositionTracker.get. rewrite get_spec, Hnone by done.
    cbn [mbind outcome_bind]. rewrite (proj2 (Z.ltb_ge _ _)) by lia.
    unfold INT64_MAX in *. rewrite i64_ok by lia. cbn [mbind outcome_bind].
    by rewrite (proj2 (Z.ltb_ge _ _)) by lia.
  - intros r Hr Hover. apply check_rule in Hr as ->; [|done..].
    unfold risk_rule, true_exposure, net_of. rewrite Hnone. cbn [fmap option_fmap option_map default from_option].
    rewrite (proj2 (Z.ltb_ge (max_order_qty limits) qty)) by lia.
    rewrite (proj2 (Z.ltb_ge (max_order_notional limits) _)) by lia.
    rewrite (proj2 (Z.ltb_lt (max_net_position limits) _)); [done|].
    change (sgn_side Buy) with 1. lia.
Qed.

Lemma position_check_blind_to_new_symbols_witness :
  check_tracker default_limits (sv_of_string (lit "AAPL")) Buy 10000 1000000 PositionTracker.init
    = Ok Pass.
Proof.
  apply (position_check_blind_to_new_symbols _ _ _ _ _ OrderManager.init);
    [apply table_init_wf|apply table_init_wf|intros o Ho; by apply not_elem_of_nil in Ho
    |reflexivity|reflexivity|vm_compute; discriminate..].
Defined.

(** The sign of the quantity is not checked: a buy of a negative quantity passes
    both per-order limits however large it is, and is projected as a sell; the sell
    of the same size is refused. *)
Theorem negative_quantity_bypasses_order_limits limits sym qty price t os r :
  table_wf t → table_wf os → symbols_ok os → sv_ok sym = true →
  0 < qty → 0 < price → 0 <= max_order_notional limits → 0 <= max_order_qty limits →
  check limits sym Buy (- qty) price t os = Ok r →
  r ≠ FailMaxQty ∧ r ≠ FailMaxNotional ∧
  (max_order_qty limits < qty → check limits sym Sell qty price t os = Ok FailMaxQty).
Proof.
  intros Ht Ho Hos Hs Hq Hp Hnot Hmax Hr. apply check_rule in Hr as ->; [|done..].
  unfold risk_rule. rewrite (proj2 (Z.ltb_ge (max_order_qty limits) (- qty))) by lia.
  rewrite (proj2 (Z.ltb_ge (max_order_notional limits) (- qty * price))) by nia.
  split_and!; [repeat case_match; discriminate..|]. intros Hbig. unfold check.
  by rewrite (proj2 (Z.ltb_lt (max_order_qty limits) qty)) by lia.
Qed.

Lemma negative_quantity_bypasses_order_limits_witness :
  let sym := sv_of_string (lit "AAPL") in
  check default_limits sym Buy (-40000) 175000000 PositionTracker.init OrderManager.init = Ok Pass ∧
  check default_limits sym Sell 40000 175000000 PositionTracker.init OrderManager.init = Ok FailMaxQty.
Proof.
  intros sym. split; [vm_compute; reflexivity|].
  eapply (negative_quantity_bypasses_order_limits default_limits sym 40000 175000000
            PositionTracker.init OrderManager.init Pass);
    [apply table_init_wf|apply table_init_wf|intros o Ho; by apply not_elem_of_nil in Ho
    |reflexivity|lia|lia|vm_compute; discriminate|vm_compute; discriminate
    |vm_compute; reflexivity|vm_compute; reflexivity].
Defined.

(** ** The exposure over a fill *)

Lemma net_of_insert k k' p m :
  net_of k (<[k' := p]> m) = if decide (k' = k) then p_net_qty p else net_of k m.
Proof.
  unfold net_of. case_decide as Hk; [subst; by rewrite lookup_insert_eq|by rewrite lookup_insert_ne].
Qed.

Lemma track_net k e m m' :
  track e m = Ok m' → is_fill e = true →
  is_Some (m !! cstr 8 (oe_symbol e)) ∨ (size m < MAX_SYMBOLS)%nat →
  net_of k m' = net_of k m + if decide (cstr 8 (oe_symbol e) = k) then signed_qty e else 0.
Proof.
  unfold track. intros H He Hroom. rewrite He in H.
  apply map_upsert_Ok in H as [(p' & Hp' & ->)|(_ & Hnone & Hfull)]; cycle 1.
  { exfalso. rewrite Hnone in Hroom. destruct Hroom as [[? ?]|?]; [done|cbn in Hfull; lia]. }
  apply apply_fill_Ok, filled_net in Hp'. rewrite net_of_insert. case_decide as Hk; [|lia].
  subst k. rewrite Hp'. unfold net_of. destruct (m !! _); done.
Qed.

Lemma fill_exposure k e o o' :
  fill_order e o = Ok o' → is_open o = true → oe_side e = o_side o →
  0 < oe_fill_qty e <= o_original_qty o - o_filled_qty o →
  exposure_of k o' = exposure_of k o - if decide (cstr 8 (o_symbol o) = k) then signed_qty e else 0.
Proof.
  intros H Hopen Hside Hq.
  apply fill_order_Ok in H as (_ & Hsym & Hsd & _ & Horig & _ & _ & Hf & _ & Hst).
  unfold exposure_of, is_open in *. rewrite Hopen, Hst, Hsym, Hsd, Horig, Hf.
  unfold signed_qty, sgn_side. rewrite Hside.
  destruct (Z.leb_spec (o_original_qty o - (o_filled_qty o + oe_fill_qty e)) 0);
    unfold state_open; cbn; repeat case_decide; simplify_eq; cbn; try done; try lia.
Qed.

(** A fill of an open order in both books: what it adds to the position of a symbol it
    takes from its open orders. *)
Lemma fill_moves_exposure e t os t' os' o k :
  table_wf t → table_wf os → symbol_ok e → ids_ok e → is_fill e = true →
  table_map os !! order_key e = Some o → is_open o = true → oe_side e = o_side o →
  cstr 8 (oe_symbol e) = cstr 8 (o_symbol o) →
  0 < oe_fill_qty e <= o_original_qty o - o_filled_qty o →
  is_Some (table_map t !! cstr 8 (oe_symbol e)) ∨ (count_ t < MAX_SYMBOLS)%nat →
  PositionTracker.apply_event e t = Ok t' → OrderManager.apply_event e os = Ok os' →
  let moved := if decide (cstr 8 (oe_symbol e) = k) then signed_qty e else 0 in
  net_of k (table_map t') = net_of k (table_map t) + moved ∧
  map_sum (exposure_of k) (table_map os') = map_sum (exposure_of k) (table_map os) - moved ∧
  table_wf t' ∧ table_wf os' ∧ ∃ o', fill_order e o = Ok o' ∧
    table_map os' = <[order_key e := o']> (table_map os).
Proof.
  intros Ht Ho Hsym Hids He Hk Hopen Hside Hsymbol Hq Hroom Ht' Ho' moved.
  destruct (apply_event_tracks e t Hsym Ht) as [Htrack Hwft]. rewrite Ht' in Htrack.
  destruct (manager_apply_event e os Hids Ho) as [Hmanage Hwfo]. rewrite Ho' in Hmanage.
  symmetry in Htrack, Hmanage. rewrite <- (table_map_size t) in Hroom by done.
  split; [by apply (track_net k _ _ _ Htrack)|].
  assert (Hfill : ∃ o', fill_order e o = Ok o' ∧ table_map os' = <[order_key e := o']> (table_map os)).
  { cbn in Hmanage. unfold manage in Hmanage. rewrite decide_False in Hmanage
      by (intros Hn; unfold is_fill in He; by rewrite Hn in He).
    apply map_update_Ok in Hmanage as [(o1 & o' & Ho1 & Hstep & Hm)|[_ Hnone]]; [|congruence].
    rewrite Hk in Ho1. injection Ho1 as <-. rewrite order_step_fill in Hstep by done. eauto. }
  split; [|split; [by apply Hwft|split; [by apply Hwfo|done]]].
  destruct Hfill as (o' & Hfill & ->). rewrite map_sum_insert, Hk.
  cbn [fmap option_fmap option_map default from_option]. unfold id.
  rewrite (fill_exposure k e o o') by done. unfold moved. rewrite Hsymbol. lia.
Qed.

(** C21. A fill moves exposure, it does not create any: when an open order is filled for
    at most its remaining quantity, on its own side and symbol, the true exposure
    (filled plus open) of every symbol is the same before and after both books have
    applied the event. *)
Theorem fill_preserves_true_exposure e t os t' os' o k :
  table_wf t → table_wf os → symbol_ok e → ids_ok e → is_fill e = true →
  table_map os !! order_key e = Some o → is_open o = true → oe_side e = o_side o →
  cstr 8 (oe_symbol e) = cstr 8 (o_symbol o) →
  0 < oe_fill_qty e <= o_original_qty o - o_filled_qty o →
  is_Some (table_map t !! cstr 8 (oe_symbol e)) ∨ (count_ t < MAX_SYMBOLS)%nat →
  PositionTracker.apply_event e t = Ok t' → OrderManager.apply_event e os = Ok os' →
  true_exposure k (table_map t') (table_map os')
    = true_exposure k (table_map t) (table_map os).
Proof.
  intros Ht Ho Hsym Hids He Hk Hopen Hside Hsymbol Hq Hroom Ht' Ho'. unfold true_exposure.
  destruct (fill_moves_exposure e t os t' os' o k) as (-> & -> & _); [done..|lia].
Qed.

Lemma fill_preserves_true_exposure_witness :
  let os := [sample_new "O1" Buy 100 1000000; sample_new "O2" Sell 30 1000000] in
  let e := sample_event PartialFill "AAPL" "O1" Buy 40 1000000 in
  ∃ o o' t', foldO OrderManager.apply_event os OrderManager.init = Ok o ∧
    OrderManager.apply_event e o = Ok o' ∧
    PositionTracker.apply_event e PositionTracker.init = Ok t' ∧
    true_exposure (lit "AAPL") (table_map t') (table_map o')
      = true_exposure (lit "AAPL") (table_map PositionTracker.init) (table_map o).
Proof.
  intros os e. destruct (Ok_ex (foldO OrderManager.apply_event os OrderManager.init)) as [o E];
    [vm_compute; reflexivity|].
  destruct (Ok_ex (o ← foldO OrderManager.apply_event os OrderManager.init;
                   OrderManager.apply_event e o)) as [o' E']; [vm_compute; reflexivity|].
  rewrite E in E'. cbn [mbind outcome_bind] in E'.
  destruct (Ok_ex (PositionTracker.apply_event e PositionTracker.init)) as [t' Et];
    [vm_compute; reflexivity|].
  destruct (manager_fold os o) as [Hwf Hm]; [unfold os; repeat constructor|exact E|].
  assert (Hk : (m ← foldO manage os ∅; Ok (m !! lit "O1")) = Ok (table_map o !! lit "O1"))
    by (rewrite Hm; reflexivity).
  vm_compute (_ ← _; _) in Hk. injection Hk as Hk.
  exists o, o', t'. split; [exact E|]. split; [exact E'|]. split; [exact Et|].
  eapply (fill_preserves_true_exposure e PositionTracker.init o t' o' _ (lit "AAPL"));
    [apply table_init_wf|exact Hwf|reflexivity|split; reflexivity|reflexivity
    |symmetry; exact Hk|reflexivity|reflexivity|reflexivity|vm_compute; split; congruence
    |right; apply Nat.ltb_lt; reflexivity|exact Et|exact E'].
Defined.
