(* ===== verification/Fixed.v ===== *)
(** * [Fixed]: prices as doubles and as fixed-point integers

    The IEEE 754 binary64 arithmetic behind [MessageTranslator::to_fixed] and
    [from_fixed] (gateway/MessageTranslator.h) and the [_d] accessors of the
    records, on the executable floats of [SpecFloat], with the error analysis of the
    two conversions. *)

From Stdlib Require Import Floats.SpecFloat.
From S2P Require Import Prelude OrderEvent PositionTracker OrderManager.

Local Open Scope Z_scope.

(** ** The code *)

Notation double := spec_float (only parsing).

(** [static_cast<double>] of an integer, and the two operations (binary64, round to
    nearest, ties to even). *)
Definition of_int (z : Z) : double := binary_normalize 53 1024 z 0 false.
Definition double_mul : double → double → double := SFmul 53 1024.
Definition double_div : double → double → double := SFdiv 53 1024.

(** Truncation of [m * 2^e]. *)
Definition trunc_mag (m : positive) (e : Z) : Z :=
  if 0 <=? e then Zpos m * 2 ^ e else Zpos m / 2 ^ (- e).

(** [static_cast] of a double to an integer type whose range test is [fits]: the
    fraction is dropped; undefined when the result does not fit. *)
Definition double_to_int (fits : Z → bool) (d : double) : outcome Z :=
  match d with
  | S754_zero _ => Ok 0
  | S754_finite s m e =>
      let z := cond_Zopp s (trunc_mag m e) in if fits z then Ok z else UB
  | S754_infinity _ | S754_nan => UB
  end.

Definition to_fixed (price : double) : outcome Z :=
  double_to_int in_i64 (double_mul price (of_int PRICE_SCALE)).

Definition from_fixed (price_fp : Z) : double :=
  double_div (of_int price_fp) (of_int PRICE_SCALE).

(** [OrderEvent::price_d], [fill_price_d] *)
Definition price_d (e : OrderEvent) : double :=
  double_div (of_int (oe_price e)) (of_int PRICE_SCALE).
Definition fill_price_d (e : OrderEvent) : double :=
  double_div (of_int (oe_fill_price e)) (of_int PRICE_SCALE).

(** The accessors of [Position] and [Order]. *)
Definition net_qty_d (p : Position) : double := of_int (p_net_qty p).
Definition avg_entry_price_d (p : Position) : double :=
  double_div (of_int (p_avg_entry_price p)) (of_int PRICE_SCALE).
Definition realized_pnl_d (p : Position) : double :=
  double_div (of_int (p_realized_pnl p)) (of_int PRICE_SCALE).
Definition unrealized_pnl_d (p : Position) : double :=
  double_div (of_int (p_unrealized_pnl p)) (of_int PRICE_SCALE).
Definition total_pnl_d (p : Position) : double :=
  SFadd 53 1024 (realized_pnl_d p) (unrealized_pnl_d p).
Definition limit_price_d (o : Order) : double :=
  double_div (of_int (o_limit_price o)) (of_int PRICE_SCALE).
Definition avg_fill_price_d (o : Order) : double :=
  double_div (of_int (o_avg_fill_price o)) (of_int PRICE_SCALE).

(** ** Shifting with a sticky bit

    [shifted mrs n d]: the record [mrs] stands for the quotient [n / d]: its
    mantissa is the integer part, its two bits tell where the rest lies. *)

Definition shifted (mrs : shr_record) (n d : Z) : Prop :=
  shr_m mrs = n / d ∧
  shr_r mrs = (d <=? 2 * (n mod d)) ∧
  shr_s mrs = negb ((2 * (n mod d) =? 0) || (2 * (n mod d) =? d)).

Lemma shr_1_shifted mrs n d :
  0 <= n → 0 < d → shifted mrs n d → shifted (shr_1 mrs) n (d * 2).
Proof.
  intros Hn Hd (Hm & Hr & Hs). destruct mrs as [m r s]; cbn [shr_m shr_r shr_s] in *.
  assert (0 <= m) by (subst m; apply Z.div_pos; lia).
  assert (Hq : n / (d * 2) = m / 2) by (rewrite <- Z.div_div by lia; by subst m).
  assert (Hrem : n mod (d * 2) = n mod d + d * (m mod 2)).
  { rewrite Z.rem_mul_r by lia. by subst m. }
  pose proof (Z.mod_pos_bound n d Hd) as Hb.
  assert (Hshape : shr_1 {| shr_m := m; shr_r := r; shr_s := s |} =
    {| shr_m := m / 2; shr_r := Z.odd m; shr_s := r || s |}).
  { destruct m as [|[p|p|]|p]; cbn [shr_1 Z.odd]; [done|..|lia].
    - f_equal. rewrite Pos2Z.inj_xI, Z.mul_comm, Z.add_comm, Z.div_add by lia. done.
    - f_equal. rewrite Pos2Z.inj_xO, Z.mul_comm, Z.div_mul by lia. done.
    - done. }
  unfold shifted. rewrite Hshape, Hq, Hrem, Hr, Hs. cbn [shr_m shr_r shr_s].
  rewrite Zmod_odd. clear Hshape Hq Hrem Hr Hs.
  split; [done|]. destruct (Z.odd m).
  all: repeat match goal with |- context [?a <=? ?b] => destruct (Z.leb_spec a b) end.
  all: repeat match goal with |- context [?a =? ?b] => destruct (Z.eqb_spec a b) end.
  all: cbn; split; done || lia.
Qed.

Lemma shr_iter_shifted k : ∀ mrs n d,
  0 <= n → 0 < d → shifted mrs n d → shifted (SpecFloat.iter_pos shr_1 k mrs) n (d * 2 ^ Zpos k).
Proof.
  induction k as [k IH|k IH|]; intros mrs n d Hn Hd H; cbn [SpecFloat.iter_pos].
  - replace (d * 2 ^ Zpos k~1) with (d * 2 * 2 ^ Zpos k * 2 ^ Zpos k).
    2:{ rewrite <- !Z.mul_assoc, <- Z.pow_add_r by lia.
        rewrite <- (Z.pow_succ_r 2) by lia. do 2 f_equal. lia. }
    apply IH; [done|nia|]. apply IH; [done|lia|]. by apply shr_1_shifted.
  - replace (d * 2 ^ Zpos k~0) with (d * 2 ^ Zpos k * 2 ^ Zpos k).
    2:{ rewrite <- !Z.mul_assoc, <- Z.pow_add_r by lia. do 2 f_equal. lia. }
    apply IH; [done|nia|]. by apply IH.
  - by apply shr_1_shifted.
Qed.

Lemma exact_shifted m : shifted (shr_record_of_loc m loc_Exact) m 1.
Proof. unfold shifted. cbn. by rewrite Z.div_1_r, Z.mod_1_r. Qed.

Lemma location_shifted n d :
  0 < d → Z.even d = true →
  shifted (shr_record_of_loc (n / d) (new_location d (n mod d))) n d.
Proof.
  intros Hd He. unfold new_location. rewrite He. unfold new_location_even, shifted.
  pose proof (Z.mod_pos_bound n d Hd). destruct (Z.eqb_spec (n mod d) 0) as [->|Hne].
  - cbn [shr_record_of_loc shr_m shr_r shr_s]. rewrite Z.mul_0_r, Z.eqb_refl.
    repeat split. symmetry. by apply Z.leb_gt.
  - destruct (Z.compare_spec (2 * (n mod d)) d) as [E|E|E]; cbn [shr_record_of_loc shr_m shr_r shr_s].
    all: repeat split.
    all: repeat match goal with |- context [?a <=? ?b] => destruct (Z.leb_spec a b) end.
    all: repeat match goal with |- context [?a =? ?b] => destruct (Z.eqb_spec a b) end.
    all: cbn; done || lia.
Qed.

(** Rounding to nearest is within half a step. *)
Lemma round_shifted mrs n d :
  0 <= n → 0 < d → shifted mrs n d →
  let r := round_nearest_even (shr_m mrs) (loc_of_shr_record mrs) in
  Z.abs (2 * (r * d - n)) <= d ∧ shr_m mrs <= r <= shr_m mrs + 1.
Proof.
  intros Hn Hd (Hm & Hr & Hs). destruct mrs as [m r s]; cbn [shr_m shr_r shr_s] in *.
  pose proof (Z.mod_pos_bound n d Hd). pose proof (Z.div_mod n d ltac:(lia)) as Hdm.
  rewrite <- Hm in Hdm. set (x := n mod d) in *.
  destruct (Z.leb_spec d (2 * x)), (Z.eqb_spec (2 * x) 0), (Z.eqb_spec (2 * x) d);
    cbn in Hs; subst r s; cbn; try lia; destruct (Z.even m); lia.
Qed.

(** ** Rounding a positive quotient to a double *)

Lemma digits2_pos_spec p :
  2 ^ (Zpos (digits2_pos p) - 1) <= Zpos p < 2 ^ Zpos (digits2_pos p).
Proof.
  induction p as [p IH|p IH|]; cbn [digits2_pos]; [..|by cbn].
  all: rewrite Pos2Z.inj_succ.
  all: replace (Z.succ (Zpos (digits2_pos p)) - 1) with (Z.succ (Zpos (digits2_pos p) - 1)) by lia.
  all: rewrite !Z.pow_succ_r by lia; lia.
Qed.

Lemma digits_unique p d : 2 ^ (d - 1) <= Zpos p < 2 ^ d → Zpos (digits2_pos p) = d.
Proof.
  intros H. pose proof (digits2_pos_spec p) as Hp.
  destruct (Z.lt_trichotomy (Zpos (digits2_pos p)) d) as [Hlt|[?|Hlt]]; [|done|].
  - pose proof (Z.pow_le_mono_r 2 (Zpos (digits2_pos p)) (d - 1)). lia.
  - pose proof (Z.pow_le_mono_r 2 d (Zpos (digits2_pos p) - 1)). lia.
Qed.

Lemma shr_shifted mrs e k n d :
  0 <= k → 0 <= n → 0 < d → shifted mrs n d →
  ∃ mrs', shr mrs e k = (mrs', e + k) ∧ shifted mrs' n (d * 2 ^ k).
Proof.
  intros Hk Hn Hd H. destruct k as [|k|k]; [| |lia].
  - exists mrs. cbn [shr]. rewrite Z.add_0_r, Z.mul_1_r. done.
  - eexists. split; [done|]. by apply shr_iter_shifted.
Qed.

(** In the normal range, a quotient [n / d] with at least 53 bits before the point
    becomes a finite double of 53 bits, within half a unit [2 ^ k] of it. *)
Lemma round_aux_spec s q e l n d k :
  0 < d → 0 <= n → shifted (shr_record_of_loc (Zpos q) l) n d →
  0 <= k → 2 ^ (k + 52) <= Zpos q < 2 ^ (k + 53) → -1074 <= e + k → e + k <= 970 →
  ∃ m j, binary_round_aux 53 1024 s (Zpos q) e l = S754_finite s m (e + j) ∧
    2 ^ 52 <= Zpos m < 2 ^ 53 ∧ k <= j <= k + 1 ∧
    Z.abs (2 * (Zpos m * 2 ^ j * d - n)) <= 2 ^ k * d.
Proof.
  intros Hd Hn Hq Hk Hbits Hmin Hmax. unfold binary_round_aux, shr_fexp.
  change (Zdigits2 (Zpos q)) with (Zpos (digits2_pos q)).
  rewrite (digits_unique q (k + 53)) by (replace (k + 53 - 1) with (k + 52) by lia; done).
  assert (Hfexp : ∀ x, -1074 <= x - 53 → fexp 53 1024 x = x - 53)
    by (intros x Hx; unfold fexp, emin; lia).
  rewrite Hfexp by lia. replace (k + 53 + e - 53 - e) with k by lia.
  destruct (shr_shifted _ e k n d Hk Hn Hd Hq) as (mrs & -> & Hmrs).
  assert (Hdk : 0 < d * 2 ^ k) by (apply Z.mul_pos_pos; [done|by apply Z.pow_pos_nonneg]).
  pose proof (round_shifted mrs n _ Hn Hdk Hmrs) as Hr. cbn zeta in Hr.
  set (r := round_nearest_even _ _) in *.
  assert (Hfloor : 2 ^ 52 <= shr_m mrs < 2 ^ 53).
  { assert (shr_m mrs = Zpos q / 2 ^ k) as ->.
    { destruct Hmrs as [-> _]. destruct Hq as [Hq _].
      rewrite <- Z.div_div by (try apply Z.pow_nonzero; lia). rewrite <- Hq. by destruct l as [|[]]. }
    rewrite !Z.pow_add_r in Hbits by lia. pose proof (Z.pow_pos_nonneg 2 k ltac:(lia) Hk).
    split; [apply Z.div_le_lower_bound; lia|apply Z.div_lt_upper_bound; lia]. }
  destruct Hr as [Herr Hr]. replace (2 ^ k * d) with (d * 2 ^ k) by lia.
  destruct (Z.eq_dec r (2 ^ 53)) as [Hcarry|Hno].
  - rewrite Hcarry. change (Zdigits2 (2 ^ 53)) with 54. rewrite Hfexp by lia.
    exists 4503599627370496%positive, (k + 1).
    replace (54 + (e + k) - 53 - (e + k)) with 1 by lia.
    change (shr _ (e + k) 1) with
      ({| shr_m := Zpos 4503599627370496; shr_r := false; shr_s := false |}, e + k + 1).
    cbn [shr_m]. change (1024 - 53) with 971.
    rewrite (proj2 (Z.leb_le (e + k + 1) 971)) by lia.
    split_and!; [f_equal; lia|lia..|].
    rewrite Hcarry in Herr. rewrite Z.pow_add_r by lia. lia.
  - assert (Hbound : 2 ^ 52 <= r < 2 ^ 53) by lia. destruct r as [|m|m]; [lia| |lia].
    change (Zdigits2 (Zpos m)) with (Zpos (digits2_pos m)).
    rewrite (digits_unique m 53) by lia. rewrite Hfexp by lia.
    replace (53 + (e + k) - 53 - (e + k)) with 0 by lia. cbn [shr shr_m shr_record_of_loc].
    exists m, k. rewrite (proj2 (Z.leb_le (e + k) _)) by lia.
    split_and!; [done|lia..|]. lia.
Qed.

(** An integer below 2^53 is a double. *)
Lemma of_int_spec s p :
  Zpos p < 2 ^ 53 →
  ∃ m k, of_int (cond_Zopp s (Zpos p)) = S754_finite s m (- k) ∧
    2 ^ 52 <= Zpos m < 2 ^ 53 ∧ 0 <= k <= 52 ∧ Zpos m = Zpos p * 2 ^ k.
Proof.
  intros Hp. pose proof (digits2_pos_spec p) as Hd. set (dg := Zpos (digits2_pos p)) in *.
  assert (1 <= dg <= 53).
  { split; [lia|]. destruct (Z.le_gt_cases dg 53); [done|].
    pose proof (Z.pow_le_mono_r 2 53 (dg - 1)). lia. }
  assert (Hround : of_int (cond_Zopp s (Zpos p)) = binary_round 53 1024 s p 0)
    by (destruct s; done).
  rewrite Hround. unfold binary_round, shl_align. rewrite Z.add_0_r. fold dg.
  replace (fexp 53 1024 dg) with (dg - 53) by (unfold fexp, emin; lia).
  assert (Hiter : ∀ k, Zpos (Pos.iter xO p k) = Zpos p * 2 ^ Zpos k).
  { intros k. induction k as [|k IH] using Pos.peano_ind; [cbn; lia|].
    rewrite Pos.iter_succ, Pos2Z.inj_succ, Z.pow_succ_r by lia. lia. }
  assert (Hz : ∃ mz, (match dg - 53 - 0 with Zneg d => (Pos.iter xO p d, dg - 53) | _ => (p, 0) end)
                     = (mz, - (53 - dg)) ∧ Zpos mz = Zpos p * 2 ^ (53 - dg)).
  { destruct (dg - 53 - 0) as [|x|x] eqn:Hx; [|lia|].
    - exists p. split; [f_equal; lia|]. replace (53 - dg) with 0 by lia. lia.
    - exists (Pos.iter xO p x). split; [f_equal; lia|]. rewrite Hiter. do 2 f_equal. lia. }
  destruct Hz as (mz & -> & Hmz).
  assert (Hmzb : 2 ^ 52 <= Zpos mz < 2 ^ 53).
  { assert (2 ^ 52 = 2 ^ (dg - 1) * 2 ^ (53 - dg)) as ->
      by (rewrite <- Z.pow_add_r by lia; f_equal; lia).
    assert (2 ^ 53 = 2 ^ dg * 2 ^ (53 - dg)) as ->
      by (rewrite <- Z.pow_add_r by lia; f_equal; lia).
    rewrite Hmz. pose proof (Z.pow_pos_nonneg 2 (53 - dg)). nia. }
  destruct (round_aux_spec s mz (- (53 - dg)) loc_Exact (Zpos mz) 1 0)
    as (m & j & -> & Hm & Hj & Herr); [lia|lia|apply exact_shifted|lia|lia|lia|lia|].
  assert (j = 0 ∨ j = 1) as [-> | ->] by lia; [|lia].
  exists m, (53 - dg). split_and!; [f_equal; lia|lia..].
Qed.

(** ** The two conversions *)

Definition scale_mantissa : positive := 8589934592000000.   (* 10^6 * 2^33 *)

Lemma scale_of_int : of_int PRICE_SCALE = S754_finite false scale_mantissa (- 33).
Proof. vm_compute. reflexivity. Qed.

(** Dividing by the scale: the mantissa [m] of [from_fixed p] at exponent [-k]
    satisfies [m * 10^6 = p * 2^k] up to half of [10^6]. *)
Lemma from_fixed_spec s p :
  Zpos p < 2 ^ 53 →
  ∃ m k, from_fixed (cond_Zopp s (Zpos p)) = S754_finite s m (- k) ∧
    2 ^ 52 <= Zpos m < 2 ^ 53 ∧ 18 <= k <= 72 ∧
    Z.abs (2 * (Zpos m * 1000000 - Zpos p * 2 ^ k)) <= 1000000.
Proof.
  intros Hp. unfold from_fixed. rewrite scale_of_int.
  destruct (of_int_spec s p Hp) as (m1 & k1 & -> & Hm1 & Hk1 & Hval).
  unfold double_div, SFdiv, SFdiv_core_binary. cbv zeta.
  change (Zdigits2 (Zpos m1)) with (Zpos (digits2_pos m1)).
  rewrite (digits_unique m1 53) by lia. change (Zdigits2 (Zpos scale_mantissa)) with 53.
  replace (Z.min (fexp 53 1024 (53 + - k1 - (53 + -33))) (- k1 - -33)) with (- k1 - 20)
    by (unfold fexp, emin; lia).
  replace (- k1 - -33 - (- k1 - 20)) with 53 by lia. cbv beta iota.
  rewrite Z.shiftl_mul_pow2 by lia. set (n := Zpos m1 * 2 ^ 53).
  pose proof (Z.div_mod n (Zpos scale_mantissa) ltac:(done)) as Hdm.
  pose proof (Z.mod_pos_bound n (Zpos scale_mantissa) ltac:(done)) as Hrem.
  unfold Z.div, Z.modulo in Hdm, Hrem.
  pose proof (location_shifted n (Zpos scale_mantissa) ltac:(done) eq_refl) as Hloc.
  unfold Z.div, Z.modulo in Hloc. destruct (Z.div_eucl n (Zpos scale_mantissa)) as [q r].
  assert (Hq : 2 ^ 52 <= q < 2 ^ 54) by (unfold n, scale_mantissa in *; lia).
  destruct q as [|q|q]; [lia| |lia]. rewrite xorb_false_r.
  assert (∃ k, 0 <= k <= 1 ∧ 2 ^ (k + 52) <= Zpos q < 2 ^ (k + 53)) as (k & Hk & Hqk).
  { destruct (Z.lt_ge_cases (Zpos q) (2 ^ 53)); [exists 0|exists 1]; cbn; lia. }
  destruct (round_aux_spec s q (- k1 - 20) (new_location (Zpos scale_mantissa) r) n
              (Zpos scale_mantissa) k)
    as (m & j & Heq & Hm & Hj & Herr); [done|lia|exact Hloc|lia|lia|lia|lia|].
  exists m, (k1 + 20 - j). rewrite Heq. split_and!; [f_equal; lia|lia..|].
  assert (Hp2 : 2 ^ k1 * 2 ^ 53 = 2 ^ (k1 + 20 - j) * (2 ^ j * 2 ^ 33))
    by (rewrite <- !Z.pow_add_r by lia; f_equal; lia).
  assert (Hn : n = Zpos p * 2 ^ (k1 + 20 - j) * (2 ^ j * 2 ^ 33))
    by (unfold n; rewrite Hval; lia).
  change (Zpos scale_mantissa) with (1000000 * 2 ^ 33) in Herr. rewrite Hn in Herr.
  pose proof (Z.pow_le_mono_r 2 k j ltac:(lia) ltac:(lia)).
  pose proof (Z.pow_pos_nonneg 2 k ltac:(lia) ltac:(lia)).
  set (a := Zpos m * 1000000 - Zpos p * 2 ^ (k1 + 20 - j)) in *.
  replace (2 * (Zpos m * 2 ^ j * (1000000 * 2 ^ 33) - _)) with (2 * a * (2 ^ j * 2 ^ 33)) in Herr
    by (unfold a; ring).
  rewrite Z.abs_mul, (Z.abs_eq (2 ^ j * 2 ^ 33)) in Herr by lia.
  apply (Z.mul_le_mono_pos_r _ _ (2 ^ j * 2 ^ 33)); [lia|]. etrans; [exact Herr|]. nia.
Qed.

(** Multiplying by the scale, in the range of prices. *)
Lemma to_fixed_spec s m k :
  2 ^ 52 <= Zpos m < 2 ^ 53 → 18 <= k <= 72 →
  ∃ r j i, to_fixed (S754_finite s m (- k)) =
      (let z := cond_Zopp s (Zpos r * 2 ^ j / 2 ^ (k + 33)) in if in_i64 z then Ok z else UB) ∧
    52 <= i <= j ∧ 2 ^ (i + 52) <= Zpos m * 1000000 * 2 ^ 33 < 2 ^ (i + 53) ∧
    Z.abs (2 * (Zpos r * 2 ^ j - Zpos m * 1000000 * 2 ^ 33)) <= 2 ^ i.
Proof.
  intros Hm Hk. unfold to_fixed. rewrite scale_of_int. unfold double_mul, SFmul.
  rewrite xorb_false_r. set (q := (m * scale_mantissa)%positive).
  assert (Hq : Zpos q = Zpos m * 1000000 * 2 ^ 33) by (unfold q, scale_mantissa; lia).
  clearbody q.
  assert (∃ i, 52 <= i <= 53 ∧ 2 ^ (i + 52) <= Zpos q < 2 ^ (i + 53)) as (i & Hi & Hqi).
  { destruct (Z.lt_ge_cases (Zpos q) (2 ^ 105)); [exists 52|exists 53]; cbn; lia. }
  destruct (round_aux_spec s q (- k + -33) loc_Exact (Zpos q) 1 i)
    as (r & j & -> & Hr & Hj & Herr); [lia|lia|apply exact_shifted|lia|lia|lia|lia|].
  exists r, j, i. split_and!; [|lia..|rewrite <- Hq; lia|rewrite <- Hq; lia|rewrite <- Hq; lia].
  cbn [double_to_int]. cbv zeta.
  assert (trunc_mag r (- k + -33 + j) = Zpos r * 2 ^ j / 2 ^ (k + 33)) as ->; [|done].
  unfold trunc_mag. destruct (Z.leb_spec 0 (- k + -33 + j)).
  - assert (2 ^ j = 2 ^ (- k + -33 + j) * 2 ^ (k + 33)) as ->
      by (rewrite <- Z.pow_add_r by lia; f_equal; lia).
    rewrite Z.mul_assoc, Z.div_mul by (apply Z.pow_nonzero; lia). done.
  - assert (2 ^ (k + 33) = 2 ^ (- (- k + -33 + j)) * 2 ^ j) as ->
      by (rewrite <- Z.pow_add_r by lia; f_equal; lia).
    rewrite Z.div_mul_cancel_r by (apply Z.pow_nonzero; lia). done.
Qed.

Lemma small_multiple a d : 0 < d → Z.abs (2 * (a * d)) <= d → a = 0.
Proof. intros Hd H. destruct (Z.eq_dec a 0) as [?|Ha]; [done|]. nia. Qed.

(** The exact conversion truncates a number just beside [p]. *)
Lemma to_from_fixed s p :
  Zpos p < 2 ^ 52 →
  ∃ z, to_fixed (from_fixed (cond_Zopp s (Zpos p))) = Ok (cond_Zopp s z) ∧
    Zpos p - 1 <= z <= Zpos p ∧ ((15625 | Zpos p) → z = Zpos p).
Proof.
  intros Hp. destruct (from_fixed_spec s p ltac:(lia)) as (m & k & -> & Hm & Hk & Hdiv).
  destruct (to_fixed_spec s m k Hm Hk) as (r & j & i & -> & Hi & Hbits & Hmul).
  set (K := 2 ^ k) in *. set (X := Zpos r * 2 ^ j) in *.
  assert (HT : 2 ^ (k + 33) = K * 2 ^ 33) by (unfold K; by rewrite Z.pow_add_r by lia).
  rewrite HT. assert (HK : 0 < K) by (apply Z.pow_pos_nonneg; lia).
  assert (HK20 : 2 ^ 20 <= K).
  { destruct (Z.lt_ge_cases k 20) as [Hk20|?]; [|apply Z.pow_le_mono_r; lia].
    pose proof (Z.pow_le_mono_r 2 k 19 ltac:(lia) ltac:(lia)) as Hle. fold K in Hle. nia. }
  assert (H2i : 2 ^ i * 2 ^ 52 <= Zpos m * 1000000 * 2 ^ 33)
    by (rewrite <- Z.pow_add_r by lia; lia).
  assert (HpK : Zpos p * K <= (2 ^ 52 - 1) * K) by nia.
  assert (Hz : Zpos p - 1 <= X / (K * 2 ^ 33) <= Zpos p).
  { assert (Hup : X < (Zpos p + 1) * (K * 2 ^ 33)) by lia.
    assert (Hlo : (Zpos p - 1) * (K * 2 ^ 33) <= X) by lia.
    split; [apply Z.div_le_lower_bound; lia|]. apply Z.lt_succ_r, Z.div_lt_upper_bound; lia. }
  exists (X / (K * 2 ^ 33)). split_and!; [|lia..|].
  - cbv zeta. assert (in_i64 (cond_Zopp s (X / (K * 2 ^ 33))) = true) as ->; [|done].
    unfold in_i64, INT64_MAX. destruct s; cbn [cond_Zopp]; btauto_Z; lia.
  - intros [t Ht].
    assert (Hexact : Zpos m * 1000000 = Zpos p * K).
    { assert (K = 64 * 2 ^ (k - 6)) as HK6
        by (unfold K; change 64 with (2 ^ 6); rewrite <- Z.pow_add_r by lia; f_equal; lia).
      assert (Hdvd : Zpos m * 1000000 - Zpos p * K = (Zpos m - t * 2 ^ (k - 6)) * 1000000)
        by (rewrite Ht, HK6; ring).
      rewrite Hdvd in Hdiv. apply small_multiple in Hdiv; [|lia]. rewrite Hdiv in Hdvd. lia. }
    assert (Hji : 2 ^ j = 2 ^ (j - i) * 2 ^ i)
      by (rewrite <- Z.pow_add_r by lia; f_equal; lia).
    assert (Hki : i <= k + 33).
    { destruct (Z.le_gt_cases i (k + 33)) as [?|Hgt]; [done|exfalso].
      pose proof (Z.pow_le_mono_r 2 (k + 34) i ltac:(lia) ltac:(lia)) as Hle.
      replace (k + 34) with (k + 33 + 1) in Hle by lia.
      rewrite Z.pow_add_r, HT in Hle by lia. lia. }
    assert (Hk2 : K * 2 ^ 33 = 2 ^ (k + 33 - i) * 2 ^ i)
      by (rewrite <- HT, <- Z.pow_add_r by lia; f_equal; lia).
    assert (HX : X = Zpos p * (K * 2 ^ 33)).
    { pose proof (Z.pow_pos_nonneg 2 i ltac:(lia) ltac:(lia)).
      assert (Hd : X - Zpos m * 1000000 * 2 ^ 33
                   = (Zpos r * 2 ^ (j - i) - Zpos p * 2 ^ (k + 33 - i)) * 2 ^ i).
      { rewrite Hexact, <- Z.mul_assoc, Hk2. unfold X. rewrite Hji. ring. }
      rewrite Hd in Hmul. apply small_multiple in Hmul; [|lia].
      rewrite Hmul in Hd. rewrite <- Hexact in *. lia. }
    rewrite HX. apply Z.div_mul. lia.
Qed.

(** ** Properties *)

(** C36. A fixed-point price survives the trip through a double up to one tick: for
    every price below 2^52 (4.5 billion dollars) in absolute value, [to_fixed] of
    [from_fixed] is defined and gives the price itself or the price one unit closer
    to zero; a multiple of 1/64 dollar always survives unchanged. *)
Theorem fixed_roundtrip_within_one_tick p :
  Z.abs p < 2 ^ 52 →
  ∃ z, to_fixed (from_fixed p) = Ok z ∧ (z = p ∨ z = p - Z.sgn p) ∧
    ((15625 | p) → z = p).
Proof.
  intros Hp. destruct p as [|p|p].
  - exists 0. split_and!; [vm_compute; reflexivity|by left|done].
  - destruct (to_from_fixed false p ltac:(lia)) as (z & Hz & Hb & Hd). cbn [cond_Zopp] in Hz.
    exists z. split_and!; [done|lia|done].
  - destruct (to_from_fixed true p ltac:(lia)) as (z & Hz & Hb & Hd). cbn [cond_Zopp] in Hz.
    exists (- z). split_and!; [done|lia|]. intros Hdvd.
    rewrite Hd; [done|]. by apply Z.divide_opp_r in Hdvd.
Qed.

Lemma fixed_roundtrip_within_one_tick_witness :
  to_fixed (from_fixed 175500000) = Ok 175500000 ∧
  ∃ z, to_fixed (from_fixed (-2010000)) = Ok z ∧ (z = -2010000 ∨ z = -2009999).
Proof.
  split.
  - destruct (fixed_roundtrip_within_one_tick 175500000 ltac:(vm_compute; reflexivity))
      as (z & Hz & _ & Hd).
    rewrite Hz. f_equal. apply Hd. exists 11232. reflexivity.
  - destruct (fixed_roundtrip_within_one_tick (-2010000) ltac:(vm_compute; reflexivity))
      as (z & Hz & Hor & _).
    exists z. split; [exact Hz|]. destruct Hor as [->| ->]; [by left|by right].
Defined.
