(* ===== verification/FixMessages.v ===== *)
(** * [FixMessages]: what the gateway relies on from the FIX engine's messages

    The QuickFIX classes are not part of the repository.  The messages are an
    abstract type with the operations the source calls, and the documented behaviour
    of those operations as laws; the constants of [FixValues.h] are parameters known
    to be distinct.  A concrete instance shows that the laws can be met. *)

From Stdlib Require Import Floats.SpecFloat.
From S2P Require Import Prelude CString Fixed.

Local Open Scope Z_scope.

(** ** The fields the source names *)

Inductive fix_field : Type :=
  | F_ExecType | F_Symbol | F_ClOrdID | F_OrigClOrdID | F_Side
  | F_LastShares | F_LastPx | F_HandlInst | F_TransactTime
  | F_OrdType | F_OrderQty | F_Price | F_TimeInForce.

#[export] Instance fix_field_eq_dec : EqDecision fix_field.
Proof. solve_decision. Defined.

(** A UTC time stamp. *)
Definition utc : Type := Z.

Definition field_type (f : fix_field) : Type :=
  match f with
  | F_ExecType | F_Side | F_HandlInst | F_OrdType | F_TimeInForce => char
  | F_Symbol | F_ClOrdID | F_OrigClOrdID => list char
  | F_LastShares | F_LastPx | F_OrderQty | F_Price => spec_float
  | F_TransactTime => utc
  end.

(** Fields stored as they are; numbers and times go through their wire format. *)
Definition plain_field (f : fix_field) : bool :=
  match f with
  | F_LastShares | F_LastPx | F_OrderQty | F_Price | F_TransactTime => false
  | _ => true
  end.

(** ** Messages

    [fix_get] is [FieldMap::get] followed by [getValue]: it throws [FieldNotFound]
    when the field is absent and may throw when its text does not parse. *)

Class FixMessage (M : Type) : Type := {
  fix_get (f : fix_field) : M → outcome (field_type f);
  fix_isSet : fix_field → M → bool;
  fix_set (f : fix_field) : field_type f → M → M;
  fix_removeField : fix_field → M → M;
  fix_wire (f : fix_field) : field_type f → field_type f;
  NewOrderSingle (clOrdID : list char) (handlInst : char) (symbol : list char)
    (side : char) (transactTime : utc) (ordType : char) : M;
  OrderCancelRequest (origClOrdID clOrdID symbol : list char) (side : char)
    (transactTime : utc) : M;
}.

Class FixMessageLaws (M : Type) `{FixMessage M} : Prop := {
  fix_wire_plain f v : plain_field f = true → fix_wire f v = v;
  fix_get_absent f m : fix_isSet f m = false → ∃ what, fix_get f m = Throw (FieldNotFound what);
  fix_get_set f v m : fix_get f (fix_set f v m) = Ok (fix_wire f v);
  fix_get_set_ne f g v m : f ≠ g → fix_get f (fix_set g v m) = fix_get f m;
  fix_isSet_remove f m : fix_isSet f (fix_removeField f m) = false;
  fix_get_remove_ne f g m : f ≠ g → fix_get f (fix_removeField g m) = fix_get f m;
  new_order_ClOrdID c h s sd t o : fix_get F_ClOrdID (NewOrderSingle c h s sd t o) = Ok c;
  new_order_Symbol c h s sd t o : fix_get F_Symbol (NewOrderSingle c h s sd t o) = Ok s;
  new_order_Side c h s sd t o : fix_get F_Side (NewOrderSingle c h s sd t o) = Ok sd;
  new_order_OrdType c h s sd t o : fix_get F_OrdType (NewOrderSingle c h s sd t o) = Ok o;
  cancel_OrigClOrdID c n s sd t :
    fix_get F_OrigClOrdID (OrderCancelRequest c n s sd t) = Ok c;
  cancel_ClOrdID c n s sd t : fix_get F_ClOrdID (OrderCancelRequest c n s sd t) = Ok n;
  cancel_Symbol c n s sd t : fix_get F_Symbol (OrderCancelRequest c n s sd t) = Ok s;
  cancel_Side c n s sd t : fix_get F_Side (OrderCancelRequest c n s sd t) = Ok sd;
}.

(** ** Constants of [FixValues.h]

    The [switch] of the translator only compiles when the [ExecType] constants
    differ. *)

Class FixValues : Type := {
  ExecType_NEW : char;
  ExecType_PARTIAL_FILL : char;
  ExecType_FILL : char;
  ExecType_CANCELED : char;
  ExecType_REJECTED : char;
  Side_BUY : char;
  Side_SELL : char;
  OrdType_MARKET : char;
  OrdType_LIMIT : char;
  TimeInForce_DAY : char;
  ExecType_distinct :
    NoDup [ExecType_NEW; ExecType_PARTIAL_FILL; ExecType_FILL; ExecType_CANCELED;
           ExecType_REJECTED];
  Side_distinct : Side_BUY ≠ Side_SELL;
}.

(** ** An instance: finite maps with typed values *)

Definition field_store : Type := ∀ f, option (field_type f).

Definition store_set (f : fix_field) (v : option (field_type f)) (m : field_store) : field_store :=
  λ g, match decide (f = g) with
       | left E => eq_rect f (λ h, option (field_type h)) v g E
       | right _ => m g
       end.

Lemma store_set_eq f v m : store_set f v m f = v.
Proof.
  unfold store_set. destruct (decide (f = f)) as [E|]; [|done].
  by rewrite (proof_irrel E eq_refl).
Qed.

Lemma store_set_ne f g v m : f ≠ g → store_set f v m g = m g.
Proof. intros Hne. unfold store_set. by destruct (decide (f = g)). Qed.

Definition store_get (f : fix_field) (m : field_store) : outcome (field_type f) :=
  match m f with Some v => Ok v | None => Throw (FieldNotFound "") end.

#[export] Instance field_store_message : FixMessage field_store := {
  fix_get := store_get;
  fix_isSet f m := match m f with Some _ => true | None => false end;
  fix_set f v := store_set f (Some v);
  fix_removeField f := store_set f None;
  fix_wire f v := v;
  NewOrderSingle c h s sd t o :=
    store_set F_ClOrdID (Some c) (store_set F_HandlInst (Some h) (store_set F_Symbol (Some s)
      (store_set F_Side (Some sd) (store_set F_TransactTime (Some t)
        (store_set F_OrdType (Some o) (λ _, None))))));
  OrderCancelRequest c n s sd t :=
    store_set F_OrigClOrdID (Some c) (store_set F_ClOrdID (Some n) (store_set F_Symbol (Some s)
      (store_set F_Side (Some sd) (store_set F_TransactTime (Some t) (λ _, None)))));
}.

#[export] Instance field_store_laws : FixMessageLaws field_store.
Proof.
  split; intros; cbn; unfold store_get; try by rewrite store_set_eq.
  all: try (rewrite !store_set_ne by done; by rewrite ?store_set_eq).
  - done.
  - cbn in *. destruct (m f); [done|]. by eexists.
Qed.

(** The values of FIX 4.2. *)
#[export, refine] Instance fix42_values : FixValues := {
  ExecType_NEW := "0"%char; ExecType_PARTIAL_FILL := "1"%char; ExecType_FILL := "2"%char;
  ExecType_CANCELED := "4"%char; ExecType_REJECTED := "8"%char;
  Side_BUY := "1"%char; Side_SELL := "2"%char;
  OrdType_MARKET := "1"%char; OrdType_LIMIT := "2"%char; TimeInForce_DAY := "0"%char;
}.
Proof.
  - apply (bool_decide_unpack _). vm_compute. done.
  - done.
Defined.
