(* ===== verification/MessageTranslator.v ===== *)
(** * [MessageTranslator]: between FIX messages and order events
    (gateway/MessageTranslator.h)

    Inbound execution reports to events, outbound orders and cancel requests from
    events, over the abstract messages of [FixMessages]; an order, its echo in a
    report and the bookkeeping keys agree, with the price within one tick. *)

From Stdlib Require Import Floats.SpecFloat.
From S2P Require Import Prelude CString OrderEvent EventLog SlotTable PositionTracker OrderManager.
From S2P Require Import Fixed FixMessages.

Local Open Scope Z_scope.

Module MessageTranslator.
Section Translator.
Context {M : Type} `{FixMessage M} `{FixValues}.

(** The [switch] on [ExecType]; [None] is [std::nullopt]. *)
Definition exec_event (exec_type : char) : option EventType :=
  if decide (exec_type = ExecType_PARTIAL_FILL) then Some PartialFill
  else if decide (exec_type = ExecType_FILL) then Some FullFill
  else if decide (exec_type = ExecType_CANCELED) then Some Cancel
  else if decide (exec_type = ExecType_REJECTED) then Some Reject
  else None.

(** [strncpy(member, field.getString().c_str(), sizeof(member))] *)
Definition copy_field (s : list char) : outcome (list char) := strncpy (s ++ [NUL]) 8.

(** The fill members: quantity and price, 0 when the report does not carry both. *)
Definition fill_fields (etype : EventType) (report : M) : outcome (Z * Z) :=
  if bool_decide (etype = PartialFill) || bool_decide (etype = FullFill) then
    if fix_isSet F_LastShares report && fix_isSet F_LastPx report then
      last_qty ← fix_get F_LastShares report;
      last_px ← fix_get F_LastPx report;
      fill_qty ← double_to_int in_i32 last_qty;
      fill_price ← to_fixed last_px;
      Ok (fill_qty, fill_price)
    else Ok (0, 0)
  else Ok (0, 0).

Definition from_execution_report (report : M) : outcome (option OrderEvent) :=
  exec_type ← fix_get F_ExecType report;
  match exec_event exec_type with
  | None => Ok None
  | Some etype =>
      symbol ← fix_get F_Symbol report;
      evt_symbol ← copy_field symbol;
      cl_ord_id ← fix_get F_ClOrdID report;
      evt_order_id ← copy_field cl_ord_id;
      side ← fix_get F_Side report;
      fill ← fill_fields etype report;
      Ok (Some {|
        oe_sequence := 0; oe_timestamp_ns := 0;
        oe_price := 0; oe_fill_price := fill.2;
        oe_qty := 0; oe_fill_qty := fill.1;
        oe_symbol := evt_symbol; oe_order_id := evt_order_id;
        oe_type := etype;
        oe_side := if decide (side = Side_BUY) then Buy else Sell;
        oe_pad := replicate 6 NUL;
      |})
  end.

(** [std::string(member, strnlen(member, sizeof(member)))] *)
Definition member_string (a : list char) : outcome (list char) := sv_chars <$> array_view a.

Definition fix_side (s : Side) : char := if decide (s = Buy) then Side_BUY else Side_SELL.

(** [now] is the time of the [FIX::TransactTime()] that is built. *)
Definition to_new_order_single (now : utc) (evt : OrderEvent) : outcome M :=
  clOrdID ← member_string (oe_order_id evt);
  symbol ← member_string (oe_symbol evt);
  let order := NewOrderSingle clOrdID "1"%char symbol (fix_side (oe_side evt)) now OrdType_LIMIT in
  let order := fix_set F_OrderQty (of_int (oe_qty evt)) order in
  let order := fix_set F_Price (from_fixed (oe_price evt)) order in
  Ok (fix_set F_TimeInForce TimeInForce_DAY order).

Definition to_cancel_request (now : utc) (original : OrderEvent) (new_cl_ord_id : list char) :
    outcome M :=
  origClOrdID ← member_string (oe_order_id original);
  symbol ← member_string (oe_symbol original);
  Ok (OrderCancelRequest origClOrdID new_cl_ord_id symbol (fix_side (oe_side original)) now).
End Translator.
End MessageTranslator.

(** ** Lemmas *)

Lemma cstr_take n p : cstr n p = take (length (cstr n p)) p.
Proof.
  revert p. induction n as [|n IH]; intros [|c p]; [done..|]. cbn [cstr].
  case_match; [done|]. cbn [length take]. by rewrite <- IH.
Qed.

Lemma member_string_ok a : MessageTranslator.member_string a = Ok (cstr (length a) a).
Proof.
  unfold MessageTranslator.member_string. rewrite array_view_ok. cbn. f_equal.
  unfold sv_chars. cbn. by rewrite <- cstr_take.
Qed.

Lemma copy_field_ok s : MessageTranslator.copy_field s = Ok (pad 8 (cstr 8 (s ++ [NUL]))).
Proof. apply strncpy_spec, readable_string. Qed.

Lemma copy_field_key s :
  no_nul s → cstr 8 (pad 8 (cstr 8 (s ++ [NUL]))) = take 8 s.
Proof. intros Hs. rewrite cstr_idemp. by apply cstr_string. Qed.

(** An integer of a machine word survives the trip through a double. *)
Lemma double_to_int_of_int fits z :
  Z.abs z < 2 ^ 53 → fits z = true → double_to_int fits (of_int z) = Ok z.
Proof.
  intros Hz Hfits. destruct z as [|p|p]; [done|..].
  - destruct (of_int_spec false p ltac:(lia)) as (m & k & Heq & _ & Hk & Hm). cbn [cond_Zopp] in Heq.
    rewrite Heq. cbn [double_to_int cond_Zopp]. cbv zeta.
    assert (trunc_mag m (- k) = Zpos p) as ->; [|by rewrite Hfits].
    unfold trunc_mag. rewrite Z.opp_involutive, Hm, Z.div_mul by (apply Z.pow_nonzero; lia).
    destruct (Z.leb_spec 0 (- k)); [|done]. replace k with 0 by lia. lia.
  - destruct (of_int_spec true p ltac:(lia)) as (m & k & Heq & _ & Hk & Hm). cbn [cond_Zopp] in Heq.
    change (Zneg p) with (- Zpos p) in *. rewrite Heq. cbn [double_to_int cond_Zopp]. cbv zeta.
    assert (trunc_mag m (- k) = Zpos p) as ->; [|by rewrite Hfits].
    unfold trunc_mag. rewrite Z.opp_involutive, Hm, Z.div_mul by (apply Z.pow_nonzero; lia).
    destruct (Z.leb_spec 0 (- k)); [|done]. replace k with 0 by lia. lia.
Qed.

(** A machine number in the range of prices. *)
Lemma to_from_fixed_i64 p :
  Z.abs p < 2 ^ 52 →
  ∃ z, to_fixed (from_fixed p) = Ok z ∧ (z = p ∨ z = p - Z.sgn p) ∧ in_i64 z = true.
Proof.
  intros Hp. destruct p as [|p|p].
  - exists 0. split_and!; [vm_compute; reflexivity|by left|done].
  - destruct (to_from_fixed false p ltac:(lia)) as (z & Hz & Hb & _). cbn [cond_Zopp] in Hz.
    exists z. split_and!; [done|lia|]. unfold in_i64, INT64_MAX. btauto_Z; lia.
  - destruct (to_from_fixed true p ltac:(lia)) as (z & Hz & Hb & _). cbn [cond_Zopp] in Hz.
    exists (- z). split_and!; [done|lia|]. unfold in_i64, INT64_MAX. btauto_Z; lia.
Qed.

Section Reports.
Context {M : Type} `{FixMessageLaws M} `{FixValues}.
Import MessageTranslator.

Lemma exec_event_cases :
  exec_event ExecType_NEW = None ∧
  exec_event ExecType_PARTIAL_FILL = Some PartialFill ∧
  exec_event ExecType_FILL = Some FullFill ∧
  exec_event ExecType_CANCELED = Some Cancel ∧
  exec_event ExecType_REJECTED = Some Reject.
Proof.
  pose proof ExecType_distinct as Hd. unfold exec_event.
  repeat (apply NoDup_cons in Hd as [? Hd]). set_unfold.
  split_and!; repeat case_decide; try done; exfalso; intuition congruence.
Qed.

Lemma exec_event_booking c ty :
  exec_event c = Some ty → ty = PartialFill ∨ ty = FullFill ∨ ty = Cancel ∨ ty = Reject.
Proof. unfold exec_event. intros. repeat case_decide; simplify_eq; auto. Qed.

Lemma fix_side_inv s : s = Buy ∨ s = Sell → (if decide (fix_side s = Side_BUY) then Buy else Sell) = s.
Proof.
  pose proof Side_distinct. intros Hs. unfold fix_side.
  destruct Hs as [-> | ->]; repeat case_decide; congruence.
Qed.

(** The event of a readable report. *)
Definition report_event (ty : EventType) (s o : list char) (sd : char) (q px : Z) : OrderEvent := {|
  oe_sequence := 0; oe_timestamp_ns := 0; oe_price := 0; oe_fill_price := px;
  oe_qty := 0; oe_fill_qty := q;
  oe_symbol := pad 8 (cstr 8 (s ++ [NUL])); oe_order_id := pad 8 (cstr 8 (o ++ [NUL]));
  oe_type := ty; oe_side := if decide (sd = Side_BUY) then Buy else Sell;
  oe_pad := replicate 6 NUL;
|}.

Lemma from_execution_report_ok (r : M) c ty s o sd q px :
  fix_get F_ExecType r = Ok c → exec_event c = Some ty →
  fix_get F_Symbol r = Ok s → fix_get F_ClOrdID r = Ok o → fix_get F_Side r = Ok sd →
  fill_fields ty r = Ok (q, px) →
  from_execution_report r = Ok (Some (report_event ty s o sd q px)).
Proof.
  intros Hc Hty Hs Ho Hsd Hfill. unfold from_execution_report.
  rewrite Hc. cbn [mbind outcome_bind]. rewrite Hty, Hs. cbn [mbind outcome_bind].
  rewrite copy_field_ok, Ho. cbn [mbind outcome_bind].
  rewrite copy_field_ok, Hsd. cbn [mbind outcome_bind]. by rewrite Hfill.
Qed.

Lemma report_event_wf c ty s o sd q px :
  exec_event c = Some ty → in_i32 q = true → in_i64 px = true →
  wf_event (report_event ty s o sd q px) = true ∧ ids_ok (report_event ty s o sd q px).
Proof.
  intros Hty Hq Hpx. unfold wf_event, ids_ok. cbn [report_event oe_sequence oe_timestamp_ns
    oe_price oe_fill_price oe_qty oe_fill_qty oe_symbol oe_order_id oe_pad oe_type oe_side].
  rewrite !pad_length by apply cstr_length. split; [|done]. rewrite Hq, Hpx.
  apply exec_event_booking in Hty as [-> |[-> |[-> | ->]]]; case_decide; reflexivity.
Qed.

(** The outbound messages, read back. *)
Lemma to_new_order_single_ok now evt :
  ids_ok evt → ∃ m : M, to_new_order_single now evt = Ok m ∧
    fix_get F_ClOrdID m = Ok (order_key evt) ∧
    fix_get F_Symbol m = Ok (cstr 8 (oe_symbol evt)) ∧
    fix_get F_Side m = Ok (fix_side (oe_side evt)) ∧
    fix_get F_OrdType m = Ok OrdType_LIMIT ∧
    fix_get F_OrderQty m = Ok (fix_wire F_OrderQty (of_int (oe_qty evt))) ∧
    fix_get F_Price m = Ok (fix_wire F_Price (from_fixed (oe_price evt))).
Proof.
  intros [Ho Hs]. unfold to_new_order_single.
  rewrite !member_string_ok, Ho, Hs. cbn [mbind outcome_bind]. eexists. split; [done|].
  repeat first [rewrite fix_get_set_ne by done | rewrite fix_get_set].
  rewrite new_order_ClOrdID, new_order_Symbol, new_order_Side, new_order_OrdType. done.
Qed.

Lemma to_cancel_request_ok now evt new_id :
  ids_ok evt → ∃ m : M, to_cancel_request now evt new_id = Ok m ∧
    fix_get F_OrigClOrdID m = Ok (order_key evt) ∧
    fix_get F_ClOrdID m = Ok new_id ∧
    fix_get F_Symbol m = Ok (cstr 8 (oe_symbol evt)) ∧
    fix_get F_Side m = Ok (fix_side (oe_side evt)).
Proof.
  intros [Ho Hs]. unfold to_cancel_request.
  rewrite !member_string_ok, Ho, Hs. cbn [mbind outcome_bind]. eexists. split; [done|].
  rewrite cancel_OrigClOrdID, cancel_ClOrdID, cancel_Symbol, cancel_Side. done.
Qed.

Lemma cstr_key_field evt : cstr 8 (cstr 8 evt ++ [NUL]) = cstr 8 evt.
Proof.
  rewrite cstr_string by apply cstr_no_nul. apply take_ge, cstr_length.
Qed.

Lemma double_to_int_fits fits d z : fits 0 = true → double_to_int fits d = Ok z → fits z = true.
Proof.
  intros Hz. unfold double_to_int. destruct d as [| | |s m e]; [by intros [= <-]|done..|].
  destruct (fits (cond_Zopp s (trunc_mag m e))) eqn:Hf; [|done].
  by intros [= <-].
Qed.

(** Every translated event is well formed and books something. *)
Lemma from_execution_report_wf (r : M) e :
  from_execution_report r = Ok (Some e) →
  wf_event e = true ∧ oe_sequence e = 0 ∧
  (oe_type e = PartialFill ∨ oe_type e = FullFill ∨ oe_type e = Cancel ∨ oe_type e = Reject).
Proof.
  unfold from_execution_report. intros He.
  apply bind_Ok in He as (c & _ & He). destruct (exec_event c) as [ty|] eqn:Hty; [|done].
  apply bind_Ok in He as (s & _ & He). rewrite copy_field_ok in He. cbn [mbind outcome_bind] in He.
  apply bind_Ok in He as (o & _ & He). rewrite copy_field_ok in He. cbn [mbind outcome_bind] in He.
  apply bind_Ok in He as (sd & _ & He). apply bind_Ok in He as ([q px] & Hfill & He).
  injection He as <-. cbn [fst snd].
  assert (in_i32 q = true ∧ in_i64 px = true) as [Hq Hpx].
  { unfold fill_fields in Hfill. destruct (_ || _); [|by simplify_eq].
    destruct (_ && _); [|by simplify_eq].
    apply bind_Ok in Hfill as (dq & _ & Hfill). apply bind_Ok in Hfill as (dp & _ & Hfill).
    apply bind_Ok in Hfill as (q' & Hq' & Hfill). apply bind_Ok in Hfill as (p' & Hp' & Hfill).
    injection Hfill as -> ->.
    split; [by eapply (double_to_int_fits in_i32)|by eapply (double_to_int_fits in_i64)]. }
  split_and!; [by apply (report_event_wf c ty s o sd q px)|done|by apply (exec_event_booking c)].
Qed.

(** Any side other than buy books as a sell. *)
Lemma other_side_books_as_sell (r : M) e sd :
  from_execution_report r = Ok (Some e) → fix_get F_Side r = Ok sd →
  sd ≠ Side_BUY → oe_side e = Sell.
Proof.
  unfold from_execution_report. intros He Hsd Hne.
  apply bind_Ok in He as (c & _ & He). destruct (exec_event c); [|done].
  repeat (apply bind_Ok in He as (? & ? & He)). injection He as <-. cbn.
  rewrite decide_False; [done|congruence].
Qed.
End Reports.

(** ** Properties *)

(** A report for the examples: one whose fields are the ones given. *)
Definition sample_report (exec_type side : char) (sym oid : string)
    (fill : option (spec_float * spec_float)) : field_store :=
  let m := store_set F_ExecType (Some exec_type) (store_set F_Symbol (Some (lit sym))
    (store_set F_ClOrdID (Some (lit oid)) (store_set F_Side (Some side) (λ _, None)))) in
  match fill with
  | Some (q, px) => store_set F_LastShares (Some q) (store_set F_LastPx (Some px) m)
  | None => m
  end.

(** The translation of a report that names the key, the symbol and the side of an
    order event. *)
Lemma report_of_order {M} `{FixMessageLaws M} `{FixValues} (r : M) evt c ty q p :
  oe_side evt = Buy ∨ oe_side evt = Sell →
  fix_get F_ExecType r = Ok c → MessageTranslator.exec_event c = Some ty →
  fix_get F_ClOrdID r = Ok (order_key evt) → fix_get F_Symbol r = Ok (cstr 8 (oe_symbol evt)) →
  fix_get F_Side r = Ok (MessageTranslator.fix_side (oe_side evt)) →
  fix_isSet F_LastShares r = true → fix_isSet F_LastPx r = true →
  fix_get F_LastShares r = Ok (of_int q) → fix_get F_LastPx r = Ok (from_fixed p) →
  in_i32 q = true → Z.abs p < 2 ^ 52 →
  ∃ e, MessageTranslator.from_execution_report r = Ok (Some e) ∧
    wf_event e = true ∧ oe_type e = ty ∧ order_key e = order_key evt ∧
    cstr 8 (oe_symbol e) = cstr 8 (oe_symbol evt) ∧ oe_side e = oe_side evt ∧
    (is_fill e = true → oe_fill_qty e = q ∧
       (oe_fill_price e = p ∨ oe_fill_price e = p - Z.sgn p)) ∧
    (is_fill e = false → oe_fill_qty e = 0 ∧ oe_fill_price e = 0).
Proof.
  intros Hside Hc Hty Ho Hs Hsd Hq1 Hp1 Hq2 Hp2 Hq Hp.
  destruct (to_from_fixed_i64 p Hp) as (z & Hz & Hzp & Hz64).
  set (fill := bool_decide (ty = PartialFill) || bool_decide (ty = FullFill)).
  assert (Hfill : MessageTranslator.fill_fields ty r = Ok (if fill then q else 0, if fill then z else 0)).
  { unfold MessageTranslator.fill_fields. fold fill. destruct fill; [|done].
    rewrite Hq1, Hp1, Hq2, Hp2. cbn [andb mbind outcome_bind].
    rewrite double_to_int_of_int by (done || (unfold in_i32, INT32_MAX in Hq; btauto_Z; lia)).
    cbn [mbind outcome_bind]. rewrite Hz. done. }
  eexists. split; [by eapply from_execution_report_ok|].
  destruct (report_event_wf c ty (cstr 8 (oe_symbol evt)) (order_key evt)
    (MessageTranslator.fix_side (oe_side evt)) (if fill then q else 0) (if fill then z else 0)) as [Hwf _];
    [done|by destruct fill|by destruct fill|].
  split; [exact Hwf|]. unfold is_fill, order_key. cbn [report_event oe_type oe_order_id oe_symbol
    oe_side oe_fill_qty oe_fill_price]. fold fill.
  rewrite !cstr_idemp, !cstr_key_field. split_and!; try done; [by apply fix_side_inv|..].
  all: by intros ->.
Qed.

(** C35. An order and the report that answers it meet again: when a booked execution
    report echoes the ClOrdID, Symbol and Side of the NewOrderSingle built from an
    event and carries the execution as doubles, its translation has the event's
    order key, symbol and side, the quantity that was executed, and the price or
    the price one tick closer to zero. *)
Theorem execution_report_matches_order {M} `{FixMessageLaws M} `{FixValues}
    (m r : M) now evt c ty q p :
  ids_ok evt → oe_side evt = Buy ∨ oe_side evt = Sell →
  MessageTranslator.to_new_order_single now evt = Ok m →
  fix_get F_ExecType r = Ok c → MessageTranslator.exec_event c = Some ty →
  (∀ f, f ∈ [F_ClOrdID; F_Symbol; F_Side] → fix_get f r = fix_get f m) →
  fix_isSet F_LastShares r = true → fix_isSet F_LastPx r = true →
  fix_get F_LastShares r = Ok (of_int q) → fix_get F_LastPx r = Ok (from_fixed p) →
  in_i32 q = true → Z.abs p < 2 ^ 52 →
  ∃ e, MessageTranslator.from_execution_report r = Ok (Some e) ∧
    wf_event e = true ∧ oe_type e = ty ∧ order_key e = order_key evt ∧
    cstr 8 (oe_symbol e) = cstr 8 (oe_symbol evt) ∧ oe_side e = oe_side evt ∧
    (is_fill e = true → oe_fill_qty e = q ∧
       (oe_fill_price e = p ∨ oe_fill_price e = p - Z.sgn p)) ∧
    (is_fill e = false → oe_fill_qty e = 0 ∧ oe_fill_price e = 0).
Proof.
  intros Hids Hside Hm Hc Hty Hecho Hq1 Hp1 Hq2 Hp2 Hq Hp.
  destruct (to_new_order_single_ok (M := M) now evt Hids) as (m' & Hm' & Ho & Hs & Hsd & _).
  assert (m' = m) as -> by congruence.
  rewrite <- Hecho in Ho, Hs, Hsd by set_solver. by eapply report_of_order.
Qed.

Lemma execution_report_matches_order_witness :
  let evt := sample_event NewOrder "AAPL" "ORD7" Sell 100 175500000 in
  ∃ e, MessageTranslator.from_execution_report
         (sample_report "2"%char "2"%char "AAPL" "ORD7"
            (Some (of_int 60, from_fixed 175480000))) = Ok (Some e) ∧
    order_key e = lit "ORD7" ∧ oe_side e = Sell ∧ oe_fill_qty e = 60.
Proof.
  intros evt. destruct (Ok_ex (MessageTranslator.to_new_order_single (M := field_store) 0 evt))
    as [m Hm]; [reflexivity|].
  destruct (execution_report_matches_order m
    (sample_report "2"%char "2"%char "AAPL" "ORD7" (Some (of_int 60, from_fixed 175480000)))
    0 evt "2"%char FullFill 60 175480000)
    as (e & He & _ & Hty & Hk & _ & Hsd & Hf & _);
    [done|by right|exact Hm|reflexivity|reflexivity| |reflexivity..|lia|].
  - injection Hm as <-. intros f Hf.
    repeat (apply elem_of_cons in Hf as [-> |Hf]; [reflexivity|]). by apply elem_of_nil in Hf.
  - exists e. split; [exact He|]. split; [exact Hk|]. split; [exact Hsd|].
    apply Hf. unfold is_fill. by rewrite Hty.
Defined.

(** What a report without all its fields books: a report that is not a fill,
    cancel or reject books nothing, whatever else it says; a booked one without
    Symbol, ClOrdID or Side throws [FieldNotFound]; and a fill without LastShares or
    LastPx is not refused but booked as a fill of quantity 0 at price 0. *)
Theorem incomplete_report_outcomes {M} `{FixMessageLaws M} `{FixValues} (r : M) c :
  fix_get F_ExecType r = Ok c →
  (MessageTranslator.exec_event c = None →
     MessageTranslator.from_execution_report r = Ok None) ∧
  (∀ ty, MessageTranslator.exec_event c = Some ty →
     (∀ f, f ∈ [F_Symbol; F_ClOrdID; F_Side] → fix_isSet f r = true → is_Ok (fix_get f r) = true) →
     (∃ f, f ∈ [F_Symbol; F_ClOrdID; F_Side] ∧ fix_isSet f r = false) →
     ∃ what, MessageTranslator.from_execution_report r = Throw (FieldNotFound what)) ∧
  (∀ ty, MessageTranslator.exec_event c = Some ty → ty = PartialFill ∨ ty = FullFill →
     (∀ f, f ∈ [F_Symbol; F_ClOrdID; F_Side] → is_Ok (fix_get f r) = true) →
     fix_isSet F_LastShares r && fix_isSet F_LastPx r = false →
     ∃ e, MessageTranslator.from_execution_report r = Ok (Some e) ∧
       oe_type e = ty ∧ oe_fill_qty e = 0 ∧ oe_fill_price e = 0).
Proof.
  intros Hc. split_and!.
  - intros Hty. unfold MessageTranslator.from_execution_report. rewrite Hc.
    cbn [mbind outcome_bind]. by rewrite Hty.
  - intros ty Hty Hset (f & Hf & Habs). unfold MessageTranslator.from_execution_report.
    rewrite Hc. cbn [mbind outcome_bind]. rewrite Hty.
    assert (Hread : ∀ g, g ∈ [F_Symbol; F_ClOrdID; F_Side] →
      (∃ v, fix_get g r = Ok v) ∨ (∃ what, fix_get g r = Throw (FieldNotFound what))).
    { intros g Hg. destruct (fix_isSet g r) eqn:Hg1; [left; by apply Ok_ex, Hset|].
      right. by apply fix_get_absent. }
    destruct (fix_get_absent _ _ Habs) as [what Hthrow].
    destruct (Hread F_Symbol ltac:(set_solver)) as [[s Hs]|[w Hs]];
      rewrite Hs; cbn [mbind outcome_bind]; [|by exists w].
    rewrite copy_field_ok. cbn [mbind outcome_bind].
    destruct (Hread F_ClOrdID ltac:(set_solver)) as [[o Ho]|[w Ho]];
      rewrite Ho; cbn [mbind outcome_bind]; [|by exists w].
    rewrite copy_field_ok. cbn [mbind outcome_bind].
    destruct (Hread F_Side ltac:(set_solver)) as [[sd Hsd]|[w Hsd]];
      rewrite Hsd; cbn [mbind outcome_bind]; [|by exists w].
    set_unfold in Hf. destruct Hf as [-> |[-> |[-> |[]]]]; congruence.
  - intros ty Hty Hfill Hread Hnone.
    destruct (Ok_ex _ (Hread F_Symbol ltac:(set_solver))) as [s Hs].
    destruct (Ok_ex _ (Hread F_ClOrdID ltac:(set_solver))) as [o Ho].
    destruct (Ok_ex _ (Hread F_Side ltac:(set_solver))) as [sd Hsd].
    eexists. split; [eapply from_execution_report_ok; try done|done].
    unfold MessageTranslator.fill_fields. rewrite Hnone. by destruct (_ || _).
Qed.

Lemma incomplete_report_outcomes_witness :
  ∃ e, MessageTranslator.from_execution_report
         (sample_report "2"%char "1"%char "AAPL" "ORD7" None) = Ok (Some e) ∧
    oe_type e = FullFill ∧ oe_fill_qty e = 0 ∧ oe_fill_price e = 0.
Proof.
  destruct (incomplete_report_outcomes (sample_report "2"%char "1"%char "AAPL" "ORD7" None)
    "2"%char) as (_ & _ & Hfill); [reflexivity|].
  apply Hfill; [reflexivity|by right| |reflexivity].
  intros f Hf. repeat (apply elem_of_cons in Hf as [-> |Hf]; [reflexivity|]).
  by apply elem_of_nil in Hf.
Defined.

(** Some prices in whole cents are booked one tick low: a complete fill at 2.01
    dollars, the price parsed to the nearest double, becomes an event at 2.009999;
    a fill at 175.50 is exact. *)
Theorem cent_price_booked_low :
  (option_map oe_fill_price <$> MessageTranslator.from_execution_report
     (sample_report "2"%char "1"%char "AAPL" "ORD7" (Some (of_int 100, from_fixed 2010000))))
    = Ok (Some 2009999) ∧
  (option_map oe_fill_price <$> MessageTranslator.from_execution_report
     (sample_report "2"%char "1"%char "AAPL" "ORD7" (Some (of_int 100, from_fixed 175500000))))
    = Ok (Some 175500000).
Proof. split; vm_compute; reflexivity. Qed.
