(* ===== verification/Environment.v ===== *)
(** * [Environment]: effects of the gateway layer

    A state-and-outcome monad whose state survives exceptions, and the world outside
    the program: the FIX engine's [sendToTarget], the clocks, the console. *)

From S2P Require Import Prelude CString OrderEvent EventLog SlotTable PositionTracker OrderManager.
From S2P Require Import RiskChecker FixMessages.

Local Open Scope Z_scope.

(** ** Computations on a state

    The state is there whatever the outcome: what was done before a throw stays
    done. *)

Definition stO (S A : Type) : Type := S → S * outcome A.

#[export] Instance stO_ret {S} : MRet (stO S) := λ A a s, (s, Ok a).
#[export] Instance stO_bind {S} : MBind (stO S) := λ A B f m s,
  match m s with
  | (s', Ok a) => f a s'
  | (s', Throw e) => (s', Throw e)
  | (s', UB) => (s', UB)
  | (s', Terminate) => (s', Terminate)
  end.

Definition st_lift {S A} (m : outcome A) : stO S A := λ s, (s, m).
Definition st_get {S} : stO S S := λ s, (s, Ok s).
Definition st_modify {S} (f : S → S) : stO S unit := λ s, (f s, Ok tt).

(** [try { m } catch (const SessionNotFound&) { h }] *)
Definition catch_SessionNotFound {S A} (m h : stO S A) : stO S A := λ s,
  match m s with
  | (s', Throw SessionNotFound) => h s'
  | r => r
  end.

(** The body of a [noexcept] function. *)
Definition st_noexcept {S A} (m : stO S A) : stO S A := λ s, let r := m s in (r.1, noexcept r.2).

(** A loop over a range of elements. *)
Fixpoint st_for {S A} (f : A → stO S unit) (xs : list A) : stO S unit :=
  match xs with
  | [] => mret tt
  | x :: xs => _ ← f x; st_for f xs
  end.

(** [for_each] and [for_each_open] with a callback that has effects. *)
Definition for_each_do {S A} `{Slot A} (fn : A → stO S unit) (t : table A) : stO S unit :=
  st_for fn (live t).
Definition for_each_open_do {S} (fn : Order → stO S unit) (t : OrderManager.t) : stO S unit :=
  st_for (λ o, if is_open o then fn o else mret tt) (live t).

(** Running a computation on a part of the state. *)
Definition st_zoom {S T A} (get : S → T) (set : T → S → S) (m : stO T A) : stO S A := λ s,
  let r := m (get s) in (set r.1 s, r.2).

Lemma st_bind_Ok {S A B} (m : stO S A) (f : A → stO S B) s s' a :
  m s = (s', Ok a) → (m ≫= f) s = f a s'.
Proof. intros E. unfold mbind, stO_bind. by rewrite E. Qed.

Lemma st_bind_ret {S A B} (m : stO S A) (b : B) s s' r :
  m s = (s', r) → (m ≫= λ _, mret b) s = (s', (λ _, b) <$> r).
Proof. intros E. unfold mbind, stO_bind. rewrite E. by destruct r. Qed.

Lemma st_bind_inv {S A B} (m : stO S A) (f : A → stO S B) s s' b :
  (m ≫= f) s = (s', Ok b) → ∃ a s1, m s = (s1, Ok a) ∧ f a s1 = (s', Ok b).
Proof. unfold mbind, stO_bind. destruct (m s) as [s1 [a|e| |]]; intros; simplify_eq. eauto. Qed.

Lemma st_for_snoc {S A} (f : A → stO S unit) xs x s :
  st_for f (xs ++ [x]) s = (_ ← st_for f xs; f x) s.
Proof.
  revert s. induction xs as [|y xs IH]; intros s; cbn [st_for app].
  - unfold mbind, stO_bind, mret, stO_ret. by destruct (f x s) as [? [[]| | |]].
  - unfold mbind, stO_bind in *. destruct (f y s) as [s1 [[]| | |]]; [apply IH|done..].
Qed.

(** ** The world outside *)

(** What the program prints, one constructor per [printf]. *)
Inductive console_line : Type :=
  | Out_cancel_all_late (elapsed budget : Z)
  | Out_cancel_all_sent (elapsed : Z)
  | Out_cancel_unsent (cancel_id : list char)
  | Out_cancels (count : Z)
  | Out_flatten_unsent (flat_id : list char)
  | Out_flattens (count : Z)
  | Out_created (session : list char)
  | Out_logon (session : list char)
  | Out_logout (session : list char)
  | Out_report (state : string) (side : string) (symbol : list char) (qty price : Z)
  | Out_not_connected
  | Out_risk_blocked (result : string)
  | Out_emergency
  | Out_replaying (events : Z)
  | Out_replayed (symbols orders : nat)
  | Out_signal (sig : Z)
  | Out_started
  | Out_stopping
  | Out_config_error (what : string)
  | Out_fatal (what : string)
  | Out_clean_shutdown
  | Out_usage.

(** The FIX engine and the clocks: [env_send] is [FIX::Session::sendToTarget], which
    returns a [bool] or throws [SessionNotFound]; the others read a clock. *)
Class Env (E M SID : Type) : Type := {
  env_send : M → SID → E → E * outcome bool;
  env_utc : E → E * utc;                (* FIX::TransactTime() *)
  env_steady : E → E * Z;               (* steady_clock::now(), nanoseconds *)
  env_realtime : E → E * timespec;      (* clock_gettime(CLOCK_REALTIME) *)
  sid_default : SID;                    (* FIX::SessionID() *)
  sid_toString : SID → list char;
}.

Class EnvLaws (E M SID : Type) `{Env E M SID} : Prop := {
  env_send_outcome m sid e :
    (env_send m sid e).2 = Throw SessionNotFound ∨ ∃ b, (env_send m sid e).2 = Ok b;
}.

(** The world with a record of what crossed its boundary: the messages handed to
    [sendToTarget], oldest first, and the console. *)
Record system (E M SID : Type) : Type := {
  sys_env : E;
  sys_calls : list (M * SID);
  sys_out : list console_line;
}.
Arguments sys_env {E M SID} s : rename.
Arguments sys_calls {E M SID} s : rename.
Arguments sys_out {E M SID} s : rename.

Section System.
Context {E M SID : Type} `{Env E M SID}.

Definition print (l : console_line) : stO (system E M SID) unit := λ s,
  ({| sys_env := sys_env s; sys_calls := sys_calls s; sys_out := sys_out s ++ [l] |}, Ok tt).

Definition sendToTarget (m : M) (sid : SID) : stO (system E M SID) bool := λ s,
  let r := env_send m sid (sys_env s) in
  ({| sys_env := r.1; sys_calls := sys_calls s ++ [(m, sid)]; sys_out := sys_out s |}, r.2).

Definition read_clock {T} (clock : E → E * T) : stO (system E M SID) T := λ s,
  let r := clock (sys_env s) in
  ({| sys_env := r.1; sys_calls := sys_calls s; sys_out := sys_out s |}, Ok r.2).

Definition utc_now : stO (system E M SID) utc := read_clock env_utc.
Definition steady_now : stO (system E M SID) Z := read_clock env_steady.
Definition realtime_now : stO (system E M SID) timespec := read_clock env_realtime.
End System.

(** ** An environment for the examples: a link that is up or down, and clocks that
    stand still *)

Record sample_env : Type := { link_up : bool }.

#[export] Instance sample_env_ops : Env sample_env field_store string := {
  env_send m sid e := (e, if link_up e then Ok true else Throw SessionNotFound);
  env_utc e := (e, 0);
  env_steady e := (e, 0);
  env_realtime e := (e, sample_clock);
  sid_default := "";
  sid_toString s := lit s;
}.

#[export] Instance sample_env_laws : EnvLaws sample_env field_store string.
Proof. split. intros m sid e. cbn. destruct (link_up e); [right; by exists true|by left]. Qed.

Definition sample_system (up : bool) : system sample_env field_store string :=
  {| sys_env := {| link_up := up |}; sys_calls := []; sys_out := [] |}.

(** Decimal digits: [std::to_string] of an unsigned number. *)
Definition to_string (n : Z) : list char := lit (pretty (Z.to_N n)).

Lemma string_app_cons s c s' : (s +:+ String c "") +:+ s' = s +:+ String c s'.
Proof. induction s as [|d s IH]; [done|exact (f_equal (String d) IH)]. Qed.

(** The digits of a number, one at a time. *)
Lemma pretty_N_go_app x s : (0 < x)%N → pretty_N_go x s = pretty_N_go x "" +:+ s.
Proof.
  revert s. induction (N.lt_wf_0 x) as [x _ IH]. intros s Hx.
  rewrite !(pretty_N_go_step x) by done.
  destruct (decide (x `div` 10 = 0)%N) as [->|Hd]; [by rewrite !pretty_N_go_0|].
  assert (x `div` 10 < x)%N by (apply N.div_lt; lia).
  assert (0 < x `div` 10)%N as Hpos by by apply N.neq_0_lt_0.
  rewrite (IH _ H (String _ s) Hpos), (IH _ H (String _ "") Hpos).
  by rewrite <- string_app_cons.
Qed.

Lemma lit_app s s' : lit (s +:+ s') = lit s ++ lit s'.
Proof. unfold lit. induction s as [|c s IH]; [done|exact (f_equal (cons c) IH)]. Qed.

Lemma to_string_step n :
  10 <= n → ∃ c, to_string n = to_string (n / 10) ++ [c].
Proof.
  intros Hn. unfold to_string, pretty, pretty_N.
  rewrite !decide_False by (pose proof (Z.div_str_pos n 10 ltac:(lia)); lia).
  rewrite pretty_N_go_step by lia.
  replace (Z.to_N n `div` 10)%N with (Z.to_N (n / 10)) by (rewrite Z2N.inj_div; done || lia).
  rewrite pretty_N_go_app by (pose proof (Z.div_str_pos n 10 ltac:(lia)); lia). rewrite lit_app. by eexists.
Qed.

Lemma to_string_digit n : 0 <= n < 10 → length (to_string n) = 1%nat.
Proof.
  intros Hn. assert (∃ k : nat, (k < 10)%nat ∧ n = Z.of_nat k) as (k & Hk & ->)
    by (exists (Z.to_nat n); lia).
  do 10 (destruct k as [|k]; [reflexivity|]). lia.
Qed.

Lemma to_string_length_ge (k : nat) : ∀ n, 10 ^ Z.of_nat k <= n → (S k ≤ length (to_string n))%nat.
Proof.
  induction k as [|k IH]; intros n Hn.
  - destruct (Z.lt_ge_cases n 10); [rewrite to_string_digit by (cbn in Hn; lia); lia|].
    destruct (to_string_step n) as [c ->]; [done|]. rewrite length_app. cbn. lia.
  - rewrite Nat2Z.inj_succ, Z.pow_succ_r in Hn by lia.
    pose proof (Z.pow_pos_nonneg 10 (Z.of_nat k)).
    destruct (to_string_step n) as [c ->]; [lia|]. rewrite length_app. cbn.
    assert (10 ^ Z.of_nat k <= n / 10) as Hk by (apply Z.div_le_lower_bound; lia).
    apply IH in Hk. lia.
Qed.

Lemma to_string_length_lt (k : nat) : ∀ n,
  0 <= n < 10 ^ Z.of_nat (S k) → (length (to_string n) ≤ S k)%nat.
Proof.
  induction k as [|k IH]; intros n Hn; [rewrite to_string_digit by (cbn in Hn; lia); lia|].
  destruct (Z.lt_ge_cases n 10); [rewrite to_string_digit by lia; lia|].
  rewrite Nat2Z.inj_succ, Z.pow_succ_r in Hn by lia.
  destruct (to_string_step n) as [c ->]; [done|]. rewrite length_app. cbn.
  assert (0 <= n / 10 < 10 ^ Z.of_nat (S k)) as Hk
    by (split; [apply Z.div_pos; lia|apply Z.div_lt_upper_bound; lia]).
  apply IH in Hk. lia.
Qed.

Lemma pretty_N_char_NUL x : pretty_N_char x ≠ NUL.
Proof. unfold pretty_N_char. repeat case_match; discriminate. Qed.

Lemma pretty_N_go_no_nul x s : no_nul (lit s) → no_nul (lit (pretty_N_go x s)).
Proof.
  revert s. induction (N.lt_wf_0 x) as [x _ IH]. intros s Hs.
  destruct (decide (x = 0)%N) as [->|Hx]; [by rewrite pretty_N_go_0|].
  rewrite pretty_N_go_step by lia. apply IH; [apply N.div_lt; lia|].
  constructor; [apply pretty_N_char_NUL|done].
Qed.

Lemma to_string_no_nul n : no_nul (to_string n).
Proof.
  unfold to_string, pretty, pretty_N. case_decide; [by repeat constructor|].
  apply pretty_N_go_no_nul. constructor.
Qed.

Lemma to_string_inj a b : 0 <= a → 0 <= b → to_string a = to_string b → a = b.
Proof.
  unfold to_string, lit. intros Ha Hb Hab.
  apply (f_equal String.string_of_list_ascii) in Hab.
  rewrite !String.string_of_list_ascii_of_string in Hab. apply (inj pretty) in Hab. lia.
Qed.
