(* ===== verification/Killswitch.v ===== *)
(** * [Killswitch]: the emergency shutdown path (gateway/Killswitch.h)

    One cancel request per open order, one market order per open position, sent in
    slot order over a link that may be missing. *)

From S2P Require Import Prelude CString OrderEvent EventLog SlotTable PositionTracker OrderManager.
From S2P Require Import Fixed FixMessages MessageTranslator Environment.

Local Open Scope Z_scope.

Module Killswitch.
Section Killswitch.
Context {E M SID : Type} `{FixMessage M} `{FixValues} `{Env E M SID}.

(** The references to the order manager and the tracker are arguments of the
    operations. *)
Record t : Type := { ks_session_id : SID; ks_armed : bool }.

Definition make (session_id : SID) : t := {| ks_session_id := session_id; ks_armed := false |}.
Definition arm (ks : t) : t := {| ks_session_id := ks_session_id ks; ks_armed := true |}.
Definition is_armed (ks : t) : bool := ks_armed ks.

(** [static_cast<int32_t>] of a wider integer. *)
Definition to_i32 (z : Z) : Z := signed 32 z.

(** [std::string(id_prefix) + std::to_string(++count)]; [count] is a [uint32_t]. *)
Definition next_count (count : Z) : Z := (count + 1) mod 2 ^ 32.
Definition numbered_id (id_prefix : string_view) (count : Z) : list char :=
  sv_chars id_prefix ++ to_string count.

(** The minimal event handed to the translator. *)
Definition cancel_ref (o : Order) : OrderEvent := {|
  oe_sequence := 0; oe_timestamp_ns := 0; oe_price := 0; oe_fill_price := 0;
  oe_qty := 0; oe_fill_qty := 0;
  oe_symbol := o_symbol o; oe_order_id := o_order_id o;
  oe_type := EventType_raw 0; oe_side := o_side o; oe_pad := replicate 6 NUL;
|}.

(** A computation over the counter of the enclosing function and the system. *)
Definition counted (A : Type) : Type := stO (Z * system E M SID) A.
Definition sys_do {A} (m : stO (system E M SID) A) : counted A :=
  st_zoom snd (λ s x, (x.1, s)) m.
Definition count_up : counted Z := λ x, ((next_count x.1, x.2), Ok (next_count x.1)).

(** The callback of [cancel_all]. *)
Definition cancel_order (session_id : SID) (id_prefix : string_view) (o : Order) :
    counted unit :=
  count ← count_up;
  let cancel_id := numbered_id id_prefix count in
  now ← sys_do utc_now;
  cancel ← st_lift (MessageTranslator.to_cancel_request now (cancel_ref o) cancel_id);
  catch_SessionNotFound (_ ← sys_do (sendToTarget cancel session_id); mret tt)
    (sys_do (print (Out_cancel_unsent cancel_id))).

Definition with_count (m : counted unit) (report : Z → console_line) :
    stO (system E M SID) unit := λ s,
  match m (0, s) with
  | ((count, s), Ok _) => print (report count) s
  | ((_, s), r) => (s, r)
  end.

Definition cancel_all (ks : t) (id_prefix : string_view) (orders : OrderManager.t) :
    stO (system E M SID) unit :=
  with_count (for_each_open_do (cancel_order (ks_session_id ks) id_prefix) orders) Out_cancels.

(** The event of the market order that closes a position. *)
Definition flat_event (pos : Position) (flat_id : list char) : outcome OrderEvent :=
  let close_side := if 0 <? p_net_qty pos then Sell else Buy in
  size ← (if 0 <? p_net_qty pos then Ok (p_net_qty pos) else i64 (- p_net_qty pos));
  order_id ← strncpy (flat_id ++ [NUL]) 8;
  Ok {|
    oe_sequence := 0; oe_timestamp_ns := 0; oe_price := 0; oe_fill_price := 0;
    oe_qty := to_i32 size; oe_fill_qty := 0;
    oe_symbol := p_symbol pos; oe_order_id := order_id;
    oe_type := NewOrder; oe_side := close_side; oe_pad := replicate 6 NUL;
  |}.

(** The callback of [flatten]. *)
Definition flatten_position (session_id : SID) (id_prefix : string_view) (pos : Position) :
    counted unit :=
  if is_flat pos then mret tt else
  count ← count_up;
  let flat_id := numbered_id id_prefix count in
  flat_evt ← st_lift (flat_event pos flat_id);
  now ← sys_do utc_now;
  order ← st_lift (MessageTranslator.to_new_order_single now flat_evt);
  let mkt_order := fix_removeField F_Price (fix_set F_OrdType OrdType_MARKET order) in
  catch_SessionNotFound (_ ← sys_do (sendToTarget mkt_order session_id); mret tt)
    (sys_do (print (Out_flatten_unsent flat_id))).

Definition flatten (ks : t) (id_prefix : string_view) (tracker : PositionTracker.t) :
    stO (system E M SID) unit :=
  with_count (for_each_do (flatten_position (ks_session_id ks) id_prefix) tracker) Out_flattens.

(** Returns the elapsed milliseconds. *)
Definition execute (ks : t) (cancel_id_prefix : string_view) (budget_ms : Z)
    (orders : OrderManager.t) : stO (system E M SID) Z :=
  t0 ← steady_now;
  _ ← cancel_all ks cancel_id_prefix orders;
  t1 ← steady_now;
  let elapsed := Z.quot (t1 - t0) 1000000 in
  _ ← print (if budget_ms <? elapsed then Out_cancel_all_late elapsed budget_ms
             else Out_cancel_all_sent elapsed);
  mret elapsed.
End Killswitch.
Arguments t : clear implicits.
End Killswitch.

(** The default arguments. *)
Definition default_cancel_prefix : string_view := sv_of_string (lit "KS").
Definition default_flatten_prefix : string_view := sv_of_string (lit "FL").
Definition default_budget_ms : Z := 100.

(** ** Lemmas *)

Section Lemmas.
Context {E M SID : Type} `{FixMessageLaws M} `{FixValues} `{EnvLaws E M SID}.
Import Killswitch.

(** A send that may find no session always completes, and is recorded. *)
Lemma send_completes (m : M) (sid : SID) line count (s : system E M SID) :
  ∃ s', catch_SessionNotFound (_ ← sys_do (sendToTarget m sid); mret tt)
          (sys_do (print line)) (count, s) = ((count, s'), Ok tt) ∧
        sys_calls s' = sys_calls s ++ [(m, sid)].
Proof.
  unfold catch_SessionNotFound, sys_do, st_zoom, sendToTarget, mbind, stO_bind.
  cbn [fst snd]. destruct (env_send_outcome m sid (sys_env s)) as [-> | [b ->]].
  - eexists. split; [reflexivity|done].
  - eexists. split; [reflexivity|done].
Qed.

(** A cancel request [m] for the order [o], under the identifier [id]. *)
Definition cancels (m : M) (id : list char) (o : Order) : Prop :=
  fix_get F_OrigClOrdID m = Ok (cstr 8 (o_order_id o)) ∧ fix_get F_ClOrdID m = Ok id ∧
  fix_get F_Symbol m = Ok (cstr 8 (o_symbol o)) ∧
  fix_get F_Side m = Ok (MessageTranslator.fix_side (o_side o)).

Lemma cancel_order_ok sid prefix o count (s : system E M SID) :
  length (o_order_id o) = 8%nat → length (o_symbol o) = 8%nat →
  ∃ s' m, cancel_order sid prefix o (count, s) = ((next_count count, s'), Ok tt) ∧
    sys_calls s' = sys_calls s ++ [(m, sid)] ∧
    cancels m (numbered_id prefix (next_count count)) o.
Proof.
  intros Ho Hs. unfold cancel_order.
  erewrite st_bind_Ok by reflexivity. cbv zeta. erewrite st_bind_Ok by reflexivity.
  cbn [fst snd].
  destruct (to_cancel_request_ok (M := M) (env_utc (sys_env s)).2 (cancel_ref o)
              (numbered_id prefix (next_count count))) as (m & Hm & Hfields); [done|].
  erewrite st_bind_Ok by (unfold st_lift; rewrite Hm; reflexivity).
  set (s1 := {| sys_env := (env_utc (sys_env s)).1; sys_calls := sys_calls s;
                sys_out := sys_out s |}).
  destruct (send_completes m sid (Out_cancel_unsent (numbered_id prefix (next_count count)))
              (next_count count) s1) as (s' & Hs' & Hcalls).
  exists s', m. split; [exact Hs'|]. split; [exact Hcalls|done].
Qed.

(** A closing market order [m] for the position [p], under the identifier [id]. *)
Definition closes (m : M) (id : list char) (p : Position) : Prop :=
  fix_get F_ClOrdID m = Ok (cstr 8 (id ++ [NUL])) ∧
  fix_get F_Symbol m = Ok (cstr 8 (p_symbol p)) ∧
  fix_get F_Side m =
    Ok (MessageTranslator.fix_side (if 0 <? p_net_qty p then Sell else Buy)) ∧
  fix_get F_OrderQty m = Ok (fix_wire F_OrderQty (of_int (to_i32 (Z.abs (p_net_qty p))))) ∧
  fix_get F_OrdType m = Ok OrdType_MARKET ∧ fix_isSet F_Price m = false.

Lemma flatten_position_ok sid prefix p count (s : system E M SID) :
  length (p_symbol p) = 8%nat → Z.abs (p_net_qty p) <= INT64_MAX → is_flat p = false →
  ∃ s' m, flatten_position sid prefix p (count, s) = ((next_count count, s'), Ok tt) ∧
    sys_calls s' = sys_calls s ++ [(m, sid)] ∧
    closes m (numbered_id prefix (next_count count)) p.
Proof.
  intros Hs Hnet Hflat. unfold flatten_position. rewrite Hflat.
  erewrite st_bind_Ok by reflexivity. cbv zeta. cbn [fst snd].
  set (id := numbered_id prefix (next_count count)).
  assert (∃ e, flat_event p id = Ok e ∧ ids_ok e ∧ order_key e = cstr 8 (id ++ [NUL]) ∧
    oe_symbol e = p_symbol p ∧ oe_side e = (if 0 <? p_net_qty p then Sell else Buy) ∧
    oe_qty e = to_i32 (Z.abs (p_net_qty p))) as (e & He & Hids & Hkey & Hsym & Hside & Hqty).
  { unfold flat_event. rewrite strncpy_spec by apply readable_string. unfold INT64_MAX in Hnet.
    assert ((if 0 <? p_net_qty p then Ok (p_net_qty p) else i64 (- p_net_qty p))
            = Ok (Z.abs (p_net_qty p))) as ->.
    { destruct (Z.ltb_spec 0 (p_net_qty p)); [f_equal; lia|].
      rewrite i64_ok by lia. f_equal. lia. }
    cbn [mbind outcome_bind]. eexists. split; [reflexivity|]. unfold ids_ok, order_key.
    cbn [oe_symbol oe_order_id oe_side oe_qty]. rewrite cstr_idemp.
    rewrite pad_length by apply cstr_length. done. }
  erewrite st_bind_Ok by (unfold st_lift; rewrite He; reflexivity).
  erewrite st_bind_Ok by reflexivity. cbn [fst snd].
  destruct (to_new_order_single_ok (M := M) (env_utc (sys_env s)).2 e Hids)
    as (m & Hm & Hfields).
  erewrite st_bind_Ok by (unfold st_lift; rewrite Hm; reflexivity).
  set (s1 := {| sys_env := (env_utc (sys_env s)).1; sys_calls := sys_calls s;
                sys_out := sys_out s |}).
  set (mkt := fix_removeField F_Price (fix_set F_OrdType OrdType_MARKET m)).
  destruct (send_completes mkt sid (Out_flatten_unsent id) (next_count count) s1)
    as (s' & Hs' & Hcalls).
  exists s', mkt. split; [exact Hs'|]. split; [exact Hcalls|].
  rewrite Hkey, Hsym, Hside, Hqty in Hfields. destruct Hfields as (F1 & F2 & F3 & F4 & F5 & F6).
  unfold closes, mkt. rewrite !fix_get_remove_ne by done. rewrite fix_get_set.
  rewrite !fix_get_set_ne by done. rewrite fix_isSet_remove, (fix_wire_plain F_OrdType) by done.
  split_and!; done.
Qed.

(** A loop that sends one message for each selected element, numbered from the
    counter on: [sends m id x] says what is sent for [x]. *)
Lemma send_loop {A} (sid : SID) prefix (f : A → counted unit) (good : A → Prop) (sel : A → bool)
    (sends : M → list char → A → Prop) :
  (∀ x st, sel x = false → f x st = (st, Ok tt)) →
  (∀ x count (s : system E M SID), good x → sel x = true → ∃ s' m,
     f x (count, s) = ((next_count count, s'), Ok tt) ∧
     sys_calls s' = sys_calls s ++ [(m, sid)] ∧
     sends m (numbered_id prefix (next_count count)) x) →
  ∀ xs count s, Forall good xs → 0 <= count → count + Z.of_nat (length xs) < 2 ^ 32 →
  ∃ s' ms, st_for f xs (count, s) = ((count + Z.of_nat (length ms), s'), Ok tt) ∧
    sys_calls s' = sys_calls s ++ ((λ m, (m, sid)) <$> ms) ∧
    length ms = length (base.filter (λ x, sel x = true) xs) ∧
    ∀ i m x, ms !! i = Some m → base.filter (λ x, sel x = true) xs !! i = Some x →
      sends m (numbered_id prefix (count + Z.of_nat i + 1)) x.
Proof.
  intros Hskip Hstep xs. induction xs as [|x xs IH]; intros count s Hxs Hc Hmax.
  { exists s, []. cbn. rewrite Z.add_0_r, app_nil_r. done. }
  apply Forall_cons in Hxs as [Hx Hxs]. cbn [length] in Hmax. cbn [st_for].
  rewrite filter_cons. destruct (sel x) eqn:Hsel; cycle 1.
  { rewrite decide_False by done. erewrite st_bind_Ok by (by apply Hskip).
    apply IH; [done..|lia]. }
  rewrite decide_True by done.
  assert (Hnext : next_count count = count + 1) by (apply Z.mod_small; lia).
  destruct (Hstep x count s Hx Hsel) as (s1 & m & Hsend & Hcalls1 & Hm).
  rewrite Hnext in Hsend, Hm.
  destruct (IH (count + 1) s1 Hxs ltac:(lia) ltac:(lia)) as (s' & ms & Hrun & Hcalls & Hlen & Hms).
  exists s', (m :: ms). split_and!.
  - erewrite st_bind_Ok by exact Hsend. rewrite Hrun. cbn [length].
    by replace (count + 1 + Z.of_nat (length ms)) with (count + Z.of_nat (S (length ms))) by lia.
  - rewrite Hcalls, Hcalls1. cbn. by rewrite <- app_assoc.
  - cbn. by rewrite Hlen.
  - intros [|i] m' x' Hm' Hx'; cbn in Hm', Hx'; simplify_eq.
    + by rewrite Z.add_0_r.
    + replace (count + Z.of_nat (S i) + 1) with (count + 1 + Z.of_nat i + 1) by lia.
      by apply Hms.
Qed.

(** The whole functions, which end with the report of the count. *)
Lemma with_count_ok (m : counted unit) line (s s1 : system E M SID) n :
  m (0, s) = ((n, s1), Ok tt) →
  ∃ s', with_count m line s = (s', Ok tt) ∧ sys_calls s' = sys_calls s1 ∧
    sys_out s' = sys_out s1 ++ [line n].
Proof. intros Hm. unfold with_count. rewrite Hm. eexists. split; [reflexivity|done]. Qed.

Definition open_orders (t : OrderManager.t) : list Order :=
  base.filter (λ o, is_open o = true) (live t).
Definition open_positions (t : PositionTracker.t) : list Position :=
  base.filter (λ p, negb (is_flat p) = true) (live t).

Lemma live_short {A} `{Slot A} (t : table A) : table_wf t → (length (live t) ≤ slot_max)%nat.
Proof. intros [Hl Hc _ _]. unfold live. rewrite length_take. lia. Qed.

(** What sending needs of a book: at most all slots, names of 8 bytes; a book in the
    middle of an event has that too. *)
Definition sized (t : OrderManager.t) : Prop :=
  (length (live t) ≤ slot_max)%nat ∧
  ∀ o, o ∈ live t → length (o_order_id o) = 8%nat ∧ length (o_symbol o) = 8%nat.

Lemma wf_sized (t : OrderManager.t) : table_wf t → symbols_ok t → sized t.
Proof.
  intros Hwf Hsym. split; [by apply live_short|]. intros o Ho. split; [exact (tw_id t Hwf o Ho)|by apply Hsym].
Qed.

Lemma cancel_all_ok ks prefix t (s : system E M SID) :
  sized t →
  ∃ s' ms, cancel_all ks prefix t s = (s', Ok tt) ∧
    sys_calls s' = sys_calls s ++ ((λ m, (m, ks_session_id ks)) <$> ms) ∧
    length ms = length (open_orders t) ∧
    ∀ i m o, ms !! i = Some m → open_orders t !! i = Some o →
      cancels m (numbered_id prefix (Z.of_nat i + 1)) o.
Proof.
  intros [Hlen Hsized]. unfold cancel_all, for_each_open_do. cbn in Hlen. unfold MAX_ORDERS in Hlen.
  destruct (send_loop (ks_session_id ks) prefix
    (λ o, if is_open o then cancel_order (ks_session_id ks) prefix o else mret tt)
    (λ o, length (o_order_id o) = 8%nat ∧ length (o_symbol o) = 8%nat) is_open cancels)
    with (xs := live t) (count := 0) (s := s) as (s1 & ms & Hrun & Hcalls & Hms & Hall).
  - intros o st ->. by destruct st.
  - intros o count s0 [Ho Hs] ->. by apply cancel_order_ok.
  - by apply Forall_forall.
  - lia.
  - lia.
  - edestruct with_count_ok as (s' & Heq & Hc & _); [exact Hrun|].
    exists s', ms. rewrite Hc. by split_and!.
Qed.

Lemma execute_ok ks prefix budget t (s : system E M SID) :
  sized t →
  ∃ s' ms elapsed, execute ks prefix budget t s = (s', Ok elapsed) ∧
    sys_calls s' = sys_calls s ++ ((λ m, (m, ks_session_id ks)) <$> ms) ∧
    length ms = length (open_orders t) ∧
    ∀ i m o, ms !! i = Some m → open_orders t !! i = Some o →
      cancels m (numbered_id prefix (Z.of_nat i + 1)) o.
Proof.
  intros Hsized. unfold execute. erewrite st_bind_Ok by reflexivity.
  destruct (cancel_all_ok ks prefix t (steady_now s).1 Hsized)
    as (s1 & ms & Hrun & Hcalls & Hlen & Hms).
  erewrite st_bind_Ok by exact Hrun. erewrite st_bind_Ok by reflexivity. cbv zeta.
  erewrite st_bind_Ok by reflexivity. eexists _, ms, _. split; [reflexivity|].
  split; [|done]. cbn [sys_calls fst]. exact Hcalls.
Qed.

Lemma flatten_ok ks prefix t (s : system E M SID) :
  table_wf t → (∀ p, p ∈ live t → Z.abs (p_net_qty p) <= INT64_MAX) →
  ∃ s' ms, flatten ks prefix t s = (s', Ok tt) ∧
    sys_calls s' = sys_calls s ++ ((λ m, (m, ks_session_id ks)) <$> ms) ∧
    length ms = length (open_positions t) ∧
    ∀ i m p, ms !! i = Some m → open_positions t !! i = Some p →
      closes m (numbered_id prefix (Z.of_nat i + 1)) p.
Proof.
  intros Hwf Hnet. unfold flatten, for_each_do.
  pose proof (live_short t Hwf) as Hlen. cbn in Hlen. unfold MAX_SYMBOLS in Hlen.
  destruct (send_loop (ks_session_id ks) prefix (flatten_position (ks_session_id ks) prefix)
    (λ p, length (p_symbol p) = 8%nat ∧ Z.abs (p_net_qty p) <= INT64_MAX)
    (λ p, negb (is_flat p)) closes)
    with (xs := live t) (count := 0) (s := s) as (s1 & ms & Hrun & Hcalls & Hms & Hall).
  - intros p st Hf%negb_false_iff. unfold flatten_position. rewrite Hf. by destruct st.
  - intros p count s0 [Ho Hs] Hf%negb_true_iff. by apply flatten_position_ok.
  - apply Forall_forall. intros p Hp. split; [exact (tw_id t Hwf p Hp)|by apply Hnet].
  - lia.
  - lia.
  - edestruct with_count_ok as (s' & Heq & Hc & _); [exact Hrun|].
    exists s', ms. rewrite Hc. by split_and!.
Qed.
End Lemmas.

(** ** Properties *)

Lemma numbered_ids_distinct prefix i j :
  0 <= i → 0 <= j → Killswitch.numbered_id prefix i = Killswitch.numbered_id prefix j → i = j.
Proof. intros Hi Hj Hij. by apply app_inv_head, to_string_inj in Hij. Qed.

Lemma requests_distinct {M} `{FixMessage M} `{FixValues} (ms : list M) prefix os :
  length ms = length os →
  (∀ i m o, ms !! i = Some m → os !! i = Some o →
     cancels m (Killswitch.numbered_id prefix (Z.of_nat i + 1)) o) →
  NoDup (fix_get F_ClOrdID <$> ms).
Proof.
  intros Hl Hm.
  assert (Hid : ∀ i m, ms !! i = Some m →
    fix_get F_ClOrdID m = Ok (Killswitch.numbered_id prefix (Z.of_nat i + 1))).
  { intros i m Hi. destruct (lookup_lt_is_Some_2 os i) as [o Ho].
    { rewrite <- Hl. by eapply lookup_lt_Some. }
    by destruct (Hm i m o Hi Ho) as (_ & ? & _). }
  apply NoDup_alt. intros i j x. rewrite !list_lookup_fmap.
  intros (mi & Hmi & Hi)%fmap_Some (mj & Hmj & Hj)%fmap_Some.
  rewrite (Hid _ _ Hmi) in Hi. rewrite (Hid _ _ Hmj) in Hj. rewrite Hi in Hj. injection Hj as Hj.
  apply numbered_ids_distinct in Hj; lia.
Qed.

(** C33. The kill switch misses no order: [cancel_all] always completes, and hands the
    engine exactly one cancel request per open order, in slot order, each naming its
    order, symbol and side under an identifier of its own, whether or not a session
    is found for any of them. *)
Theorem cancel_all_cancels_every_open_order {E M SID} `{FixMessageLaws M} `{FixValues}
    `{EnvLaws E M SID} (ks : Killswitch.t SID) prefix t (s : system E M SID) :
  table_wf t → symbols_ok t →
  ∃ s' ms, Killswitch.cancel_all ks prefix t s = (s', Ok tt) ∧
    sys_calls s' = sys_calls s ++ ((λ m, (m, Killswitch.ks_session_id ks)) <$> ms) ∧
    length ms = OrderManager.open_order_count t ∧
    (∀ i m o, ms !! i = Some m → open_orders t !! i = Some o →
       cancels m (Killswitch.numbered_id prefix (Z.of_nat i + 1)) o) ∧
    NoDup (fix_get F_ClOrdID <$> ms).
Proof.
  intros Hwf Hsym. destruct (cancel_all_ok ks prefix t s (wf_sized t Hwf Hsym)) as (s' & ms & Hrun & Hc & Hl & Hm).
  exists s', ms. split_and!; [done..|]. exact (requests_distinct ms prefix (open_orders t) Hl Hm).
Qed.

Lemma cancel_all_cancels_every_open_order_witness :
  let ks := Killswitch.make "S" in
  ∃ t s' ms,
    Killswitch.cancel_all (M := field_store) ks default_cancel_prefix t (sample_system false)
      = (s', Ok tt) ∧
    length ms = OrderManager.open_order_count t ∧ OrderManager.open_order_count t = 2%nat ∧
    sys_calls s' = (λ m, (m, "S")) <$> ms.
Proof.
  intros ks. set (es := [sample_new "O1" Buy 100 1000000; sample_new "O2" Sell 50 2000000;
    sample_cancel "O1"; sample_new "O3" Buy 10 1000000]).
  destruct (Ok_ex (foldO OrderManager.apply_event es OrderManager.init)) as [t E];
    [vm_compute; reflexivity|].
  destruct (manager_run es t) as [Hwf Hsym];
    [unfold es; repeat constructor|exact E|].
  destruct (cancel_all_cancels_every_open_order ks default_cancel_prefix t (sample_system false))
    as (s' & ms & Hrun & Hcalls & Hlen & _); [exact Hwf|exact Hsym|].
  exists t, s', ms. split; [exact Hrun|]. split; [exact Hlen|]. split; [|exact Hcalls].
  apply Nat.eqb_eq.
  apply (Ok_check _ t (λ t, Nat.eqb (OrderManager.open_order_count t) 2) E). vm_compute. reflexivity.
Defined.

(** C34. [flatten] closes the book: with the positions that any events with positive
    fills leave, it always completes and sends one market order without a price per
    open position, for exactly the held quantity (the cast to [int32_t] never
    truncates) on the side that brings it to zero. *)
Theorem flatten_closes_every_position {E M SID} `{FixMessageLaws M} `{FixValues}
    `{EnvLaws E M SID} (ks : Killswitch.t SID) prefix es t (s : system E M SID) :
  Forall (λ e, symbol_ok e ∧ (is_fill e = true → 0 < oe_fill_qty e)) es →
  foldO PositionTracker.apply_event es PositionTracker.init = Ok t →
  ∃ s' ms, Killswitch.flatten ks prefix t s = (s', Ok tt) ∧
    sys_calls s' = sys_calls s ++ ((λ m, (m, Killswitch.ks_session_id ks)) <$> ms) ∧
    length ms = length (open_positions t) ∧
    ∀ i m p, ms !! i = Some m → open_positions t !! i = Some p →
      ∃ side q, p_net_qty p + sgn_side side * q = 0 ∧ 0 < q <= INT32_MAX ∧
        fix_get F_Symbol m = Ok (cstr 8 (p_symbol p)) ∧
        fix_get F_Side m = Ok (MessageTranslator.fix_side side) ∧
        fix_get F_OrderQty m = Ok (fix_wire F_OrderQty (of_int q)) ∧
        fix_get F_OrdType m = Ok OrdType_MARKET ∧ fix_isSet F_Price m = false.
Proof.
  intros Hes Hrun. destruct (tracker_positions_inv es t Hes Hrun) as [Hwf Hinv].
  assert (Hnet : ∀ p, p ∈ live t → Z.abs (p_net_qty p) <= INT32_MAX)
    by (intros p Hp; by apply position_inv_net, Hinv).
  destruct (flatten_ok ks prefix t s Hwf) as (s' & ms & Hf & Hc & Hl & Hm).
  { intros p Hp. specialize (Hnet p Hp). unfold INT32_MAX, INT64_MAX in *. lia. }
  exists s', ms. split_and!; [done..|]. intros i m p Hi Hp.
  destruct (Hm i m p Hi Hp) as (_ & Hsym & Hside & Hqty & Htype & Hprice).
  assert (Hlive : p ∈ live t ∧ is_flat p = false).
  { apply list_elem_of_lookup_2, list_elem_of_filter in Hp as [Hflat Hp].
    by apply negb_true_iff in Hflat. }
  destruct Hlive as [Hlive Hflat]. apply Z.eqb_neq in Hflat. specialize (Hnet p Hlive).
  exists (if 0 <? p_net_qty p then Sell else Buy), (Z.abs (p_net_qty p)).
  unfold Killswitch.to_i32, INT32_MAX in *. rewrite signed_id in Hqty by (change (2 ^ (32 - 1)) with 2147483648; lia).
  split_and!; [|lia..|done|done|done|done|done].
  destruct (Z.ltb_spec 0 (p_net_qty p)); unfold sgn_side; case_decide; try done; lia.
Qed.

Lemma flatten_closes_every_position_witness :
  let ks := Killswitch.make "S" in
  ∃ t s' m,
    Killswitch.flatten (M := field_store) ks default_flatten_prefix t (sample_system true)
      = (s', Ok tt) ∧
    sys_calls s' = [(m, "S")] ∧ length (open_positions t) = 1%nat.
Proof.
  intros ks. set (es := [sample_fill "AAPL" Buy 100 1000000; sample_fill "TSLA" Sell 50 2000000;
    sample_fill "AAPL" Sell 100 1100000]).
  destruct (Ok_ex (foldO PositionTracker.apply_event es PositionTracker.init)) as [t E];
    [vm_compute; reflexivity|].
  destruct (flatten_closes_every_position ks default_flatten_prefix es t (sample_system true))
    as (s' & ms & Hrun & Hcalls & Hlen & _);
    [unfold es; repeat constructor|exact E|].
  assert (Hone : length (open_positions t) = 1%nat).
  { apply Nat.eqb_eq, (Ok_check _ t (λ t, Nat.eqb (length (open_positions t)) 1) E).
    vm_compute. reflexivity. }
  rewrite Hone in Hlen. destruct ms as [|m [|? ?]]; [discriminate| |discriminate].
  exists t, s', m. split; [exact Hrun|]. split; [exact Hcalls|exact Hone].
Defined.
