(* ===== verification/Projection.v ===== *)
(** * [Projection]: the books up to sequence numbers

    The events the gateway applies to the books and the events it writes to the log
    differ in their stamps.  Two events, positions or orders are equivalent when they
    agree on everything but sequence numbers and time stamps; both [apply_event]
    respect the equivalence. *)

From S2P Require Import Prelude CString OrderEvent EventLog SlotTable PositionTracker OrderManager.

Local Open Scope Z_scope.

(** ** The equivalences, by erasure of the stamps *)

Definition erase_event (e : OrderEvent) : OrderEvent := stamp e 0 0.

Definition erase_position (p : Position) : Position := {|
  p_symbol := p_symbol p; p_net_qty := p_net_qty p; p_avg_entry_price := p_avg_entry_price p;
  p_realized_pnl := p_realized_pnl p; p_unrealized_pnl := p_unrealized_pnl p;
  p_total_buy_qty := p_total_buy_qty p; p_total_sell_qty := p_total_sell_qty p;
  p_last_price := p_last_price p; p_last_updated_seq := 0;
|}.

Definition erase_order (o : Order) : Order := {|
  o_order_id := o_order_id o; o_symbol := o_symbol o;
  o_limit_price := o_limit_price o; o_avg_fill_price := o_avg_fill_price o;
  o_opened_seq := 0; o_last_seq := 0;
  o_original_qty := o_original_qty o; o_filled_qty := o_filled_qty o;
  o_state := o_state o; o_side := o_side o;
|}.

Definition erase_tracker : PositionTracker.t → PositionTracker.t := tmap erase_position.
Definition erase_manager : OrderManager.t → OrderManager.t := tmap erase_order.

#[export] Instance event_equiv : Equiv OrderEvent := λ e e', erase_event e = erase_event e'.
#[export] Instance tracker_equiv : Equiv PositionTracker.t :=
  λ t t', erase_tracker t = erase_tracker t'.
#[export] Instance manager_equiv : Equiv OrderManager.t :=
  λ t t', erase_manager t = erase_manager t'.

#[export] Instance event_equivalence : Equivalence (≡@{OrderEvent}).
Proof. split; [done|by intros e e'|intros e1 e2 e3; unfold equiv, event_equiv; congruence]. Qed.
#[export] Instance tracker_equivalence : Equivalence (≡@{PositionTracker.t}).
Proof. split; [done|by intros t t'|intros t1 t2 t3; unfold equiv, tracker_equiv; congruence]. Qed.
#[export] Instance manager_equivalence : Equivalence (≡@{OrderManager.t}).
Proof. split; [done|by intros t t'|intros t1 t2 t3; unfold equiv, manager_equiv; congruence]. Qed.

(** Two outcomes with equivalent results. *)
Definition outcome_equiv {A} `{Equiv A} (m m' : outcome A) : Prop :=
  match m, m' with
  | Ok a, Ok a' => a ≡ a'
  | Throw e, Throw e' => e = e'
  | UB, UB | Terminate, Terminate => True
  | _, _ => False
  end.

Lemma stamp_equiv e seq ts : stamp e seq ts ≡ e.
Proof. done. Qed.

(** ** Erasure commutes with the operations *)

Lemma fmap_outcome_equiv {A} `{Equiv A} (f : A → A) (m m' : outcome A) :
  (∀ a a', f a = f a' → a ≡ a') → f <$> m = f <$> m' → outcome_equiv m m'.
Proof. intros Hf. destruct m, m'; cbn; intros E; simplify_eq; auto. Qed.

Lemma apply_fill_erase e p :
  apply_fill (erase_event e) (erase_position p) = erase_position <$> apply_fill e p.
Proof.
  unfold apply_fill. cbn [erase_event stamp oe_side oe_fill_qty oe_fill_price oe_sequence].
  case_decide; unfold apply_buy, apply_sell, buy_core, sell_core;
    cbn [erase_position p_symbol p_net_qty p_avg_entry_price p_realized_pnl p_unrealized_pnl
         p_total_buy_qty p_total_sell_qty p_last_price].
  all: unfold fmap, outcome_fmap; rewrite !bind_assoc; apply bind_ext; intros total.
  all: rewrite !bind_assoc; apply bind_ext; intros [[net avg] realized].
  all: rewrite bind_assoc; apply bind_ext; intros u; done.
Qed.

Lemma tracker_apply_erase e t :
  PositionTracker.apply_event (erase_event e) (erase_tracker t)
    = erase_tracker <$> PositionTracker.apply_event e t.
Proof.
  unfold PositionTracker.apply_event. change (is_fill (erase_event e)) with (is_fill e).
  destruct (is_fill e); [|done]. cbn [negb]. change (symbol_view (erase_event e)) with (symbol_view e).
  unfold fmap, outcome_fmap. rewrite bind_assoc. apply bind_ext. intros v.
  unfold erase_tracker. rewrite get_or_create_tmap by done.
  unfold fmap, outcome_fmap. rewrite !bind_assoc. apply bind_ext. intros [i t'].
  cbn [mbind outcome_bind fst snd]. apply on_slot_tmap. intros p. apply apply_fill_erase.
Qed.

Lemma order_step_erase e o :
  order_step (erase_event e) (erase_order o) = erase_order <$> order_step e o.
Proof.
  unfold order_step. cbn [erase_event stamp oe_type]. destruct (oe_type e); try done.
  1: { unfold new_order. cbn [erase_event stamp oe_symbol].
       destruct (strncpy (oe_symbol e) 8); done. }
  all: unfold fill_order; cbn [erase_event stamp oe_fill_price oe_fill_qty erase_order
         o_order_id o_symbol o_limit_price o_avg_fill_price o_original_qty o_filled_qty o_side].
  all: unfold fmap, outcome_fmap; repeat (rewrite ?bind_assoc; apply bind_ext; intros ?); done.
Qed.

Lemma erase_order_id o : slot_id (erase_order o) = slot_id o.
Proof. done. Qed.

(** A handler that works on the slot it finds. *)
Lemma find_slot_erase (m : outcome string_view) body body' t :
  (∀ o, body' (erase_order o) = erase_order <$> body o) →
  (v ← m; p ← find v (erase_manager t); on_slot body' p (erase_manager t))
    = erase_manager <$> (v ← m; p ← find v t; on_slot body p t).
Proof.
  intros Hb. unfold fmap, outcome_fmap. rewrite bind_assoc. apply bind_ext. intros v.
  unfold erase_manager. rewrite find_tmap by done. rewrite bind_assoc. apply bind_ext. intros i.
  by apply on_slot_tmap.
Qed.

Lemma manager_apply_erase e t :
  OrderManager.apply_event (erase_event e) (erase_manager t)
    = erase_manager <$> OrderManager.apply_event e t.
Proof.
  pose proof (order_step_erase e) as Hstep. unfold order_step in Hstep.
  unfold OrderManager.apply_event. change (oe_type (erase_event e)) with (oe_type e) in *.
  destruct (oe_type e); try (by apply find_slot_erase); [|done].
  unfold OrderManager.handle_new, OrderManager.get_or_create. change (order_id_view (erase_event e)) with (order_id_view e).
  unfold fmap, outcome_fmap. rewrite bind_assoc. apply bind_ext. intros v.
  unfold erase_manager. rewrite get_or_create_tmap by done.
  unfold fmap, outcome_fmap. rewrite !bind_assoc. apply bind_ext. intros [i t'].
  cbn [mbind outcome_bind fst snd]. by apply on_slot_tmap.
Qed.

(** ** Both [apply_event]s respect the equivalences *)

#[export] Instance tracker_apply_proper :
  Proper ((≡) ==> (≡) ==> outcome_equiv) PositionTracker.apply_event.
Proof.
  intros e e' He t t' Ht. apply (fmap_outcome_equiv erase_tracker); [done|].
  rewrite <- !tracker_apply_erase. unfold equiv, event_equiv, tracker_equiv in *. by rewrite He, Ht.
Qed.

#[export] Instance manager_apply_proper :
  Proper ((≡) ==> (≡) ==> outcome_equiv) OrderManager.apply_event.
Proof.
  intros e e' He t t' Ht. apply (fmap_outcome_equiv erase_manager); [done|].
  rewrite <- !manager_apply_erase. unfold equiv, event_equiv, manager_equiv in *. by rewrite He, Ht.
Qed.

(** Equivalent histories leave equivalent states, when one of them does. *)
Lemma foldO_equiv {A} `{Equiv A} (f : OrderEvent → A → outcome A) es es' t t' t1 :
  Proper ((≡) ==> (≡) ==> outcome_equiv) f →
  Forall2 (≡) es es' → t ≡ t' → foldO f es t = Ok t1 →
  ∃ t1', foldO f es' t' = Ok t1' ∧ t1 ≡ t1'.
Proof.
  intros Hf Hes. revert t t'. induction Hes as [|e e' es es' He Hes IH]; intros t t' Ht Hrun.
  { cbn in *. simplify_eq. eauto. }
  cbn [foldO] in *. apply bind_Ok in Hrun as (t2 & H2 & Hrun).
  pose proof (Hf e e' He t t' Ht) as Hstep. rewrite H2 in Hstep.
  destruct (f e' t') as [t2'| | |]; try done. cbn [mbind outcome_bind]. by eapply IH.
Qed.

(** ** A book and the history it is the projection of *)

(** [books hs t o]: the tracker [t] and the manager [o] are what the events [hs]
    build from nothing. *)
Record books (hs : list OrderEvent) (t : PositionTracker.t) (o : OrderManager.t) : Prop := {
  books_wf : Forall (λ e, wf_event e = true) hs;
  books_tracker : foldO PositionTracker.apply_event hs PositionTracker.init = Ok t;
  books_manager : foldO OrderManager.apply_event hs OrderManager.init = Ok o;
}.

Lemma wf_event_ids e : wf_event e = true → symbol_ok e ∧ ids_ok e.
Proof. intros (Hs & Ho & _)%wf_event_lengths. done. Qed.

Lemma books_tables hs t o :
  books hs t o → table_wf t ∧ table_wf o ∧ symbols_ok o.
Proof.
  intros [Hwf Ht Ho].
  assert (Hids : Forall ids_ok hs) by (eapply Forall_impl; [exact Hwf|apply wf_event_ids]).
  assert (Hsym : Forall symbol_ok hs) by (eapply Forall_impl; [exact Hwf|apply wf_event_ids]).
  split; [by eapply tracker_fold|]. by eapply manager_run.
Qed.

Lemma books_init : books [] PositionTracker.init OrderManager.init.
Proof. split; [constructor|done..]. Qed.

Lemma books_snoc hs t o e t' o' :
  books hs t o → wf_event e = true →
  PositionTracker.apply_event e t = Ok t' → OrderManager.apply_event e o = Ok o' →
  books (hs ++ [e]) t' o'.
Proof.
  intros [Hwf Ht Ho] He Ht' Ho'. split.
  - apply Forall_app. split; [done|by constructor].
  - rewrite foldO_app, Ht. cbn. by rewrite Ht'.
  - rewrite foldO_app, Ho. cbn. by rewrite Ho'.
Qed.

(** An event that is not a fill leaves the tracker alone. *)
Lemma tracker_ignores e t : is_fill e = false → PositionTracker.apply_event e t = Ok t.
Proof. intros He. unfold PositionTracker.apply_event. by rewrite He. Qed.

(** Replaying a log of equivalent events rebuilds an equivalent book. *)
Lemma replay_equiv {L} `{LogLaws L} (log : L) es hs t o :
  log_rep log es → Forall2 (≡) hs es → books hs t o →
  ∃ t' o', PositionTracker.replay_from log = Ok t' ∧ OrderManager.replay_from log = Ok o' ∧
    t ≡ t' ∧ o ≡ o'.
Proof.
  intros Hlog Hes [_ Ht Ho].
  destruct (foldO_equiv PositionTracker.apply_event hs es PositionTracker.init PositionTracker.init t)
    as (t' & Ht' & Het); [apply _|done|done|done|].
  destruct (foldO_equiv OrderManager.apply_event hs es OrderManager.init OrderManager.init o)
    as (o' & Ho' & Heo); [apply _|done|done|done|].
  exists t', o'. unfold PositionTracker.replay_from, OrderManager.replay_from.
  rewrite !(log_replay_rep log es) by done. done.
Qed.

(** ** The books throw nothing *)

Lemma array_view_no_throw a : no_throw (array_view a).
Proof. unfold array_view. apply no_throw_bind; [apply strnlen_no_throw|done]. Qed.

Lemma average_no_throw cost qty : no_throw (average cost qty).
Proof. unfold average. no_throw. Qed.

Lemma refresh_unrealized_no_throw last avg net : no_throw (refresh_unrealized last avg net).
Proof. unfold refresh_unrealized. no_throw. Qed.

#[export] Hint Resolve array_view_no_throw average_no_throw refresh_unrealized_no_throw : no_throw.

Lemma apply_fill_no_throw e p : no_throw (apply_fill e p).
Proof.
  unfold apply_fill, apply_buy, apply_sell, buy_core, sell_core. case_decide; no_throw.
Qed.

Lemma tracker_no_throw e t : no_throw (PositionTracker.apply_event e t).
Proof.
  unfold PositionTracker.apply_event. destruct (is_fill e); [|done]. cbn [negb].
  apply no_throw_bind; [apply array_view_no_throw|]. intros v.
  apply no_throw_bind; [apply get_or_create_no_throw|]. intros r.
  apply on_slot_no_throw. intros p. apply apply_fill_no_throw.
Qed.

Lemma order_step_no_throw e o : no_throw (order_step e o).
Proof.
  unfold order_step, new_order, fill_order, close_order, amend_order.
  destruct (oe_type e); try done; [|no_throw..].
  apply no_throw_bind; [apply strncpy_no_throw|done].
Qed.

Lemma manager_no_throw e o : no_throw (OrderManager.apply_event e o).
Proof.
  pose proof (order_step_no_throw e) as Hstep. unfold order_step in Hstep.
  unfold OrderManager.apply_event. destruct (oe_type e); try done.
  all: apply no_throw_bind; [apply array_view_no_throw|]; intros v.
  1: apply no_throw_bind; [apply get_or_create_no_throw|]; intros r.
  2-6: apply no_throw_bind; [apply find_no_throw|]; intros i.
  all: by apply on_slot_no_throw.
Qed.

(** A new order is always recorded, or dropped for want of a slot. *)
Lemma manager_new_order_Ok e o :
  ids_ok e → table_wf o → oe_type e = NewOrder → ∃ o', OrderManager.apply_event e o = Ok o'.
Proof.
  intros He Hwf Ht. destruct (manager_apply_event e o He Hwf) as [Hm _].
  assert (∃ m, manage e (table_map o) = Ok m) as [m Hm'].
  { unfold manage. rewrite decide_True by done.
    assert (Hbody : ∀ s, ∃ s', order_step e s = Ok s').
    { intros s. unfold order_step. rewrite Ht. unfold new_order.
      rewrite strncpy_spec by (apply readable_length; destruct He; lia). cbn. eauto. }
    unfold map_upsert. destruct (table_map o !! _) as [s|].
    - destruct (Hbody s) as [s' ->]. cbn. eauto.
    - case_decide; [eauto|]. destruct (Hbody (slot_fresh (pad 8 (order_key e)))) as [s' ->]. cbn. eauto. }
  rewrite Hm' in Hm. destruct (OrderManager.apply_event e o); cbn in Hm; try done. eauto.
Qed.
