(* ===== verification/FIXGateway.v ===== *)
(** * [FIXGateway]: the adapter between the FIX session and the books
    (gateway/FIXGateway.h, gateway/FIXGateway.cpp)

    The world of a running gateway with every callback and both outbound calls as
    computations on it, and the theorems that tie the live books to the log, the risk
    limits and the order identifiers. *)

From Stdlib Require Import Floats.SpecFloat.
From stdpp Require Import relations.
From S2P Require Import Prelude CString OrderEvent EventLog SlotTable PositionTracker OrderManager.
From S2P Require Import Projection.
From S2P Require Import RiskChecker Fixed FixMessages MessageTranslator Environment Killswitch.

Local Open Scope Z_scope.

(** [MessageCracker::crack] looks at the message type: an execution report goes to the
    gateway's [onMessage], any other application message to the base class, which
    throws [UnsupportedMessageType]. *)
Class Cracker (M : Type) : Type := { is_execution_report : M → bool }.

(** ** The objects a gateway refers to, and its own members *)

Record world (L E M SID : Type) : Type := {
  w_log : L;
  w_tracker : PositionTracker.t;
  w_orders : OrderManager.t;
  w_limits : RiskLimits;
  w_session_id : SID;
  w_connected : bool;
  w_order_counter : Z;
  w_system : system E M SID;
}.
Arguments w_log {L E M SID} w : rename.
Arguments w_tracker {L E M SID} w : rename.
Arguments w_orders {L E M SID} w : rename.
Arguments w_limits {L E M SID} w : rename.
Arguments w_session_id {L E M SID} w : rename.
Arguments w_connected {L E M SID} w : rename.
Arguments w_order_counter {L E M SID} w : rename.
Arguments w_system {L E M SID} w : rename.

Section Fields.
Context {L E M SID : Type}.
Notation W := (world L E M SID).

Definition set_log (l : L) (w : W) : W :=
  {| w_log := l; w_tracker := w_tracker w; w_orders := w_orders w; w_limits := w_limits w;
     w_session_id := w_session_id w; w_connected := w_connected w;
     w_order_counter := w_order_counter w; w_system := w_system w |}.
Definition set_tracker (t : PositionTracker.t) (w : W) : W :=
  {| w_log := w_log w; w_tracker := t; w_orders := w_orders w; w_limits := w_limits w;
     w_session_id := w_session_id w; w_connected := w_connected w;
     w_order_counter := w_order_counter w; w_system := w_system w |}.
Definition set_orders (o : OrderManager.t) (w : W) : W :=
  {| w_log := w_log w; w_tracker := w_tracker w; w_orders := o; w_limits := w_limits w;
     w_session_id := w_session_id w; w_connected := w_connected w;
     w_order_counter := w_order_counter w; w_system := w_system w |}.
Definition set_session_id (sid : SID) (w : W) : W :=
  {| w_log := w_log w; w_tracker := w_tracker w; w_orders := w_orders w; w_limits := w_limits w;
     w_session_id := sid; w_connected := w_connected w;
     w_order_counter := w_order_counter w; w_system := w_system w |}.
Definition set_connected (b : bool) (w : W) : W :=
  {| w_log := w_log w; w_tracker := w_tracker w; w_orders := w_orders w; w_limits := w_limits w;
     w_session_id := w_session_id w; w_connected := b;
     w_order_counter := w_order_counter w; w_system := w_system w |}.
Definition set_order_counter (n : Z) (w : W) : W :=
  {| w_log := w_log w; w_tracker := w_tracker w; w_orders := w_orders w; w_limits := w_limits w;
     w_session_id := w_session_id w; w_connected := w_connected w;
     w_order_counter := n; w_system := w_system w |}.
Definition set_system (s : system E M SID) (w : W) : W :=
  {| w_log := w_log w; w_tracker := w_tracker w; w_orders := w_orders w; w_limits := w_limits w;
     w_session_id := w_session_id w; w_connected := w_connected w;
     w_order_counter := w_order_counter w; w_system := s |}.
End Fields.

Module FIXGateway.
Section Gateway.
Context {L E M SID : Type} `{LogOps L} `{FixMessage M} `{FixValues} `{Env E M SID}
  `{Cracker M}.
Notation W := (world L E M SID).

(** The constructor. *)
Definition make (log : L) (tracker : PositionTracker.t) (orders : OrderManager.t)
    (limits : RiskLimits) (s : system E M SID) : W := {|
  w_log := log; w_tracker := tracker; w_orders := orders; w_limits := limits;
  w_session_id := sid_default; w_connected := false; w_order_counter := 0; w_system := s;
|}.

Definition gw_do {A} (m : stO (system E M SID) A) : stO W A := st_zoom w_system set_system m.

Definition is_connected (w : W) : bool := w_connected w.
Definition session_id (w : W) : SID := w_session_id w.

(** [log_.append(evt)]; the clock it reads is the world's. *)
Definition append_at (evt : OrderEvent) (ts : timespec) : stO W unit := λ w,
  match log_append evt ts (w_log w) with
  | Ok (_, l) => (set_log l w, Ok tt)
  | Throw e => (w, Throw e)
  | UB => (w, UB)
  | Terminate => (w, Terminate)
  end.
Definition log_event (evt : OrderEvent) : stO W unit :=
  ts ← gw_do realtime_now; append_at evt ts.

(** [tracker_.apply_event(evt)] and [orders_.apply_event(evt)] *)
Definition track_event (evt : OrderEvent) : stO W unit := λ w,
  match PositionTracker.apply_event evt (w_tracker w) with
  | Ok t => (set_tracker t w, Ok tt)
  | Throw e => (w, Throw e)
  | UB => (w, UB)
  | Terminate => (w, Terminate)
  end.
Definition manage_event (evt : OrderEvent) : stO W unit := λ w,
  match OrderManager.apply_event evt (w_orders w) with
  | Ok o => (set_orders o w, Ok tt)
  | Throw e => (w, Throw e)
  | UB => (w, UB)
  | Terminate => (w, Terminate)
  end.

(** ** Session callbacks *)

Definition onCreate (id : SID) : stO W unit :=
  _ ← st_modify (set_session_id id);
  gw_do (print (Out_created (sid_toString id))).

Definition onLogon (id : SID) : stO W unit :=
  _ ← st_modify (set_connected true);
  gw_do (print (Out_logon (sid_toString id))).

Definition onLogout (id : SID) : stO W unit :=
  _ ← st_modify (set_connected false);
  gw_do (print (Out_logout (sid_toString id))).

Definition toAdmin (msg : M) : stO W unit := mret tt.
Definition toApp (msg : M) : stO W unit := mret tt.
Definition fromAdmin (msg : M) : stO W unit := mret tt.

(** ** Inbound messages *)

(** The state the trace line names. *)
Definition trace_state (t : EventType) : OrderState :=
  if decide (t = PartialFill) then PartiallyFilled
  else if decide (t = FullFill) then Filled
  else if decide (t = Cancel) then Cancelled
  else Rejected.

(** The trace line of an event; [%s] of [symbol_view().data()] needs a terminated
    string. *)
Definition trace_report (evt : OrderEvent) : stO W unit :=
  symbol ← st_lift (v ← symbol_view evt; c_str (sv_data v));
  gw_do (print (Out_report (OrderState_to_string (trace_state (oe_type evt)))
    (if decide (oe_side evt = Buy) then "BUY" else "SELL")
    symbol (oe_fill_qty evt) (oe_fill_price evt))).

Definition onMessage (report : M) : stO W unit :=
  st_noexcept (
    maybe_evt ← st_lift (MessageTranslator.from_execution_report report);
    match maybe_evt with
    | None => mret tt
    | Some evt =>
        _ ← log_event evt;
        _ ← track_event evt;
        _ ← manage_event evt;
        trace_report evt
    end).

Definition fromApp (msg : M) : stO W unit :=
  st_noexcept (
    if is_execution_report msg then onMessage msg
    else st_lift (Throw UnsupportedMessageType)).

(** ** Outbound orders *)

(** [order_counter_.fetch_add(1)] on a [uint64_t]. *)
Definition next_order_id : stO W (list char) := λ w,
  (set_order_counter (u64 (w_order_counter w + 1)) w,
   Ok (lit "ORD" ++ to_string (w_order_counter w))).

(** An order that has passed the check is numbered, recorded and sent; the empty string is
    the empty list. *)
Definition record_order (symbol : string_view) (side : Side) (qty price_fp : Z) :
    stO W (list char) :=
  oid ← next_order_id;
  evt ← st_lift (make_new_order symbol side qty price_fp (sv_of_string oid));
  _ ← log_event evt;
  _ ← manage_event evt;
  now ← gw_do utc_now;
  fix_order ← st_lift (MessageTranslator.to_new_order_single now evt);
  w ← st_get;
  _ ← gw_do (sendToTarget fix_order (session_id w));
  mret oid.

Definition send_order (symbol : string_view) (side : Side) (qty price_fp : Z) :
    stO W (list char) :=
  w ← st_get;
  if negb (is_connected w) then _ ← gw_do (print Out_not_connected); mret [] else
  result ← st_lift (RiskChecker.check (w_limits w) symbol side qty price_fp
                      (w_tracker w) (w_orders w));
  if negb (bool_decide (result = Pass)) then
    _ ← gw_do (print (Out_risk_blocked (RiskResult_to_string result))); mret []
  else record_order symbol side qty price_fp.

(** The overload for a price in dollars. *)
Definition send_order_d (symbol : string_view) (side : Side) (qty : Z) (price : spec_float) :
    stO W (list char) :=
  price_fp ← st_lift (noexcept (to_fixed price));
  send_order symbol side qty price_fp.

Definition emergency_cancel_all : stO W unit :=
  _ ← gw_do (print Out_emergency);
  w ← st_get;
  _ ← gw_do (Killswitch.execute (Killswitch.make (session_id w)) default_cancel_prefix
               default_budget_ms (w_orders w));
  mret tt.

(** ** The gateway as a transition system

    The engine's callbacks and the strategy's calls, one after the other; an
    exception that leaves [send_order] is caught by the strategy. *)
Inductive gw_step : W → W → Prop :=
  | step_create id w w' : onCreate id w = (w', Ok tt) → gw_step w w'
  | step_logon id w w' : onLogon id w = (w', Ok tt) → gw_step w w'
  | step_logout id w w' : onLogout id w = (w', Ok tt) → gw_step w w'
  | step_message msg w w' : fromApp msg w = (w', Ok tt) → gw_step w w'
  | step_send symbol side qty price_fp w w' r :
      sv_ok symbol = true → side = Buy ∨ side = Sell →
      in_i32 qty = true → in_i64 price_fp = true →
      send_order symbol side qty price_fp w = (w', r) → r ≠ UB → gw_step w w'
  | step_cancel w w' : emergency_cancel_all w = (w', Ok tt) → gw_step w w'.
End Gateway.
End FIXGateway.

(** ** Order identifiers *)

(** The identifier of the [n]-th order of a session, and the key it is stored under. *)
Definition order_id (n : Z) : list char := lit "ORD" ++ to_string n.
Definition order_id_key (n : Z) : list char := key (sv_of_string (order_id n)).

Lemma order_id_no_nul n : no_nul (order_id n).
Proof. apply Forall_app. split; [by repeat constructor|apply to_string_no_nul]. Qed.

Lemma order_id_key_take n : order_id_key n = take 8 (order_id n).
Proof. apply key_string, order_id_no_nul. Qed.

Lemma order_id_key_short n : 0 <= n < 100000 → order_id_key n = order_id n.
Proof.
  intros Hn. rewrite order_id_key_take. apply take_ge. unfold order_id. rewrite length_app.
  pose proof (to_string_length_lt 4 n ltac:(lia)). cbn. lia.
Qed.

Lemma order_id_key_long n : 100000 <= n → order_id_key n = order_id_key (n / 10).
Proof.
  intros Hn. rewrite !order_id_key_take. unfold order_id.
  destruct (to_string_step n) as [c ->]; [lia|]. rewrite app_assoc.
  assert (10 ^ Z.of_nat 4 <= n / 10) as Hlen by (apply Z.div_le_lower_bound; lia).
  apply to_string_length_ge in Hlen. rewrite take_app_le; [done|]. rewrite length_app. cbn. lia.
Qed.

(** ** Lemmas on the computations *)

Section GatewayLemmas.
Context {L E M SID : Type} `{LogLaws L} `{FixMessageLaws M} `{FixValues} `{EnvLaws E M SID}
  `{Cracker M}.
Import FIXGateway.
Notation W := (world L E M SID).

Lemma next_order_id_eq (w : W) :
  next_order_id w
    = (set_order_counter (u64 (w_order_counter w + 1)) w, Ok (order_id (w_order_counter w))).
Proof. done. Qed.

(** [log_event] on a log with room, and on a full one. *)
Lemma log_event_room (w : W) es e :
  log_rep (w_log w) es → wf_event e = true → Z.of_nat (length es) < MAX_EVENTS →
  ∃ l' s' ts, log_event e w = (set_log l' (set_system s' w), Ok tt) ∧
    log_rep l' (es ++ [stamp e (Z.of_nat (length es)) (now_ns ts)]) ∧
    sys_calls s' = sys_calls (w_system w) ∧ sys_out s' = sys_out (w_system w).
Proof.
  intros Hl He Hroom. unfold log_event. erewrite st_bind_Ok by reflexivity. unfold append_at.
  destruct (log_append_rep (w_log w) es e (env_realtime (sys_env (w_system w))).2 Hl He Hroom)
    as (l' & Happ & Hrep).
  eexists l', _, _. cbn [w_log set_system fst snd]. rewrite Happ. by split_and!.
Qed.

Lemma log_event_full (w : W) es e :
  log_rep (w_log w) es → Z.of_nat (length es) = MAX_EVENTS →
  ∃ s', log_event e w = (set_system s' w, Throw (overflow_error "EventLog full")) ∧
    sys_calls s' = sys_calls (w_system w) ∧ sys_out s' = sys_out (w_system w).
Proof.
  intros Hl Hfull. unfold log_event. erewrite st_bind_Ok by reflexivity. unfold append_at.
  cbn [w_log set_system fst snd]. erewrite log_append_full by done. eexists. by split_and!.
Qed.

(** The event of an order that passed the checks. *)
Lemma order_event_ok symbol side qty price n :
  sv_ok symbol = true → side = Buy ∨ side = Sell → in_i32 qty = true → in_i64 price = true →
  ∃ evt, make_new_order symbol side qty price (sv_of_string (order_id n)) = Ok evt ∧
    wf_event evt = true ∧ oe_type evt = NewOrder ∧ oe_side evt = side ∧
    oe_qty evt = qty ∧ oe_price evt = price ∧
    order_key evt = order_id_key n ∧ cstr 8 (oe_symbol evt) = key symbol.
Proof.
  intros Hs Hside Hq Hp. eexists. split; [apply make_new_order_ok; [done|apply sv_ok_string]|].
  unfold order_key. cbn [oe_type oe_side oe_qty oe_price oe_order_id oe_symbol].
  unfold key. rewrite !cstr_idemp. split_and!; try done.
  unfold wf_event. cbn [oe_sequence oe_timestamp_ns oe_price oe_fill_price oe_qty oe_fill_qty
    oe_symbol oe_order_id oe_pad oe_type oe_side].
  rewrite !pad_length by apply cstr_length. rewrite Hq, Hp. by destruct Hside as [-> | ->].
Qed.

(** An order that is not connected or not passed by the risk check. *)
Lemma send_order_blocked symbol side qty price (w : W) :
  w_connected w = false ∨
  (∃ v, check (w_limits w) symbol side qty price (w_tracker w) (w_orders w) = Ok v ∧ v ≠ Pass) →
  ∃ s', send_order symbol side qty price w = (set_system s' w, Ok []) ∧
    sys_calls s' = sys_calls (w_system w).
Proof.
  intros Hblock. unfold send_order. erewrite st_bind_Ok by reflexivity. unfold is_connected.
  destruct (w_connected w) eqn:Hc; cbn [negb].
  - destruct Hblock as [?|(v & Hv & Hne)]; [done|].
    erewrite st_bind_Ok by (unfold st_lift; rewrite Hv; reflexivity).
    rewrite bool_decide_false by done. cbn [negb]. erewrite st_bind_Ok by reflexivity.
    eexists. split; [reflexivity|done].
  - erewrite st_bind_Ok by reflexivity. eexists. split; [reflexivity|done].
Qed.

Lemma send_order_undefined symbol side qty price (w : W) :
  w_connected w = true →
  check (w_limits w) symbol side qty price (w_tracker w) (w_orders w) = UB →
  send_order symbol side qty price w = (w, UB).
Proof.
  intros Hc Hub. unfold send_order. erewrite st_bind_Ok by reflexivity. unfold is_connected.
  rewrite Hc. cbn [negb]. unfold mbind, stO_bind, st_lift. by rewrite Hub.
Qed.

Lemma send_order_passed symbol side qty price (w : W) :
  w_connected w = true →
  check (w_limits w) symbol side qty price (w_tracker w) (w_orders w) = Ok Pass →
  send_order symbol side qty price w = record_order symbol side qty price w.
Proof.
  intros Hc Hpass. unfold send_order. erewrite st_bind_Ok by reflexivity. unfold is_connected.
  rewrite Hc. cbn [negb].
  erewrite st_bind_Ok by (unfold st_lift; rewrite Hpass; reflexivity).
  rewrite bool_decide_true by done. done.
Qed.


(** An order that passes, on a full log. *)
Lemma send_order_full symbol side qty price (w : W) es :
  sv_ok symbol = true → side = Buy ∨ side = Sell → in_i32 qty = true → in_i64 price = true →
  w_connected w = true →
  check (w_limits w) symbol side qty price (w_tracker w) (w_orders w) = Ok Pass →
  log_rep (w_log w) es → Z.of_nat (length es) = MAX_EVENTS →
  ∃ s', send_order symbol side qty price w
      = (set_system s' (set_order_counter (u64 (w_order_counter w + 1)) w),
         Throw (overflow_error "EventLog full")) ∧
    sys_calls s' = sys_calls (w_system w).
Proof.
  intros Hs Hside Hq Hp Hc Hpass Hl Hfull. rewrite send_order_passed by done.
  unfold record_order. erewrite st_bind_Ok by apply next_order_id_eq.
  destruct (order_event_ok symbol side qty price (w_order_counter w)) as (evt & Hevt & _); [done..|].
  erewrite st_bind_Ok by (unfold st_lift; rewrite Hevt; reflexivity).
  destruct (log_event_full (set_order_counter (u64 (w_order_counter w + 1)) w) es evt)
    as (s' & Hlog & Hcalls & _); [done..|].
  exists s'. split; [|done]. unfold mbind, stO_bind at 1. by rewrite Hlog.
Qed.

(** The message that carries an order event. *)
Definition carries (m : M) (evt : OrderEvent) : Prop :=
  fix_get F_ClOrdID m = Ok (order_key evt) ∧
  fix_get F_Symbol m = Ok (cstr 8 (oe_symbol evt)) ∧
  fix_get F_Side m = Ok (MessageTranslator.fix_side (oe_side evt)) ∧
  fix_get F_OrdType m = Ok OrdType_LIMIT ∧
  fix_get F_OrderQty m = Ok (fix_wire F_OrderQty (of_int (oe_qty evt))) ∧
  fix_get F_Price m = Ok (fix_wire F_Price (from_fixed (oe_price evt))).

(** Handing a message to the engine. *)
Lemma send_result (m : M) (w : W) :
  ∃ s' r, gw_do (sendToTarget m (w_session_id w)) w = (set_system s' w, r) ∧
    sys_calls s' = sys_calls (w_system w) ++ [(m, w_session_id w)] ∧
    (r = Throw SessionNotFound ∨ ∃ b, r = Ok b).
Proof.
  eexists _, _. split; [reflexivity|]. split; [done|].
  apply (env_send_outcome m (w_session_id w) (sys_env (w_system w))).
Qed.

(** On a log with room: what is done, and in which order. *)
Lemma record_order_room symbol side qty price (w : W) es :
  sv_ok symbol = true → side = Buy ∨ side = Sell → in_i32 qty = true → in_i64 price = true →
  table_wf (w_orders w) → log_rep (w_log w) es → Z.of_nat (length es) < MAX_EVENTS →
  ∃ evt ts l' o' s' m r,
    make_new_order symbol side qty price (sv_of_string (order_id (w_order_counter w))) = Ok evt ∧
    log_rep l' (es ++ [stamp evt (Z.of_nat (length es)) (now_ns ts)]) ∧
    OrderManager.apply_event evt (w_orders w) = Ok o' ∧
    carries m evt ∧
    sys_calls s' = sys_calls (w_system w) ++ [(m, w_session_id w)] ∧
    record_order symbol side qty price w
      = (set_system s' (set_orders o' (set_log l'
           (set_order_counter (u64 (w_order_counter w + 1)) w))), r) ∧
    (r = Ok (order_id (w_order_counter w)) ∨ r = Throw SessionNotFound).
Proof.
  intros Hs Hside Hq Hp Hwf Hl Hroom.
  destruct (order_event_ok symbol side qty price (w_order_counter w))
    as (evt & Hevt & Hewf & Hty & _); [done..|].
  destruct (wf_event_ids evt Hewf) as [_ Hids].
  set (w1 := set_order_counter (u64 (w_order_counter w + 1)) w).
  destruct (log_event_room w1 es evt) as (l' & s1 & ts & Hlog & Hrep & Hcalls & _); [done..|].
  destruct (manager_new_order_Ok evt (w_orders w) Hids Hwf Hty) as [o' Ho'].
  set (w2 := set_orders o' (set_log l' (set_system s1 w1))).
  set (s2 := {| sys_env := (env_utc (sys_env s1)).1; sys_calls := sys_calls s1;
                sys_out := sys_out s1 |} : system E M SID).
  destruct (to_new_order_single_ok (M := M) (env_utc (sys_env s1)).2 evt Hids) as (m & Hm & Hfields).
  destruct (send_result m (set_system s2 w2)) as (s3 & r & Hsend & Hcalls3 & Hr).
  exists evt, ts, l', o', s3, m,
    (match r with Ok _ => Ok (order_id (w_order_counter w)) | _ => Throw SessionNotFound end).
  split_and!; [done..|by rewrite Hcalls3; cbn; rewrite Hcalls| |].
  - unfold record_order. erewrite st_bind_Ok by apply next_order_id_eq.
    erewrite st_bind_Ok by (unfold st_lift; rewrite Hevt; reflexivity).
    erewrite st_bind_Ok by exact Hlog.
    erewrite st_bind_Ok by (unfold manage_event; cbn [w_orders set_log set_system]; cbn;
      rewrite Ho'; reflexivity).
    erewrite st_bind_Ok by reflexivity.
    erewrite st_bind_Ok by exact (f_equal (pair (set_system s2 w2)) Hm).
    erewrite st_bind_Ok by reflexivity.
    etransitivity; [exact (st_bind_ret _ _ _ _ _ Hsend)|].
    by destruct Hr as [-> |[b ->]].
  - destruct Hr as [-> |[b ->]]; [by right|by left].
Qed.

Lemma send_order_room symbol side qty price (w : W) es :
  sv_ok symbol = true → side = Buy ∨ side = Sell → in_i32 qty = true → in_i64 price = true →
  w_connected w = true → table_wf (w_orders w) →
  check (w_limits w) symbol side qty price (w_tracker w) (w_orders w) = Ok Pass →
  log_rep (w_log w) es → Z.of_nat (length es) < MAX_EVENTS →
  ∃ evt ts l' o' s' m r,
    make_new_order symbol side qty price (sv_of_string (order_id (w_order_counter w))) = Ok evt ∧
    log_rep l' (es ++ [stamp evt (Z.of_nat (length es)) (now_ns ts)]) ∧
    OrderManager.apply_event evt (w_orders w) = Ok o' ∧
    carries m evt ∧
    sys_calls s' = sys_calls (w_system w) ++ [(m, w_session_id w)] ∧
    send_order symbol side qty price w
      = (set_system s' (set_orders o' (set_log l'
           (set_order_counter (u64 (w_order_counter w + 1)) w))), r) ∧
    (r = Ok (order_id (w_order_counter w)) ∨ r = Throw SessionNotFound).
Proof.
  intros Hs Hside Hq Hp Hc Hwf Hpass Hl Hroom. rewrite send_order_passed by done.
  by apply record_order_room.
Qed.

(** An order that was sent: everything [send_order] did. *)
Lemma send_order_sent symbol side qty price (w w' : W) es oid :
  sv_ok symbol = true → side = Buy ∨ side = Sell → in_i32 qty = true → in_i64 price = true →
  table_wf (w_orders w) → log_rep (w_log w) es →
  send_order symbol side qty price w = (w', Ok oid) → oid ≠ [] →
  check (w_limits w) symbol side qty price (w_tracker w) (w_orders w) = Ok Pass ∧
  Z.of_nat (length es) < MAX_EVENTS ∧ oid = order_id (w_order_counter w) ∧
  ∃ evt ts l' o' s' m,
    make_new_order symbol side qty price (sv_of_string (order_id (w_order_counter w))) = Ok evt ∧
    log_rep l' (es ++ [stamp evt (Z.of_nat (length es)) (now_ns ts)]) ∧
    OrderManager.apply_event evt (w_orders w) = Ok o' ∧ carries m evt ∧
    sys_calls s' = sys_calls (w_system w) ++ [(m, w_session_id w)] ∧
    w' = set_system s' (set_orders o' (set_log l'
           (set_order_counter (u64 (w_order_counter w + 1)) w))).
Proof.
  intros Hs Hside Hq Hp How Hl Hrun Hoid.
  destruct (w_connected w) eqn:Hc; cycle 1.
  { destruct (send_order_blocked symbol side qty price w) as (s' & Heq & _); [by left|congruence]. }
  destruct (check (w_limits w) symbol side qty price (w_tracker w) (w_orders w)) as [v| | |] eqn:Hv.
  2-4: exfalso; unfold send_order in Hrun; erewrite st_bind_Ok in Hrun by reflexivity;
    unfold is_connected in Hrun; rewrite Hc in Hrun; cbn [negb] in Hrun;
    unfold mbind, stO_bind at 1, st_lift in Hrun; by rewrite Hv in Hrun.
  destruct (decide (v = Pass)) as [-> |Hne]; cycle 1.
  { destruct (send_order_blocked symbol side qty price w) as (s' & Heq & _);
      [right; by exists v|congruence]. }
  pose proof (log_bound_rep _ _ Hl) as Hbound.
  destruct (Z.eq_dec (Z.of_nat (length es)) MAX_EVENTS) as [Hfull|Hroom].
  { destruct (send_order_full symbol side qty price w es) as (s' & Heq & _); [done..|congruence]. }
  destruct (send_order_room symbol side qty price w es)
    as (evt & ts & l' & o' & s' & m & r & Hevt & Hl' & Ho' & Hm & Hcalls & Heq & Hr); [done..|lia|].
  split; [done|]. split; [lia|].
  split; [destruct Hr as [-> | ->]; congruence|].
  exists evt, ts, l', o', s', m. split_and!; try done. congruence.
Qed.

(** ** Inbound messages *)

Lemma track_event_ok e t (w : W) :
  PositionTracker.apply_event e (w_tracker w) = Ok t → track_event e w = (set_tracker t w, Ok tt).
Proof. unfold track_event. by intros ->. Qed.

Lemma manage_event_ok e o (w : W) :
  OrderManager.apply_event e (w_orders w) = Ok o → manage_event e w = (set_orders o w, Ok tt).
Proof. unfold manage_event. by intros ->. Qed.

(** The trace line, and the symbol that is no string. *)
Lemma trace_report_result e (w : W) :
  ∃ s', trace_report e w
      = match c_str (oe_symbol e) with Ok _ => (set_system s' w, Ok tt) | _ => (w, UB) end ∧
    sys_calls s' = sys_calls (w_system w).
Proof.
  unfold trace_report, symbol_view. rewrite array_view_ok. cbn [mbind outcome_bind sv_data].
  pose proof (c_str_no_throw (oe_symbol e)) as Hn. unfold mbind, stO_bind at 1, st_lift.
  destruct (c_str (oe_symbol e)) as [sym| | |]; try done.
  - eexists. split; [reflexivity|done].
  - exists (w_system w). done.
Qed.

(** The calls that book an event. *)
Definition book_event (e : OrderEvent) : stO W unit :=
  _ ← log_event e; _ ← track_event e; _ ← manage_event e; trace_report e.

Lemma onMessage_some (r : M) e (w : W) :
  MessageTranslator.from_execution_report r = Ok (Some e) →
  onMessage r w = ((book_event e w).1, noexcept (book_event e w).2).
Proof.
  intros He. unfold onMessage, st_noexcept. cbv zeta.
  rewrite (st_bind_Ok _ _ w w (Some e)); [done|]. unfold st_lift. by rewrite He.
Qed.

(** What [onMessage] does with an event that can be booked. *)
Lemma onMessage_booked (r : M) e (w : W) es t o :
  MessageTranslator.from_execution_report r = Ok (Some e) →
  log_rep (w_log w) es → Z.of_nat (length es) < MAX_EVENTS →
  PositionTracker.apply_event e (w_tracker w) = Ok t →
  OrderManager.apply_event e (w_orders w) = Ok o →
  ∃ l' s' ts, log_rep l' (es ++ [stamp e (Z.of_nat (length es)) (now_ns ts)]) ∧
    sys_calls s' = sys_calls (w_system w) ∧
    onMessage r w = (set_system s' (set_orders o (set_tracker t (set_log l' w))),
                     match c_str (oe_symbol e) with Ok _ => Ok tt | _ => UB end).
Proof.
  intros He Hl Hroom Ht Ho. destruct (from_execution_report_wf r e He) as [Hwf _].
  destruct (log_event_room w es e) as (l' & s1 & ts & Hlog & Hrep & Hcalls & _); [done..|].
  set (w1 := set_orders o (set_tracker t (set_log l' (set_system s1 w)))).
  destruct (trace_report_result e w1) as (s2 & Htrace & Hcalls2).
  exists l', (match c_str (oe_symbol e) with Ok _ => s2 | _ => s1 end), ts.
  split_and!; [done|destruct (c_str _); by rewrite ?Hcalls2, ?Hcalls|].
  rewrite (onMessage_some r e w He).
  assert (Hbook : book_event e w = (set_system (match c_str (oe_symbol e) with Ok _ => s2 | _ => s1 end)
      (set_orders o (set_tracker t (set_log l' w))),
      match c_str (oe_symbol e) with Ok _ => Ok tt | _ => UB end)).
  2:{ rewrite Hbook. by destruct (c_str (oe_symbol e)). }
  unfold book_event. erewrite st_bind_Ok by exact Hlog.
  erewrite st_bind_Ok by exact (track_event_ok e t (set_log l' (set_system s1 w)) Ht).
  erewrite st_bind_Ok by exact (manage_event_ok e o (set_tracker t (set_log l' (set_system s1 w))) Ho).
  change (set_orders o (set_tracker t (set_log l' (set_system s1 w)))) with w1. rewrite Htrace.
  by destruct (c_str (oe_symbol e)).
Qed.

(** What it does with an event on a full log. *)
Lemma onMessage_full (r : M) e (w : W) es :
  MessageTranslator.from_execution_report r = Ok (Some e) →
  log_rep (w_log w) es → Z.of_nat (length es) = MAX_EVENTS →
  ∃ s', onMessage r w = (set_system s' w, Terminate) ∧ sys_calls s' = sys_calls (w_system w).
Proof.
  intros He Hl Hfull. destruct (log_event_full w es e) as (s' & Hlog & Hcalls & _); [done..|].
  exists s'. split; [|done]. rewrite (onMessage_some r e w He).
  assert (Hbook : book_event e w = (set_system s' w, Throw (overflow_error "EventLog full"))).
  { unfold book_event. unfold mbind at 1, stO_bind at 1. by rewrite Hlog. }
  by rewrite Hbook.
Qed.

(** A translation that fails, and events that one of the books cannot take. *)
Lemma onMessage_failed (r : M) (w : W) :
  (∀ x, MessageTranslator.from_execution_report r ≠ Ok x) →
  onMessage r w = (w, match MessageTranslator.from_execution_report r with UB => UB | _ => Terminate end).
Proof.
  intros Hno. unfold onMessage, st_noexcept, mbind, stO_bind, st_lift.
  destruct (MessageTranslator.from_execution_report r) as [x| | |]; try done. by destruct (Hno x).
Qed.

Lemma onMessage_no_tracker (r : M) e (w : W) es :
  MessageTranslator.from_execution_report r = Ok (Some e) →
  log_rep (w_log w) es → Z.of_nat (length es) < MAX_EVENTS →
  PositionTracker.apply_event e (w_tracker w) = UB →
  ∃ l' s' ts, log_rep l' (es ++ [stamp e (Z.of_nat (length es)) (now_ns ts)]) ∧
    onMessage r w = (set_system s' (set_log l' w), UB).
Proof.
  intros He Hl Hroom Ht. destruct (from_execution_report_wf r e He) as [Hwf _].
  destruct (log_event_room w es e) as (l' & s' & ts & Hlog & Hrep & _); [done..|].
  exists l', s', ts. split; [done|]. rewrite (onMessage_some r e w He).
  assert (Hbook : book_event e w = (set_system s' (set_log l' w), UB)); [|by rewrite Hbook].
  unfold book_event. erewrite st_bind_Ok by exact Hlog. unfold mbind, stO_bind, track_event.
  cbn [w_tracker set_log set_system]. by rewrite Ht.
Qed.

Lemma onMessage_no_manager (r : M) e (w : W) es t :
  MessageTranslator.from_execution_report r = Ok (Some e) →
  log_rep (w_log w) es → Z.of_nat (length es) < MAX_EVENTS →
  PositionTracker.apply_event e (w_tracker w) = Ok t →
  OrderManager.apply_event e (w_orders w) = UB →
  ∃ l' s' ts, log_rep l' (es ++ [stamp e (Z.of_nat (length es)) (now_ns ts)]) ∧
    onMessage r w = (set_system s' (set_tracker t (set_log l' w)), UB).
Proof.
  intros He Hl Hroom Ht Ho. destruct (from_execution_report_wf r e He) as [Hwf _].
  destruct (log_event_room w es e) as (l' & s' & ts & Hlog & Hrep & _); [done..|].
  exists l', s', ts. split; [done|]. rewrite (onMessage_some r e w He).
  assert (Hbook : book_event e w = (set_system s' (set_tracker t (set_log l' w)), UB)); [|by rewrite Hbook].
  unfold book_event. erewrite st_bind_Ok by exact Hlog.
  erewrite st_bind_Ok by exact (track_event_ok e t (set_log l' (set_system s' w)) Ht).
  unfold mbind, stO_bind, manage_event. cbn [w_orders set_tracker set_log set_system]. by rewrite Ho.
Qed.

(** A message that was handled to the end was booked in full, or booked nothing. *)
Lemma onMessage_inv (r : M) (w w' : W) es :
  log_rep (w_log w) es → onMessage r w = (w', Ok tt) →
  (MessageTranslator.from_execution_report r = Ok None ∧ w' = w) ∨
  (∃ e ts t o l' s', MessageTranslator.from_execution_report r = Ok (Some e) ∧
     Z.of_nat (length es) < MAX_EVENTS ∧
     PositionTracker.apply_event e (w_tracker w) = Ok t ∧
     OrderManager.apply_event e (w_orders w) = Ok o ∧
     log_rep l' (es ++ [stamp e (Z.of_nat (length es)) (now_ns ts)]) ∧
     w' = set_system s' (set_orders o (set_tracker t (set_log l' w)))).
Proof.
  intros Hl Hrun.
  destruct (MessageTranslator.from_execution_report r) as [[e|]| | |] eqn:He.
  - right. pose proof (log_bound_rep _ _ Hl) as Hb.
    destruct (Z.eq_dec (Z.of_nat (length es)) MAX_EVENTS) as [Hfull|Hroom].
    { destruct (onMessage_full r e w es) as (s' & Heq & _); [done..|]. congruence. }
    destruct (from_execution_report_wf r e He) as [Hwf _].
    destruct (log_event_room w es e) as (l1 & s1 & ts1 & Hlog & _); [done|done|lia|].
    assert (∃ t o, PositionTracker.apply_event e (w_tracker w) = Ok t ∧
      OrderManager.apply_event e (w_orders w) = Ok o) as (t & o & Ht & Ho).
    { rewrite (onMessage_some r e w He) in Hrun. injection Hrun as _ Hrun.
      unfold book_event in Hrun. erewrite st_bind_Ok in Hrun by exact Hlog.
      pose proof (tracker_no_throw e (w_tracker w)). pose proof (manager_no_throw e (w_orders w)).
      destruct (PositionTracker.apply_event e (w_tracker w)) as [t| | |] eqn:Ht; try done; cycle 1.
      { unfold mbind, stO_bind at 1, track_event in Hrun. cbn [w_tracker set_log set_system] in Hrun.
        by rewrite Ht in Hrun. }
      destruct (OrderManager.apply_event e (w_orders w)) as [o| | |] eqn:Ho; try done; [by eauto|].
      erewrite st_bind_Ok in Hrun by exact (track_event_ok e t (set_log l1 (set_system s1 w)) Ht).
      unfold mbind, stO_bind at 1, manage_event in Hrun.
      cbn [w_orders set_log set_system set_tracker] in Hrun. by rewrite Ho in Hrun. }
    destruct (onMessage_booked r e w es t o) as (l' & s' & ts & Hrep & _ & Heq); [done|done|lia|done..|].
    exists e, ts, t, o, l', s'. split_and!; [done|lia|done..|]. congruence.
  - left. split; [done|]. unfold onMessage, st_noexcept in Hrun.
    rewrite (st_bind_Ok _ _ w w None) in Hrun by (unfold st_lift; by rewrite He).
    by injection Hrun.
  - unfold onMessage, st_noexcept, mbind, stO_bind, st_lift in Hrun. by rewrite He in Hrun.
  - unfold onMessage, st_noexcept, mbind, stO_bind, st_lift in Hrun. by rewrite He in Hrun.
  - unfold onMessage, st_noexcept, mbind, stO_bind, st_lift in Hrun. by rewrite He in Hrun.
Qed.

(** ** The invariant of the transition system *)

(** The log holds the history of the books, up to the stamps. *)
Definition gw_inv (w : W) : Prop :=
  ∃ es hs, log_rep (w_log w) es ∧ Forall2 (≡) hs es ∧ books hs (w_tracker w) (w_orders w).

(** A gateway right after both books were replayed from the log. *)
Definition gw_start (w : W) : Prop :=
  ∃ es, log_rep (w_log w) es ∧ Forall (λ e, wf_event e = true) es ∧
    PositionTracker.replay_from (w_log w) = Ok (w_tracker w) ∧
    OrderManager.replay_from (w_log w) = Ok (w_orders w).

(** Computations that touch nothing but the world outside. *)
Definition only_system {A} (m : stO W A) : Prop := ∀ w, ∃ s', (m w).1 = set_system s' w.

Lemma only_system_do {A} (m : stO (system E M SID) A) : only_system (gw_do m).
Proof. intros w. by eexists. Qed.

Lemma only_system_bind {A B} (m : stO W A) (f : A → stO W B) :
  only_system m → (∀ a, only_system (f a)) → only_system (m ≫= f).
Proof.
  intros Hm Hf w. destruct (Hm w) as [s1 Hs1]. unfold mbind, stO_bind.
  destruct (m w) as [w1 [a|e| |]]; cbn [fst] in *; subst w1; [|by exists s1..].
  destruct (Hf a (set_system s1 w)) as [s2 Hs2]. exists s2. by rewrite Hs2.
Qed.

Lemma emergency_only_system : only_system emergency_cancel_all.
Proof.
  unfold emergency_cancel_all. apply only_system_bind; [apply only_system_do|]. intros _.
  apply only_system_bind; [intros w; exists (w_system w); by destruct w|]. intros w.
  apply only_system_bind; [apply only_system_do|].
  intros _ w1. exists (w_system w1). by destruct w1.
Qed.

(** The kill switch of the gateway sends one cancel per open order. *)
Lemma emergency_calls (w : W) :
  sized (w_orders w) →
  ∃ s' ms, emergency_cancel_all w = (set_system s' w, Ok tt) ∧
    sys_calls s' = sys_calls (w_system w) ++ ((λ m, (m, w_session_id w)) <$> ms) ∧
    length ms = OrderManager.open_order_count (w_orders w) ∧
    ∀ i m o, ms !! i = Some m → open_orders (w_orders w) !! i = Some o →
      cancels m (Killswitch.numbered_id default_cancel_prefix (Z.of_nat i + 1)) o.
Proof.
  intros Hsized. unfold emergency_cancel_all.
  erewrite st_bind_Ok by reflexivity. erewrite st_bind_Ok by reflexivity.
  set (w1 := set_system (print Out_emergency (w_system w)).1 w).
  destruct (execute_ok (Killswitch.make (session_id w)) default_cancel_prefix default_budget_ms
    (w_orders w) (w_system w1) Hsized) as (s' & ms & el & Hrun & Hcalls & Hlen & Hms).
  exists s', ms. split; [|done].
  rewrite (st_bind_Ok _ _ w1 (set_system s' w1) el); [done|].
  unfold gw_do, st_zoom. change (w_orders w1) with (w_orders w).
  change (session_id w1) with (session_id w). by rewrite Hrun.
Qed.

Lemma gw_start_inv w : gw_start w → gw_inv w.
Proof.
  intros (es & Hl & Hwf & Ht & Ho). exists es, es. split; [done|]. split; [by apply Forall_Forall2_diag, Forall_true|].
  unfold PositionTracker.replay_from, OrderManager.replay_from in *.
  rewrite (log_replay_rep _ es) in Ht by done. rewrite (log_replay_rep _ es) in Ho by done.
  by split.
Qed.

Lemma gw_inv_tables w : gw_inv w → table_wf (w_tracker w) ∧ table_wf (w_orders w) ∧ symbols_ok (w_orders w).
Proof. intros (es & hs & _ & _ & Hb). by eapply books_tables. Qed.

(** One more event, recorded in the log and applied to both books. *)
Lemma gw_inv_snoc (w : W) es hs e ts l' t' o' :
  Forall2 (≡) hs es → books hs (w_tracker w) (w_orders w) → wf_event e = true →
  log_rep l' (es ++ [stamp e (Z.of_nat (length es)) (now_ns ts)]) →
  PositionTracker.apply_event e (w_tracker w) = Ok t' →
  OrderManager.apply_event e (w_orders w) = Ok o' →
  gw_inv (set_orders o' (set_tracker t' (set_log l' w))).
Proof.
  intros Hes Hb He Hl Ht Ho. eexists _, (hs ++ [e]). split; [exact Hl|]. split.
  - apply Forall2_app; [done|]. constructor; [|constructor]. symmetry. apply stamp_equiv.
  - by eapply books_snoc.
Qed.

Lemma gw_step_inv (w w' : W) : gw_step w w' → gw_inv w → gw_inv w'.
Proof.
  intros Hstep Hinv. pose proof (gw_inv_tables w Hinv) as (Htw & How & _).
  destruct Hinv as (es & hs & Hl & Hes & Hb).
  destruct Hstep as [id w w' Hrun|id w w' Hrun|id w w' Hrun|msg w w' Hrun
    |symbol side qty price w w' r Hs Hside Hq Hp Hrun Hub|w w' Hrun].
  1-3: injection Hrun as <-; by exists es, hs.
  - unfold fromApp in Hrun. unfold st_noexcept in Hrun. destruct (is_execution_report msg); [|done].
    destruct (onMessage msg w) as [w1 r] eqn:Hm. injection Hrun as <- Hr.
    assert (r = Ok tt) as -> by (destruct r as [[]| | |]; done).
    destruct (onMessage_inv msg w w1 es Hl Hm)
      as [[_ ->]|(e & ts & t & o & l' & s' & He & Hroom & Ht & Ho & Hl' & ->)]; [by exists es, hs|].
    destruct (from_execution_report_wf msg e He) as [Hwf _].
    destruct (gw_inv_snoc w es hs e ts l' t o) as (es' & hs' & ?); [done..|]. by exists es', hs'.
  - destruct (w_connected w) eqn:Hc; cycle 1.
    { destruct (send_order_blocked symbol side qty price w) as (s' & Heq & _); [by left|].
      rewrite Heq in Hrun. injection Hrun as <- _. by exists es, hs. }
    destruct (check (w_limits w) symbol side qty price (w_tracker w) (w_orders w)) as [v| | |] eqn:Hv.
    2-4: assert (Hsame : (send_order symbol side qty price w).1 = w)
           by (unfold send_order; erewrite st_bind_Ok by reflexivity; unfold is_connected;
               rewrite Hc; cbn [negb]; unfold mbind, stO_bind at 1, st_lift; by rewrite Hv).
    2-4: rewrite Hrun in Hsame; cbn in Hsame; subst w'; by exists es, hs.
    destruct (decide (v = Pass)) as [-> |Hne]; cycle 1.
    { destruct (send_order_blocked symbol side qty price w) as (s' & Heq & _); [right; by exists v|].
      rewrite Heq in Hrun. injection Hrun as <- _. by exists es, hs. }
    pose proof (log_bound_rep _ _ Hl) as Hbound.
    destruct (Z.eq_dec (Z.of_nat (length es)) MAX_EVENTS) as [Hfull|Hroom].
    { destruct (send_order_full symbol side qty price w es) as (s' & Heq & _); [done..|].
      rewrite Heq in Hrun. injection Hrun as <- _. by exists es, hs. }
    destruct (send_order_room symbol side qty price w es)
      as (evt & ts & l' & o' & s' & m & r' & Hevt & Hl' & Ho' & _ & _ & Heq & _); [done..|lia|].
    destruct (order_event_ok symbol side qty price (w_order_counter w))
      as (evt' & Hevt' & Hwf & Hty & _); [done..|]. assert (evt' = evt) as -> by congruence.
    rewrite Heq in Hrun. injection Hrun as <- _.
    destruct (gw_inv_snoc w es hs evt ts l' (w_tracker w) o') as (es' & hs' & ?); [done..| |done|].
    { apply tracker_ignores. unfold is_fill. by rewrite Hty. }
    by exists es', hs'.
  - destruct (emergency_only_system w) as [s' Hs']. rewrite Hrun in Hs'. cbn in Hs'. subst w'.
    by exists es, hs.
Qed.

Lemma reachable_inv (w0 w : W) : gw_start w0 → rtc gw_step w0 w → gw_inv w.
Proof.
  intros Hstart%gw_start_inv Hsteps. induction Hsteps as [|w1 w2 w3 Hstep _ IH]; [done|].
  by eapply IH, gw_step_inv.
Qed.
End GatewayLemmas.

(** ** Properties *)

Lemma c_str_NUL p : c_str p = UB ∧ NUL ∉ p ∨ NUL ∈ p ∧ ∃ s, c_str p = Ok s.
Proof.
  induction p as [|c p IH]; cbn; [left; split; [done|apply not_elem_of_nil]|].
  case_decide as Hc; [right; subst; split; [left|by eexists]|].
  destruct IH as [[-> Hn]|[Hn [s ->]]]; cbn.
  - left. split; [done|]. intros [?|?]%elem_of_cons; [congruence|done].
  - right. split; [by right|by eexists].
Qed.

(** The gateway of the examples: a log in memory, an engine whose link may be up. *)
Definition sample_world (up : bool) : world (list OrderEvent) sample_env field_store string :=
  FIXGateway.make [] PositionTracker.init OrderManager.init default_limits (sample_system up).

#[export] Instance sample_cracker : Cracker field_store := {
  is_execution_report m := bool_decide (is_Some (m F_ExecType));
}.

Lemma sample_start up : gw_start (sample_world up).
Proof. exists []. split; [by split|]. split; [constructor|done]. Qed.

(** C1. Event sourcing of the live gateway: after any sequence of callbacks, orders and
    cancels (throwing ones included) on a gateway that started from its log, the
    live tracker and manager are what replaying the log would rebuild, up to the
    recorded sequence numbers. *)
Theorem live_state_is_projection {L E M SID} `{LogLaws L} `{FixMessageLaws M} `{FixValues}
    `{EnvLaws E M SID} `{Cracker M} (w0 w : world L E M SID) :
  gw_start w0 → rtc FIXGateway.gw_step w0 w →
  ∃ t o, PositionTracker.replay_from (w_log w) = Ok t ∧
    OrderManager.replay_from (w_log w) = Ok o ∧ w_tracker w ≡ t ∧ w_orders w ≡ o.
Proof.
  intros Hstart Hsteps. pose proof (reachable_inv w0 w Hstart Hsteps) as Hinv.
  destruct Hinv as (es & hs & Hl & Hes & Hb). by eapply replay_equiv.
Qed.

Lemma live_state_is_projection_witness :
  ∃ w t, rtc FIXGateway.gw_step (sample_world true) w ∧ w_connected w = true ∧
    PositionTracker.replay_from (w_log w) = Ok t ∧ w_tracker w ≡ t.
Proof.
  set (w1 := (FIXGateway.onLogon "S" (sample_world true)).1).
  set (fill := sample_report "2"%char "1"%char "AAPL" "ORD0" (Some (of_int 100, from_fixed 175500000))).
  set (w2 := (FIXGateway.fromApp fill w1).1).
  assert (Hsteps : rtc FIXGateway.gw_step (sample_world true) w2).
  { eapply rtc_l; [by apply (FIXGateway.step_logon "S")|].
    eapply rtc_l; [|apply rtc_refl]. apply (FIXGateway.step_message fill).
    rewrite (surjective_pairing (FIXGateway.fromApp fill _)).
    apply (f_equal2 pair); [reflexivity|vm_compute; reflexivity]. }
  destruct (live_state_is_projection (sample_world true) w2 (sample_start true) Hsteps)
    as (t & o & Ht & _ & Heq & _).
  exists w2, t. split; [exact Hsteps|]. split; [vm_compute; reflexivity|]. by split.
Defined.

(** Order identifiers are distinct only for the first 100,000 orders of a session:
    below that the stored 8-character keys differ; every identifier from number
    100000 on has the key of the order numbered by its quotient by 10, so the new
    order takes the slot of an older one. *)
Theorem order_keys_collide_after_100000 {L E M SID} (w1 w2 : world L E M SID) w1' w2' id1 id2 :
  FIXGateway.next_order_id w1 = (w1', Ok id1) → FIXGateway.next_order_id w2 = (w2', Ok id2) →
  0 <= w_order_counter w1 → 0 <= w_order_counter w2 →
  (w_order_counter w1 < 100000 → w_order_counter w2 < 100000 →
     key (sv_of_string id1) = key (sv_of_string id2) → w_order_counter w1 = w_order_counter w2) ∧
  (100000 <= w_order_counter w1 → w_order_counter w2 = w_order_counter w1 / 10 →
     key (sv_of_string id1) = key (sv_of_string id2)).
Proof.
  intros [= _ <-] [= _ <-] H1 H2. split.
  - intros Hb1 Hb2 Hk.
    change (order_id_key (w_order_counter w1) = order_id_key (w_order_counter w2)) in Hk.
    rewrite !order_id_key_short in Hk by lia.
    apply app_inv_head in Hk. by apply to_string_inj.
  - intros Hlong ->. by apply order_id_key_long.
Qed.

Lemma order_keys_collide_after_100000_witness :
  let w1 := set_order_counter 100000 (sample_world true) in
  let w2 := set_order_counter 10000 (sample_world true) in
  key (sv_of_string (order_id 100000)) = key (sv_of_string (order_id 10000)) ∧
  order_id 100000 ≠ order_id 10000.
Proof.
  intros w1 w2. split.
  - destruct (order_keys_collide_after_100000 w1 w2 _ _ _ _ eq_refl eq_refl) as [_ Hlong];
      [cbn; lia|cbn; lia|]. apply Hlong; cbn; [lia|reflexivity].
  - vm_compute. discriminate.
Defined.

(** C30. What [send_order] does, in every case.  The risk check either gives a verdict or
    has undefined behaviour (an overflow: it throws nothing), and the log has room or is
    full.  Not connected, or refused by the check: [send_order] returns the empty string,
    sends nothing and changes no book.  A check with undefined behaviour: so has
    [send_order], before it has done anything.  Passed on a full log: it throws and books
    nothing, but the identifier is used up.  Passed with room: the order is recorded in
    the log and in the manager first, then exactly one matching message is handed to the
    engine, and the identifier is returned; if no session is found it throws
    [SessionNotFound] and the recorded order stays. *)
Theorem send_order_outcomes {L E M SID} `{LogLaws L} `{FixMessageLaws M} `{FixValues}
    `{EnvLaws E M SID} (w : world L E M SID) symbol side qty price es :
  sv_ok symbol = true → side = Buy ∨ side = Sell → in_i32 qty = true → in_i64 price = true →
  table_wf (w_orders w) → log_rep (w_log w) es →
  let verdict := check (w_limits w) symbol side qty price (w_tracker w) (w_orders w) in
  let n := w_order_counter w in
  let counted := set_order_counter (u64 (n + 1)) w in
  (verdict = UB ∨ ∃ v, verdict = Ok v) ∧ Z.of_nat (length es) <= MAX_EVENTS ∧
  (w_connected w = true → verdict = UB → FIXGateway.send_order symbol side qty price w = (w, UB)) ∧
  (w_connected w = false ∨ (∃ v, verdict = Ok v ∧ v ≠ Pass) →
     ∃ s', FIXGateway.send_order symbol side qty price w = (set_system s' w, Ok []) ∧
       sys_calls s' = sys_calls (w_system w)) ∧
  (w_connected w = true → verdict = Ok Pass → Z.of_nat (length es) = MAX_EVENTS →
     ∃ s', FIXGateway.send_order symbol side qty price w
         = (set_system s' counted, Throw (overflow_error "EventLog full")) ∧
       sys_calls s' = sys_calls (w_system w)) ∧
  (w_connected w = true → verdict = Ok Pass → Z.of_nat (length es) < MAX_EVENTS →
     ∃ evt ts l' o' s' m r,
       make_new_order symbol side qty price (sv_of_string (order_id n)) = Ok evt ∧
       log_rep l' (es ++ [stamp evt (Z.of_nat (length es)) (now_ns ts)]) ∧
       OrderManager.apply_event evt (w_orders w) = Ok o' ∧ carries m evt ∧
       sys_calls s' = sys_calls (w_system w) ++ [(m, w_session_id w)] ∧
       FIXGateway.send_order symbol side qty price w
         = (set_system s' (set_orders o' (set_log l' counted)), r) ∧
       (r = Ok (order_id n) ∨ r = Throw SessionNotFound)).
Proof.
  intros Hs Hside Hq Hp Hwf Hl verdict n counted. split_and!.
  - apply no_throw_cases, check_no_throw.
  - by eapply log_bound_rep.
  - by apply send_order_undefined.
  - apply send_order_blocked.
  - intros Hc Hv Hfull. by eapply send_order_full.
  - intros Hc Hv Hroom. by eapply send_order_room.
Qed.

Lemma send_order_outcomes_witness :
  let w := set_connected true (sample_world false) in
  ∃ w' o', FIXGateway.send_order (sv_of_string (lit "AAPL")) Buy 100 175500000 w
      = (w', Throw SessionNotFound) ∧
    w_orders w' = o' ∧ OrderManager.open_order_count o' = 1%nat.
Proof.
  intros w. set (sym := sv_of_string (lit "AAPL")).
  destruct (send_order_outcomes w sym Buy 100 175500000 []) as (_ & _ & _ & _ & _ & Hroom);
    [reflexivity|by left|reflexivity|reflexivity|apply table_init_wf|by split|].
  destruct Hroom as (evt & ts & l' & o' & s' & m & r & Hevt & _ & Ho' & _ & _ & Hrun & Hr);
    [reflexivity|vm_compute; reflexivity|vm_compute; reflexivity|].
  exists (set_system s' (set_orders o' (set_log l'
    (set_order_counter (u64 (w_order_counter w + 1)) w)))), o'.
  split_and!; [|reflexivity|].
  - rewrite Hrun. f_equal. destruct Hr as [-> | ->]; [exfalso|reflexivity].
    assert (Hf : (FIXGateway.send_order sym Buy 100 175500000 w).2 = Throw SessionNotFound)
      by (vm_compute; reflexivity).
    by rewrite Hrun in Hf.
  - apply Nat.eqb_eq.
    apply (Ok_check (evt ← make_new_order sym Buy 100 175500000
                       (sv_of_string (order_id (w_order_counter w)));
                     OrderManager.apply_event evt OrderManager.init) o'
             (λ o, Nat.eqb (OrderManager.open_order_count o) 1)); [|vm_compute; reflexivity].
    rewrite Hevt. exact Ho'.
Defined.

(** What a new order adds to the exposure when its key is free and a slot is left. *)
Lemma new_order_exposure evt o o' k :
  wf_event evt = true → oe_type evt = NewOrder → table_wf o →
  table_map o !! order_key evt = None → (count_ o < MAX_ORDERS)%nat →
  OrderManager.apply_event evt o = Ok o' →
  map_sum (exposure_of k) (table_map o') = map_sum (exposure_of k) (table_map o)
    + if decide (cstr 8 (oe_symbol evt) = k) then sgn_side (oe_side evt) * oe_qty evt else 0.
Proof.
  intros He Hty Hwf Hnone Hroom Ho'. destruct (wf_event_ids evt He) as [_ Hids].
  destruct (manager_apply_event evt o Hids Hwf) as [Hm _]. rewrite Ho' in Hm. symmetry in Hm.
  pose proof (manage_exposure k evt _ _ Hm) as Hexp. rewrite Hnone in Hexp.
  unfold manage in Hm. rewrite decide_True in Hm by done.
  apply map_upsert_Ok in Hm as [(x & Hx & Hm)|(_ & _ & Hfull)]; cycle 1.
  { rewrite table_map_size in Hfull by done. cbn in Hfull. lia. }
  cbn in Hm. rewrite Hm, lookup_insert_eq in Hexp. rewrite Hm.
  unfold order_step in Hx. rewrite Hty in Hx.
  apply new_order_Ok in Hx as (Hst & Hf & _ & Hoq & Hsd & _ & Hsym & _); [|by destruct Hids].
  cbn [fmap option_fmap option_map default from_option] in Hexp. rewrite Hexp.
  unfold exposure_of at 2, is_open. rewrite Hst, Hf, Hoq, Hsd, Hsym, cstr_idemp.
  change (state_open Pending) with true. cbn [andb]. unfold sgn_side, id.
  case_bool_decide; repeat case_decide; done || lia.
Qed.

(** C6. Pre-trade safety: on any reachable gateway, an order that is sent under a key
    not in use, with a free slot, leaves the true exposure of its symbol (filled plus
    open) within the position limit, changed by exactly the signed quantity of the
    order, and the order itself within the quantity and notional limits. *)
Theorem sent_order_within_limits {L E M SID} `{LogLaws L} `{FixMessageLaws M} `{FixValues}
    `{EnvLaws E M SID} `{Cracker M} (w0 w w' : world L E M SID) symbol side qty price oid :
  gw_start w0 → rtc FIXGateway.gw_step w0 w →
  sv_ok symbol = true → side = Buy ∨ side = Sell → in_i32 qty = true → in_i64 price = true →
  table_map (w_orders w) !! order_id_key (w_order_counter w) = None →
  (count_ (w_orders w) < MAX_ORDERS)%nat →
  FIXGateway.send_order symbol side qty price w = (w', Ok oid) → oid ≠ [] →
  let exposure x := true_exposure (key symbol) (table_map (w_tracker x)) (table_map (w_orders x)) in
  exposure w' = exposure w + sgn_side side * qty ∧
  - max_net_position (w_limits w) <= exposure w' <= max_net_position (w_limits w) ∧
  qty <= max_order_qty (w_limits w) ∧ qty * price <= max_order_notional (w_limits w).
Proof.
  intros Hstart Hsteps Hs Hside Hq Hp Hfree Hslot Hrun Hoid exposure.
  pose proof (reachable_inv w0 w Hstart Hsteps) as Hinv.
  destruct (gw_inv_tables w Hinv) as (Htw & How & Hsym). destruct Hinv as (es & hs & Hl & _).
  destruct (send_order_sent symbol side qty price w w' es oid)
    as (Hv & _ & _ & evt & ts & l' & o' & s' & m & Hevt & _ & Ho' & _ & _ & ->); [done..|].
  destruct (order_event_ok symbol side qty price (w_order_counter w))
    as (evt' & Hevt' & Hwf & Hty & Hsd & Hqty & _ & Hkey & Hsymk); [done..|].
  assert (evt' = evt) as -> by congruence.
  rewrite <- Hkey in Hfree.
  pose proof (new_order_exposure evt _ _ (key symbol) Hwf Hty How Hfree Hslot Ho') as Hexp.
  rewrite Hsymk, decide_True, Hsd, Hqty in Hexp by done.
  apply check_rule in Hv; [|done..]. symmetry in Hv. apply risk_rule_pass in Hv.
  cbn zeta in Hv. destruct Hv as (Hv1 & Hv2 & Hv3 & _).
  unfold exposure, true_exposure in *. cbn [w_tracker w_orders set_system set_orders set_log
    set_order_counter]. rewrite Hexp. split_and!; lia.
Qed.

Lemma sent_order_within_limits_witness :
  let sym := sv_of_string (lit "AAPL") in
  let w := (FIXGateway.onLogon "S" (sample_world true)).1 in
  ∃ w', FIXGateway.send_order sym Buy 100 175500000 w = (w', Ok (order_id 0)) ∧
    true_exposure (lit "AAPL") (table_map (w_tracker w')) (table_map (w_orders w')) = 0 + 100 ∧
    100 <= max_order_qty (w_limits w).
Proof.
  intros sym w. set (w' := (FIXGateway.send_order sym Buy 100 175500000 w).1).
  assert (Hrun : FIXGateway.send_order sym Buy 100 175500000 w = (w', Ok (order_id 0))).
  { rewrite (surjective_pairing (FIXGateway.send_order _ _ _ _ w)).
    apply (f_equal2 pair); [reflexivity|vm_compute; reflexivity]. }
  destruct (sent_order_within_limits (sample_world true) w w' sym Buy 100 175500000 (order_id 0))
    as (Hexp & _ & Hq & _);
    [apply sample_start| |reflexivity|by left|reflexivity|reflexivity|reflexivity
    |apply Nat.ltb_lt; reflexivity|exact Hrun|discriminate|].
  - eapply rtc_l; [by apply (FIXGateway.step_logon "S")|apply rtc_refl].
  - exists w'. split; [exact Hrun|]. split; [exact Hexp|exact Hq].
Defined.

(** C31. What becomes of an inbound message, in every case (no exception leaves
    [fromApp], which is [noexcept]).  A message that is no execution report, and a report
    whose translation throws or terminates, terminate the program and change nothing; a
    translation with undefined behaviour (a quantity or price that its integer type
    cannot hold) is undefined behaviour with nothing changed; a report that books nothing
    changes nothing.  Any other report meets a full log, which terminates the program,
    or a log with room, where it is appended and then goes to the books, each of which
    either takes it or has undefined behaviour (an overflow: they throw nothing): with
    the tracker's, the event is in the log only; with the manager's, in the log and the
    tracker; else it is in both books, and tracing it is undefined behaviour when its
    symbol uses all eight characters. *)
Theorem fromApp_outcomes {L E M SID} `{LogLaws L} `{FixMessageLaws M} `{FixValues}
    `{EnvLaws E M SID} `{Cracker M} (w : world L E M SID) msg es :
  log_rep (w_log w) es →
  let translated := MessageTranslator.from_execution_report msg in
  let n := Z.of_nat (length es) in
  let appended e l' := ∃ ts, log_rep l' (es ++ [stamp e n (now_ns ts)]) in
  (is_execution_report msg = false → FIXGateway.fromApp msg w = (w, Terminate)) ∧
  (is_execution_report msg = true →
    (∀ e, translated = Throw e → FIXGateway.fromApp msg w = (w, Terminate)) ∧
    (translated = Terminate → FIXGateway.fromApp msg w = (w, Terminate)) ∧
    (translated = UB → FIXGateway.fromApp msg w = (w, UB)) ∧
    (translated = Ok None → FIXGateway.fromApp msg w = (w, Ok tt)) ∧
    (∀ e, translated = Ok (Some e) → n = MAX_EVENTS →
       ∃ s', FIXGateway.fromApp msg w = (set_system s' w, Terminate)) ∧
    (∀ e, translated = Ok (Some e) → n < MAX_EVENTS →
       (PositionTracker.apply_event e (w_tracker w) = UB ∧
        ∃ l' s', appended e l' ∧ FIXGateway.fromApp msg w = (set_system s' (set_log l' w), UB)) ∨
       ∃ t, PositionTracker.apply_event e (w_tracker w) = Ok t ∧
         ((OrderManager.apply_event e (w_orders w) = UB ∧
           ∃ l' s', appended e l' ∧
             FIXGateway.fromApp msg w = (set_system s' (set_tracker t (set_log l' w)), UB)) ∨
          ∃ o, OrderManager.apply_event e (w_orders w) = Ok o ∧
            ∃ l' s', appended e l' ∧
              FIXGateway.fromApp msg w
                = (set_system s' (set_orders o (set_tracker t (set_log l' w))),
                   if bool_decide (NUL ∈ oe_symbol e) then Ok tt else UB))) ∧
    n <= MAX_EVENTS).
Proof.
  intros Hl translated n appended. unfold FIXGateway.fromApp, st_noexcept.
  split; [by intros ->|]. intros ->. split_and!.
  1: intros e He. 2,3: intros He.
  1-3: rewrite onMessage_failed by (intros x Hx; unfold translated in He; congruence);
    unfold translated in He; by rewrite He.
  - intros He. unfold FIXGateway.onMessage, st_noexcept.
    rewrite (st_bind_Ok _ _ w w None); [done|]. unfold st_lift. by rewrite <- He.
  - intros e He Hfull. destruct (onMessage_full msg e w es) as (s' & Heq & _); [done..|].
    exists s'. by rewrite Heq.
  - intros e He Hroom.
    destruct (no_throw_cases _ (tracker_no_throw e (w_tracker w))) as [Ht|[t Ht]].
    { left. split; [done|].
      destruct (onMessage_no_tracker msg e w es) as (l' & s' & ts & Hrep & Heq); [done..|].
      exists l', s'. split; [by exists ts|]. by rewrite Heq. }
    right. exists t. split; [done|].
    destruct (no_throw_cases _ (manager_no_throw e (w_orders w))) as [Ho|[o Ho]].
    { left. split; [done|].
      destruct (onMessage_no_manager msg e w es t) as (l' & s' & ts & Hrep & Heq); [done..|].
      exists l', s'. split; [by exists ts|]. by rewrite Heq. }
    right. exists o. split; [done|].
    destruct (onMessage_booked msg e w es t o) as (l' & s' & ts & Hrep & _ & Heq); [done..|].
    exists l', s'. split; [by exists ts|]. rewrite Heq.
    destruct (c_str_NUL (oe_symbol e)) as [[-> Hn]|[Hn [sym ->]]].
    + by rewrite bool_decide_false.
    + by rewrite bool_decide_true.
  - by eapply log_bound_rep.
Qed.

Lemma fromApp_outcomes_witness :
  let w := sample_world true in
  FIXGateway.fromApp (λ _, None) w = (w, Terminate) ∧
  FIXGateway.fromApp (store_set F_ExecType (Some "2"%char) (λ _, None)) w = (w, Terminate) ∧
  FIXGateway.fromApp (sample_report "0"%char "1"%char "AAPL" "ORD0" None) w = (w, Ok tt).
Proof.
  intros w.
  assert (Hl : log_rep (w_log w) []) by by split.
  split; [destruct (fromApp_outcomes w (λ _, None) [] Hl) as [Hother _]; apply Hother; reflexivity|]. split.
  - destruct (fromApp_outcomes w (store_set F_ExecType (Some "2"%char) (λ _, None)) [] Hl)
      as [_ Hreport]. destruct Hreport as [Hthrow _]; [reflexivity|].
    apply (Hthrow (FieldNotFound "")). reflexivity.
  - destruct (fromApp_outcomes w (sample_report "0"%char "1"%char "AAPL" "ORD0" None) [] Hl)
      as [_ Hreport]. destruct Hreport as (_ & _ & _ & Hnone & _); [reflexivity|].
    apply Hnone. reflexivity.
Defined.

(** The live books do not know the sequence numbers: the second of two fills is
    event 1 of the log, and replaying the log says so, but the live position was
    updated with the unstamped event and claims sequence number 0. *)
Theorem live_sequence_numbers_lost :
  let fill q := sample_report "1"%char "1"%char "AAPL" "ORD0" (Some (of_int q, from_fixed 175500000)) in
  let w := (FIXGateway.fromApp (fill 20) (FIXGateway.fromApp (fill 10) (sample_world true)).1).1 in
  let seq t := option_map p_last_updated_seq <$> PositionTracker.get (sv_of_string (lit "AAPL")) t in
  seq (w_tracker w) = Ok (Some 0) ∧
  (t ← PositionTracker.replay_from (w_log w); seq t) = Ok (Some 1).
Proof. split; vm_compute; reflexivity. Qed.
