(* ===== verification/Scripts.v ===== *)
(** * [Scripts]: runs that are evaluated

    Scripts of orders and reports on one symbol, played on the gateway of the examples;
    what is played is a run of the gateway's transition system. *)

From stdpp Require Import relations.
From S2P Require Import Prelude CString OrderEvent EventLog SlotTable PositionTracker OrderManager.
From S2P Require Import Projection RiskChecker Fixed FixMessages MessageTranslator Environment.
From S2P Require Import Killswitch FIXGateway.

Local Open Scope Z_scope.

Inductive script_call : Type :=
  | Order_of (side : Side) (qty : Z)
  | Report_of (side : char) (oid : string) (qty : Z).

Notation sample_w := (world (list OrderEvent) sample_env field_store string).

Definition play_call (a : script_call) (w : sample_w) : option sample_w :=
  match a with
  | Order_of side qty =>
      match FIXGateway.send_order (sv_of_string (lit "AAPL")) side qty 1000000 w with
      | (w', Ok (_ :: _)) => if in_i32 qty && bool_decide (side = Buy ∨ side = Sell) then Some w' else None
      | _ => None
      end
  | Report_of side oid qty =>
      match FIXGateway.fromApp
              (sample_report "2"%char side "AAPL" oid (Some (of_int qty, from_fixed 1000000))) w with
      | (w', Ok tt) => Some w'
      | _ => None
      end
  end.
Definition play (script : list script_call) (w : sample_w) : option sample_w :=
  foldl (λ w a, w ≫= play_call a) (Some w) script.

Lemma play_call_step a w w' : play_call a w = Some w' → FIXGateway.gw_step w w'.
Proof.
  destruct a as [side qty|side oid qty]; cbn [play_call].
  - destruct (FIXGateway.send_order _ _ _ _ w) as [w1 r] eqn:Hrun.
    destruct r as [[|c oid]| | |]; try done.
    destruct (in_i32 qty && bool_decide (side = Buy ∨ side = Sell)) eqn:Hok; [|done]. intros [= <-].
    apply andb_true_iff in Hok as [Hq Hside%bool_decide_eq_true].
    by eapply (FIXGateway.step_send (sv_of_string (lit "AAPL")) side qty 1000000).
  - set (msg := sample_report _ _ _ _ _). destruct (FIXGateway.fromApp msg w) as [w1 r] eqn:Hrun.
    destruct r as [[]| | |]; try done. intros [= <-]. by apply (FIXGateway.step_message msg).
Qed.

Lemma play_steps script w w' : play script w = Some w' → rtc FIXGateway.gw_step w w'.
Proof.
  unfold play. revert w. induction script as [|a script IH]; intros w Hplay; cbn in Hplay.
  { injection Hplay as ->. apply rtc_refl. }
  destruct (play_call a w) as [w1|] eqn:Ha.
  - eapply rtc_l; [by eapply play_call_step|by apply IH].
  - exfalso. clear -Hplay. induction script as [|b script IH]; cbn in *; [done|by apply IH].
Qed.

Lemma play_check script w (P : sample_w → bool) :
  P <$> play script w = Some true →
  ∃ w', play script w = Some w' ∧ rtc FIXGateway.gw_step w w' ∧ P w' = true.
Proof. intros (w' & Hplay & HP)%fmap_Some. exists w'. split_and!; [done|by eapply play_steps|done]. Qed.

Lemma played_default script (w d : sample_w) :
  match play script w with Some _ => true | None => false end = true →
  play script w = Some (default d (play script w)).
Proof. by destruct (play script w). Qed.

Lemma pair_result {A B} (x : A * B) b : x.2 = b → x = (x.1, b).
Proof. destruct x. by intros <-. Qed.

(** The gateway of the examples, logged on. *)
Definition sample_session : sample_w := set_connected true (sample_world true).

Lemma sample_session_start : gw_start sample_session.
Proof. exists []. split; [by split|]. split; [constructor|done]. Qed.
