(* ===== verification/Trade.v ===== *)
(** * [Trade]: an order from the strategy's call to its last execution

    The strategy sends an order, the engine's thread delivers the execution reports the
    counterparty answers with, and both books follow: the composition of the risk check,
    the order event, the log, the translator and the two books. *)

From stdpp Require Import relations.
From S2P Require Import Prelude CString OrderEvent EventLog SlotTable PositionTracker OrderManager.
From S2P Require Import Projection RiskChecker Fixed FixMessages MessageTranslator Environment.
From S2P Require Import Killswitch FIXGateway.

Local Open Scope Z_scope.

(** ** One fill in both books *)

(** A working order: what its fills can still do without leaving the machine's ranges. *)
Record working (lo hi : Z) (o : Order) : Prop := {
  wk_filled : 0 <= o_filled_qty o;
  wk_avg : 0 <= o_avg_fill_price o <= hi;
  wk_avg_lo : o_filled_qty o = 0 ∨ lo <= o_avg_fill_price o;
  wk_original : o_original_qty o <= INT32_MAX;
  wk_cost : hi * o_original_qty o <= INT64_MAX;
}.

(** The position of a symbol, fresh when there is none. *)
Definition position_of (ks : list char) (t : PositionTracker.t) : Position :=
  default (Position_fresh (pad 8 ks)) (table_map t !! ks).

Definition tracker_room (ks : list char) (t : PositionTracker.t) : Prop :=
  is_Some (table_map t !! ks) ∨ (count_ t < MAX_SYMBOLS)%nat.

Lemma position_of_net ks t : p_net_qty (position_of ks t) = net_of ks (table_map t).
Proof. unfold position_of, net_of. by destruct (table_map t !! ks). Qed.

(** The tracker books a fill that fits. *)
Lemma tracker_fill lo hi V e t :
  let ks := cstr 8 (oe_symbol e) in
  table_wf t → symbol_ok e → is_fill e = true → tracker_room ks t →
  bounded lo hi V (position_of ks t) → 0 <= lo → 0 < oe_fill_qty e →
  lo <= oe_fill_price e <= hi →
  V + oe_fill_qty e <= INT32_MAX → hi * (V + oe_fill_qty e) <= INT64_MAX →
  ∃ t' p', PositionTracker.apply_event e t = Ok t' ∧ table_wf t' ∧
    table_map t' = <[ks := p']> (table_map t) ∧ bounded lo hi (V + oe_fill_qty e) p' ∧
    p_net_qty p' = net_of ks (table_map t) + signed_qty e.
Proof.
  intros ks Hwf Hsym He Hroom Hbd Hlo Hq Hpx HV Hmax.
  destruct (apply_fill_total lo hi V e (position_of ks t)) as [p' Hp']; [done..|].
  pose proof (apply_fill_Ok _ _ _ Hp') as Hf.
  destruct (apply_event_tracks e t Hsym Hwf) as [Heq Hwf']. unfold track in Heq. rewrite He in Heq.
  fold ks in Heq.
  assert (Hup : map_upsert ks (apply_fill e) (table_map t) = Ok (<[ks := p']> (table_map t))).
  { unfold map_upsert. unfold position_of, tracker_room in *.
    destruct (table_map t !! ks) as [p|] eqn:Hk; cbn [default from_option] in Hp'.
    - unfold id in Hp'. by rewrite Hp'.
    - destruct Hroom as [[? ?]|Hroom]; [done|]. rewrite decide_False.
      + change (slot_fresh (pad 8 ks)) with (Position_fresh (pad 8 ks)). by rewrite Hp'.
      + rewrite table_map_size by done. cbn. lia. }
  rewrite Hup in Heq. destruct (PositionTracker.apply_event e t) as [t'| | |]; try done.
  injection Heq as Heq. exists t', p'. split_and!; [done|by apply Hwf'|done| |].
  - by eapply filled_bounded.
  - rewrite <- position_of_net. by apply filled_net.
Qed.

(** The manager books a fill of a working order. *)
Lemma manager_fill lo hi e os o :
  table_wf os → ids_ok e → is_fill e = true → table_map os !! order_key e = Some o →
  working lo hi o → 0 <= lo → 0 < oe_fill_qty e <= o_original_qty o - o_filled_qty o →
  lo <= oe_fill_price e <= hi →
  ∃ os' o', OrderManager.apply_event e os = Ok os' ∧ table_wf os' ∧
    table_map os' = <[order_key e := o']> (table_map os) ∧ fill_order e o = Ok o' ∧
    working lo hi o' ∧ lo <= o_avg_fill_price o' <= hi.
Proof.
  intros Hwf Hids He Hk [Hf Ha Halo Horig Hcost] Hlo Hq Hpx.
  destruct (fill_order_total lo hi (o_filled_qty o) e o) as (o' & Ho' & Havg);
    [done|lia|done|lia|destruct Halo; [by left|right; lia]|lia|lia|nia|unfold INT64_MAX in *; nia|].
  destruct (manager_apply_event e os Hids Hwf) as [Heq Hwf'].
  unfold manage in Heq. rewrite decide_False in Heq
    by (intros Hn; unfold is_fill in He; by rewrite Hn in He).
  unfold map_update in Heq. rewrite Hk, order_step_fill, Ho' in Heq by done.
  destruct (OrderManager.apply_event e os) as [os'| | |]; try done.
  injection Heq as Heq. exists os', o'. split; [done|]. split; [by apply Hwf'|].
  split; [done|]. split; [done|]. split; [|done].
  pose proof (fill_order_Ok _ _ _ Ho') as (_ & _ & _ & _ & Ho1 & _ & _ & Hf1 & _).
  split; rewrite ?Ho1, ?Hf1; try done; lia.
Qed.

(** ** The two books and the log while an order trades *)

Section Trading.
Context {L E M SID : Type} `{LogLaws L} `{FixMessageLaws M} `{FixValues} `{EnvLaws E M SID}
  `{Cracker M}.
Import FIXGateway.
Notation W := (world L E M SID).
Implicit Types (w : W) (r m : M).

(** The gateway while the order [o] with key [k] on symbol [ks] trades: [es] is the log,
    [V] the volume of the symbol so far. *)
Record trading (lo hi V : Z) (k ks : list char) (es : list OrderEvent) (o : Order) w : Prop := {
  td_tracker : table_wf (w_tracker w);
  td_orders : table_wf (w_orders w);
  td_log : log_rep (w_log w) es;
  td_order : table_map (w_orders w) !! k = Some o;
  td_symbol : cstr 8 (o_symbol o) = ks;
  td_open : o_filled_qty o < o_original_qty o → is_open o = true;
  td_working : working lo hi o;
  td_position : bounded lo hi V (position_of ks (w_tracker w));
  td_room : tracker_room ks (w_tracker w);
}.

Definition exposure (ks : list char) w : Z :=
  true_exposure ks (table_map (w_tracker w)) (table_map (w_orders w)).

(** What the books say of everything but the order and its symbol. *)
Definition elsewhere (k ks : list char) w : gmap (list char) Order * gmap (list char) Position :=
  (delete k (table_map (w_orders w)), delete ks (table_map (w_tracker w))).

(** An execution report, seen as the event it is booked as. *)
Record executes (k ks : list char) (sd : Side) (q px : Z) (r : M) (e : OrderEvent) : Prop := {
  ex_report : is_execution_report r = true;
  ex_event : MessageTranslator.from_execution_report r = Ok (Some e);
  ex_fill : is_fill e = true;
  ex_key : order_key e = k;
  ex_symbol : cstr 8 (oe_symbol e) = ks;
  ex_side : oe_side e = sd;
  ex_qty : oe_fill_qty e = q;
  ex_price : oe_fill_price e = px;
}.

Lemma NUL_in_short n p : (n ≤ length p)%nat → (length (cstr n p) < n)%nat → NUL ∈ p.
Proof.
  revert p. induction n as [|n IH]; intros [|c p]; cbn; [lia..|].
  destruct (decide (c = NUL)) as [->|]; [by left|]. cbn. intros. right. apply IH; lia.
Qed.

(** One report of the order is booked, and moves exposure from the order to the
    position. *)
Lemma trade_report lo hi V k ks es o w r e q px :
  trading lo hi V k ks es o w → executes k ks (o_side o) q px r e →
  Z.of_nat (length es) < MAX_EVENTS → (length ks < 8)%nat → 0 <= lo →
  0 < q <= o_original_qty o - o_filled_qty o → lo <= px <= hi →
  V + q <= INT32_MAX → hi * (V + q) <= INT64_MAX →
  ∃ w' o' ts, fromApp r w = (w', Ok tt) ∧
    trading lo hi (V + q) k ks (es ++ [stamp e (Z.of_nat (length es)) (now_ns ts)]) o' w' ∧
    fill_order e o = Ok o' ∧ lo <= o_avg_fill_price o' <= hi ∧
    net_of ks (table_map (w_tracker w')) = net_of ks (table_map (w_tracker w)) + sgn_side (o_side o) * q ∧
    (∀ ks', exposure ks' w' = exposure ks' w) ∧ elsewhere k ks w' = elsewhere k ks w.
Proof.
  intros [Htw How Hl Hk Hsy Hop Hwk Hpos Hroom] [Hr He Hf Hke Hse Hsd Hqe Hpe] Hlen Hks Hlo Hq Hpx HV Hmax.
  destruct (from_execution_report_wf r e He) as [Hewf _]. destruct (wf_event_ids e Hewf) as [Hsym Hids].
  subst q px. rewrite <- Hse in Hpos, Hroom. rewrite <- Hke in Hk.
  destruct (tracker_fill lo hi V e (w_tracker w))
    as (t' & p' & Ht' & Htw' & Hmt & Hbd & Hnet); [done..|lia|done|done|done|].
  destruct (manager_fill lo hi e (w_orders w) o)
    as (os' & o' & Hos' & How' & Hmo & Ho' & Hwk' & Havg); [done..|].
  destruct (onMessage_booked r e w es t' os') as (l' & s' & ts & Hrep & _ & Hrun); [done..|].
  assert (Hnul : NUL ∈ oe_symbol e).
  { apply (NUL_in_short 8); [unfold symbol_ok in Hsym; lia|by rewrite Hse]. }
  destruct (c_str_NUL (oe_symbol e)) as [[_ Hn]|[_ [s Hs]]]; [done|]. rewrite Hs in Hrun.
  exists (set_system s' (set_orders os' (set_tracker t' (set_log l' w)))), o', ts.
  pose proof (fill_order_Ok _ _ _ Ho') as (_ & Hsy' & Hsd' & _ & Hor' & _ & _ & Hfi' & _ & Hst').
  rewrite Hse in *. rewrite Hke in *. unfold signed_qty in Hnet. rewrite Hsd in Hnet.
  split; [unfold fromApp, st_noexcept; by rewrite Hr, Hrun|].
  unfold exposure, elsewhere, true_exposure. cbn [w_tracker w_orders w_log set_system set_orders set_tracker set_log].
  split_and!; try done; try lia.
  - split; try done; cbn [w_tracker w_orders w_log set_system set_orders set_tracker set_log].
    + by rewrite Hmo, lookup_insert_eq.
    + by rewrite Hsy'.
    + intros Hrest. unfold is_open. rewrite Hst'. by rewrite (proj2 (Z.leb_gt _ _)) by lia.
    + unfold position_of. rewrite Hmt, lookup_insert_eq. done.
    + left. rewrite Hmt, lookup_insert_eq. by eexists.
  - rewrite Hmt, net_of_insert. by rewrite decide_True.
  - intros ks'. rewrite Hmt, Hmo, net_of_insert, map_sum_insert, Hk.
    cbn [fmap option_fmap option_map default from_option]. unfold id.
    rewrite (fill_exposure ks' e o o'), Hsy by (done || (apply Hop; lia)).
    unfold signed_qty. rewrite Hsd. case_decide; [subst ks'; lia|lia].
  - rewrite Hmt, Hmo, !delete_insert_eq. done.
Qed.

(** The engine's thread delivers the reports one after another. *)
Fixpoint deliver (rs : list M) : stO W unit :=
  match rs with
  | [] => mret tt
  | r :: rs => _ ← fromApp r; deliver rs
  end.

Lemma deliver_steps rs w w' : deliver rs w = (w', Ok tt) → rtc gw_step w w'.
Proof.
  revert w. induction rs as [|r rs IH]; intros w Hrun; [by injection Hrun as ->|].
  apply st_bind_inv in Hrun as ([] & w1 & Hr & Hrs). apply (rtc_l _ w w1); [exact (step_message r w w1 Hr)|by apply IH].
Qed.

(** A report booked as one of the order's executions, at the price it carries or one
    tick below it. *)
Definition books_as (k ks : list char) (sd : Side) (x : Z * Z) (r : M) : Prop :=
  ∃ e px, executes k ks sd x.1 px r e ∧ (px = x.2 ∨ px = x.2 - 1).

Definition logged_as (r : M) (e' : OrderEvent) : Prop :=
  ∃ e, MessageTranslator.from_execution_report r = Ok (Some e) ∧ e' ≡ e.

(** What a run of reports has done to the order and to the symbol. *)
Record traded (lo hi Q : Z) (ks k : list char) (o : Order) w (o' : Order) w' : Prop := {
  tr_filled : o_filled_qty o' = o_filled_qty o + Q;
  tr_original : o_original_qty o' = o_original_qty o;
  tr_side : o_side o' = o_side o;
  tr_state : Q = 0 ∧ o' = o ∨ 0 < Q ∧ lo <= o_avg_fill_price o' <= hi ∧
    o_state o' = if o_original_qty o <=? o_filled_qty o' then Filled else PartiallyFilled;
  tr_net : net_of ks (table_map (w_tracker w'))
    = net_of ks (table_map (w_tracker w)) + sgn_side (o_side o) * Q;
  tr_exposure ks' : exposure ks' w' = exposure ks' w;
  tr_elsewhere : elsewhere k ks w' = elsewhere k ks w;
}.

Lemma traded_cons lo hi q Q ks k o w o1 w1 o' w' :
  0 < q → traded lo hi q ks k o w o1 w1 → traded lo hi Q ks k o1 w1 o' w' →
  traded lo hi (q + Q) ks k o w o' w'.
Proof.
  intros Hq [Hf1 Ho1 Hs1 Hst1 Hn1 He1 Hd1] [Hf2 Ho2 Hs2 Hst2 Hn2 He2 Hd2].
  split; try congruence; try lia.
  - right. destruct Hst2 as [[-> ->]|(? & ? & ?)]; [|rewrite <- Ho1; split_and!; done || lia].
    destruct Hst1 as [[? _]|(? & ? & ?)]; [lia|]. split_and!; done || lia.
  - rewrite Hn2, Hn1, Hs1. lia.
Qed.

Lemma trade_reports lo hi k ks xs : ∀ rs V es o w,
  trading lo hi V k ks es o w → Forall2 (books_as k ks (o_side o)) xs rs →
  Forall (λ x, 0 < x.1 ∧ lo < x.2 <= hi) xs →
  Z.of_nat (length es) + Z.of_nat (length rs) <= MAX_EVENTS → (length ks < 8)%nat → 0 <= lo →
  sumZ fst xs <= o_original_qty o - o_filled_qty o →
  V + sumZ fst xs <= INT32_MAX → hi * (V + sumZ fst xs) <= INT64_MAX →
  ∃ w' o' es', deliver rs w = (w', Ok tt) ∧ Forall2 logged_as rs es' ∧
    trading lo hi (V + sumZ fst xs) k ks (es ++ es') o' w' ∧
    traded lo hi (sumZ fst xs) ks k o w o' w'.
Proof.
  induction xs as [|x xs IH]; intros rs V es o w Htr Hrs Hxs Hlen Hks Hlo Hrest HV Hmax.
  { apply Forall2_nil_inv_l in Hrs as ->. exists w, o, []. cbn [sumZ foldr] in *.
    rewrite app_nil_r, Z.add_0_r. split; [done|]. split; [constructor|]. split; [done|].
    split; auto; lia. }
  apply Forall2_cons_inv_l in Hrs as (r & rs' & (e & px & Hex & Hpx) & Hrs & ->).
  apply Forall_cons in Hxs as [[Hq Hp] Hxs]. cbn [sumZ foldr length] in *. fold (sumZ fst xs) in *.
  assert (0 <= sumZ fst xs).
  { apply sumZ_nonneg. intros y Hy. rewrite Forall_forall in Hxs. destruct (Hxs y Hy). lia. }
  destruct (trade_report lo hi V k ks es o w r e x.1 px)
    as (w1 & o1 & ts & Hrun & Htr1 & Ho1 & Havg & Hnet & Hexp & Helse); [done|done|lia..|nia|].
  pose proof (fill_order_Ok _ _ _ Ho1) as (_ & _ & Hsd & _ & Hor & _ & _ & Hfi & _ & Hst).
  rewrite (ex_qty _ _ _ _ _ _ _ Hex) in Hfi.
  assert (Htd : traded lo hi x.1 ks k o w o1 w1).
  { split; try done. right. split; [done|]. split; [done|]. rewrite Hst.
    destruct (Z.leb_spec (o_original_qty o - o_filled_qty o1) 0),
      (Z.leb_spec (o_original_qty o) (o_filled_qty o1)); auto; lia. }
  destruct (IH rs' (V + x.1) (es ++ [stamp e (Z.of_nat (length es)) (now_ns ts)]) o1 w1)
    as (w' & o' & es' & Hrun' & Hes' & Htr' & Htd'); [done|by rewrite Hsd|done| |done|done|lia..| |].
  { rewrite length_app. cbn [length]. lia. }
  { by rewrite <- Z.add_assoc. }
  exists w', o', (stamp e (Z.of_nat (length es)) (now_ns ts) :: es').
  split; [cbn [deliver]; by erewrite st_bind_Ok by exact Hrun|].
  split; [constructor; [|done]; exists e; split; [apply Hex|apply stamp_equiv]|].
  split; [|by eapply traded_cons]. rewrite <- app_assoc in Htr'. by rewrite Z.add_assoc.
Qed.

(** ** The counterparty *)

(** A report that answers the message [m] with an execution [x] of a quantity at a price:
    it echoes the three fields that name the order. *)
Record answers (m : M) (x : Z * Z) (r : M) : Prop := {
  an_report : is_execution_report r = true;
  an_type : ∃ c ty, fix_get F_ExecType r = Ok c ∧ MessageTranslator.exec_event c = Some ty ∧
    (ty = PartialFill ∨ ty = FullFill);
  an_order : fix_get F_ClOrdID r = fix_get F_ClOrdID m;
  an_symbol : fix_get F_Symbol r = fix_get F_Symbol m;
  an_side : fix_get F_Side r = fix_get F_Side m;
  an_set : fix_isSet F_LastShares r = true ∧ fix_isSet F_LastPx r = true;
  an_qty : fix_get F_LastShares r = Ok (of_int x.1);
  an_price : fix_get F_LastPx r = Ok (from_fixed x.2);
}.

Lemma answer_booked (m r : M) x evt :
  carries m evt → answers m x r → oe_side evt = Buy ∨ oe_side evt = Sell →
  0 < x.1 <= INT32_MAX → 0 < x.2 < 2 ^ 52 →
  books_as (order_key evt) (cstr 8 (oe_symbol evt)) (oe_side evt) x r.
Proof.
  intros (Ho & Hs & Hsd & _) [Hr (c & ty & Hc & Hty & Hfill) Hro Hrs Hrsd [Hq Hp] Hqv Hpv] Hside Hqx Hpx.
  rewrite <- Hro in Ho. rewrite <- Hrs in Hs. rewrite <- Hrsd in Hsd.
  destruct (report_of_order r evt c ty x.1 x.2)
    as (e & He & _ & Hte & Hk & Hsy & Hse & Hf & _); try done.
  { apply in_i32_spec. unfold INT32_MAX in *. lia. }
  { lia. }
  assert (Hfe : is_fill e = true) by (unfold is_fill; destruct Hfill as [-> | ->]; by rewrite Hte).
  destruct (Hf Hfe) as [Hqe Hpe]. exists e, (oe_fill_price e). split; [by split|].
  rewrite Z.sgn_pos in Hpe by lia. done.
Qed.

Lemma sumZ_elem {A} (f : A → Z) xs x :
  (∀ y, y ∈ xs → 0 <= f y) → x ∈ xs → f x <= sumZ f xs.
Proof.
  intros Hpos Hx. apply list_elem_of_split in Hx as (l1 & l2 & ->). rewrite sumZ_app. cbn [sumZ foldr].
  fold (sumZ f l2). pose proof (sumZ_nonneg f l1) as Hl1. pose proof (sumZ_nonneg f l2) as Hl2.
  ospecialize (Hl1 _); [intros y Hy; apply Hpos; set_solver|].
  ospecialize (Hl2 _); [intros y Hy; apply Hpos; set_solver|]. lia.
Qed.

Lemma answers_booked (m : M) evt xs rs :
  carries m evt → Forall2 (answers m) xs rs → oe_side evt = Buy ∨ oe_side evt = Sell →
  Forall (λ x, 0 < x.1 ∧ 0 < x.2 < 2 ^ 52) xs → sumZ fst xs <= INT32_MAX →
  Forall2 (books_as (order_key evt) (cstr 8 (oe_symbol evt)) (oe_side evt)) xs rs.
Proof.
  intros Hm Hrs Hside Hxs Hsum. rewrite Forall_forall in Hxs.
  assert (Hq : ∀ x, x ∈ xs → x.1 <= INT32_MAX).
  { intros x Hx. etrans; [|exact Hsum]. apply (sumZ_elem fst); [|done].
    intros y Hy. destruct (Hxs y Hy). lia. }
  clear Hsum. induction Hrs as [|x r xs rs Hr Hrs IH]; constructor.
  - destruct (Hxs x) as [? ?]; [by left|]. apply (answer_booked m); [done..|split; [done|]|done].
    apply Hq. by left.
  - apply IH; intros y Hy; [apply Hxs|apply Hq]; by right.
Qed.

(** What a sent order leaves: a working order with nothing filled. *)
Lemma sent_order_trading lo hi V symbol side qty price w w' es oid :
  gw_inv w → log_rep (w_log w) es →
  sv_ok symbol = true → side = Buy ∨ side = Sell → in_i32 qty = true → in_i64 price = true →
  table_map (w_orders w) !! order_id_key (w_order_counter w) = None →
  (count_ (w_orders w) < MAX_ORDERS)%nat →
  tracker_room (key symbol) (w_tracker w) →
  bounded lo hi V (position_of (key symbol) (w_tracker w)) → 0 <= hi → hi * qty <= INT64_MAX →
  send_order symbol side qty price w = (w', Ok oid) → oid ≠ [] →
  ∃ evt ts o m, let k := order_id_key (w_order_counter w) in
    trading lo hi V k (key symbol) (es ++ [stamp evt (Z.of_nat (length es)) (now_ns ts)]) o w' ∧
    carries m evt ∧ sys_calls (w_system w') = sys_calls (w_system w) ++ [(m, w_session_id w)] ∧
    order_key evt = k ∧ cstr 8 (oe_symbol evt) = key symbol ∧ oe_side evt = side ∧
    o_side o = side ∧ o_original_qty o = qty ∧ o_filled_qty o = 0 ∧ o_state o = Pending ∧
    w_tracker w' = w_tracker w ∧ elsewhere k (key symbol) w' = elsewhere k (key symbol) w ∧
    exposure (key symbol) w' = exposure (key symbol) w + sgn_side side * qty ∧
    - max_net_position (w_limits w) <= exposure (key symbol) w' <= max_net_position (w_limits w).
Proof.
  intros Hinv Hl Hs Hside Hq Hp Hfree Hslot Hroom Hbd Hhi Hcost Hrun Hoid.
  destruct (gw_inv_tables w Hinv) as (Htw & How & Hsym).
  destruct (send_order_sent symbol side qty price w w' es oid)
    as (Hv & _ & _ & evt & ts & l' & o' & s' & m & Hevt & Hl' & Ho' & Hm & Hcalls & ->); [done..|].
  destruct (order_event_ok symbol side qty price (w_order_counter w))
    as (evt' & Hevt' & Hwf & Hty & Hsd & Hqty & _ & Hkey & Hsymk); [done..|].
  assert (evt' = evt) as -> by congruence. destruct (wf_event_ids evt Hwf) as [_ Hids].
  rewrite <- Hkey in *.
  destruct (manager_apply_event evt (w_orders w) Hids How) as [Heq How'].
  rewrite Ho' in Heq. specialize (How' _ Ho'). symmetry in Heq.
  pose proof (new_order_exposure evt _ _ (key symbol) Hwf Hty How Hfree Hslot Ho') as Hexp.
  rewrite Hsymk, decide_True, Hsd, Hqty in Hexp by done.
  unfold manage in Heq. rewrite decide_True in Heq by done.
  apply map_upsert_Ok in Heq as [(x & Hx & Hmo)|(_ & _ & Hfull)]; cycle 1.
  { rewrite table_map_size in Hfull by done. cbn in Hfull. lia. }
  unfold order_step in Hx. rewrite Hty in Hx.
  apply new_order_Ok in Hx as (Hst & Hf & Ha & Hoq & Hsdx & _ & Hsy & _); [|by destruct Hids].
  apply check_rule in Hv; [|done..]. symmetry in Hv. apply risk_rule_pass in Hv as (_ & _ & Hv & _).
  exists evt, ts, x, m. unfold exposure, true_exposure, elsewhere in *.
  cbn [w_tracker w_orders w_log w_system set_system set_orders set_log set_order_counter].
  apply in_i32_spec in Hq.
  split; [split; try done; cbn [w_tracker w_orders w_log set_system set_orders set_log set_order_counter]|].
  - by rewrite Hmo, lookup_insert_eq.
  - rewrite Hsy, cstr_idemp. done.
  - intros _. unfold is_open. by rewrite Hst.
  - split; rewrite ?Hf, ?Ha, ?Hoq, ?Hqty; unfold INT32_MAX; [lia..|by left|lia|done].
  - rewrite Hexp, Hmo, delete_insert_eq, Hsdx, Hoq, Hf, Hst. split_and!; try done; lia.
Qed.
End Trading.

(** ** Properties *)

(** C5. An order trades to its end: on any reachable gateway, when [send_order] returns an
    identifier for an order under a key not in use, and the counterparty answers the
    message that was sent with executions of positive quantities that sum to at most the
    ordered quantity, every report is handled without an exception; the log has grown by
    the order and its reports; the order holds exactly what was executed, is [Filled]
    when that is all of it, and its average price lies between the prices of the
    executions (less one tick); the net position has moved by the executed quantity in
    the order's direction and nothing else in the books has changed; and from the moment
    the order was sent the true exposure of the symbol has been within the limit. *)
Theorem order_trades_to_its_end {L E M SID} `{LogLaws L} `{FixMessageLaws M} `{FixValues}
    `{EnvLaws E M SID} `{Cracker M} (w0 w w1 : world L E M SID) es m symbol side qty price oid
    (xs : list (Z * Z)) (rs : list M) lo hi V :
  let k := order_id_key (w_order_counter w) in
  let ks := key symbol in
  gw_start w0 → rtc FIXGateway.gw_step w0 w → log_rep (w_log w) es →
  sv_ok symbol = true → side = Buy ∨ side = Sell → in_i32 qty = true → in_i64 price = true →
  (length ks < 8)%nat →
  table_map (w_orders w) !! k = None → (count_ (w_orders w) < MAX_ORDERS)%nat →
  tracker_room ks (w_tracker w) → bounded lo hi V (position_of ks (w_tracker w)) →
  FIXGateway.send_order symbol side qty price w = (w1, Ok oid) → oid ≠ [] →
  sys_calls (w_system w1) = sys_calls (w_system w) ++ [(m, w_session_id w)] →
  Forall2 (answers m) xs rs → Forall (λ x, 0 < x.1 ∧ lo < x.2 <= hi) xs → sumZ fst xs <= qty →
  0 <= lo → 0 <= hi < 2 ^ 52 → V + qty <= INT32_MAX → hi * (V + qty) <= INT64_MAX →
  Z.of_nat (length es) + Z.of_nat (length rs) < MAX_EVENTS →
  ∃ w' o es', deliver rs w1 = (w', Ok tt) ∧ rtc FIXGateway.gw_step w1 w' ∧
    log_rep (w_log w') (es ++ es') ∧ length es' = S (length rs) ∧
    table_map (w_orders w') !! k = Some o ∧
    o_original_qty o = qty ∧ o_filled_qty o = sumZ fst xs ∧ o_side o = side ∧
    o_state o = (if decide (xs = []) then Pending
                 else if qty <=? sumZ fst xs then Filled else PartiallyFilled) ∧
    (xs ≠ [] → lo <= o_avg_fill_price o <= hi) ∧
    net_of ks (table_map (w_tracker w'))
      = net_of ks (table_map (w_tracker w)) + sgn_side side * sumZ fst xs ∧
    elsewhere k ks w' = elsewhere k ks w ∧
    exposure ks w' = exposure ks w + sgn_side side * qty ∧
    - max_net_position (w_limits w) <= exposure ks w' <= max_net_position (w_limits w).
Proof.
  intros k ks Hstart Hsteps Hl Hs Hside Hq Hp Hks Hfree Hslot Hroom Hbd Hrun Hoid Hm Hrs Hxs Hsum
    Hlo Hhi HV Hmax Hlen.
  pose proof (bd_totals _ _ _ _ Hbd) as Htot.
  assert (HxQ : 0 <= sumZ fst xs).
  { apply sumZ_nonneg. intros y Hy. rewrite Forall_forall in Hxs. destruct (Hxs y Hy). lia. }
  destruct (sent_order_trading lo hi V symbol side qty price w w1 es oid)
    as (evt & ts & o & m' & Htr & Hca & Hcalls & Hek & Hes & Hed & Hos & Hoq & Hof & Hst & Ht & Hel
        & Hexp & Hlim); try done; [by eapply reachable_inv|lia|nia|].
  assert (m' = m) as -> by (rewrite Hcalls in Hm; by apply app_inv_head in Hm; simplify_eq).
  destruct (trade_reports lo hi k ks xs rs V _ o w1 Htr)
    as (w' & o' & es' & Hdel & Hlog & Htr' & [Hf' Ho' Hs' Hst' Hn' He' Hel']); try done.
  { unfold k, ks. rewrite Hos, <- Hek, <- Hes, <- Hed. apply (answers_booked m); try done.
    - by rewrite Hed.
    - eapply Forall_impl; [exact Hxs|]. cbn beta. lia.
    - lia. }
  { rewrite length_app. cbn [length]. lia. }
  { lia. }
  { lia. }
  { nia. }
  exists w', o', (stamp evt (Z.of_nat (length es)) (now_ns ts) :: es').
  pose proof (td_log _ _ _ _ _ _ _ _ Htr') as Hl'. rewrite <- app_assoc in Hl'.
  pose proof (td_order _ _ _ _ _ _ _ _ Htr') as Hk'. fold ks in Hexp, Hlim.
  rewrite Hf', Ho', Hs', Hn', Hel', He', Hos, Hoq, Hof, Ht.
  split; [done|]. split; [by eapply deliver_steps|]. split; [done|].
  split; [cbn [length]; f_equal; symmetry; by eapply Forall2_length|].
  split; [done|]. split; [done|]. split; [lia|]. split; [done|].
  assert (Hne : xs ≠ [] → sumZ fst xs ≠ 0).
  { intros Hne. destruct xs as [|x xs]; [done|]. apply Forall_cons in Hxs as [[Hx _] Hxs].
    cbn [sumZ foldr]. fold (sumZ fst xs). pose proof (sumZ_nonneg fst xs) as Hpos.
    ospecialize (Hpos _); [|lia]. intros y Hy. rewrite Forall_forall in Hxs. destruct (Hxs y Hy). lia. }
  split; [|split; [|done]].
  - case_decide as Hx; destruct Hst' as [[H0Q ->]|(HQ & _ & Hst')]; try done.
    + by subst xs.
    + by destruct (Hne Hx).
    + by rewrite Hst', Hoq, Hf', Hof.
  - intros Hx. destruct Hst' as [[H0Q _]|(_ & ? & _)]; [by destruct (Hne Hx)|done].
Qed.

(** Two executions of the first order of a session. *)
Definition sample_executions : list field_store :=
  [sample_report "1"%char "1"%char "AAPL" "ORD0" (Some (of_int 60, from_fixed 175480000));
   sample_report "2"%char "1"%char "AAPL" "ORD0" (Some (of_int 40, from_fixed 175500000))].

Lemma order_trades_to_its_end_witness :
  let w := (FIXGateway.onLogon "S" (sample_world true)).1 in
  let w1 := (FIXGateway.send_order (sv_of_string (lit "AAPL")) Buy 100 175500000 w).1 in
  ∃ w' o es', deliver sample_executions w1 = (w', Ok tt) ∧
    log_rep (w_log w') es' ∧ length es' = 3%nat ∧
    table_map (w_orders w') !! order_id_key 0 = Some o ∧ o_state o = Filled ∧
    net_of (lit "AAPL") (table_map (w_tracker w')) = 100.
Proof.
  intros w w1. set (sym := sv_of_string (lit "AAPL")) in *.
  assert (Hrun : FIXGateway.send_order sym Buy 100 175500000 w = (w1, Ok (order_id 0))).
  { rewrite (surjective_pairing (FIXGateway.send_order _ _ _ _ w)).
    apply (f_equal2 pair); [reflexivity|vm_compute; reflexivity]. }
  set (m := default (λ _, None) (fst <$> head (sys_calls (w_system w1))) : field_store).
  destruct (order_trades_to_its_end (sample_world true) w w1 [] m sym Buy 100 175500000 (order_id 0)
    [(60, 175480000); (40, 175500000)] sample_executions 175479000 175500000 0)
    as (w' & o & es' & Hdel & _ & Hl & Hlen & Hk & _ & _ & _ & Hst & _ & Hnet & _).
  - apply sample_start.
  - eapply rtc_l; [by apply (FIXGateway.step_logon "S")|apply rtc_refl].
  - by split.
  - reflexivity.
  - by left.
  - reflexivity.
  - reflexivity.
  - apply Nat.ltb_lt. reflexivity.
  - reflexivity.
  - apply Nat.ltb_lt. reflexivity.
  - right. apply Nat.ltb_lt. reflexivity.
  - apply bounded_fresh. lia.
  - exact Hrun.
  - discriminate.
  - vm_compute. reflexivity.
  - repeat constructor; try (vm_compute; reflexivity).
    + exists "1"%char, PartialFill. split_and!; [reflexivity..|by left].
    + exists "2"%char, FullFill. split_and!; [reflexivity..|by right].
  - repeat constructor; cbn; lia.
  - cbn. lia.
  - lia.
  - lia.
  - unfold INT32_MAX. lia.
  - unfold INT64_MAX. lia.
  - cbn. unfold MAX_EVENTS. lia.
  - exists w', o, es'. split; [exact Hdel|]. split; [exact Hl|]. split; [exact Hlen|].
    split; [exact Hk|]. split; [exact Hst|exact Hnet].
Defined.
