(* ===== verification/Main.v ===== *)
(** * [Main]: the process around the gateway (src/src/main.cpp)

    Opening the log and replaying both books, the signal handler, the strategy loop
    and the exit codes; what a restart recovers and what it reuses. *)

From stdpp Require Import relations.
From S2P Require Import Prelude CString OrderEvent EventLog SlotTable PositionTracker OrderManager.
From S2P Require Import Projection RiskChecker Fixed FixMessages MessageTranslator Environment.
From S2P Require Import Killswitch FIXGateway.

Local Open Scope Z_scope.

Definition session_path : string := "session.bin".

Section Main.
Context {E M SID : Type} `{FixMessage M} `{FixValues} `{Env E M SID} `{Cracker M}.
Notation W := (world EventLog E M SID).

(** ** Start *)

Definition say (lines : list console_line) (s : system E M SID) : system E M SID :=
  {| sys_env := sys_env s; sys_calls := sys_calls s; sys_out := sys_out s ++ lines |}.

(** [main] up to the construction of the gateway.  The log is opened outside the
    [try] block: an exception there terminates the program. *)
Definition startup (sys : syscalls) (fs : option LogFile) (s : system E M SID) :
    option LogFile * outcome W :=
  let opened := open_or_create sys session_path fs in
  (opened.1,
   noexcept (
     log ← opened.2;
     tracker ← PositionTracker.replay_from log;
     orders ← OrderManager.replay_from log;
     Ok (FIXGateway.make log tracker orders default_limits
           (say [Out_replaying (el_size log);
                 Out_replayed (PositionTracker.symbol_count tracker)
                              (OrderManager.order_count orders)] s)))).

(** ** The running process *)

(** Where the main thread is: in the constructors and [start] of the engine, at the test
    of the loop, asleep, in [initiator.stop], or gone. *)
Inductive phase : Type :=
  | Starting
  | Testing
  | Sleeping
  | Stopping
  | Exited (code : Z).

#[export] Instance phase_eq_dec : EqDecision phase.
Proof. solve_decision. Defined.

Definition exited (ph : phase) : bool := match ph with Exited _ => true | _ => false end.

(** The main thread is in the engine's code, which may throw. *)
Definition in_engine (ph : phase) : bool :=
  match ph with Starting | Stopping => true | _ => false end.

Record process : Type := {
  pr_world : W;
  pr_gateway : bool;      (* g_gateway is set *)
  pr_shutdown : bool;     (* g_shutdown *)
  pr_phase : phase;
}.

Definition with_world (w : W) (p : process) : process :=
  {| pr_world := w; pr_gateway := pr_gateway p; pr_shutdown := pr_shutdown p;
     pr_phase := pr_phase p |}.

(** [signal_handler] *)
Definition signal_handler (sig : Z) (p : process) : process * outcome unit :=
  let w := set_system (say [Out_signal sig] (w_system (pr_world p))) (pr_world p) in
  let r := if pr_gateway p then FIXGateway.emergency_cancel_all w else (w, Ok tt) in
  ({| pr_world := r.1; pr_gateway := pr_gateway p; pr_shutdown := true;
      pr_phase := pr_phase p |}, r.2).

(** The main thread prints some lines and is then in another phase. *)
Definition go (ph : phase) (lines : list console_line) (p : process) : process :=
  {| pr_world := set_system (say lines (w_system (pr_world p))) (pr_world p);
     pr_gateway := pr_gateway p; pr_shutdown := pr_shutdown p; pr_phase := ph |}.

(** The steps of the main thread after the construction of the gateway: the engine is
    started; the loop tests the flag and sleeps; when the flag is seen the engine is
    stopped and [main] returns.  What the engine throws is caught. *)
Inductive main_step : process → process → Prop :=
  | step_started p :
      pr_phase p = Starting → main_step p (go Testing [Out_started] p)
  | step_test p :
      pr_phase p = Testing →
      main_step p (if pr_shutdown p then go Stopping [Out_stopping] p else go Sleeping [] p)
  | step_wake p :
      pr_phase p = Sleeping → main_step p (go Testing [] p)
  | step_stopped p :
      pr_phase p = Stopping → main_step p (go (Exited 0) [Out_clean_shutdown] p)
  | step_config_error what p :
      in_engine (pr_phase p) = true → main_step p (go (Exited 1) [Out_config_error what] p)
  | step_exception what p :
      in_engine (pr_phase p) = true → main_step p (go (Exited 1) [Out_fatal what] p).

(** The process: its main thread, the callbacks and strategy calls, and signals. *)
Inductive proc_step : process → process → Prop :=
  | step_main p p' : main_step p p' → proc_step p p'
  | step_gateway p w' :
      exited (pr_phase p) = false → FIXGateway.gw_step (pr_world p) w' →
      proc_step p (with_world w' p)
  | step_signal sig p p' :
      exited (pr_phase p) = false → signal_handler sig p = (p', Ok tt) → proc_step p p'.

Definition print_usage (s : system E M SID) : system E M SID := say [Out_usage] s.

(** The whole program, up to its loop: usage, or a process about to run. *)
Definition main (argc : nat) (sys : syscalls) (fs : option LogFile) (s : system E M SID) :
    option LogFile * outcome (system E M SID + process) :=
  if (argc <? 2)%nat then (fs, Ok (inl (print_usage s)))
  else
    let r := startup sys fs s in
    (r.1, w ← r.2; Ok (inr {| pr_world := w; pr_gateway := true; pr_shutdown := false;
                              pr_phase := Starting |})).
End Main.
Arguments process : clear implicits.

(** ** Lemmas *)

Section MainLemmas.
Context {E M SID : Type} `{FixMessageLaws M} `{FixValues} `{EnvLaws E M SID} `{Cracker M}.
Notation W := (world EventLog E M SID).

Lemma startup_reopens (l : EventLog) es hs t o (s : system E M SID) :
  log_wf l es → Forall2 (≡) hs es → books hs t o →
  ∃ w', startup sys_ok (Some (el_file l)) s = (Some (el_file l), Ok w') ∧
    w_log w' = l ∧ t ≡ w_tracker w' ∧ o ≡ w_orders w' ∧
    PositionTracker.replay_from l = Ok (w_tracker w') ∧
    OrderManager.replay_from l = Ok (w_orders w') ∧
    w_order_counter w' = 0 ∧ w_connected w' = false.
Proof.
  intros Hwf Hes Hb.
  assert (Hl : log_rep (L := EventLog) l es) by exact Hwf.
  destruct (replay_equiv l es hs t o Hl Hes Hb) as (t' & o' & Ht & Ho & Het & Heo).
  exists (FIXGateway.make l t' o' default_limits
    (say [Out_replaying (el_size l);
          Out_replayed (PositionTracker.symbol_count t') (OrderManager.order_count o')] s)).
  split; [|by split_and!].
  unfold startup. rewrite (reopen_wf session_path l es Hwf). cbn [fst snd mbind outcome_bind].
  rewrite Ht. cbn [mbind outcome_bind]. by rewrite Ho.
Qed.

(** The handler on a process whose gateway is in place. *)
Lemma signal_handler_calls sig (p : process E M SID) :
  pr_gateway p = true → gw_inv (pr_world p) →
  ∃ p' ms, signal_handler sig p = (p', Ok tt) ∧ pr_shutdown p' = true ∧
    sys_calls (w_system (pr_world p'))
      = sys_calls (w_system (pr_world p)) ++ ((λ m, (m, w_session_id (pr_world p))) <$> ms) ∧
    length ms = OrderManager.open_order_count (w_orders (pr_world p)) ∧
    ∀ i m o, ms !! i = Some m → open_orders (w_orders (pr_world p)) !! i = Some o →
      cancels m (Killswitch.numbered_id default_cancel_prefix (Z.of_nat i + 1)) o.
Proof.
  intros Hg Hinv. destruct (gw_inv_tables _ Hinv) as (_ & Hwf & Hsym).
  set (w := set_system (say [Out_signal sig] (w_system (pr_world p))) (pr_world p)).
  destruct (emergency_calls w (wf_sized _ Hwf Hsym)) as (s' & ms & Hrun & Hcalls & Hlen & Hms).
  eexists _, ms. unfold signal_handler. rewrite Hg. fold w. rewrite Hrun.
  split; [reflexivity|]. by split_and!.
Qed.

(** What every step of the process keeps. *)
Definition proc_inv (p : process E M SID) : Prop := pr_gateway p = true ∧ gw_inv (pr_world p).

Lemma main_step_world (p p' : process E M SID) :
  main_step p p' → (∃ s, pr_world p' = set_system s (pr_world p)) ∧
    pr_gateway p' = pr_gateway p ∧ pr_shutdown p' = pr_shutdown p.
Proof. destruct 1; try destruct (pr_shutdown p) eqn:Hsd; cbn; eauto. Qed.

Lemma handler_keeps sig (p p' : process E M SID) r :
  signal_handler sig p = (p', r) →
  (∃ s, pr_world p' = set_system s (pr_world p)) ∧ pr_gateway p' = pr_gateway p ∧
    pr_shutdown p' = true ∧ pr_phase p' = pr_phase p.
Proof.
  unfold signal_handler. intros [= <- _].
  split; [|done]. cbn. destruct (pr_gateway p); [|by eexists].
  destruct (emergency_only_system (set_system (say [Out_signal sig] (w_system (pr_world p)))
    (pr_world p))) as [s' Hs'].
  rewrite Hs'. by exists s'.
Qed.

Lemma proc_step_inv (p p' : process E M SID) : proc_step p p' → proc_inv p → proc_inv p'.
Proof.
  intros Hstep [Hg Hinv]. destruct Hstep as [p p' Hm|p w' _ Hw|sig p p' _ Hs].
  - destruct (main_step_world p p' Hm) as ([s Hs] & Hg' & _).
    split; [congruence|]. rewrite Hs. exact Hinv.
  - split; [done|]. by eapply gw_step_inv.
  - destruct (handler_keeps sig p p' _ Hs) as ([s Hw] & Hg' & _).
    split; [congruence|]. rewrite Hw. exact Hinv.
Qed.

(** Whether the main thread has seen the flag, or left with code 0 after it. *)
Definition seen (ph : phase) : bool := match ph with Stopping | Exited 0 => true | _ => false end.

Lemma main_step_unseen (p p' : process E M SID) :
  main_step p p' → pr_shutdown p = false → seen (pr_phase p) = false → seen (pr_phase p') = false.
Proof. destruct 1 as [p Hph|p Hph|p Hph|p Hph|what p|what p]; intros Hf; rewrite ?Hf, ?Hph; done. Qed.

(** A process that exited with code 0 saw its flag set by the handler. *)
Lemma clean_exit_signalled (p p' : process E M SID) :
  rtc proc_step p p' → proc_inv p → pr_shutdown p = false → seen (pr_phase p) = false →
  pr_shutdown p' = true ∨ seen (pr_phase p') = true →
  ∃ p1 p2 sig, rtc proc_step p p1 ∧ proc_inv p1 ∧ exited (pr_phase p1) = false ∧
    signal_handler sig p1 = (p2, Ok tt) ∧ rtc proc_step p2 p'.
Proof.
  intros Hsteps Hinv Hflag Hrun Hend.
  induction Hsteps as [p|p q p' Hstep Hsteps IH]; [destruct Hend; congruence|].
  pose proof (proc_step_inv p q Hstep Hinv) as Hq. pose proof Hstep as Hstep'.
  assert (Hrest : pr_shutdown q = false → seen (pr_phase q) = false →
    ∃ p1 p2 sig, rtc proc_step p p1 ∧ proc_inv p1 ∧ exited (pr_phase p1) = false ∧
      signal_handler sig p1 = (p2, Ok tt) ∧ rtc proc_step p2 p').
  { intros Hf Hr. destruct (IH Hq Hf Hr Hend) as (p1 & p2 & sig & Hto & Hi & Hp1 & Hs & Hfrom).
    exists p1, p2, sig. split_and!; try done. by eapply rtc_l. }
  destruct Hstep' as [p q Hm|p w' Hph Hw|sig p q Hph Hs].
  - apply Hrest; [|by eapply main_step_unseen].
    destruct (main_step_world p q Hm) as (_ & _ & ->). done.
  - by apply Hrest.
  - exists p, q, sig. by split_and!.
Qed.

(** Once it is signalled, a process that the engine does not disturb leaves with 0. *)
Lemma signalled_exit (p : process E M SID) :
  pr_phase p = Starting → pr_shutdown p = true → ∃ p', rtc proc_step p p' ∧ pr_phase p' = Exited 0.
Proof.
  intros Hph Hsd. set (p1 := go Testing [Out_started] p).
  exists (go (Exited 0) [Out_clean_shutdown] (go Stopping [Out_stopping] p1)). split; [|done].
  eapply rtc_l; [by apply step_main, step_started|].
  eapply rtc_l; [apply step_main, (step_test p1); done|]. cbn [p1 go pr_shutdown]. rewrite Hsd.
  eapply rtc_l; [by apply step_main, step_stopped|apply rtc_refl].
Qed.
End MainLemmas.

(** ** Properties *)

Lemma startup_fresh {E M SID} `{FixMessageLaws M} `{FixValues} `{EnvLaws E M SID}
    (s : system E M SID) :
  ∃ w, startup sys_ok None s = (Some (el_file (w_log w)), Ok w) ∧ gw_start w ∧ gw_inv w ∧
    w_orders w = OrderManager.init.
Proof.
  destruct (create_wf session_path) as (l & Hopen & Hwf).
  assert (Hl : log_rep (L := EventLog) l []) by exact Hwf.
  exists (FIXGateway.make l PositionTracker.init OrderManager.init default_limits
    (say [Out_replaying (el_size l); Out_replayed 0 0] s)).
  assert (Ht : PositionTracker.replay_from l = Ok PositionTracker.init)
    by (unfold PositionTracker.replay_from; by rewrite (log_replay_rep l [])).
  assert (Ho : OrderManager.replay_from l = Ok OrderManager.init)
    by (unfold OrderManager.replay_from; by rewrite (log_replay_rep l [])).
  assert (Hstart : gw_start (FIXGateway.make (M := M) l PositionTracker.init OrderManager.init
    default_limits (say [Out_replaying (el_size l); Out_replayed 0 0] s)))
    by (exists []; split; [exact Hl|by split; [constructor|]]).
  split; [|split; [exact Hstart|split; [by apply gw_start_inv|done]]].
  unfold startup. rewrite Hopen. cbn [fst snd mbind outcome_bind]. rewrite Ht.
  cbn [mbind outcome_bind]. by rewrite Ho.
Qed.

(** C7. A restart loses nothing: at any moment between two calls, stopping the process
    and starting it again on the same file reopens the log as it was and rebuilds both
    books, equal to the live ones up to the recorded sequence numbers. *)
Theorem restart_recovers_books {E M SID} `{FixMessageLaws M} `{FixValues}
    `{EnvLaws E M SID} `{Cracker M} (w0 w : world EventLog E M SID) (s : system E M SID) :
  gw_start w0 → rtc FIXGateway.gw_step w0 w →
  let file := Some (el_file (w_log w)) in
  ∃ w', startup sys_ok file s = (file, Ok w') ∧ w_log w' = w_log w ∧
    w_tracker w ≡ w_tracker w' ∧ w_orders w ≡ w_orders w' ∧ gw_start w'.
Proof.
  intros Hstart Hsteps file. destruct (reachable_inv w0 w Hstart Hsteps) as (es & hs & Hl & Hes & Hb).
  destruct (startup_reopens (w_log w) es hs _ _ s Hl Hes Hb)
    as (w' & Hrun & Hlog & Ht & Ho & Hrt & Hro & _).
  exists w'. split_and!; [done..|]. exists es. rewrite Hlog. split_and!; [done| |done|done].
  apply Forall_lookup. intros i e Hi. by apply (lw_seq _ _ Hl i).
Qed.

Lemma restart_recovers_books_witness :
  let report := sample_report "2"%char "1"%char "AAPL" "ORD0" (Some (of_int 100, from_fixed 175500000)) in
  ∃ w0 w1 w', rtc FIXGateway.gw_step w0 w1 ∧ w_connected w1 = true ∧
    startup sys_ok (Some (el_file (w_log w1))) (sample_system true)
      = (Some (el_file (w_log w1)), Ok w') ∧ w_tracker w1 ≡ w_tracker w'.
Proof.
  intros report. destruct (startup_fresh (sample_system true)) as (w0 & _ & Hstart & _).
  assert (Hsteps : rtc FIXGateway.gw_step w0 (FIXGateway.onLogon "S" w0).1)
    by (eapply rtc_l; [by apply (FIXGateway.step_logon "S")|apply rtc_refl]).
  destruct (restart_recovers_books w0 _ (sample_system true) Hstart Hsteps)
    as (w' & Hrun & _ & Ht & _).
  exists w0, (FIXGateway.onLogon "S" w0).1, w'. split; [exact Hsteps|]. split; [reflexivity|].
  split; [exact Hrun|exact Ht].
Defined.

(** A restart reuses identifiers: the counter starts at 0 again, so if the rebuilt
    books hold an order ORD0, the first order that passes the checks takes its slot:
    the old order, its fills and its open exposure are gone from the manager and a new
    pending, unfilled order stands in its place. *)
Theorem restart_overwrites_order {L E M SID} `{LogLaws L} `{FixMessageLaws M} `{FixValues}
    `{EnvLaws E M SID} `{Cracker M} (w : world L E M SID) symbol side qty price old :
  gw_start w → w_order_counter w = 0 → w_connected w = true →
  table_map (w_orders w) !! lit "ORD0" = Some old →
  sv_ok symbol = true → side = Buy ∨ side = Sell → in_i32 qty = true → in_i64 price = true →
  log_size (w_log w) < MAX_EVENTS →
  check (w_limits w) symbol side qty price (w_tracker w) (w_orders w) = Ok Pass →
  ∃ w' r new, FIXGateway.send_order symbol side qty price w = (w', r) ∧
    table_map (w_orders w') !! lit "ORD0" = Some new ∧
    o_state new = Pending ∧ o_filled_qty new = 0 ∧ o_original_qty new = qty ∧
    count_ (w_orders w') = count_ (w_orders w) ∧
    ∀ k, map_sum (exposure_of k) (table_map (w_orders w'))
         = map_sum (exposure_of k) (table_map (w_orders w)) - exposure_of k old + exposure_of k new.
Proof.
  intros Hstart Hn Hc Hold Hs Hside Hq Hp Hsize Hpass.
  pose proof (gw_inv_tables w (gw_start_inv w Hstart)) as (_ & How & _).
  destruct Hstart as (es & Hl & _). rewrite (log_size_rep _ es) in Hsize by done.
  destruct (send_order_room symbol side qty price w es)
    as (evt & ts & l' & o' & s' & m & r & Hevt & _ & Ho' & _ & _ & Hrun & _); [done..|].
  destruct (order_event_ok symbol side qty price (w_order_counter w))
    as (evt' & Hevt' & Hwf & Hty & _ & Hqty & _ & Hkey & _); [done..|].
  assert (evt' = evt) as -> by congruence. rewrite Hn in Hkey. change (order_id_key 0) with (lit "ORD0") in Hkey.
  destruct (wf_event_ids evt Hwf) as [_ Hids].
  destruct (manager_apply_event evt (w_orders w) Hids How) as [Hm Hwf']. rewrite Ho' in Hm.
  symmetry in Hm. cbn in Hm. specialize (Hwf' o' Ho').
  assert (Hexp : ∀ k, _) by (intros k; exact (manage_exposure k evt _ _ Hm)).
  unfold manage in Hm. rewrite decide_True, Hkey in Hm by done. unfold map_upsert in Hm.
  rewrite Hold in Hm. apply bind_Ok in Hm as (new & Hnew & Hm). injection Hm as Hm.
  unfold order_step in Hnew. rewrite Hty in Hnew.
  apply new_order_Ok in Hnew as (Hst & Hf & _ & Horig & _); [|by destruct Hids].
  eexists _, r, new. split; [exact Hrun|]. cbn [w_orders set_system set_orders].
  rewrite Hkey in Hexp. rewrite <- Hm in *. rewrite lookup_insert_eq in *.
  split_and!; try done; [congruence|..].
  - rewrite <- !(table_map_size (A := Order)) by done. rewrite <- Hm.
    apply map_size_insert_Some. by eexists.
  - intros k. specialize (Hexp k). rewrite Hold in Hexp. cbn in Hexp. unfold id in Hexp. lia.
Qed.

Lemma restart_overwrites_order_witness :
  ∃ (w w' : world (list OrderEvent) sample_env field_store string) r old new,
    FIXGateway.send_order (sv_of_string (lit "TSLA")) Sell 10 250000000 w = (w', r) ∧
    table_map (w_orders w) !! lit "ORD0" = Some old ∧ is_open old = true ∧
    table_map (w_orders w') !! lit "ORD0" = Some new ∧ o_original_qty new = 10.
Proof.
  set (es := [sample_event NewOrder "AAPL" "ORD0" Buy 100 175500000]).
  destruct (Ok_ex (foldO OrderManager.apply_event es OrderManager.init)) as [o E];
    [vm_compute; reflexivity|].
  destruct (manager_fold es o) as [Hwf Hm]; [unfold es; repeat constructor|exact E|].
  assert (Hk : (m ← foldO manage es ∅; Ok (m !! lit "ORD0")) = Ok (table_map o !! lit "ORD0"))
    by (rewrite Hm; reflexivity).
  vm_compute (_ ← _; _) in Hk. injection Hk as Hk.
  set (w := set_connected true (FIXGateway.make (M := field_store) es PositionTracker.init o
    default_limits (sample_system true))).
  assert (Hpass : (o ← foldO OrderManager.apply_event es OrderManager.init;
    check default_limits (sv_of_string (lit "TSLA")) Sell 10 250000000 PositionTracker.init o) = Ok Pass)
    by (vm_compute; reflexivity).
  rewrite E in Hpass. cbn [mbind outcome_bind] in Hpass.
  edestruct (restart_overwrites_order w (sv_of_string (lit "TSLA")) Sell 10 250000000)
    as (w' & r & new & Hrun & Hnew & _ & _ & Horig & _);
    [|reflexivity|reflexivity|symmetry; exact Hk|reflexivity|by right|reflexivity|reflexivity
    |vm_compute; reflexivity|exact Hpass|].
  - exists es. split; [by split|]. split; [repeat constructor|]. split; [reflexivity|exact E].
  - exists w, w', r. eexists _, new. split; [exact Hrun|]. split; [symmetry; exact Hk|].
    split; [reflexivity|]. by split.
Defined.

(** A clean exit has cancelled: a process that returns from [main] with code 0 was
    signalled before, and at that signal the handler handed the engine one cancel
    request for every order that was open. *)
Theorem clean_exit_cancelled_orders {E M SID} `{FixMessageLaws M} `{FixValues}
    `{EnvLaws E M SID} `{Cracker M} (p p' : process E M SID) :
  rtc proc_step p p' → pr_gateway p = true → gw_start (pr_world p) →
  pr_shutdown p = false → pr_phase p = Starting → pr_phase p' = Exited 0 →
  ∃ p1 p2 sig ms, rtc proc_step p p1 ∧ signal_handler sig p1 = (p2, Ok tt) ∧ rtc proc_step p2 p' ∧
    sys_calls (w_system (pr_world p2))
      = sys_calls (w_system (pr_world p1)) ++ ((λ m, (m, w_session_id (pr_world p1))) <$> ms) ∧
    length ms = OrderManager.open_order_count (w_orders (pr_world p1)).
Proof.
  intros Hsteps Hg Hstart Hflag Hrun Hend.
  destruct (clean_exit_signalled p p' Hsteps) as (p1 & p2 & sig & Hto & [Hg1 Hi1] & _ & Hs & Hfrom);
    [split; [done|by apply gw_start_inv]|done|by rewrite Hrun|right; by rewrite Hend|].
  destruct (signal_handler_calls sig p1 Hg1 Hi1) as (p2' & ms & Hs' & _ & Hcalls & Hlen & _).
  assert (p2' = p2) as -> by congruence. by exists p1, p2, sig, ms.
Qed.

Lemma clean_exit_cancelled_orders_witness :
  ∃ (p p' : process sample_env field_store string) p1 p2 sig,
    rtc proc_step p p' ∧ pr_phase p' = Exited 0 ∧
    rtc proc_step p p1 ∧ signal_handler sig p1 = (p2, Ok tt).
Proof.
  destruct (startup_fresh (sample_system true)) as (w & _ & Hstart & Hinv & _).
  set (p := {| pr_world := w; pr_gateway := true; pr_shutdown := false; pr_phase := Starting |}).
  destruct (signal_handler_calls 15 p eq_refl Hinv) as (p1 & ms & Hs & Hflag & _).
  destruct (signalled_exit p1) as (p' & Hexit & Hend);
    [by destruct (handler_keeps 15 p p1 _ Hs) as (_ & _ & _ & ->)|done|].
  assert (Hsteps : rtc proc_step p p') by (eapply rtc_l; [by apply (step_signal 15)|exact Hexit]).
  destruct (clean_exit_cancelled_orders p p' Hsteps eq_refl Hstart eq_refl eq_refl Hend)
    as (q1 & q2 & sig & _ & Hto & Hq & _).
  exists p, p', q1, q2, sig. by split_and!.
Defined.
