(* ===== verification/Layout.v ===== *)
(** * [Layout]: the books as memory

    [Position] and [Order] are structs of exactly 64 bytes (static_assert) held in
    arrays of 1024 and 512.  Every slot of a running gateway is a value of its struct:
    each field within its machine type, so that the slot has an image of 64 bytes from
    which it is read back. *)

From stdpp Require Import relations.
From S2P Require Import Prelude CString OrderEvent EventLog SlotTable PositionTracker OrderManager.
From S2P Require Import Projection RiskChecker Fixed FixMessages MessageTranslator Environment.
From S2P Require Import Killswitch FIXGateway.

Local Open Scope Z_scope.

(** ** The structs *)

Definition wf_position (p : Position) : bool :=
  bool_decide (length (p_symbol p) = 8%nat) && in_i64 (p_net_qty p) &&
  in_i64 (p_avg_entry_price p) && in_i64 (p_realized_pnl p) && in_i64 (p_unrealized_pnl p) &&
  in_i32 (p_total_buy_qty p) && in_i32 (p_total_sell_qty p) &&
  in_i64 (p_last_price p) && in_i64 (p_last_updated_seq p).

Definition encode_position (p : Position) : list char :=
  p_symbol p ++
  le_bytes 8 (p_net_qty p) ++ le_bytes 8 (p_avg_entry_price p) ++
  le_bytes 8 (p_realized_pnl p) ++ le_bytes 8 (p_unrealized_pnl p) ++
  le_bytes 4 (p_total_buy_qty p) ++ le_bytes 4 (p_total_sell_qty p) ++
  le_bytes 8 (p_last_price p) ++ le_bytes 8 (p_last_updated_seq p).

Definition decode_position (bs : list char) : Position := {|
  p_symbol           := slice 0 8 bs;
  p_net_qty          := signed 64 (le_value (slice 8 8 bs));
  p_avg_entry_price  := signed 64 (le_value (slice 16 8 bs));
  p_realized_pnl     := signed 64 (le_value (slice 24 8 bs));
  p_unrealized_pnl   := signed 64 (le_value (slice 32 8 bs));
  p_total_buy_qty    := signed 32 (le_value (slice 40 4 bs));
  p_total_sell_qty   := signed 32 (le_value (slice 44 4 bs));
  p_last_price       := signed 64 (le_value (slice 48 8 bs));
  p_last_updated_seq := signed 64 (le_value (slice 56 8 bs));
|}.

Definition OrderState_byte (s : OrderState) : Z :=
  match s with
  | Pending => 1 | PartiallyFilled => 2 | Filled => 3 | Cancelled => 4 | Rejected => 5
  | OrderState_raw b => b
  end.

Definition OrderState_of_byte (b : Z) : OrderState :=
  match b with
  | 1 => Pending | 2 => PartiallyFilled | 3 => Filled | 4 => Cancelled | 5 => Rejected
  | _ => OrderState_raw b
  end.

(** A byte of an enumeration and nothing else. *)
Definition wf_state (s : OrderState) : bool :=
  (0 <=? OrderState_byte s) && (OrderState_byte s <? 256) &&
  bool_decide (OrderState_of_byte (OrderState_byte s) = s).
Definition wf_side (s : Side) : bool :=
  (0 <=? Side_byte s) && (Side_byte s <? 256) && bool_decide (Side_of_byte (Side_byte s) = s).

Definition wf_order (o : Order) : bool :=
  bool_decide (length (o_order_id o) = 8%nat) && bool_decide (length (o_symbol o) = 8%nat) &&
  in_i64 (o_limit_price o) && in_i64 (o_avg_fill_price o) &&
  in_u64 (o_opened_seq o) && in_u64 (o_last_seq o) &&
  in_i32 (o_original_qty o) && in_i32 (o_filled_qty o) &&
  wf_state (o_state o) && wf_side (o_side o).

(** The padding is written once, by the [memset] of the slot. *)
Definition encode_order (o : Order) : list char :=
  o_order_id o ++ o_symbol o ++
  le_bytes 8 (o_limit_price o) ++ le_bytes 8 (o_avg_fill_price o) ++
  le_bytes 8 (o_opened_seq o) ++ le_bytes 8 (o_last_seq o) ++
  le_bytes 4 (o_original_qty o) ++ le_bytes 4 (o_filled_qty o) ++
  le_bytes 1 (OrderState_byte (o_state o)) ++ le_bytes 1 (Side_byte (o_side o)) ++
  replicate 6 NUL.

Definition decode_order (bs : list char) : Order := {|
  o_order_id       := slice 0 8 bs;
  o_symbol         := slice 8 8 bs;
  o_limit_price    := signed 64 (le_value (slice 16 8 bs));
  o_avg_fill_price := signed 64 (le_value (slice 24 8 bs));
  o_opened_seq     := le_value (slice 32 8 bs);
  o_last_seq       := le_value (slice 40 8 bs);
  o_original_qty   := signed 32 (le_value (slice 48 4 bs));
  o_filled_qty     := signed 32 (le_value (slice 52 4 bs));
  o_state          := OrderState_of_byte (le_value (slice 56 1 bs));
  o_side           := Side_of_byte (le_value (slice 57 1 bs));
|}.

(** [slots_], as memory. *)
Definition tracker_image (t : PositionTracker.t) : list char := slots_ t ≫= encode_position.
Definition manager_image (t : OrderManager.t) : list char := slots_ t ≫= encode_order.

(** ** Images *)

(** Takes a conjunction of boolean tests apart. *)
Ltac wf_inv :=
  repeat match goal with
  | H : (_ && _) = true |- _ =>
      let H' := fresh "Hw" in apply andb_true_iff in H as [H H']
  | H : bool_decide _ = true |- _ => apply bool_decide_eq_true in H
  | H : wf_position _ = true |- _ => unfold wf_position in H
  | H : wf_order _ = true |- _ => unfold wf_order in H
  end.
Ltac wf_solve :=
  rewrite ?andb_true_iff, ?bool_decide_eq_true; split_and!; try done; try assumption.

Lemma wf_side_inv s : wf_side s = true → 0 <= Side_byte s < 256 ∧ Side_of_byte (Side_byte s) = s.
Proof. unfold wf_side. intros Hs. wf_inv. btauto_Z. done. Qed.

Lemma wf_state_inv s :
  wf_state s = true → 0 <= OrderState_byte s < 256 ∧ OrderState_of_byte (OrderState_byte s) = s.
Proof. unfold wf_state. intros Hs. wf_inv. btauto_Z. done. Qed.

Lemma encode_position_length p : wf_position p = true → length (encode_position p) = 64%nat.
Proof.
  intros Hp. wf_inv. unfold encode_position. rewrite !length_app, !le_bytes_length. lia.
Qed.

Lemma decode_encode_position p : wf_position p = true → decode_position (encode_position p) = p.
Proof.
  intros Hp. wf_inv. unfold decode_position, encode_position.
  destruct p as [sy net avg re un tb ts la lu]; cbn -[slice le_bytes le_value] in *.
  f_equal; slice_field; rewrite ?le_value_i64, ?le_value_i32; auto.
Qed.

Lemma encode_order_length o : wf_order o = true → length (encode_order o) = 64%nat.
Proof.
  intros Ho. wf_inv. unfold encode_order.
  rewrite !length_app, !le_bytes_length, length_replicate. lia.
Qed.

Lemma decode_encode_order o : wf_order o = true → decode_order (encode_order o) = o.
Proof.
  intros Ho. wf_inv.
  match goal with H : wf_state _ = true |- _ => apply wf_state_inv in H as [Hst Hst'] end.
  match goal with H : wf_side _ = true |- _ => apply wf_side_inv in H as [Hsd Hsd'] end.
  unfold decode_order, encode_order.
  destruct o as [oi sy lp av os ls oq fq st sd]; cbn -[slice le_bytes le_value] in *.
  f_equal; slice_field; rewrite ?le_value_i64, ?le_value_i32, ?le_value_u64, ?le_value_u8; auto.
Qed.

Lemma length_images {A} (f : A → list char) xs :
  Forall (λ x, length (f x) = 64%nat) xs → length (xs ≫= f) = (64 * length xs)%nat.
Proof.
  induction 1 as [|x xs Hx _ IH]; [done|].
  change (length (f x ++ (xs ≫= f)) = (64 * S (length xs))%nat). rewrite length_app, Hx, IH. lia.
Qed.

(** ** Every write keeps the struct *)

Lemma signed_i64 z : in_i64 (signed 64 z) = true.
Proof.
  rewrite in_i64_spec. unfold signed.
  pose proof (Z.mod_pos_bound (z + 2 ^ (64 - 1)) (2 ^ 64) ltac:(lia)). lia.
Qed.

Lemma strncpy_length p n s : strncpy p n = Ok s → length s = n.
Proof.
  revert n s. induction p as [|c p IH]; intros [|n] s Hs; cbn in Hs; ok_inv; try done.
  case_decide; ok_inv; subst; cbn; f_equal; [apply length_replicate|by apply IH].
Qed.

(** What a well-formed event brings. *)
Lemma wf_event_fields e :
  wf_event e = true →
  in_u64 (oe_sequence e) = true ∧ in_i64 (oe_price e) = true ∧ in_i32 (oe_qty e) = true ∧
  length (oe_symbol e) = 8%nat ∧ wf_side (oe_side e) = true.
Proof.
  unfold wf_event, wf_side. rewrite !andb_true_iff, !bool_decide_eq_true. intros He.
  destruct_and!. by split_and!.
Qed.

Lemma in_i64_0 : in_i64 0 = true.
Proof. done. Qed.

Lemma refresh_unrealized_i64 last avg net u :
  refresh_unrealized last avg net = Ok u → in_i64 u = true.
Proof. unfold refresh_unrealized. destruct (_ && _); intros Hu; ok_inv; done. Qed.

Lemma average_i64 cost qty a : average cost qty = Ok a → in_i64 a = true.
Proof. unfold average. destruct (0 <? qty); intros Ha; ok_inv; done. Qed.

#[local] Hint Resolve signed_i64 in_i64_0 average_i64 refresh_unrealized_i64 : core.

(** The price of a fill becomes the average of a position that it opens. *)
Lemma buy_core_i64 p qty price net avg realized :
  wf_position p = true → in_i64 price = true → buy_core p qty price = Ok (net, avg, realized) →
  in_i64 net = true ∧ in_i64 avg = true ∧ in_i64 realized = true.
Proof.
  intros Hp Hprice Hrun. wf_inv. unfold buy_core in Hrun.
  destruct (0 <=? p_net_qty p); ok_inv; split_and!; eauto.
  by repeat case_match.
Qed.

Lemma sell_core_i64 p qty price net avg realized :
  wf_position p = true → in_i64 price = true → sell_core p qty price = Ok (net, avg, realized) →
  in_i64 net = true ∧ in_i64 avg = true ∧ in_i64 realized = true.
Proof.
  intros Hp Hprice Hrun. wf_inv. unfold sell_core in Hrun.
  destruct (0 <? p_net_qty p); ok_inv; split_and!; eauto.
  by repeat case_match.
Qed.

(** A body that keeps a test of the records. *)
Definition keeps {A} (wf : A → bool) (body : A → outcome A) : Prop :=
  ∀ s s', wf s = true → body s = Ok s' → wf s' = true.

Lemma apply_fill_wf e : wf_event e = true → keeps wf_position (apply_fill e).
Proof.
  intros He p p' Hp Hrun. assert (Hprice : in_i64 (oe_fill_price e) = true)
    by (clear -He; unfold wf_event in He; by wf_inv).
  unfold apply_fill, apply_buy, apply_sell in Hrun.
  case_decide; ok_inv; destruct a0 as [[net avg] realized]; ok_inv;
    first [apply buy_core_i64 in Ha0 as (? & ? & ?) | apply sell_core_i64 in Ha0 as (? & ? & ?)];
    try done; wf_inv; unfold wf_position; cbn; wf_solve; eauto.
Qed.

Lemma mark_position_wf px : in_i64 px = true → keeps wf_position (mark_position px).
Proof.
  intros Hpx p p' Hp Hrun. unfold mark_position in Hrun.
  destruct (is_flat p); ok_inv; [done|]. wf_inv. unfold wf_position; cbn; wf_solve.
Qed.

Lemma new_order_wf e : wf_event e = true → keeps wf_order (new_order e).
Proof.
  intros He o o' Ho Hrun. apply wf_event_fields in He as (? & ? & ? & ? & ?).
  unfold new_order in Hrun. ok_inv. apply strncpy_length in Ha.
  wf_inv. unfold wf_order; cbn; wf_solve.
Qed.

Lemma fill_order_wf e : wf_event e = true → keeps wf_order (fill_order e).
Proof.
  intros He o o' Ho Hrun. apply wf_event_fields in He as (? & _).
  unfold fill_order in Hrun. ok_inv. wf_inv.
  assert (Havg : in_i64 a2 = true) by (destruct (0 <? _); ok_inv; done).
  unfold wf_order; cbn; wf_solve. by destruct (_ <=? 0).
Qed.

Lemma close_order_wf s e : wf_state s = true → wf_event e = true → keeps wf_order (close_order s e).
Proof.
  intros Hs He o o' Ho Hrun. apply wf_event_fields in He as (? & _).
  unfold close_order in Hrun. ok_inv. wf_inv. unfold wf_order; cbn; wf_solve.
Qed.

Lemma amend_order_wf e : wf_event e = true → keeps wf_order (amend_order e).
Proof.
  intros He o o' Ho Hrun. apply wf_event_fields in He as (? & ? & ? & _).
  unfold amend_order in Hrun. ok_inv. wf_inv. unfold wf_order; cbn; wf_solve; by case_match.
Qed.

(** ** The arrays *)

Section Arrays.
Context {A : Type} `{SlotLaws A}.
Variable wf : A → bool.
Hypothesis wf_fresh : ∀ k, length k = 8%nat → wf (slot_fresh k) = true.

(** Every slot of the array, in use or not. *)
Definition all_wf (t : table A) : Prop :=
  length (slots_ t) = slot_max ∧ Forall (λ s, wf s = true) (slots_ t).

Lemma init_all_wf : all_wf table_init.
Proof. split; [apply length_replicate|]. apply Forall_replicate, wf_fresh. done. Qed.

Lemma on_slot_wf body p t t' :
  keeps wf body → all_wf t → on_slot body p t = Ok t' → all_wf t'.
Proof.
  intros Hbody [Hlen Ht] Hrun. unfold on_slot in Hrun. destruct p as [i|]; [|by ok_inv].
  destruct (slots_ t !! i) as [s|] eqn:Hs; [|done]. ok_inv. split; cbn; [by rewrite length_insert|].
  apply Forall_insert; [done|]. eapply Hbody; [|done]. by eapply Forall_lookup_1 in Ht.
Qed.

Lemma get_or_create_wf v t p t' :
  all_wf t → get_or_create v t = Ok (p, t') → all_wf t'.
Proof.
  intros [Hlen Ht] Hrun. unfold get_or_create in Hrun. ok_inv. destruct a as [i|]; ok_inv; [done|].
  case_decide; ok_inv; [done|]. split; cbn; [by rewrite length_insert|].
  apply Forall_insert; [done|]. apply wf_fresh. by eapply strncpy_length.
Qed.
End Arrays.
Arguments all_wf {A H} wf t.

Lemma position_fresh_wf k : length k = 8%nat → wf_position (slot_fresh k) = true.
Proof. intros Hk. unfold wf_position. cbn. by rewrite Hk. Qed.

Lemma order_fresh_wf k : length k = 8%nat → wf_order (slot_fresh k) = true.
Proof. intros Hk. unfold wf_order. cbn. by rewrite Hk. Qed.

Lemma tracker_event_wf e t t' :
  wf_event e = true → PositionTracker.apply_event e t = Ok t' →
  all_wf wf_position t → all_wf wf_position t'.
Proof.
  intros He Hrun Ht. unfold PositionTracker.apply_event in Hrun.
  destruct (negb (is_fill e)); ok_inv; [done|]. destruct a0 as [p t1].
  eapply on_slot_wf; [by apply apply_fill_wf| |exact Hrun].
  eapply get_or_create_wf; [apply position_fresh_wf|done|done].
Qed.

Lemma manager_event_wf e t t' :
  wf_event e = true → OrderManager.apply_event e t = Ok t' →
  all_wf wf_order t → all_wf wf_order t'.
Proof.
  intros He Hrun Ht. unfold OrderManager.apply_event, OrderManager.handle_new,
    OrderManager.handle_fill, OrderManager.handle_cancel, OrderManager.handle_reject,
    OrderManager.handle_amend in Hrun.
  destruct (oe_type e); ok_inv; try done.
  1: { destruct a0 as [p t1]. eapply on_slot_wf; [by apply new_order_wf| |exact Hrun].
       eapply get_or_create_wf; [apply order_fresh_wf|done|done]. }
  all: eapply on_slot_wf; [|exact Ht|exact Hrun].
  1,2: by apply fill_order_wf.
  1,2: by apply close_order_wf.
  by apply amend_order_wf.
Qed.

(** Marks keep the structs too. *)
Lemma mark_to_market_wf sym px t t' :
  in_i64 px = true → PositionTracker.mark_to_market sym px t = Ok t' →
  all_wf wf_position t → all_wf wf_position t'.
Proof.
  intros Hpx Hrun Ht. unfold PositionTracker.mark_to_market in Hrun. ok_inv.
  eapply on_slot_wf; [by apply mark_position_wf|exact Ht|exact Hrun].
Qed.

Lemma fold_wf {A} `{Slot A} (wf : A → bool) (f : OrderEvent → table A → outcome (table A)) es t t' :
  (∀ e t t', wf_event e = true → f e t = Ok t' → all_wf wf t → all_wf wf t') →
  Forall (λ e, wf_event e = true) es → foldO f es t = Ok t' → all_wf wf t → all_wf wf t'.
Proof.
  intros Hf Hes. revert t. induction Hes as [|e es He _ IH]; intros t Hrun Ht; cbn in Hrun; ok_inv;
    [done|]. eapply IH; [done|]. by eapply Hf.
Qed.

Lemma books_wf_slots hs t o :
  books hs t o → all_wf wf_position t ∧ all_wf wf_order o.
Proof.
  intros [Hhs Ht Ho]. split.
  - eapply fold_wf; [apply tracker_event_wf|exact Hhs|exact Ht|].
    apply init_all_wf, position_fresh_wf.
  - eapply fold_wf; [apply manager_event_wf|exact Hhs|exact Ho|].
    apply init_all_wf, order_fresh_wf.
Qed.

(** ** The gateway's books *)

Section Gateway.
Context {L E M SID : Type} `{LogLaws L} `{FixMessageLaws M} `{FixValues} `{EnvLaws E M SID}
  `{Cracker M}.

Lemma gateway_slots_wf (w0 w : world L E M SID) :
  gw_start w0 → rtc FIXGateway.gw_step w0 w →
  all_wf wf_position (w_tracker w) ∧ all_wf wf_order (w_orders w).
Proof.
  intros Hstart Hsteps. destruct (reachable_inv w0 w Hstart Hsteps) as (es & hs & _ & _ & Hb).
  by apply (books_wf_slots hs).
Qed.

(** The arrays occupy 64 and 32 KiB. *)
Lemma gateway_images (w0 w : world L E M SID) :
  gw_start w0 → rtc FIXGateway.gw_step w0 w →
  Z.of_nat (length (tracker_image (w_tracker w))) = 65536 ∧
  Z.of_nat (length (manager_image (w_orders w))) = 32768.
Proof.
  intros Hstart Hsteps. destruct (gateway_slots_wf w0 w Hstart Hsteps) as [[Hlent Hwt] [Hleno Ho]].
  split.
  - unfold tracker_image. rewrite length_images, Hlent; [done|].
    eapply Forall_impl; [exact Hwt|]. apply encode_position_length.
  - unfold manager_image. rewrite length_images, Hleno; [done|].
    eapply Forall_impl; [exact Ho|]. apply encode_order_length.
Qed.
End Gateway.
