(* ===== verification/Shutdown.v ===== *)
(** * [Shutdown]: a signalled process ends

    Infinite executions of the process of [Main], in which the engine's callbacks, the
    strategy's calls and further signals may come at any time; the only assumption is
    that the main thread is scheduled again and again (sleeping and stopping the engine
    return). *)

From stdpp Require Import relations.
From S2P Require Import Prelude CString OrderEvent EventLog SlotTable PositionTracker OrderManager.
From S2P Require Import Projection RiskChecker Fixed FixMessages MessageTranslator Environment.
From S2P Require Import Killswitch FIXGateway Main.

Local Open Scope Z_scope.

Section Executions.
Context {E M SID : Type} `{FixMessageLaws M} `{FixValues} `{EnvLaws E M SID} `{Cracker M}.
Implicit Types (p q : process E M SID) (σ : nat → process E M SID).

(** An execution: the process at every moment; it may pause. *)
Definition execution σ : Prop := ∀ n, σ (S n) = σ n ∨ proc_step (σ n) (σ (S n)).

(** Weak fairness of the main thread, which has a step until it has returned. *)
Definition main_fair σ : Prop :=
  ∀ n, ∃ m, (n ≤ m)%nat ∧ (exited (pr_phase (σ m)) = true ∨ main_step (σ m) (σ (S m))).

(** What the engine throws reaches the handlers of [main]. *)
Definition engine_threw p q : Prop :=
  in_engine (pr_phase p) = true ∧
  ∃ what, q = go (Exited 1) [Out_config_error what] p ∨ q = go (Exited 1) [Out_fatal what] p.

(** Steps the main thread has left once the flag is set. *)
Definition steps_left (ph : phase) : nat :=
  match ph with Starting => 4 | Sleeping => 3 | Testing => 2 | Stopping => 1 | Exited _ => 0 end.

Lemma steps_left_zero ph : steps_left ph = 0%nat ↔ exited ph = true.
Proof. by destruct ph. Qed.

Lemma main_step_left p q :
  main_step p q → pr_shutdown p = true →
  (steps_left (pr_phase q) < steps_left (pr_phase p))%nat.
Proof.
  destruct 1 as [p Hph|p Hph|p Hph|p Hph|what p Hph|what p Hph]; intros Hsd; rewrite ?Hsd;
    cbn [go pr_phase]; rewrite ?Hph; cbn; try lia; destruct (pr_phase p); cbn in *; try done; lia.
Qed.

Lemma proc_step_cases p q :
  proc_step p q →
  (main_step p q ∧ pr_shutdown q = pr_shutdown p) ∨
  (exited (pr_phase p) = false ∧ pr_phase q = pr_phase p ∧ (pr_shutdown p = true → pr_shutdown q = true)).
Proof.
  destruct 1 as [p q Hm|p w Hph Hw|sig p q Hph Hs].
  - left. destruct (main_step_world p q Hm) as (_ & _ & Hsd). by split.
  - right. by split_and!.
  - right. destruct (handler_keeps sig p q _ Hs) as (_ & _ & Hsd & Hp). by split_and!.
Qed.

Lemma main_step_ready p q : main_step p q → exited (pr_phase p) = false.
Proof.
  destruct 1 as [p Hph|p Hph|p Hph|p Hph|what p Hph|what p Hph]; rewrite ?Hph; try done;
    by destruct (pr_phase p).
Qed.

Lemma exited_stuck p q : exited (pr_phase p) = true → ¬ proc_step p q.
Proof.
  intros Hex [[Hm%main_step_ready _]|[Hno _]]%proc_step_cases; congruence.
Qed.

(** The code is 1 exactly when the engine threw. *)
Lemma exit_step p q code :
  proc_step p q → exited (pr_phase p) = false → pr_phase q = Exited code →
  code = 0 ∨ code = 1 ∧ engine_threw p q.
Proof.
  intros Hstep Hno Hq. destruct (proc_step_cases p q Hstep) as [[Hm _]|(_ & Hp & _)].
  - destruct Hm as [p Hph|p Hph|p Hph|p Hph|what p Hph|what p Hph]; cbn in Hq; try discriminate Hq.
    + by destruct (pr_shutdown p).
    + left. congruence.
    + right. split; [congruence|]. split; [done|]. exists what. by left.
    + right. split; [congruence|]. split; [done|]. exists what. by right.
  - rewrite <- Hp, Hq in Hno. done.
Qed.

(** *** Along an execution *)

Lemma execution_left σ n m :
  execution σ → (n ≤ m)%nat → pr_shutdown (σ n) = true →
  pr_shutdown (σ m) = true ∧ (steps_left (pr_phase (σ m)) <= steps_left (pr_phase (σ n)))%nat.
Proof.
  intros Hex Hle Hsd. induction Hle as [|m Hle [IHs IHl]]; [done|].
  destruct (Hex m) as [->|Hstep]; [done|].
  destruct (proc_step_cases _ _ Hstep) as [[Hm Hk]|(_ & Hp & Hk)].
  - split; [congruence|]. pose proof (main_step_left _ _ Hm IHs). lia.
  - split; [by apply Hk|]. by rewrite Hp.
Qed.

Lemma execution_exits σ n :
  execution σ → main_fair σ → pr_shutdown (σ n) = true →
  ∃ m, (n ≤ m)%nat ∧ exited (pr_phase (σ m)) = true.
Proof.
  intros Hex Hfair. remember (steps_left (pr_phase (σ n))) as k eqn:Hk.
  revert n Hk. induction (lt_wf k) as [k _ IH]; intros n -> Hsd.
  destruct (Hfair n) as (m & Hle & [Hend|Hm]); [by exists m|].
  destruct (execution_left σ n m Hex Hle Hsd) as [Hsdm Hleft].
  pose proof (main_step_left _ _ Hm Hsdm) as Hdec.
  destruct (IH (steps_left (pr_phase (σ (S m)))) ltac:(lia) (S m) eq_refl) as (m' & Hle' & Hend).
  { by destruct (main_step_world _ _ Hm) as (_ & _ & ->). }
  exists m'. split; [lia|done].
Qed.

Lemma execution_stays σ n m :
  execution σ → (n ≤ m)%nat → exited (pr_phase (σ n)) = true → σ m = σ n.
Proof.
  intros Hex Hle Hend. induction Hle as [|m Hle IH]; [done|].
  destruct (Hex m) as [->|Hstep]; [done|]. rewrite IH in Hstep. by apply exited_stuck in Hstep.
Qed.

Lemma execution_code σ n m code :
  execution σ → (n ≤ m)%nat → exited (pr_phase (σ n)) = false → pr_phase (σ m) = Exited code →
  code = 0 ∨ code = 1 ∧ ∃ k, (n ≤ k < m)%nat ∧ engine_threw (σ k) (σ (S k)).
Proof.
  intros Hex Hle Hno. induction Hle as [|m Hle IH]; intros Hm; [by rewrite Hm in Hno|].
  destruct (Hex m) as [Heq|Hstep].
  - rewrite Heq in Hm. destruct (IH Hm) as [?|(Hc & k & Hk & Ht)]; [by left|right].
    split; [done|]. exists k. split; [lia|done].
  - destruct (exited (pr_phase (σ m))) eqn:Hend; [by apply exited_stuck in Hstep|].
    destruct (exit_step _ _ code Hstep Hend Hm) as [?|[Hc Ht]]; [by left|right].
    split; [done|]. exists m. split; [lia|done].
Qed.

Lemma execution_inv σ n : execution σ → proc_inv (σ 0%nat) → proc_inv (σ n).
Proof.
  intros Hex H0'. induction n as [|n IH]; [done|].
  destruct (Hex n) as [->|Hstep]; [done|]. by eapply proc_step_inv.
Qed.
End Executions.

(** ** Property *)

(** C15. A signal ends the program: whatever the engine, the strategy and further signals
    do, once the handler has run the main thread sees the flag and returns from [main],
    and nothing happens afterwards; the handler itself has returned after handing the
    engine exactly one message per open order, in the order of the slots, each of them
    the cancel request of its order (its id, symbol and side, under the next number of
    the kill switch); and the exit code is 0 unless the engine threw on the way.  (The
    main thread keeps being scheduled; no call terminates the process.) *)
Theorem signalled_process_exits {E M SID} `{FixMessageLaws M} `{FixValues}
    `{EnvLaws E M SID} `{Cracker M} (σ : nat → process E M SID) n sig :
  execution σ → main_fair σ → pr_gateway (σ 0%nat) = true → gw_start (pr_world (σ 0%nat)) →
  exited (pr_phase (σ n)) = false → (signal_handler sig (σ n)).1 = σ (S n) →
  (∃ ms, (signal_handler sig (σ n)).2 = Ok tt ∧
     sys_calls (w_system (pr_world (σ (S n))))
       = sys_calls (w_system (pr_world (σ n))) ++ ((λ m, (m, w_session_id (pr_world (σ n)))) <$> ms) ∧
     length ms = OrderManager.open_order_count (w_orders (pr_world (σ n))) ∧
     ∀ i m o, ms !! i = Some m → open_orders (w_orders (pr_world (σ n))) !! i = Some o →
       cancels m (Killswitch.numbered_id default_cancel_prefix (Z.of_nat i + 1)) o) ∧
  ∃ m code, (n < m)%nat ∧ pr_phase (σ m) = Exited code ∧ (∀ j, (m ≤ j)%nat → σ j = σ m) ∧
    (code = 0 ∨ code = 1 ∧ ∃ k, (n < k < m)%nat ∧ engine_threw (σ k) (σ (S k))).
Proof.
  intros Hex Hfair Hg Hstart Hno Hsig.
  destruct (execution_inv σ n Hex) as [Hgn Hin]; [split; [done|by apply gw_start_inv]|].
  destruct (signal_handler_calls sig (σ n) Hgn Hin) as (p & ms & Hrun & Hsd & Hcalls & Hlen & Hms).
  rewrite Hrun in *. cbn [fst snd] in *. subst p. split; [by exists ms|].
  destruct (execution_exits σ (S n) Hex Hfair Hsd) as (m & Hle & Hend).
  destruct (pr_phase (σ m)) as [| | | |code] eqn:Hm; try done.
  exists m, code. split; [lia|]. split; [done|]. split.
  - intros j Hj. apply execution_stays; [done|done|by rewrite Hm].
  - destruct (handler_keeps sig _ _ _ Hrun) as (_ & _ & _ & Hph).
    destruct (execution_code σ (S n) m code Hex Hle) as [?|(Hc & k & Hk & Ht)]; [by rewrite Hph|done|by left|].
    right. split; [done|]. exists k. split; [lia|done].
Qed.

(** A process that starts, is signalled at once, and ends. *)
Definition sample_life (p0 : process sample_env field_store string) (n : nat) :
    process sample_env field_store string :=
  let p1 := (signal_handler 15 p0).1 in
  let p2 := go Testing [Out_started] p1 in
  let p3 := go Stopping [Out_stopping] p2 in
  match n with
  | 0%nat => p0
  | 1%nat => p1
  | 2%nat => p2
  | 3%nat => p3
  | _ => go (Exited 0) [Out_clean_shutdown] p3
  end.

Lemma signalled_process_exits_witness :
  ∃ (σ : nat → process sample_env field_store string) m, pr_phase (σ 0%nat) = Starting ∧
    (signal_handler 15 (σ 0%nat)).1 = σ 1%nat ∧ exited (pr_phase (σ m)) = true.
Proof.
  destruct (startup_fresh (sample_system true)) as (w & _ & Hstart & Hinv & _).
  set (p := {| pr_world := w; pr_gateway := true; pr_shutdown := false; pr_phase := Starting |}).
  destruct (signal_handler_calls 15 p eq_refl Hinv) as (p1 & ms & Hs & Hflag & _).
  destruct (handler_keeps 15 p p1 _ Hs) as (_ & _ & _ & Hph).
  assert (H1 : (signal_handler 15 p).1 = p1) by (by rewrite Hs).
  assert (Hex : execution (sample_life p)).
  { intros [|[|[|[|n]]]]; unfold sample_life; rewrite ?H1; [right..|by left].
    - by apply (step_signal 15).
    - by apply step_main, step_started.
    - apply step_main. set (q := go Testing [Out_started] p1).
      replace (go Stopping [Out_stopping] q)
        with (if pr_shutdown q then go Stopping [Out_stopping] q else go Sleeping [] q)
        by (cbn [q go pr_shutdown]; by rewrite Hflag).
      by apply step_test.
    - by apply step_main, step_stopped. }
  assert (Hfair : main_fair (sample_life p)).
  { intros n. exists (4 + n)%nat. split; [lia|by left]. }
  destruct (signalled_process_exits (sample_life p) 0 15 Hex Hfair eq_refl Hstart eq_refl eq_refl)
    as (_ & m & code & _ & Hend & _).
  exists (sample_life p), m. split; [reflexivity|]. split; [reflexivity|]. by rewrite Hend.
Defined.
