(* ===== verification/Resumption.v ===== *)
(** * [Resumption]: computations that can be interrupted

    A call that runs on one thread while others run beside it is a sequence of atomic
    steps on the shared state.  A resumption is such a call: it has ended with an
    outcome, or it offers one more step and the rest of the call.  Run without
    interruption it is a computation of [Environment]. *)

From S2P Require Import Prelude CString OrderEvent EventLog SlotTable PositionTracker OrderManager.
From S2P Require Import RiskChecker FixMessages Environment.

Inductive res (S A : Type) : Type :=
  | Done (r : outcome A)
  | Step (m : S → S * res S A).
Arguments Done {S A} r.
Arguments Step {S A} m.

Section Resumption.
Context {S : Type}.

(** The call run to its end, alone. *)
Fixpoint run {A} (p : res S A) (s : S) : S * outcome A :=
  match p with
  | Done r => (s, r)
  | Step m => match m s with (s', p') => run p' s' end
  end.

#[export] Instance res_ret : MRet (res S) := λ A a, Done (Ok a).

Fixpoint res_bind_def {A B} (f : A → res S B) (p : res S A) : res S B :=
  match p with
  | Done (Ok a) => f a
  | Done (Throw e) => Done (Throw e)
  | Done UB => Done UB
  | Done Terminate => Done Terminate
  | Step m => Step (λ s, match m s with (s', p') => (s', res_bind_def f p') end)
  end.
#[export] Instance res_bind : MBind (res S) := @res_bind_def.

(** One atomic step. *)
Definition atom {A} (m : stO S A) : res S A := Step (λ s, let r := m s in (r.1, Done r.2)).

(** A step that only looks. *)
Definition peek {A} (f : S → outcome A) : res S A := atom (λ s, (s, f s)).

(** No step at all: a computation on values the thread has. *)
Definition local {A} (m : outcome A) : res S A := Done m.

(** The body of a [noexcept] function. *)
Fixpoint res_noexcept {A} (p : res S A) : res S A :=
  match p with
  | Done r => Done (noexcept r)
  | Step m => Step (λ s, match m s with (s', p') => (s', res_noexcept p') end)
  end.

(** Has the call ended, and in a way the program goes on from? *)
Definition ended {A} (p : res S A) : bool := match p with Done _ => true | Step _ => false end.
Definition survives {A} (p : res S A) : bool :=
  match p with Done UB | Done Terminate => false | _ => true end.

(** Induction on a call, over all the states its next step may start from. *)
Lemma res_ind' {A} (P : res S A → Prop) :
  (∀ r, P (Done r)) → (∀ m, (∀ s, P (m s).2) → P (Step m)) → ∀ p, P p.
Proof.
  intros Hd Hs. fix IH 1. intros [r|m]; [apply Hd|]. apply Hs. intros s.
  destruct (m s) as [s' p']. exact (IH p').
Qed.

(** ** Laws *)

Lemma run_atom {A} (m : stO S A) s : run (atom m) s = m s.
Proof. cbn. by destruct (m s). Qed.

Lemma run_bind {A B} (p : res S A) (f : A → res S B) s :
  run (p ≫= f) s = ((run p : stO S A) ≫= λ a, run (f a)) s.
Proof.
  revert s. induction p as [[a|e| |]|m IH] using res_ind'; intros s; [done..|].
  specialize (IH s). unfold mbind at 1, res_bind. cbn [res_bind_def run].
  unfold mbind, stO_bind in *. cbn [run]. destruct (m s) as [s' p']. apply IH.
Qed.

Lemma run_bind_Ok {A B} (p : res S A) (f : A → res S B) s s' a :
  run p s = (s', Ok a) → run (p ≫= f) s = run (f a) s'.
Proof. intros E. rewrite run_bind. unfold mbind, stO_bind. by rewrite E. Qed.

Lemma run_noexcept {A} (p : res S A) s : run (res_noexcept p) s = st_noexcept (run p) s.
Proof.
  revert s. induction p as [r|m IH] using res_ind'; intros s; [done|].
  specialize (IH s). unfold st_noexcept in *. cbn. destruct (m s) as [s' p']. apply IH.
Qed.

Lemma noexcept_bind_step {A B} (m : stO S A) (f : A → res S B) :
  res_noexcept (x ← atom m; f x)
    = Step (λ s, let r := m s in (r.1, res_noexcept (x ← Done r.2; f x))).
Proof. done. Qed.

(** The next step of a call. *)
Definition advance {A} (p : res S A) (s : S) : S * res S A :=
  match p with Done r => (s, Done r) | Step m => m s end.

Lemma advance_atom {A B} (m : stO S A) (f : A → res S B) s :
  advance (x ← atom m; f x) s = ((m s).1, x ← local (m s).2; f x).
Proof. done. Qed.

Lemma advance_noexcept {A} (p : res S A) s :
  advance (res_noexcept p) s = ((advance p s).1, res_noexcept (advance p s).2).
Proof. destruct p as [r|m]; cbn; [by destruct r|by destruct (m s)]. Qed.

(** ** What the steps of a call may do

    [within R p]: whatever the other threads do in between, each step of [p] changes
    the state along [R] only. *)

Inductive within {A} (R : S → S → Prop) : res S A → Prop :=
  | within_done r : within R (Done r)
  | within_step m : (∀ s, R s (m s).1 ∧ within R (m s).2) → within R (Step m).

Lemma within_atom {A} (R : S → S → Prop) (m : stO S A) : (∀ s, R s (m s).1) → within R (atom m).
Proof. intros Hm. constructor. intros s. split; [apply Hm|constructor]. Qed.

Lemma within_bind {A B} (R : S → S → Prop) (p : res S A) (f : A → res S B) :
  within R p → (∀ a, within R (f a)) → within R (p ≫= f).
Proof.
  intros Hp Hf. revert p Hp. fix IH 2. intros p Hp. destruct Hp as [[a|e| |]|m Hm].
  - apply Hf.
  - apply within_done.
  - apply within_done.
  - apply within_done.
  - apply within_step. intros s. destruct (Hm s) as [HR Hw]. destruct (m s) as [s' p'].
    split; [exact HR|exact (IH p' Hw)].
Qed.

Lemma within_peek {A} (R : S → S → Prop) (f : S → outcome A) :
  Reflexive R → within R (peek f).
Proof. intros HR. by apply within_atom. Qed.

Lemma within_local {A} (R : S → S → Prop) (m : outcome A) : within R (local m).
Proof. apply within_done. Qed.

Lemma within_noexcept {A} (R : S → S → Prop) (p : res S A) : within R p → within R (res_noexcept p).
Proof.
  intros Hp. revert p Hp. fix IH 2. intros p Hp. destruct Hp as [r|m Hm]; [apply within_done|].
  apply within_step. intros s. destruct (Hm s) as [HR Hw]. destruct (m s) as [s' p'].
  split; [exact HR|exact (IH p' Hw)].
Qed.

(** ** How many steps a call may take *)

Fixpoint bounded {A} (n : nat) (p : res S A) : Prop :=
  match p, n with
  | Done _, _ => True
  | Step _, O => False
  | Step m, Datatypes.S n => ∀ s, bounded n (m s).2
  end.

Lemma bounded_done {A} n (r : outcome A) : bounded n (Done (S := S) r).
Proof. by destruct n. Qed.

Lemma bounded_mono {A} n n' (p : res S A) : n ≤ n' → bounded n p → bounded n' p.
Proof.
  revert n' p. induction n as [|n IH]; intros n' [r|m] Hle Hp; try apply bounded_done; [done|].
  destruct n' as [|n']; [lia|]. intros s. apply (IH n'); [lia|apply Hp].
Qed.

Lemma bounded_atom {A} (m : stO S A) : bounded 1 (atom m).
Proof. intros s. apply bounded_done. Qed.

Lemma bounded_peek {A} (f : S → outcome A) : bounded 1 (peek f).
Proof. apply bounded_atom. Qed.

Lemma bounded_bind {A B} n n' (p : res S A) (f : A → res S B) :
  bounded n p → (∀ a, bounded n' (f a)) → bounded (n + n') (p ≫= f).
Proof.
  intros Hp Hf. revert p Hp. induction n as [|n IH]; intros [[a|e| |]|m] Hp;
    try exact (bounded_done _ _); try done.
  - apply Hf.
  - by apply (bounded_mono n'); [lia|apply Hf].
  - intros s. specialize (Hp s). specialize (IH (m s).2 Hp). by destruct (m s).
Qed.

Lemma bounded_noexcept {A} n (p : res S A) : bounded n p → bounded n (res_noexcept p).
Proof.
  revert p. induction n as [|n IH]; intros [r|m] Hp; try done.
  intros s. specialize (IH (m s).2 (Hp s)). by destruct (m s).
Qed.

(** ** Calls that return

    [returns I Q p]: if every step of [p] starts from a state in [I], whatever the
    other threads do in between, [p] can only end by returning a value in [Q]. *)

Inductive returns (I : S → Prop) {A} (Q : A → Prop) : res S A → Prop :=
  | returns_done a : Q a → returns I Q (Done (Ok a))
  | returns_step m : (∀ s, I s → returns I Q (m s).2) → returns I Q (Step m).

Lemma returns_atom I {A} (Q : A → Prop) (m : stO S A) :
  (∀ s, I s → ∃ a, (m s).2 = Ok a ∧ Q a) → returns I Q (atom m).
Proof.
  intros Hm. apply returns_step. intros s Hs. destruct (Hm s Hs) as (a & Heq & Ha).
  cbn [fst snd]. rewrite Heq. by apply returns_done.
Qed.

Lemma returns_bind I {A B} (Q : A → Prop) (R : B → Prop) (p : res S A) (f : A → res S B) :
  returns I Q p → (∀ a, Q a → returns I R (f a)) → returns I R (p ≫= f).
Proof.
  intros Hp Hf. revert Hp. induction p as [r|m IH] using res_ind'; intros Hp.
  - inversion Hp as [a Ha|]; subst. by apply Hf.
  - inversion Hp as [|m' Hm]; subst. apply returns_step. intros s Hs.
    specialize (IH s (Hm s Hs)). by destruct (m s).
Qed.

Lemma returns_inv I {A} (Q : A → Prop) r : returns I Q (Done r) → ∃ a, r = Ok a ∧ Q a.
Proof. intros Hr. inversion Hr as [a Ha|]; subst. by exists a. Qed.

Lemma returns_next I {A} (Q : A → Prop) (m : S → S * res S A) s :
  returns I Q (Step m) → I s → returns I Q (m s).2.
Proof. intros Hr Hs. inversion Hr as [|m' Hm]; subst. by apply Hm. Qed.
End Resumption.
