(* ===== verification/Commute.v ===== *)
(** * [Commute]: updates of different keys commute, and slots stay where they are

    What the books rely on when the events of two threads meet in either order: a new
    order and an event of another order leave the same table whichever comes first,
    and the key at an index never changes once it is there. *)

From S2P Require Import Prelude CString OrderEvent EventLog SlotTable PositionTracker OrderManager.

(** ** Searching depends on the keys only *)

Section Search.
Context {A : Type} `{SlotLaws A}.
Implicit Types (t : table A) (v : string_view).

Lemma find_loop_ext (ss ss' : list A) p i n :
  (∀ j, i ≤ j < i + n → slot_id <$> ss !! j = slot_id <$> ss' !! j) →
  find_loop ss p i n = find_loop ss' p i n.
Proof.
  revert i. induction n as [|n IH]; intros i Hid; cbn [find_loop]; [done|].
  specialize (Hid i ltac:(lia)) as Hi. rewrite (IH (S i)) by (intros j Hj; apply Hid; lia).
  destruct (ss !! i) as [s|], (ss' !! i) as [s'|]; try done.
  cbn in Hi. injection Hi as Hi. by rewrite Hi.
Qed.

(** A slot more at the end does not change what is found before it. *)
Lemma find_loop_longer (ss : list A) p i n j :
  find_loop ss p i n = Ok (Some j) → find_loop ss p i (S n) = Ok (Some j).
Proof.
  revert i. induction n as [|n IH]; intros i Hf; [done|].
  cbn [find_loop] in Hf. cbn [find_loop]. destruct (ss !! i) as [s|]; [|done].
  apply bind_Ok in Hf as (c & Hc & Hf). rewrite Hc. cbn [mbind outcome_bind].
  destruct (c =? 0)%Z; [done|]. apply (IH (S i)) in Hf. exact Hf.
Qed.

Lemma find_set_slot v t i s s' :
  slots_ t !! i = Some s → slot_id s' = slot_id s →
  find v {| slots_ := <[i := s']> (slots_ t); count_ := count_ t |} = find v t.
Proof.
  intros Hs Hid. apply find_loop_ext. intros j _. cbn [slots_].
  destruct (decide (i = j)) as [<-|Hne]; [|by rewrite list_lookup_insert_ne].
  rewrite list_lookup_insert_eq by (by eapply lookup_lt_Some). cbn. rewrite Hs. cbn. by rewrite Hid.
Qed.

Lemma find_alloc_slot v t s' j :
  table_wf t → count_ t < slot_max → find v t = Ok (Some j) →
  find v {| slots_ := <[count_ t := s']> (slots_ t); count_ := S (count_ t) |} = Ok (Some j).
Proof.
  intros Hwf Hroom Hf. unfold find in *. cbn [slots_ count_]. apply find_loop_longer.
  rewrite <- Hf. apply find_loop_ext. intros k Hk. rewrite list_lookup_insert_ne by lia. done.
Qed.
End Search.

(** ** Two updates of different keys *)

Section Updates.
Context {A : Type} `{SlotLaws A}.
Implicit Types (t : table A) (v : string_view) (body : A → outcome A).

(** The two shapes of a handler: work on the slot that is there, or make one. *)
Definition updates v body t : outcome (table A) := p ← find v t; on_slot body p t.
Definition upserts v body t : outcome (table A) := r ← get_or_create v t; on_slot body r.1 r.2.

Definition put_slot t (i : nat) (s : A) (n : nat) : table A :=
  {| slots_ := <[i := s]> (slots_ t); count_ := n |}.

(** What an upsert whose body cannot fail leaves, case by case. *)
Lemma upserts_cases v body t :
  table_wf t → sv_ok v = true → (∀ s, ∃ s', body s = Ok s') → keeps_id body →
  (∃ i s s', find v t = Ok (Some i) ∧ i < count_ t ∧ slots_ t !! i = Some s ∧ slot_key s = key v ∧
     slot_id s' = slot_id s ∧ body s = Ok s' ∧ upserts v body t = Ok (put_slot t i s' (count_ t))) ∨
  (find v t = Ok None ∧ slot_max ≤ count_ t ∧ upserts v body t = Ok t) ∨
  (∃ s', find v t = Ok None ∧ count_ t < slot_max ∧ slot_id s' = pad 8 (key v) ∧
     body (slot_fresh (pad 8 (key v))) = Ok s' ∧
     upserts v body t = Ok (put_slot t (count_ t) s' (S (count_ t)))).
Proof.
  intros Hwf Hv Htot Hkeep. unfold upserts, get_or_create.
  destruct (find_spec v t Hwf Hv) as ([i|] & Hf & Hspec); rewrite Hf; cbn [mbind outcome_bind].
  - left. destruct Hspec as (Hi & s & Hs & Hk & _). destruct (Htot s) as [s' Hs'].
    exists i, s, s'. cbn [fst snd on_slot]. rewrite Hs, Hs'.
    pose proof (Hkeep _ _ Hs'). by split_and!.
  - right. destruct (decide (slot_max ≤ count_ t)) as [Hfull|Hroom]; [by left|]. right.
    rewrite strncpy_spec by done. fold (key v). cbn [mbind outcome_bind fst snd on_slot slots_ count_].
    set (s := slot_fresh (pad 8 (key v))). destruct (Htot s) as [s' Hs']. exists s'.
    rewrite list_lookup_insert_eq by (rewrite (tw_length _ Hwf); lia). rewrite Hs'.
    cbn [mbind outcome_bind]. rewrite list_insert_insert_eq. apply Hkeep in Hs' as Hid.
    unfold s in Hid. rewrite slot_id_fresh in Hid. split_and!; [done|lia|done|done|done].
Qed.

(** An update of a slot that is found where [t'] has the same record. *)
Lemma updates_at v body t j :
  find v t = Ok (Some j) → updates v body t = on_slot body (Some j) t.
Proof. intros Hf. unfold updates. by rewrite Hf. Qed.

Lemma on_slot_put body t i j s n :
  i ≠ j →
  on_slot body (Some j) (put_slot t i s n)
    = (λ t', put_slot t' i s n) <$> on_slot body (Some j) t.
Proof.
  intros Hne. unfold on_slot, put_slot at 1. cbn [slots_]. rewrite list_lookup_insert_ne by done.
  destruct (slots_ t !! j) as [x|]; [|done]. destruct (body x) as [x'| | |]; try done.
  cbn. unfold put_slot. cbn. by rewrite list_insert_insert_ne.
Qed.

(** An upsert whose body cannot fail and an update of another key commute. *)
Lemma upserts_updates_commute vn bn ve be t :
  table_wf t → sv_ok vn = true → sv_ok ve = true → key vn ≠ key ve →
  (∀ s, ∃ s', bn s = Ok s') → keeps_id bn → keeps_id be →
  upserts vn bn t ≫= updates ve be = updates ve be t ≫= upserts vn bn.
Proof.
  intros Hwf Hvn Hve Hne Htot Hkn Hke.
  destruct (find_spec ve t Hwf Hve) as ([j|] & Hfe & Hspec); cycle 1.
  { (* nothing to update, before or after *)
    unfold updates at 2. rewrite Hfe. cbn [mbind outcome_bind on_slot].
    destruct (get_or_create_update_refines vn bn t Hwf Hvn Hkn) as [Hm Hwf'].
    fold (upserts vn bn t) in Hm, Hwf'. destruct (upserts vn bn t) as [t1| | |] eqn:E; try done.
    cbn [mbind outcome_bind]. specialize (Hwf' t1 eq_refl). symmetry in Hm. cbn in Hm.
    destruct (find_spec ve t1 Hwf' Hve) as ([j|] & Hf1 & H1); unfold updates; rewrite Hf1; [|done].
    exfalso. destruct H1 as (_ & s & _ & _ & Hlk). apply map_upsert_Ok in Hm as [(s' & _ & Heq)|(Heq & _)].
    - rewrite Heq, lookup_insert_ne in Hlk by done. congruence.
    - congruence. }
  destruct Hspec as (Hj & x & Hx & Hkx & _). rewrite (updates_at ve be t j Hfe).
  assert (Hxbody : ∀ t2, on_slot be (Some j) t = Ok t2 →
    ∃ x', slot_id x' = slot_id x ∧ t2 = put_slot t j x' (count_ t)).
  { unfold on_slot. rewrite Hx. intros t2 (x' & Hb & [= <-])%bind_Ok.
    exists x'. split; [by eapply Hke|done]. }
  destruct (upserts_cases vn bn t Hwf Hvn Htot Hkn)
    as [(i & s & s' & Hfn & Hi & Hs & Hks & Hid & Hb & ->)|[(Hfn & Hfull & ->)|(s' & Hfn & Hroom & Hid & Hb & ->)]];
    cbn [mbind outcome_bind].
  - (* the other slot exists *)
    assert (i ≠ j) by (intros ->; congruence).
    rewrite (updates_at ve be _ j) by (unfold put_slot; by rewrite (find_set_slot ve t i s s')).
    rewrite on_slot_put by done. destruct (on_slot be (Some j) t) as [t2| | |] eqn:E2; try done.
    destruct (Hxbody t2 eq_refl) as (x' & Hidx & ->). cbn [fmap outcome_fmap mbind outcome_bind].
    unfold upserts, get_or_create. change (put_slot t j x' (count_ t)) with
      {| slots_ := <[j := x']> (slots_ t); count_ := count_ t |}.
    rewrite (find_set_slot vn t j x x') by done. rewrite Hfn. cbn [mbind outcome_bind fst snd].
    unfold on_slot. cbn [slots_ count_]. rewrite list_lookup_insert_ne, Hs by done. rewrite Hb. done.
  - (* no slot left: nothing is made *)
    rewrite (updates_at ve be t j Hfe). destruct (on_slot be (Some j) t) as [t2| | |] eqn:E2; try done.
    destruct (Hxbody t2 eq_refl) as (x' & Hidx & ->). cbn [mbind outcome_bind].
    unfold upserts, get_or_create. change (put_slot t j x' (count_ t)) with
      {| slots_ := <[j := x']> (slots_ t); count_ := count_ t |}.
    rewrite (find_set_slot vn t j x x') by done. rewrite Hfn. cbn [mbind outcome_bind count_].
    by rewrite decide_True.
  - (* a slot is made *)
    assert (count_ t ≠ j) by lia.
    rewrite (updates_at ve be _ j) by (by apply find_alloc_slot).
    rewrite on_slot_put by done. destruct (on_slot be (Some j) t) as [t2| | |] eqn:E2; try done.
    destruct (Hxbody t2 eq_refl) as (x' & Hidx & ->). cbn [fmap outcome_fmap mbind outcome_bind].
    unfold upserts, get_or_create. change (put_slot t j x' (count_ t)) with
      {| slots_ := <[j := x']> (slots_ t); count_ := count_ t |}.
    rewrite (find_set_slot vn t j x x') by done. rewrite Hfn. cbn [mbind outcome_bind count_].
    rewrite decide_False by lia. rewrite strncpy_spec by done. fold (key vn).
    cbn [mbind outcome_bind fst snd on_slot slots_ count_].
    rewrite list_lookup_insert_eq by (rewrite length_insert, (tw_length _ Hwf); lia). rewrite Hb.
    cbn [mbind outcome_bind]. unfold put_slot. cbn [slots_ count_]. by rewrite list_insert_insert_eq.
Qed.

(** ** Slots stay where they are *)

Definition slot_keys t : list (list char) := slot_key <$> live t.

Lemma updates_keys v body t t' :
  keeps_id body → updates v body t = Ok t' → slot_keys t' = slot_keys t.
Proof.
  intros Hkeep (p & Hf & Hon)%bind_Ok. destruct p as [i|]; [|by injection Hon as <-].
  unfold on_slot in Hon. destruct (slots_ t !! i) as [s|] eqn:Hs; [|done].
  apply bind_Ok in Hon as (s' & Hb & [= <-]). unfold slot_keys. rewrite live_set.
  destruct (decide (i < count_ t)) as [Hi|Hi]; [by apply (set_slot_keys t i s), Hkeep|].
  rewrite list_insert_ge; [done|]. unfold live. rewrite length_take. lia.
Qed.

Lemma upserts_keys v body t :
  table_wf t → sv_ok v = true → (∀ s, ∃ s', body s = Ok s') → keeps_id body →
  ∃ t' ks, upserts v body t = Ok t' ∧ slot_keys t' = slot_keys t ++ ks.
Proof.
  intros Hwf Hv Htot Hkeep.
  destruct (upserts_cases v body t Hwf Hv Htot Hkeep)
    as [(i & s & s' & _ & Hi & Hs & _ & Hid & _ & ->)|[(_ & _ & ->)|(s' & _ & Hroom & _ & _ & ->)]].
  - eexists _, []. split; [done|]. unfold slot_keys, put_slot. rewrite live_set, app_nil_r.
    by apply (set_slot_keys t i s).
  - exists t, []. by rewrite app_nil_r.
  - eexists _, [slot_key s']. split; [done|]. unfold slot_keys, put_slot.
    rewrite live_alloc by done. by rewrite fmap_app.
Qed.

(** The same for a body that may fail, when it does not. *)
Lemma upserts_keys_Ok v body t t' :
  table_wf t → sv_ok v = true → keeps_id body → upserts v body t = Ok t' →
  ∃ ks, slot_keys t' = slot_keys t ++ ks.
Proof.
  intros Hwf Hv Hkeep Hrun.
  set (total s := match body s with Ok s' => Ok s' | _ => Ok s end).
  assert (Htot : upserts v total t = Ok t').
  { apply bind_Ok in Hrun as (r & Hr & Hon). unfold upserts. rewrite Hr. cbn [mbind outcome_bind].
    unfold on_slot in *. destruct r.1 as [i|]; [|done]. destruct (slots_ r.2 !! i) as [s|]; [|done].
    apply bind_Ok in Hon as (s' & Hs' & Hon). unfold total. by rewrite Hs'. }
  destruct (upserts_keys v total t Hwf Hv) as (t1 & ks & Heq & Hks).
  - intros s. unfold total. destruct (body s); eauto.
  - intros s s' Hs. unfold total in Hs. destruct (body s) as [x| | |] eqn:Hb; injection Hs as <-; [|done..].
    by apply Hkeep.
  - exists ks. congruence.
Qed.

(** What was found is found again, where it was. *)
Lemma find_stays v i t t' ks :
  table_wf t → table_wf t' → slot_keys t' = slot_keys t ++ ks → sv_ok v = true →
  find v t = Ok (Some i) →
  find v t' = Ok (Some i) ∧ ∃ s, slots_ t' !! i = Some s ∧ slot_key s = key v.
Proof.
  intros Hwf Hwf' Hks Hv Hf. destruct (find_spec v t Hwf Hv) as (r & Hr & Hspec).
  assert (r = Some i) as -> by congruence. destruct Hspec as (Hi & s & Hs & Hkey & _).
  assert (Hat : slot_keys t' !! i = Some (key v)).
  { rewrite Hks. apply lookup_app_l_Some. unfold slot_keys. rewrite list_lookup_fmap.
    rewrite (proj2 (live_lookup t i s)) by done. exact (f_equal Some Hkey). }
  destruct (find_spec v t' Hwf' Hv) as ([j|] & -> & Hspec').
  - destruct Hspec' as (Hj & s' & Hs' & Hkey' & _). assert (j = i) as ->; [|by split; [|exists s']].
    apply (NoDup_lookup (slot_keys t') j i (key v)); [apply (tw_nodup _ Hwf')| |done].
    unfold slot_keys. rewrite list_lookup_fmap, (proj2 (live_lookup t' j s')) by done.
    exact (f_equal Some Hkey').
  - unfold slot_keys in Hat. rewrite list_lookup_fmap in Hat.
    apply fmap_Some in Hat as (s' & Hs' & Hk%eq_sym).
    exfalso. rewrite (table_map_None t' _ Hwf') in Hspec'. by apply (Hspec' s'), Hk; eapply list_elem_of_lookup_2.
Qed.

(** Along a sequence of events that keep the keys. *)
Lemma fold_slot_keys (P : OrderEvent → Prop) (f : OrderEvent → table A → outcome (table A)) es t t' :
  (∀ e t t', table_wf t → P e → f e t = Ok t' → table_wf t' ∧ ∃ ks, slot_keys t' = slot_keys t ++ ks) →
  Forall P es → table_wf t → foldO f es t = Ok t' →
  table_wf t' ∧ ∃ ks, slot_keys t' = slot_keys t ++ ks.
Proof.
  intros Hf Hes. revert t. induction Hes as [|e es He _ IH]; intros t Hwf Hrun; cbn in Hrun.
  { injection Hrun as <-. split; [done|]. exists []. by rewrite app_nil_r. }
  apply bind_Ok in Hrun as (t1 & H1 & Hrun). destruct (Hf e t t1 Hwf He H1) as (Hwf1 & ks1 & Hk1).
  destruct (IH t1 Hwf1 Hrun) as (Hwf' & ks2 & Hk2). split; [done|].
  exists (ks1 ++ ks2). by rewrite Hk2, Hk1, app_assoc.
Qed.
End Updates.

(** ** The order manager *)

Lemma new_order_total e : ids_ok e → ∀ o, ∃ o', new_order e o = Ok o'.
Proof.
  intros [_ Hs] o. unfold new_order. rewrite strncpy_spec by (apply readable_length; lia). cbn. eauto.
Qed.

(** The manager's handlers are an upsert or an update. *)
Lemma manager_new_upserts e v t :
  oe_type e = NewOrder → order_id_view e = Ok v →
  OrderManager.apply_event e t = upserts v (new_order e) t.
Proof. intros Ht Hv. unfold OrderManager.apply_event, OrderManager.handle_new. by rewrite Ht, Hv. Qed.

Lemma manager_other_updates e v t :
  ids_ok e → table_wf t → oe_type e ≠ NewOrder → order_id_view e = Ok v →
  OrderManager.apply_event e t = updates v (order_step e) t.
Proof.
  intros He Hwf Ht Hv. pose proof (order_id_view_ok e He) as (v' & Hv' & Hok & _).
  assert (v' = v) as -> by congruence.
  unfold OrderManager.apply_event, OrderManager.handle_fill, OrderManager.handle_cancel,
    OrderManager.handle_reject, OrderManager.handle_amend, OrderManager.find, updates, order_step. rewrite Hv.
  destruct (oe_type e); try done. cbn [mbind outcome_bind].
  destruct (find_spec v t Hwf Hok) as ([i|] & -> & Hspec); [|done]. cbn [mbind outcome_bind].
  destruct Hspec as (_ & s & Hs & _). cbn. rewrite Hs. cbn.
  rewrite list_insert_id by done. by destruct t.
Qed.

(** A new order and an event of another order may be applied in either order. *)
Lemma manager_commute n e t :
  table_wf t → ids_ok n → ids_ok e → oe_type n = NewOrder → oe_type e ≠ NewOrder →
  order_key n ≠ order_key e →
  OrderManager.apply_event n t ≫= OrderManager.apply_event e
    = OrderManager.apply_event e t ≫= OrderManager.apply_event n.
Proof.
  intros Hwf Hn He Htn Hte Hne.
  destruct (order_id_view_ok n Hn) as (vn & Hvn & Hokn & Hkn).
  destruct (order_id_view_ok e He) as (ve & Hve & Hoke & Hke).
  destruct (manager_apply_event n t Hn Hwf) as [_ Hwfn].
  transitivity (upserts vn (new_order n) t ≫= updates ve (order_step e)).
  { rewrite (manager_new_upserts n vn t) in * by done.
    destruct (upserts vn (new_order n) t) as [t1| | |]; try done.
    cbn [mbind outcome_bind]. apply manager_other_updates; [done|by apply Hwfn|done..]. }
  rewrite upserts_updates_commute; [|done..| |by apply new_order_total| |].
  - rewrite (manager_other_updates e ve t) by done. apply bind_ext. intros t1.
    symmetry. by apply manager_new_upserts.
  - by rewrite Hkn, Hke.
  - pose proof (order_step_keeps_id n) as Hk. unfold order_step in Hk. by rewrite Htn in Hk.
  - apply order_step_keeps_id.
Qed.

(** No event moves a slot. *)
Lemma manager_slot_keys e t t' :
  table_wf t → ids_ok e → OrderManager.apply_event e t = Ok t' →
  ∃ ks, slot_keys t' = slot_keys t ++ ks.
Proof.
  intros Hwf He Hrun. destruct (order_id_view_ok e He) as (v & Hv & Hok & _).
  pose proof (order_step_keeps_id e) as Hkeep.
  destruct (decide (oe_type e = NewOrder)) as [Ht|Ht].
  - rewrite (manager_new_upserts e v) in Hrun by done.
    unfold order_step in Hkeep. rewrite Ht in Hkeep.
    destruct (upserts_keys v (new_order e) t Hwf Hok) as (t1 & ks & Heq & Hks);
      [by apply new_order_total|done|]. exists ks. congruence.
  - rewrite (manager_other_updates e v) in Hrun by done. exists [].
    rewrite app_nil_r. by eapply updates_keys.
Qed.

Lemma tracker_slot_keys e t t' :
  table_wf t → symbol_ok e → PositionTracker.apply_event e t = Ok t' →
  table_wf t' ∧ ∃ ks, slot_keys t' = slot_keys t ++ ks.
Proof.
  intros Hwf He Hrun. destruct (apply_event_tracks e t He Hwf) as [_ Hwf'].
  split; [by apply Hwf'|]. unfold PositionTracker.apply_event in Hrun.
  destruct (is_fill e); cbn [negb] in Hrun.
  - apply bind_Ok in Hrun as (v & Hv & Hrun). assert (Hok : sv_ok v = true).
    { unfold symbol_view in Hv. rewrite array_view_ok in Hv. injection Hv as <-.
      apply readable_length. cbn. unfold symbol_ok in He. lia. }
    by apply (upserts_keys_Ok v (apply_fill e)); [| |apply apply_fill_keeps_id|].
  - injection Hrun as <-. exists []. by rewrite app_nil_r.
Qed.

(** ** Property *)

(** C38. Slots never move: the arrays are never compacted or reused, so that the pointer that
    a search for a symbol, or for an order, has returned stays good whatever events come
    later (the risk check keeps one across its reads): the search finds the same slot
    again, and the slot still belongs to the symbol, or to the order. *)
Theorem slots_never_move es es' :
  Forall (λ e, symbol_ok e ∧ ids_ok e) (es ++ es') →
  (∀ t t' sym i, foldO PositionTracker.apply_event es PositionTracker.init = Ok t →
     foldO PositionTracker.apply_event es' t = Ok t' → sv_ok sym = true →
     find sym t = Ok (Some i) →
     find sym t' = Ok (Some i) ∧ ∃ p, slots_ t' !! i = Some p ∧ slot_key p = key sym) ∧
  (∀ o o' oid i, foldO OrderManager.apply_event es OrderManager.init = Ok o →
     foldO OrderManager.apply_event es' o = Ok o' → sv_ok oid = true →
     OrderManager.find oid o = Ok (Some i) →
     OrderManager.find oid o' = Ok (Some i) ∧ ∃ x, slots_ o' !! i = Some x ∧ slot_key x = key oid).
Proof.
  intros [Hes Hes']%Forall_app. split.
  - intros t t' sym i Ht Ht' Hs Hf.
    destruct (tracker_fold es t) as [Hwf _]; [eapply Forall_impl; [exact Hes|]; by intros e []|done|].
    destruct (fold_slot_keys symbol_ok PositionTracker.apply_event es' t t') as (Hwf' & ks & Hks);
      [by intros; apply tracker_slot_keys with e|eapply Forall_impl; [exact Hes'|]; by intros e []|done..|].
    exact (find_stays sym i t t' ks Hwf Hwf' Hks Hs Hf).
  - intros o o' oid i Ho Ho' Hs Hf.
    destruct (manager_fold es o) as [Hwf _]; [eapply Forall_impl; [exact Hes|]; by intros e []|done|].
    destruct (fold_slot_keys ids_ok OrderManager.apply_event es' o o') as (Hwf' & ks & Hks);
      [|eapply Forall_impl; [exact Hes'|]; by intros e []|done..|exact (find_stays oid i o o' ks Hwf Hwf' Hks Hs Hf)].
    intros e x x' Hx He Hrun. split; [by eapply manager_apply_event|by eapply manager_slot_keys].
Qed.

(** Two books of two; then each of them loses one, gains one, or changes one. *)
Definition books_before : list OrderEvent :=
  [sample_new "O1" Buy 100 175000000; sample_new "O2" Buy 50 175000000;
   sample_fill "AAPL" Buy 100 175000000; sample_event FullFill "MSFT" "O2" Buy 50 175000000].
Definition books_after : list OrderEvent :=
  [sample_cancel "O1"; sample_new "O3" Sell 10 175000000;
   sample_fill "AAPL" Sell 100 175000000; sample_event FullFill "GOOG" "O3" Sell 10 175000000].

Definition found_at {A} `{Slot A} (v : string_view) (i : nat) (t : table A) : bool :=
  match find v t with Ok (Some j) => Nat.eqb j i | _ => false end.
Lemma found_at_eq {A} `{Slot A} v i (t : table A) : found_at v i t = true → find v t = Ok (Some i).
Proof. unfold found_at. destruct (find v t) as [[j|]| | |]; try done. by intros ->%Nat.eqb_eq. Qed.

Lemma slots_never_move_witness :
  ∃ t t' o o', foldO PositionTracker.apply_event books_before PositionTracker.init = Ok t ∧
    foldO PositionTracker.apply_event books_after t = Ok t' ∧
    find (sv_of_string (lit "MSFT")) t' = Ok (Some 1%nat) ∧
    foldO OrderManager.apply_event books_before OrderManager.init = Ok o ∧
    foldO OrderManager.apply_event books_after o = Ok o' ∧
    OrderManager.find (sv_of_string (lit "O2")) o' = Ok (Some 1%nat).
Proof.
  set (msft := sv_of_string (lit "MSFT")). set (o2 := sv_of_string (lit "O2")).
  destruct (slots_never_move books_before books_after) as [Ht Ho]; [repeat constructor|].
  destruct (Ok_ex (foldO PositionTracker.apply_event books_before PositionTracker.init)) as [t Et];
    [vm_compute; reflexivity|].
  destruct (Ok_ex (foldO OrderManager.apply_event books_before OrderManager.init)) as [o Eo];
    [vm_compute; reflexivity|].
  assert (Ht' : is_Ok (foldO PositionTracker.apply_event books_after t) = true)
    by (apply (Ok_check _ t (λ t, is_Ok (foldO PositionTracker.apply_event books_after t)) Et);
        vm_compute; reflexivity).
  assert (Ho' : is_Ok (foldO OrderManager.apply_event books_after o) = true)
    by (apply (Ok_check _ o (λ o, is_Ok (foldO OrderManager.apply_event books_after o)) Eo);
        vm_compute; reflexivity).
  assert (Hft : found_at msft 1 t = true)
    by (apply (Ok_check _ t (found_at msft 1) Et); vm_compute; reflexivity).
  assert (Hfo : found_at o2 1 o = true)
    by (apply (Ok_check _ o (found_at o2 1) Eo); vm_compute; reflexivity).
  apply found_at_eq in Hft, Hfo.
  apply Ok_ex in Ht' as [t' Et']. apply Ok_ex in Ho' as [o' Eo'].
  exists t, t', o, o'. split; [exact Et|]. split; [exact Et'|].
  split; [exact (proj1 (Ht t t' msft 1%nat Et Et' eq_refl Hft))|].
  split; [exact Eo|]. split; [exact Eo'|]. exact (proj1 (Ho o o' o2 1%nat Eo Eo' eq_refl Hfo)).
Defined.
