(* ===== verification/Writes.v ===== *)
(** * [Writes]: the order manager between two memory writes

    [OrderManager::apply_event] as the machine performs it: one store at a time, in the
    order of the source.  A signal handler may interrupt the thread between any two of
    them and read the orders; so may the other thread, where the machine does not
    reorder stores.  What such a reader sees of the open exposure and of the orders to
    cancel. *)

From S2P Require Import Prelude CString OrderEvent EventLog SlotTable PositionTracker OrderManager.
From S2P Require Import Projection Commute.

Local Open Scope Z_scope.

(** ** Stores *)

(** A store into an order; the characters of the arrays one by one. *)
Inductive order_store : Type :=
  | St_clear                                (* memset of the slot *)
  | St_order_id (k : nat) (c : char)
  | St_symbol (k : nat) (c : char)
  | St_state (s : OrderState)
  | St_side (s : Side)
  | St_limit_price (z : Z)
  | St_original_qty (z : Z)
  | St_filled_qty (z : Z)
  | St_avg_fill_price (z : Z)
  | St_opened_seq (z : Z)
  | St_last_seq (z : Z).

Definition store_in (st : order_store) (o : Order) : Order :=
  let '{| o_order_id := oid; o_symbol := sym; o_limit_price := px; o_avg_fill_price := avg;
          o_opened_seq := opened; o_last_seq := last; o_original_qty := orig;
          o_filled_qty := filled; o_state := state; o_side := side |} := o in
  match st with
  | St_clear => Order_fresh (replicate 8 NUL)
  | St_order_id k c => Build_Order (<[k := c]> oid) sym px avg opened last orig filled state side
  | St_symbol k c => Build_Order oid (<[k := c]> sym) px avg opened last orig filled state side
  | St_state s => Build_Order oid sym px avg opened last orig filled s side
  | St_side s => Build_Order oid sym px avg opened last orig filled state s
  | St_limit_price z => Build_Order oid sym z avg opened last orig filled state side
  | St_original_qty z => Build_Order oid sym px avg opened last z filled state side
  | St_filled_qty z => Build_Order oid sym px avg opened last orig z state side
  | St_avg_fill_price z => Build_Order oid sym px z opened last orig filled state side
  | St_opened_seq z => Build_Order oid sym px avg z last orig filled state side
  | St_last_seq z => Build_Order oid sym px avg opened z orig filled state side
  end.

Definition run_order (ws : list order_store) (o : Order) : Order := foldl (flip store_in) o ws.

(** [handle_new] on the slot it got. *)
Definition new_symbol_stores (e : OrderEvent) : outcome (list order_store) :=
  symbol ← strncpy (oe_symbol e) 8; Ok (imap St_symbol symbol).
Definition new_field_stores (e : OrderEvent) : list order_store :=
  [St_state Pending; St_side (oe_side e); St_limit_price (oe_price e);
   St_original_qty (oe_qty e); St_filled_qty 0; St_avg_fill_price 0;
   St_opened_seq (oe_sequence e); St_last_seq (oe_sequence e)].

(** [handle_fill]; [remaining_qty] reads the quantity just stored. *)
Definition fill_stores (e : OrderEvent) (o : Order) : outcome (list order_store) :=
  prev_cost ← i64 (o_avg_fill_price o * o_filled_qty o);
  fill_cost ← i64 (oe_fill_price e * oe_fill_qty e);
  new_filled ← i32 (o_filled_qty o + oe_fill_qty e);
  avg ← (if 0 <? new_filled
         then cost ← i64 (prev_cost + fill_cost); div64 cost new_filled
         else Ok 0);
  remaining ← i32 (o_original_qty o - new_filled);
  Ok [St_avg_fill_price avg; St_filled_qty new_filled; St_last_seq (oe_sequence e);
      St_state (if remaining <=? 0 then Filled else PartiallyFilled)].

(** [handle_cancel], [handle_reject] *)
Definition close_stores (s : OrderState) (e : OrderEvent) : list order_store :=
  [St_state s; St_last_seq (oe_sequence e)].

(** [handle_amend] *)
Definition amend_stores (e : OrderEvent) : list order_store :=
  (if 0 <? oe_qty e then [St_original_qty (oe_qty e)] else []) ++
  (if 0 <? oe_price e then [St_limit_price (oe_price e)] else []) ++
  [St_last_seq (oe_sequence e)].

Definition order_stores (e : OrderEvent) (o : Order) : outcome (list order_store) :=
  match oe_type e with
  | NewOrder => symbols ← new_symbol_stores e; Ok (symbols ++ new_field_stores e)
  | PartialFill | FullFill => fill_stores e o
  | Cancel => Ok (close_stores Cancelled e)
  | Reject => Ok (close_stores Rejected e)
  | Amend => Ok (amend_stores e)
  | EventType_raw _ => Ok []
  end.

(** A store into the manager: [count_] or a slot. *)
Inductive book_store : Type :=
  | St_count (n : nat)
  | St_slot (i : nat) (st : order_store).

Definition store_book (b : book_store) (t : OrderManager.t) : OrderManager.t :=
  match b with
  | St_count n => {| slots_ := slots_ t; count_ := n |}
  | St_slot i st => {| slots_ := alter (store_in st) i (slots_ t); count_ := count_ t |}
  end.
Definition run_book (bs : list book_store) (t : OrderManager.t) : OrderManager.t :=
  foldl (flip store_book) t bs.

(** [get_or_create] of a key that is not there: [slots_[count_++]], the [memset], the
    characters of the key. *)
Definition create_stores (n : nat) (k : list char) : list book_store :=
  St_count (S n) :: map (St_slot n) (St_clear :: imap St_order_id k).

(** The byte of the event's type names an enumerator. *)
Definition named_event (e : OrderEvent) : bool :=
  match oe_type e with EventType_raw _ => false | _ => true end.

(** The stores of [apply_event]. *)
Definition book_stores (e : OrderEvent) (t : OrderManager.t) : outcome (list book_store) :=
  if negb (named_event e) then Ok [] else
  v ← order_id_view e;
  p ← OrderManager.find v t;
  match p with
  | Some i =>
      match slots_ t !! i with
      | None => UB
      | Some o => ws ← order_stores e o; Ok (map (St_slot i) ws)
      end
  | None =>
      if decide (oe_type e = NewOrder ∧ (count_ t < MAX_ORDERS)%nat) then
        k ← strncpy (sv_data v) 8;
        ws ← order_stores e (Order_fresh k);
        Ok (create_stores (count_ t) k ++ map (St_slot (count_ t)) ws)
      else Ok []
  end.

(** ** One order *)

Ltac eight s :=
  do 8 (destruct s as [|? s]; [discriminate|]); destruct s; [|discriminate].

Lemma run_symbol_stores s o :
  length s = 8%nat → length (o_symbol o) = 8%nat →
  run_order (imap St_symbol s) o
  = Build_Order (o_order_id o) s (o_limit_price o) (o_avg_fill_price o) (o_opened_seq o)
      (o_last_seq o) (o_original_qty o) (o_filled_qty o) (o_state o) (o_side o).
Proof. destruct o as [oid sym]. cbn. intros Hs Ho. by eight s; eight sym. Qed.

Lemma run_id_stores k :
  length k = 8%nat → run_order (imap St_order_id k) (Order_fresh (replicate 8 NUL)) = Order_fresh k.
Proof. intros Hk. by eight k. Qed.

(** The stores are the handler. *)
Lemma run_order_app ws ws' o : run_order (ws ++ ws') o = run_order ws' (run_order ws o).
Proof. apply foldl_app. Qed.

Lemma event_symbol e : ids_ok e → ∃ s, strncpy (oe_symbol e) 8 = Ok s ∧ length s = 8%nat.
Proof.
  intros [_ Hsym]. rewrite strncpy_spec by (apply readable_length; lia).
  eexists. split; [done|]. apply pad_length, cstr_length.
Qed.

Lemma fill_stores_step e o : (λ ws, run_order ws o) <$> fill_stores e o = fill_order e o.
Proof.
  unfold fill_stores, fill_order, fmap, outcome_fmap.
  repeat (rewrite bind_assoc; apply bind_ext; intros ?). by destruct o.
Qed.

Lemma order_stores_step e o :
  ids_ok e → length (o_symbol o) = 8%nat →
  (λ ws, run_order ws o) <$> order_stores e o = order_step e o.
Proof.
  intros He Ho. unfold order_stores, order_step. destruct (oe_type e).
  - destruct (event_symbol e He) as (s & Hs & Hlen).
    unfold new_symbol_stores, new_order. rewrite Hs.
    change (Ok (run_order (imap St_symbol s ++ new_field_stores e) o)
      = Ok (run_order (new_field_stores e) (Build_Order (o_order_id o) s (o_limit_price o)
          (o_avg_fill_price o) (o_opened_seq o) (o_last_seq o) (o_original_qty o) (o_filled_qty o)
          (o_state o) (o_side o)))).
    by rewrite run_order_app, run_symbol_stores.
  - apply fill_stores_step.
  - apply fill_stores_step.
  - by destruct o.
  - by destruct o.
  - unfold amend_stores, amend_order. destruct o. cbn.
    by destruct (0 <? oe_qty e), (0 <? oe_price e).
  - done.
Qed.

(** ** What a reader sees of one order *)

(** [o1] stands between [o] and [o']: its exposure is that of one of them; open, it
    bears the names of [o'] and one of their sides; and it is open if both are. *)
Record between (o o1 o' : Order) : Prop := {
  bt_exposure : (∀ k, exposure_of k o1 = exposure_of k o) ∨ (∀ k, exposure_of k o1 = exposure_of k o');
  bt_shown : is_open o1 = true → o_order_id o1 = o_order_id o' ∧ o_symbol o1 = o_symbol o' ∧
             (o_side o1 = o_side o ∨ o_side o1 = o_side o');
  bt_open : is_open o = true → is_open o' = true → is_open o1 = true;
}.

Lemma between_before o o' :
  o_order_id o = o_order_id o' → o_symbol o = o_symbol o' ∨ is_open o = false → between o o o'.
Proof. intros Hid [Hsym|Hno]; split; auto; congruence. Qed.

Lemma between_after o o' : between o o' o'.
Proof. split; auto. Qed.

(** The parts of the order that exposure depends on. *)
Lemma exposure_same k o o' :
  o_symbol o' = o_symbol o → is_open o' = is_open o → o_side o' = o_side o →
  o_original_qty o' - o_filled_qty o' = o_original_qty o - o_filled_qty o →
  exposure_of k o' = exposure_of k o.
Proof. unfold exposure_of. intros -> -> -> ->. done. Qed.

Lemma exposure_closed k o : is_open o = false → exposure_of k o = 0.
Proof. unfold exposure_of. by intros ->. Qed.

Lemma exposure_done k o : o_original_qty o = o_filled_qty o → exposure_of k o = 0.
Proof. unfold exposure_of. intros ->. case_match; [|done]. case_decide; lia. Qed.

(** A fill: the average, the quantity, the sequence number, the state. *)
Lemma fill_between e o ws n :
  fill_stores e o = Ok ws →
  (is_open o = true → o_filled_qty o + oe_fill_qty e <= o_original_qty o) →
  between o (run_order (take n ws) o) (run_order ws o).
Proof.
  intros Hws Hover. unfold fill_stores in Hws. ok_inv.
  destruct o as [oid sym px avg opened last orig filled state side]. cbn [o_filled_qty o_original_qty] in *.
  destruct n as [|[|n]]; [apply between_before; [done|by left]| |].
  { split; cbn; [by left|by auto|done]. }
  destruct n as [|[|n]]; [..|by rewrite take_ge by (cbn; lia); apply between_after].
  all: split; cbn; [|by auto|done].
  all: destruct (state_open state) eqn:Hst;
    [right; intros k|left; intros k; by rewrite !exposure_closed].
  all: specialize (Hover Hst); destruct (Z.leb_spec (orig - (filled + oe_fill_qty e)) 0);
    [rewrite (exposure_closed k (Build_Order _ _ _ _ _ _ _ _ Filled _)) by done;
     apply exposure_done; cbn; lia
    |apply exposure_same; done].
Qed.

Lemma close_between s e o n :
  state_open s = false →
  between o (run_order (take n (close_stores s e)) o) (run_order (close_stores s e) o).
Proof.
  intros Hs. destruct o as [oid sym px avg opened last orig filled state side].
  destruct n as [|[|n]]; [apply between_before; [done|by left]| |
    by rewrite take_ge by (cbn; lia); apply between_after].
  split; cbn; [|by auto|done]. right. intros k. by rewrite !exposure_closed.
Qed.

Lemma amend_between e o n :
  between o (run_order (take n (amend_stores e)) o) (run_order (amend_stores e) o).
Proof.
  destruct (decide (length (amend_stores e) ≤ n)%nat) as [Hn|Hn];
    [by rewrite take_ge by done; apply between_after|].
  destruct o as [oid sym px avg opened last orig filled state side]. unfold amend_stores in *.
  destruct (0 <? oe_qty e), (0 <? oe_price e), n as [|[|[|n]]]; cbn in *; try lia;
    (split; cbn; [first [by left|by right]|by auto|done]).
Qed.

(** Stores into the arrays of a slot do not open it. *)
Definition quiet_store (st : order_store) : bool :=
  match st with St_clear | St_order_id _ _ | St_symbol _ _ => true | _ => false end.

Lemma quiet_stores_closed ws o :
  Forall (λ st, quiet_store st = true) ws → is_open o = false → is_open (run_order ws o) = false.
Proof.
  intros Hws. revert o. induction Hws as [|st ws Hst _ IH]; intros o Ho; [done|].
  apply IH. destruct o, st; done.
Qed.

Lemma imap_quiet (f : nat → char → order_store) s :
  (∀ k c, quiet_store (f k c) = true) → Forall (λ st, quiet_store st = true) (imap f s).
Proof. intros Hf. apply Forall_lookup. intros i st. rewrite list_lookup_imap. intros (c & _ & ->)%fmap_Some. apply Hf. Qed.

(** A slot from the array's zeros to a pending order. *)
Definition zero_order : Order := Order_fresh (replicate 8 NUL).
Definition naming_stores (k s : list char) : list order_store :=
  St_clear :: imap St_order_id k ++ imap St_symbol s.
Definition named_order (k s : list char) : Order :=
  Build_Order k s 0 0 0 0 0 0 (OrderState_raw 0) (Side_raw 0).

Lemma run_naming_stores k s :
  length k = 8%nat → length s = 8%nat → run_order (naming_stores k s) zero_order = named_order k s.
Proof.
  intros Hk Hs. unfold naming_stores.
  change (run_order (imap St_order_id k ++ imap St_symbol s) zero_order = named_order k s).
  unfold zero_order. by rewrite run_order_app, run_id_stores, run_symbol_stores.
Qed.

Lemma new_between e k s n :
  length k = 8%nat → length s = 8%nat →
  let ws := naming_stores k s ++ new_field_stores e in
  between zero_order (run_order (take n ws) zero_order) (run_order ws zero_order).
Proof.
  intros Hk Hs ws. unfold ws. rewrite take_app.
  destruct (decide (n ≤ length (naming_stores k s))%nat) as [Hn|Hn].
  - rewrite (proj2 (Nat.sub_0_le _ _)) by done. rewrite app_nil_r.
    assert (Hno : is_open (run_order (take n (naming_stores k s)) zero_order) = false).
    { apply quiet_stores_closed; [|done]. apply Forall_take. constructor; [done|].
      apply Forall_app. split; by apply imap_quiet. }
    split; [|by rewrite Hno|done]. left. intros x. by rewrite !exposure_closed.
  - rewrite take_ge by lia. set (m := (n - _)%nat). rewrite !run_order_app, run_naming_stores by done.
    destruct (decide (8 ≤ m)%nat) as [Hm|Hm];
      [rewrite (take_ge (new_field_stores e)) by (cbn; lia); apply between_after|].
    destruct m as [|[|[|[|[|[|[|[|m]]]]]]]]; try lia; cbn;
      (split; cbn; [|by auto|done]);
      first [left; intros x; rewrite ?(exposure_done x) by done; by rewrite ?exposure_closed
            |right; intros x; by apply exposure_same].
Qed.

(** ** The stores of the manager *)

Lemma alter_insert_list {A} (f : A → A) i (l : list A) x : l !! i = Some x → alter f i l = <[i := f x]> l.
Proof.
  revert i. induction l as [|y l IH]; intros [|i] Hi; try done; [by injection Hi as ->|].
  change (y :: alter f i l = y :: <[i := f x]> l). by rewrite IH.
Qed.

Lemma run_book_slot i o ws t :
  slots_ t !! i = Some o →
  run_book (map (St_slot i) ws) t = {| slots_ := <[i := run_order ws o]> (slots_ t); count_ := count_ t |}.
Proof.
  revert o t. induction ws as [|st ws IH]; intros o t Ho.
  - cbn. rewrite list_insert_id by done. by destruct t.
  - change (run_book (map (St_slot i) ws)
      {| slots_ := alter (store_in st) i (slots_ t); count_ := count_ t |} = 
      {| slots_ := <[i := run_order ws (store_in st o)]> (slots_ t); count_ := count_ t |}).
    rewrite (alter_insert_list _ i _ o) by done.
    rewrite (IH (store_in st o)) by (cbn; by apply list_lookup_insert_eq, (lookup_lt_Some _ _ _ Ho)).
    cbn. by rewrite list_insert_insert_eq.
Qed.

Lemma run_book_new x ws t :
  slots_ t !! count_ t = Some x →
  run_book (St_count (S (count_ t)) :: map (St_slot (count_ t)) ws) t
    = {| slots_ := <[count_ t := run_order ws x]> (slots_ t); count_ := S (count_ t) |}.
Proof.
  intros Hx. set (t0 := {| slots_ := slots_ t; count_ := S (count_ t) |}).
  exact (run_book_slot (count_ t) x ws t0 Hx).
Qed.

Lemma on_slot_stores e t i o :
  ids_ok e → length (o_symbol o) = 8%nat → slots_ t !! i = Some o →
  (λ bs, run_book bs t) <$> (ws ← order_stores e o; Ok (map (St_slot i) ws))
    = on_slot (order_step e) (Some i) t.
Proof.
  intros He Hsym Ho. cbn [on_slot]. rewrite Ho, <- (order_stores_step e o) by done.
  destruct (order_stores e o) as [ws| | |]; try done.
  cbn [mbind outcome_bind fmap outcome_fmap]. by rewrite (run_book_slot i o).
Qed.

(** The free slot is created by the first stores. *)
Lemma create_slot_stores e t k x :
  ids_ok e → oe_type e = NewOrder → length k = 8%nat → slots_ t !! count_ t = Some x →
  ∃ s, length s = 8%nat ∧
    (ws ← order_stores e (Order_fresh k); Ok (create_stores (count_ t) k ++ map (St_slot (count_ t)) ws))
      = Ok (St_count (S (count_ t)) :: map (St_slot (count_ t)) (naming_stores k s ++ new_field_stores e)) ∧
    order_step e (Order_fresh k) = Ok (run_order (naming_stores k s ++ new_field_stores e) x).
Proof.
  intros He Ht Hk Hx. destruct (event_symbol e He) as (s & Hs & Hlen). exists s. split; [done|]. split.
  - unfold order_stores. rewrite Ht. unfold new_symbol_stores. rewrite Hs.
    cbn [mbind outcome_bind]. unfold create_stores, naming_stores.
    rewrite <- app_comm_cons, <- (List.map_app (St_slot (count_ t))). do 3 f_equal.
    cbn [app]. by rewrite app_assoc.
  - rewrite <- (order_stores_step e) by done. unfold order_stores. rewrite Ht.
    unfold new_symbol_stores. rewrite Hs. cbn [mbind outcome_bind fmap outcome_fmap].
    f_equal. rewrite !run_order_app.
    assert (run_order (naming_stores k s) x = run_order (naming_stores k s) zero_order) as ->
      by (by destruct x).
    by rewrite run_naming_stores, run_symbol_stores.
Qed.

(** Program order loses nothing: all the stores together are [apply_event]. *)
Lemma book_stores_apply e t :
  table_wf t → symbols_ok t → ids_ok e →
  (λ bs, run_book bs t) <$> book_stores e t = OrderManager.apply_event e t.
Proof.
  intros Hwf Hsym He. destruct (order_id_view_ok e He) as (v & Hv & Hok & _).
  unfold book_stores. destruct (named_event e) eqn:Hnamed; cycle 1.
  { unfold named_event in Hnamed. unfold OrderManager.apply_event. by destruct (oe_type e). }
  rewrite Hv. cbn [negb mbind outcome_bind].
  assert (Hslot : ∀ i o, (i < count_ t)%nat → slots_ t !! i = Some o → length (o_symbol o) = 8%nat).
  { intros i o Hi Ho. apply Hsym, (list_elem_of_lookup_2 _ i), live_lookup. done. }
  destruct (decide (oe_type e = NewOrder)) as [Hn|Hn].
  - rewrite (manager_new_upserts e v t Hn Hv).
    unfold upserts, OrderManager.find, get_or_create.
    destruct (find_spec v t Hwf Hok) as ([i|] & -> & Hspec); cbn [mbind outcome_bind].
    + destruct Hspec as (Hi & o & Ho & _). rewrite Ho.
      rewrite (on_slot_stores e t i o) by eauto. unfold order_step. by rewrite Hn.
    + destruct (decide (slot_max ≤ count_ t)%nat) as [Hfull|Hroom]; cbn in Hfull || cbn in Hroom.
      { rewrite decide_False by (intros [_ ?]; lia). done. }
      rewrite decide_True by (split; [done|lia]). rewrite strncpy_spec by done.
      cbn [mbind outcome_bind fst snd]. set (k := pad 8 (cstr 8 (sv_data v))).
      assert (Hk : length k = 8%nat) by (apply pad_length, cstr_length).
      destruct (lookup_lt_is_Some_2 (slots_ t) (count_ t)) as [x Hx];
        [rewrite (tw_length _ Hwf); cbn; lia|].
      destruct (create_slot_stores e t k x He Hn Hk Hx) as (s & _ & Hws & Hstep).
      rewrite Hws. cbn [fmap outcome_fmap mbind outcome_bind]. rewrite (run_book_new x) by done.
      cbn [on_slot slots_ count_]. rewrite list_lookup_insert_eq by (by eapply lookup_lt_Some).
      unfold order_step in Hstep. rewrite Hn in Hstep. change (slot_fresh k) with (Order_fresh k).
      rewrite Hstep. cbn [mbind outcome_bind]. by rewrite list_insert_insert_eq.
  - rewrite (manager_other_updates e v t) by done. unfold updates, OrderManager.find.
    destruct (find_spec v t Hwf Hok) as ([i|] & Hfind & Hspec); rewrite Hfind; cbn [mbind outcome_bind].
    + destruct Hspec as (Hi & o & Ho & _). rewrite Ho. apply on_slot_stores; eauto.
    + by rewrite decide_False by naive_solver.
Qed.

(** Which stores there are. *)
Lemma book_stores_cases e t bs :
  table_wf t → ids_ok e → book_stores e t = Ok bs →
  bs = [] ∨
  (∃ i o ws, (i < count_ t)%nat ∧ slots_ t !! i = Some o ∧ table_map t !! order_key e = Some o ∧
     order_stores e o = Ok ws ∧ bs = map (St_slot i) ws) ∨
  (∃ k s x, oe_type e = NewOrder ∧ (count_ t < MAX_ORDERS)%nat ∧ length k = 8%nat ∧ length s = 8%nat ∧
     slots_ t !! count_ t = Some x ∧
     bs = St_count (S (count_ t)) :: map (St_slot (count_ t)) (naming_stores k s ++ new_field_stores e)).
Proof.
  intros Hwf He Hbs. destruct (order_id_view_ok e He) as (v & Hv & Hok & Hk).
  unfold book_stores in Hbs. destruct (negb (named_event e)); [ok_inv; by left|].
  rewrite Hv in Hbs. cbn [mbind outcome_bind] in Hbs. unfold OrderManager.find in Hbs.
  destruct (find_spec v t Hwf Hok) as ([i|] & Hfind & Hspec); rewrite Hfind in Hbs;
    cbn [mbind outcome_bind] in Hbs.
  - destruct Hspec as (Hi & o & Ho & _ & Hmap). rewrite Ho in Hbs. ok_inv. right. left.
    rewrite Hk in Hmap. by exists i, o, a.
  - case_decide as Hnew; [|ok_inv; by left]. destruct Hnew as [Hn Hroom]. right. right.
    rewrite strncpy_spec in Hbs by done. cbn [mbind outcome_bind] in Hbs.
    set (k := pad 8 (cstr 8 (sv_data v))) in *.
    assert (Hlen : length k = 8%nat) by (apply pad_length, cstr_length).
    destruct (lookup_lt_is_Some_2 (slots_ t) (count_ t)) as [x Hx];
      [rewrite (tw_length _ Hwf); cbn; lia|].
    destruct (create_slot_stores e t k x He Hn Hlen Hx) as (s & Hs & Hws & _).
    rewrite Hws in Hbs. injection Hbs as <-. by exists k, s, x.
Qed.

(** The slots that are not in use are as the constructor left them. *)
Definition free_zero (t : OrderManager.t) : Prop :=
  ∀ i x, (count_ t ≤ i)%nat → slots_ t !! i = Some x → x = zero_order.

Lemma init_free_zero : free_zero OrderManager.init.
Proof. intros i x _ Hx. by apply lookup_replicate in Hx as [-> _]. Qed.

Lemma apply_event_free_zero e t t' :
  table_wf t → symbols_ok t → ids_ok e → OrderManager.apply_event e t = Ok t' →
  free_zero t → free_zero t'.
Proof.
  intros Hwf Hsym He Hrun Hfree. rewrite <- book_stores_apply in Hrun by done.
  apply fmap_Ok in Hrun as (bs & Hbs & ->).
  destruct (book_stores_cases e t bs Hwf He Hbs)
    as [->|[(i & o & ws & Hi & Ho & _ & _ & ->)|(k & s & x & _ & _ & _ & _ & Hx & ->)]]; [done|..].
  - rewrite (run_book_slot i o) by done. intros j y Hj. cbn in *.
    rewrite list_lookup_insert_ne by lia. by apply Hfree.
  - rewrite (run_book_new x) by done. intros j y Hj. cbn in *.
    rewrite list_lookup_insert_ne by lia. apply Hfree. lia.
Qed.

(** Every manager that was replayed from a log is in order. *)
Definition book_ok (t : OrderManager.t) : Prop := table_wf t ∧ symbols_ok t ∧ free_zero t.

Lemma replayed_book_ok es t :
  Forall ids_ok es → foldO OrderManager.apply_event es OrderManager.init = Ok t → book_ok t.
Proof.
  intros Hes Hrun. destruct (manager_run es t Hes Hrun) as [Hwf Hsym]. split_and!; [done..|].
  revert t Hrun Hwf Hsym. induction es as [|e es IH] using rev_ind; intros t Hrun Hwf Hsym.
  { injection Hrun as <-. apply init_free_zero. }
  apply Forall_app in Hes as [Hes [He _]%Forall_cons].
  rewrite foldO_app in Hrun. apply bind_Ok in Hrun as (t1 & Ht1 & Hrun). cbn [foldO] in Hrun. ok_inv.
  destruct (manager_run es t1 Hes Ht1) as [Hwf1 Hsym1].
  eapply apply_event_free_zero; [exact Hwf1|exact Hsym1|exact He|exact Ha|by apply IH].
Qed.

(** ** After the first stores *)

Lemma sumZ_list_insert {A} (f : A → Z) l i x y :
  l !! i = Some x → sumZ f (<[i := y]> l) = sumZ f l - f x + f y.
Proof.
  revert i. induction l as [|z l IH]; intros [|i] Hi; try done.
  - injection Hi as ->. cbn. unfold sumZ. lia.
  - specialize (IH i Hi). change (f z + sumZ f (<[i := y]> l) = f z + sumZ f l - f x + f y). lia.
Qed.

(** What a reader sees of the whole book: the exposure of every symbol, and the orders. *)
Record seen_between (t t1 t' : OrderManager.t) : Prop := {
  sb_exposure k :
    sumZ (exposure_of k) (live t1) = sumZ (exposure_of k) (live t) ∨
    sumZ (exposure_of k) (live t1) = sumZ (exposure_of k) (live t');
  sb_shown i o1 : live t1 !! i = Some o1 → is_open o1 = true →
    ∃ o', live t' !! i = Some o' ∧ o_order_id o1 = o_order_id o' ∧ o_symbol o1 = o_symbol o' ∧
      (o_side o1 = o_side o' ∨ o_side o1 = o_side (default zero_order (live t !! i)));
  sb_open i o o' : live t !! i = Some o → is_open o = true →
    live t' !! i = Some o' → is_open o' = true →
    ∃ o1, live t1 !! i = Some o1 ∧ is_open o1 = true;
}.

Lemma seen_between_refl t : seen_between t t t.
Proof. split; [by left|by eauto 10|by eauto]. Qed.

Lemma seen_between_after t t' : seen_between t t' t'.
Proof. split; [by right|by eauto 10|by eauto]. Qed.

Lemma seen_between_slot t i o o1 o' :
  (i < count_ t)%nat → slots_ t !! i = Some o → between o o1 o' →
  let at_slot x := {| slots_ := <[i := x]> (slots_ t); count_ := count_ t |} in
  seen_between t (at_slot o1) (at_slot o').
Proof.
  intros Hi Ho [Hexp Hshown Hopen] at_slot.
  assert (Hlive : live t !! i = Some o) by (by apply live_lookup).
  assert (Hlt : (i < length (live t))%nat) by (by eapply lookup_lt_Some).
  unfold at_slot. split.
  - intros k. rewrite !live_set, !(sumZ_list_insert _ _ i o) by done.
    destruct Hexp as [Hexp|Hexp]; rewrite Hexp; [left|right]; lia.
  - intros j x. rewrite !live_set. destruct (decide (j = i)) as [->|Hne].
    + rewrite !list_lookup_insert_eq by done. intros [= <-] Hx. exists o'. rewrite Hlive. cbn.
      destruct (Hshown Hx) as (? & ? & Hside). split_and!; try done. destruct Hside; [by right|by left].
    + rewrite !list_lookup_insert_ne by done. eauto 10.
  - intros j x y Hx Hxo. rewrite !live_set. destruct (decide (j = i)) as [->|Hne].
    + rewrite !list_lookup_insert_eq by done. intros [= <-] Hy. exists o1. split; [done|].
      apply Hopen; [congruence|done].
    + rewrite !list_lookup_insert_ne by done. eauto.
Qed.

Lemma sumZ_snoc {A} (f : A → Z) l x : sumZ f (l ++ [x]) = sumZ f l + f x.
Proof. rewrite sumZ_app. unfold sumZ. cbn. lia. Qed.

Lemma seen_between_new t x o1 o' :
  table_wf t → (count_ t < MAX_ORDERS)%nat → between zero_order o1 o' →
  let at_slot y := {| slots_ := <[count_ t := y]> (slots_ t); count_ := S (count_ t) |} in
  slots_ t !! count_ t = Some x →
  seen_between t (at_slot o1) (at_slot o').
Proof.
  intros Hwf Hroom [Hexp Hshown Hopen] at_slot Hx.
  assert (Hlive : ∀ y, live (at_slot y) = live t ++ [y]) by (intros y; by apply live_alloc).
  assert (Hlen : length (live t) = count_ t) by (by apply live_length).
  split.
  - intros k. rewrite !Hlive, !sumZ_snoc.
    destruct Hexp as [Hexp|Hexp]; rewrite Hexp; [left; rewrite (exposure_closed k) by done; lia|by right].
  - intros j y. rewrite !Hlive. destruct (decide (j < length (live t))%nat) as [Hj|Hj].
    + rewrite !lookup_app_l by done. eauto 10.
    + intros Hy Hyo. rewrite lookup_app_r in Hy by lia.
      apply list_lookup_singleton_Some in Hy as [Hj0 <-]. exists o'.
      rewrite lookup_app_r, Hj0 by lia. rewrite (lookup_ge_None_2 (live t)) by lia. cbn.
      destruct (Hshown Hyo) as (? & ? & Hside). split_and!; try done. destruct Hside; [by right|by left].
  - intros j y z Hy Hyo. rewrite !Hlive.
    assert (Hj : (j < length (live t))%nat) by (by eapply lookup_lt_Some).
    rewrite !lookup_app_l by done. eauto.
Qed.

(** The symbols stay 8 bytes wide in between. *)
Lemma run_order_symbol ws o : length (o_symbol o) = 8%nat → length (o_symbol (run_order ws o)) = 8%nat.
Proof.
  revert o. induction ws as [|st ws IH]; intros o Ho; [done|]. apply IH.
  destruct o, st; cbn in *; rewrite ?length_insert; done.
Qed.

(** What the source relies on: a new order has a new identifier, a fill fits its order. *)
Definition fits (e : OrderEvent) (t : OrderManager.t) : Prop :=
  (oe_type e = NewOrder → table_map t !! order_key e = None) ∧
  (is_fill e = true → ∀ o, table_map t !! order_key e = Some o → is_open o = true →
     o_filled_qty o + oe_fill_qty e <= o_original_qty o).

Lemma order_stores_between e t o ws n :
  fits e t → table_map t !! order_key e = Some o → order_stores e o = Ok ws →
  between o (run_order (take n ws) o) (run_order ws o).
Proof.
  intros [Hnew Hfill] Ho Hws. unfold order_stores in Hws. unfold is_fill in Hfill.
  destruct (oe_type e) eqn:Ht.
  - rewrite Hnew in Ho by done. done.
  - apply fill_between with e; [done|]. by apply Hfill.
  - apply fill_between with e; [done|]. by apply Hfill.
  - ok_inv. by apply close_between.
  - ok_inv. by apply close_between.
  - ok_inv. apply amend_between.
  - ok_inv. rewrite take_nil. apply between_after.
Qed.

Lemma book_stores_between e t bs n :
  book_ok t → ids_ok e → fits e t → book_stores e t = Ok bs →
  seen_between t (run_book (take n bs) t) (run_book bs t) ∧ symbols_ok (run_book (take n bs) t).
Proof.
  intros (Hwf & Hsym & Hfree) He Hfits Hbs.
  destruct (book_stores_cases e t bs Hwf He Hbs)
    as [->|[(i & o & ws & Hi & Ho & Hmap & Hws & ->)|(k & s & x & Hn & Hroom & Hk & Hs & Hx & ->)]].
  - rewrite take_nil. split; [apply seen_between_refl|done].
  - rewrite firstn_map, !(run_book_slot i o) by done.
    assert (Hlen : length (o_symbol o) = 8%nat)
      by (apply Hsym, (list_elem_of_lookup_2 _ i), live_lookup; done).
    split; [apply (seen_between_slot t i o); [done..|by eapply order_stores_between]|].
    intros y Hy. rewrite live_set in Hy. apply list_elem_of_lookup_1 in Hy as [j Hj].
    rewrite list_lookup_insert in Hj. case_decide; simplify_eq; [by apply run_order_symbol|].
    by eapply Hsym, list_elem_of_lookup_2.
  - assert (x = zero_order) as -> by (by eapply Hfree).
    destruct n as [|n]; [split; [|done]|].
    { rewrite (run_book_new zero_order) by done.
      change (run_book (take 0 _) t) with t. split; [by left| |by eauto].
      intros j y Hy Hyo. exists y.
      rewrite live_alloc, lookup_app_l by (done || by eapply lookup_lt_Some). auto. }
    cbn [take]. rewrite firstn_map, !(run_book_new zero_order) by done. split.
    + apply (seen_between_new t zero_order); [done..|by apply new_between|done].
    + intros y Hy. rewrite live_alloc in Hy by done.
      apply elem_of_app in Hy as [Hy|Hy%list_elem_of_singleton]; [by apply Hsym|subst y].
      by apply run_order_symbol.
Qed.

(** ** Properties *)

(** C13. The order manager between two stores: [apply_event] performs its memory writes in an
    order in which, after any number of them, the open exposure of every symbol is
    the exposure before or the exposure after the event; an order that looks open has
    its complete identifier and symbol; and every order that is open before and after
    looks open: a signal handler that interrupts the event anywhere checks and cancels
    on a consistent book.  Only the side of a new order may still be unset when it
    already looks open.  (A new order has a new identifier and a fill fits its order.) *)
Theorem orders_consistent_between_stores es t e n bs :
  Forall ids_ok es → foldO OrderManager.apply_event es OrderManager.init = Ok t → ids_ok e →
  fits e t → book_stores e t = Ok bs →
  let t1 := run_book (take n bs) t in
  let t' := run_book bs t in
  OrderManager.apply_event e t = Ok t' ∧ seen_between t t1 t' ∧
  ∀ sym x, sv_ok sym = true → OrderManager.open_exposure sym t1 = Ok x →
    x = map_sum (exposure_of (key sym)) (table_map t) ∨
    x = map_sum (exposure_of (key sym)) (table_map t').
Proof.
  intros Hes Hrun He Hfits Hbs t1 t'.
  pose proof (replayed_book_ok es t Hes Hrun) as Hbook. pose proof Hbook as (Hwf & Hsym & _).
  assert (Happly : OrderManager.apply_event e t = Ok t')
    by (by rewrite <- book_stores_apply, Hbs by done).
  destruct (book_stores_between e t bs n Hbook He Hfits Hbs) as [Hseen Hsym1].
  split; [done|]. split; [done|]. intros sym x Hs Hx.
  apply add_exposures_Ok in Hx; [|done|done].
  destruct (manager_apply_event e t He Hwf) as [_ Hwf']. specialize (Hwf' t' Happly).
  rewrite !map_sum_live by done. pose proof (sb_exposure _ _ _ Hseen (key sym)) as Hexp.
  destruct Hexp as [Hexp|Hexp]; [left|right]; etransitivity; [exact Hx|exact Hexp|exact Hx|exact Hexp].
Qed.

(** A book with one order and a second one half stored: it is open, and its side is not
    set yet, so that a cancel request for it would name the side of a sell. *)
Lemma orders_consistent_between_stores_witness :
  let e := sample_new "O2" Buy 50 1000000 in
  ∃ t bs, OrderManager.apply_event (sample_new "O1" Buy 100 1000000) OrderManager.init = Ok t ∧
    book_stores e t = Ok bs ∧ seen_between t (run_book (take 19 bs) t) (run_book bs t) ∧
    (λ o, (is_open o, o_side o, o_original_qty o)) <$> (live (run_book (take 19 bs) t) !! 1%nat)
      = Some (true, Side_raw 0, 0).
Proof.
  intros e. set (es := [sample_new "O1" Buy 100 1000000]).
  destruct (Ok_ex (foldO OrderManager.apply_event es OrderManager.init)) as [t E];
    [vm_compute; reflexivity|].
  assert (Hbs : is_Ok (t ← foldO OrderManager.apply_event es OrderManager.init; book_stores e t) = true)
    by (vm_compute; reflexivity).
  rewrite E in Hbs. apply Ok_ex in Hbs as [bs Hbs]. cbn [mbind outcome_bind] in Hbs.
  assert (Hseen : (t ← foldO OrderManager.apply_event es OrderManager.init; bs ← book_stores e t;
      Ok ((λ o, (is_open o, o_side o, o_original_qty o)) <$> (live (run_book (take 19 bs) t) !! 1%nat)))
    = Ok (Some (true, Side_raw 0, 0))) by (vm_compute; reflexivity).
  rewrite E in Hseen. cbn [mbind outcome_bind] in Hseen. rewrite Hbs in Hseen.
  cbn [mbind outcome_bind] in Hseen. injection Hseen as Hseen.
  assert (Hnone : (t ← foldO OrderManager.apply_event es OrderManager.init;
      Ok (table_map t !! order_key e)) = Ok None) by (vm_compute; reflexivity).
  rewrite E in Hnone. cbn [mbind outcome_bind] in Hnone. injection Hnone as Hnone.
  destruct (orders_consistent_between_stores es t e 19 bs) as (_ & Hbetween & _);
    [unfold es; repeat constructor|exact E|split; reflexivity| |exact Hbs|].
  - split; [intros _; exact Hnone|discriminate].
  - exists t, bs. split; [exact E|]. split; [exact Hbs|]. split; [exact Hbetween|exact Hseen].
Defined.
