(* ===== verification/Handler.v ===== *)
(** * [Handler]: the kill switch inside an event

    [main.cpp] runs [emergency_cancel_all] in the signal handler, and a signal may come
    between any two memory writes of [OrderManager::apply_event] ([Writes]).  What the
    handler then cancels, and what the interrupted event leaves. *)

From S2P Require Import Prelude CString OrderEvent EventLog SlotTable PositionTracker OrderManager.
From S2P Require Import Projection RiskChecker FixMessages MessageTranslator Environment Killswitch.
From S2P Require Import FIXGateway Scripts Commute Writes.

Local Open Scope Z_scope.

(** ** A book in the middle of an event *)

Definition named (o : Order) : Prop := length (o_order_id o) = 8%nat ∧ length (o_symbol o) = 8%nat.

Lemma store_in_named st o : named o → named (store_in st o).
Proof. intros [Hid Hsym]. destruct o, st; split; cbn in *; rewrite ?length_insert; done. Qed.

Lemma book_ok_named t : book_ok t → Forall named (slots_ t).
Proof.
  intros (Hwf & Hsym & Hfree). apply Forall_lookup. intros i o Ho.
  destruct (decide (i < count_ t)%nat) as [Hi|Hi]; [|by rewrite (Hfree i o) by (done || lia)].
  assert (Hin : o ∈ live t) by (by eapply list_elem_of_lookup_2, live_lookup).
  split; [exact (tw_id t Hwf o Hin)|by apply Hsym].
Qed.

Lemma store_book_named b t :
  Forall named (slots_ t) →
  Forall named (slots_ (store_book b t)) ∧ length (slots_ (store_book b t)) = length (slots_ t).
Proof.
  intros Ht. destruct b as [k|i st]; [done|]. split; [|apply length_alter].
  apply Forall_alter; [done|]. intros o _. apply store_in_named.
Qed.

Lemma run_book_named bs t :
  Forall named (slots_ t) →
  Forall named (slots_ (run_book bs t)) ∧ length (slots_ (run_book bs t)) = length (slots_ t).
Proof.
  revert t. induction bs as [|b bs IH]; intros t Ht; [done|].
  destruct (store_book_named b t Ht) as [Ht1 Hlen1]. destruct (IH (store_book b t) Ht1) as [Hall Hlen].
  split; [exact Hall|by etransitivity].
Qed.

(** So the kill switch runs on it. *)
Lemma run_book_sized bs t : book_ok t → sized (run_book bs t).
Proof.
  intros Hok. destruct (run_book_named bs t (book_ok_named t Hok)) as [Hall Hlen].
  destruct Hok as (Hwf & _). split.
  - unfold live. rewrite length_take, Hlen, (tw_length _ Hwf). lia.
  - intros o Ho. unfold live in Ho. apply list_elem_of_lookup_1 in Ho as [i Hi].
    apply lookup_take_Some in Hi as [Hi _]. exact (Forall_lookup_1 _ _ _ _ Hall Hi).
Qed.

(** An event keeps the side of an order that is there. *)
Lemma order_step_side e o o' : oe_type e ≠ NewOrder → order_step e o = Ok o' → o_side o' = o_side o.
Proof.
  intros Hn Hstep. unfold order_step in Hstep. destruct (oe_type e); try done.
  1,2: by apply fill_order_Ok in Hstep as (_ & _ & Hside & _).
  all: unfold close_order, amend_order in Hstep; ok_inv; done.
Qed.

Lemma book_stores_side e t bs i o o' :
  book_ok t → ids_ok e → fits e t → book_stores e t = Ok bs →
  live t !! i = Some o → live (run_book bs t) !! i = Some o' → o_side o' = o_side o.
Proof.
  intros (Hwf & Hsym & _) He [Hnew _] Hbs Ho Ho'.
  assert (Hi : (i < length (live t))%nat) by (by eapply lookup_lt_Some).
  destruct (book_stores_cases e t bs Hwf He Hbs)
    as [->|[(j & x & ws & Hj & Hx & Hmap & Hws & ->)|(k & s & x & _ & Hroom & _ & _ & Hx & ->)]].
  - change (run_book [] t) with t in Ho'. by simplify_eq.
  - rewrite (run_book_slot j x) in Ho' by done. rewrite live_set, list_lookup_insert in Ho'.
    case_decide as Hji; [destruct Hji as [<- _]|by simplify_eq]. injection Ho' as <-.
    apply live_lookup in Ho as [Ho _]. rewrite Hx in Ho. injection Ho as ->.
    apply (order_step_side e); [by intros Hn; rewrite Hnew in Hmap|].
    rewrite <- order_stores_step; [by rewrite Hws|done|].
    by eapply Hsym, list_elem_of_lookup_2, live_lookup.
  - rewrite (run_book_new x) in Ho' by done.
    rewrite live_alloc, lookup_app_l in Ho' by done. by simplify_eq.
Qed.

(** An order that is open before and after is among those the handler sees open, with
    its names and its side; and whatever it sees open bears the names of an order. *)
Lemma open_seen e t bs n i o o' :
  book_ok t → ids_ok e → fits e t → book_stores e t = Ok bs →
  live t !! i = Some o → is_open o = true →
  live (run_book bs t) !! i = Some o' → is_open o' = true →
  ∃ k o1, open_orders (run_book (take n bs) t) !! k = Some o1 ∧ o_order_id o1 = o_order_id o' ∧
    o_symbol o1 = o_symbol o' ∧ o_side o1 = o_side o'.
Proof.
  intros Hbook He Hfits Hbs Ho Hopen Ho' Hopen'.
  destruct (book_stores_between e t bs n Hbook He Hfits Hbs) as [Hseen _].
  destruct (sb_open _ _ _ Hseen i o o' Ho Hopen Ho' Hopen') as (o1 & Ho1 & Hopen1).
  destruct (sb_shown _ _ _ Hseen i o1 Ho1 Hopen1) as (x & Hx & Hid & Hsym & Hside).
  assert (x = o') as -> by congruence. rewrite Ho in Hside.
  assert (Hin : o1 ∈ open_orders (run_book (take n bs) t))
    by (apply list_elem_of_filter; split; [done|by eapply list_elem_of_lookup_2]).
  apply list_elem_of_lookup_1 in Hin as [k Hk]. exists k, o1. split_and!; try done.
  destruct Hside as [Hside|Hside]; [done|]. etransitivity; [exact Hside|].
  symmetry. by eapply book_stores_side.
Qed.

Lemma seen_named e t bs n k o1 :
  book_ok t → ids_ok e → fits e t → book_stores e t = Ok bs →
  open_orders (run_book (take n bs) t) !! k = Some o1 →
  ∃ o', o' ∈ live (run_book bs t) ∧ o_order_id o1 = o_order_id o' ∧ o_symbol o1 = o_symbol o'.
Proof.
  intros Hbook He Hfits Hbs Hk.
  destruct (book_stores_between e t bs n Hbook He Hfits Hbs) as [Hseen _].
  apply list_elem_of_lookup_2, list_elem_of_filter in Hk as [Hopen [i Hi]%list_elem_of_lookup_1].
  destruct (sb_shown _ _ _ Hseen i o1 Hi Hopen) as (o' & Ho' & Hid & Hsym & _).
  exists o'. split; [by eapply list_elem_of_lookup_2|done].
Qed.

(** ** Properties *)

(** C14. The kill switch inside an event: a signal handler that comes between any two memory
    writes of [OrderManager::apply_event] completes; every order that is open before
    and after the event gets a cancel request with its identifier, symbol and side; no
    request names anything but an order of the book, complete; no two requests share
    an identifier; and the interrupted event goes on to the state it would have reached
    undisturbed.  (A new order has a new identifier and a fill fits its order.) *)
Theorem handler_cancels_between_stores {L E M SID} `{LogLaws L} `{FixMessageLaws M} `{FixValues}
    `{EnvLaws E M SID} es t e bs n (w : world L E M SID) :
  Forall ids_ok es → foldO OrderManager.apply_event es OrderManager.init = Ok t → ids_ok e →
  fits e t → book_stores e t = Ok bs → w_orders w = run_book (take n bs) t →
  let t' := run_book bs t in
  ∃ s' ms, FIXGateway.emergency_cancel_all w = (set_system s' w, Ok tt) ∧
    sys_calls s' = sys_calls (w_system w) ++ ((λ m, (m, w_session_id w)) <$> ms) ∧
    NoDup (fix_get F_ClOrdID <$> ms) ∧
    (∀ i o o', live t !! i = Some o → is_open o = true → live t' !! i = Some o' →
       is_open o' = true → ∃ m id, m ∈ ms ∧ cancels m id o') ∧
    (∀ m, m ∈ ms → ∃ o', o' ∈ live t' ∧ fix_get F_OrigClOrdID m = Ok (cstr 8 (o_order_id o')) ∧
       fix_get F_Symbol m = Ok (cstr 8 (o_symbol o'))) ∧
    run_book (drop n bs) (w_orders (set_system s' w)) = t' ∧ OrderManager.apply_event e t = Ok t'.
Proof.
  intros Hes Hrun He Hfits Hbs Hw t'. pose proof (replayed_book_ok es t Hes Hrun) as Hbook.
  assert (Hsized : sized (w_orders w)) by (rewrite Hw; by apply run_book_sized).
  destruct (emergency_calls w Hsized) as (s' & ms & Hem & Hcalls & Hlen & Hcan).
  change (length ms = length (open_orders (w_orders w))) in Hlen. rewrite Hw in Hlen, Hcan.
  exists s', ms. split; [done|]. split; [done|]. split; [by eapply requests_distinct|].
  split; [|split; [|split]].
  - intros i o o' Ho Hopen Ho' Hopen'.
    destruct (open_seen e t bs n i o o') as (k & o1 & Hk & Hid & Hsym & Hside); [done..|].
    destruct (lookup_lt_is_Some_2 ms k) as [m Hm]; [rewrite Hlen; by eapply lookup_lt_Some|].
    exists m. eexists. split; [by eapply list_elem_of_lookup_2|].
    pose proof (Hcan k m o1 Hm Hk) as Hc. unfold cancels in *. by rewrite Hid, Hsym, Hside in Hc.
  - intros m [k Hm]%list_elem_of_lookup_1.
    destruct (lookup_lt_is_Some_2 (open_orders (run_book (take n bs) t)) k) as [o1 Hk];
      [rewrite <- Hlen; by eapply lookup_lt_Some|].
    destruct (Hcan k m o1 Hm Hk) as (Horig & _ & Hsymbol & _).
    destruct (seen_named e t bs n k o1) as (o' & Hin & Hid & Hsym); [done..|].
    exists o'. by rewrite <- Hid, <- Hsym.
  - change (w_orders (set_system s' w)) with (w_orders w). rewrite Hw. unfold run_book.
    rewrite <- foldl_app. by rewrite take_drop.
  - destruct Hbook as (Hwf & Hsym & _). by rewrite <- book_stores_apply, Hbs by done.
Qed.

(** A fill of the first of two orders, interrupted after its average and its quantity:
    the order, half stored, and the other one both get their request. *)
Definition two_resting : list OrderEvent :=
  [sample_new "O1" Buy 100 1000000; sample_new "O2" Sell 50 1000000].
Definition filling : OrderEvent := sample_event PartialFill "AAPL" "O1" Buy 40 1000000.
Definition resting_book : OrderManager.t :=
  match foldO OrderManager.apply_event two_resting OrderManager.init with Ok t => t | _ => OrderManager.init end.
Definition filling_stores : list book_store :=
  match book_stores filling resting_book with Ok bs => bs | _ => [] end.
Definition half_filled : sample_w := set_orders (run_book (take 2 filling_stores) resting_book) sample_session.

Lemma all_open os i o : forallb is_open os = true → os !! i = Some o → is_open o = true.
Proof. rewrite forallb_forall. intros Hall Ho. apply Hall, list_elem_of_In. by eapply list_elem_of_lookup_2. Qed.

Lemma handler_cancels_between_stores_witness :
  (λ o, (o_filled_qty o, o_state o)) <$> live (w_orders half_filled) = [(40, Pending); (0, Pending)] ∧
  ∃ s' ms, FIXGateway.emergency_cancel_all half_filled = (set_system s' half_filled, Ok tt) ∧
    NoDup (fix_get F_ClOrdID <$> ms) ∧
    ∀ i o', (i < 2)%nat → live (run_book filling_stores resting_book) !! i = Some o' →
      ∃ m id, m ∈ ms ∧ cancels m id o'.
Proof.
  split; [vm_compute; reflexivity|].
  destruct (handler_cancels_between_stores two_resting resting_book filling filling_stores 2 half_filled)
    as (s' & ms & Hem & _ & Hids & Hall & _).
  - unfold two_resting. repeat constructor.
  - vm_compute. reflexivity.
  - split; reflexivity.
  - split; [discriminate|]. intros _ o Ho _.
    assert (Hq : (λ o, bool_decide (o_filled_qty o + 40 <= o_original_qty o)) <$>
        (table_map resting_book !! order_key filling) = Some true) by (vm_compute; reflexivity).
    rewrite Ho in Hq. injection Hq as Hq. exact (bool_decide_eq_true_1 _ Hq).
  - vm_compute. reflexivity.
  - reflexivity.
  - exists s', ms. split; [exact Hem|]. split; [exact Hids|]. intros i o' Hi Ho'.
    destruct (lookup_lt_is_Some_2 (live resting_book) i) as [o Ho];
      [by replace (length (live resting_book)) with 2%nat by (vm_compute; reflexivity)|].
    apply (Hall i o o' Ho); [|exact Ho'|].
    + eapply all_open; [|exact Ho]. vm_compute. reflexivity.
    + eapply all_open; [|exact Ho']. vm_compute. reflexivity.
Defined.
