(* ===== verification/Unwind.v ===== *)
(** * [Unwind]: the kill switch and the reports that answer it

    The cancel requests of [emergency_cancel_all] are answered by execution reports,
    which come back through the translator into the books.  Which identifier the
    counterparty names in them decides whether the orders close. *)

From stdpp Require Import relations.
From S2P Require Import Prelude CString OrderEvent EventLog SlotTable PositionTracker OrderManager.
From S2P Require Import Projection RiskChecker Fixed FixMessages MessageTranslator Environment.
From S2P Require Import Killswitch FIXGateway Scripts Trade Writes.

Local Open Scope Z_scope.

(** ** A cancel in the manager *)

Lemma manager_cancel_known e t o :
  table_wf t → symbols_ok t → ids_ok e → oe_type e = Cancel → table_map t !! order_key e = Some o →
  ∃ t' o', OrderManager.apply_event e t = Ok t' ∧ table_wf t' ∧ symbols_ok t' ∧
    table_map t' = <[order_key e := o']> (table_map t) ∧ is_open o' = false.
Proof.
  intros Hwf Hsym Hids Hty Ho. destruct (manager_apply_event e t Hids Hwf) as [Heq Hwf'].
  unfold manage in Heq. rewrite decide_False in Heq by (by rewrite Hty).
  unfold map_update, order_step in Heq. rewrite Ho, Hty in Heq.
  destruct (OrderManager.apply_event e t) as [t'| | |] eqn:Ht'; try done.
  injection Heq as Heq. eexists t', _. split; [done|]. split; [by apply Hwf'|].
  split; [by eapply apply_event_symbols|]. split; [exact Heq|done].
Qed.

(** An event about an order that is not in the table changes nothing. *)
Lemma manager_unknown e t :
  table_wf t → ids_ok e → oe_type e ≠ NewOrder → table_map t !! order_key e = None →
  OrderManager.apply_event e t = Ok t.
Proof.
  intros Hwf Hids Hty Hnone. destruct (order_id_view_ok e Hids) as (v & Hv & Hok & Hk).
  destruct (find_spec v t Hwf Hok) as (r & Hr & Hspec). rewrite Hk in Hspec.
  destruct r as [i|]; [destruct Hspec as (_ & s & _ & _ & ?); congruence|].
  unfold OrderManager.apply_event, OrderManager.handle_fill, OrderManager.handle_cancel,
    OrderManager.handle_reject, OrderManager.handle_amend, OrderManager.find.
  destruct (oe_type e); try done; rewrite Hv; cbn [mbind outcome_bind]; by rewrite Hr.
Qed.

(** No open order is left. *)
Definition all_closed (t : OrderManager.t) : Prop := ∀ o, o ∈ live t → is_open o = false.

Lemma all_closed_count t : all_closed t → OrderManager.open_order_count t = 0%nat.
Proof.
  intros Hall. unfold OrderManager.open_order_count.
  destruct (base.filter (λ o, is_open o = true) (live t)) as [|o l] eqn:Hf; [done|].
  assert (o ∈ base.filter (λ o, is_open o = true) (live t)) as Ho by (rewrite Hf; by left).
  apply list_elem_of_filter in Ho as [Ho Hl]. rewrite Hall in Ho by done. done.
Qed.

Lemma all_closed_exposure t k : table_wf t → all_closed t → map_sum (exposure_of k) (table_map t) = 0.
Proof.
  intros Hwf Hall. rewrite map_sum_live by done. unfold all_closed in Hall.
  induction (live t) as [|o l IH]; [done|]. cbn [sumZ foldr]. fold (sumZ (exposure_of k) l).
  rewrite exposure_closed by (apply Hall; by left). rewrite IH; [done|].
  intros o' Ho'. apply Hall. by right.
Qed.

(** ** The confirmations *)

Section Unwind.
Context {L E M SID : Type} `{LogLaws L} `{FixMessageLaws M} `{FixValues} `{EnvLaws E M SID}
  `{Cracker M}.
Import FIXGateway.
Notation W := (world L E M SID).
Implicit Types (w : W) (r m : M).

(** The report [r] that confirms the cancel request [m] under the identifier [id]. *)
Record confirms (id : list char) (m r : M) : Prop := {
  cf_report : is_execution_report r = true;
  cf_type : fix_get F_ExecType r = Ok ExecType_CANCELED;
  cf_id : fix_get F_ClOrdID r = Ok id;
  cf_symbol : fix_get F_Symbol r = fix_get F_Symbol m;
  cf_side : fix_get F_Side r = fix_get F_Side m;
}.

(** With the identifier of the request, as the protocol has it, or of the order. *)
Definition confirms_request (m r : M) : Prop :=
  ∃ id, fix_get F_ClOrdID m = Ok id ∧ confirms id m r.
Definition confirms_order (m r : M) : Prop :=
  ∃ id, fix_get F_OrigClOrdID m = Ok id ∧ confirms id m r.

Lemma confirmation_event id id' m r o :
  cancels m id' o → confirms id m r →
  ∃ e, MessageTranslator.from_execution_report r = Ok (Some e) ∧ oe_type e = Cancel ∧
    ids_ok e ∧ is_fill e = false ∧ order_key e = cstr 8 (id ++ [NUL]) ∧
    cstr 8 (oe_symbol e) = cstr 8 (o_symbol o).
Proof.
  intros (_ & _ & Hs & Hsd) [Hr Hc Hid Hsy Hside]. rewrite <- Hsy in Hs. rewrite <- Hside in Hsd.
  pose proof exec_event_cases as (_ & _ & _ & Hty & _).
  eexists. split; [by eapply from_execution_report_ok|].
  destruct (report_event_wf _ Cancel (cstr 8 (o_symbol o)) id
    (MessageTranslator.fix_side (o_side o)) 0 0 Hty) as [_ Hids]; [done..|].
  split; [done|]. split; [done|]. split; [done|]. unfold order_key.
  cbn [report_event oe_order_id oe_symbol]. by rewrite !cstr_idemp, cstr_key_field.
Qed.

(** A confirmation that was handled: the log has one more event, the tracker is as
    before, the manager is what the cancel leaves. *)
Lemma confirmation_handled id id' m r o w es os' e :
  cancels m id' o → confirms id m r → (length (cstr 8 (o_symbol o)) < 8)%nat →
  MessageTranslator.from_execution_report r = Ok (Some e) → is_fill e = false → ids_ok e →
  cstr 8 (oe_symbol e) = cstr 8 (o_symbol o) →
  OrderManager.apply_event e (w_orders w) = Ok os' →
  log_rep (w_log w) es → Z.of_nat (length es) < MAX_EVENTS →
  ∃ w' e', fromApp r w = (w', Ok tt) ∧ log_rep (w_log w') (es ++ [e']) ∧
    w_tracker w' = w_tracker w ∧ w_orders w' = os' ∧ sys_calls (w_system w') = sys_calls (w_system w).
Proof.
  intros Hm Hr Hlen He Hf [_ Hl] Hsym Hos Hlog Hroom.
  destruct (onMessage_booked r e w es (w_tracker w) os')
    as (l' & s' & ts & Hrep & Hcalls & Hrun); [done..|by apply tracker_ignores|done|].
  assert (Hnul : NUL ∈ oe_symbol e) by (apply (NUL_in_short 8); [lia|by rewrite Hsym]).
  destruct (c_str_NUL (oe_symbol e)) as [[_ Hn]|[_ [s Hs]]]; [done|]. rewrite Hs in Hrun.
  eexists _, _. unfold fromApp, st_noexcept. rewrite (cf_report _ _ _ Hr), Hrun.
  split; [done|]. split; [exact Hrep|]. done.
Qed.

(** ** The orders close one after another *)

(** [os] are the open orders, as the table holds them. *)
Record unwinding (os : list Order) w (es : list OrderEvent) : Prop := {
  uw_wf : table_wf (w_orders w);
  uw_symbols : symbols_ok (w_orders w);
  uw_log : log_rep (w_log w) es;
  uw_held o : o ∈ os → table_map (w_orders w) !! slot_key o = Some o;
  uw_open o : o ∈ live (w_orders w) → is_open o = true → o ∈ os;
  uw_keys : NoDup (slot_key <$> os);
}.

Lemma unwinding_start w es :
  table_wf (w_orders w) → symbols_ok (w_orders w) → log_rep (w_log w) es →
  unwinding (open_orders (w_orders w)) w es.
Proof.
  intros Hwf Hsym Hl. split; try done.
  - intros o [_ Ho]%list_elem_of_filter. by apply table_map_Some.
  - intros o Ho Hop. by apply list_elem_of_filter.
  - eapply sublist_NoDup; [apply (tw_nodup _ Hwf)|apply fmap_sublist, sublist_filter].
Qed.

Lemma unwind_one o os m r id w es :
  unwinding (o :: os) w es → cancels m id o → confirms_order m r →
  (length (cstr 8 (o_symbol o)) < 8)%nat → Z.of_nat (length es) < MAX_EVENTS →
  ∃ w' e', fromApp r w = (w', Ok tt) ∧ unwinding os w' (es ++ [e']) ∧
    w_tracker w' = w_tracker w ∧ sys_calls (w_system w') = sys_calls (w_system w).
Proof.
  intros [Hwf Hsym Hl Hheld Hopen Hkeys] Hm (oid & Hoid & Hr) Hlen Hroom.
  assert (oid = cstr 8 (o_order_id o)) as -> by (destruct Hm as [Hm _]; congruence).
  destruct (confirmation_event _ id m r o Hm Hr) as (e & He & Hty & Hids & Hf & Hk & Hs).
  rewrite cstr_key_field in Hk. change (cstr 8 (o_order_id o)) with (slot_key o) in Hk.
  pose proof (Hheld o ltac:(by left)) as Ho. rewrite <- Hk in Ho.
  destruct (manager_cancel_known e (w_orders w) o Hwf Hsym Hids Hty Ho)
    as (os' & o' & Hos & Hwf' & Hsym' & Hmap & Hclosed).
  destruct (confirmation_handled _ id m r o w es os' e Hm Hr Hlen He Hf Hids Hs Hos Hl Hroom)
    as (w' & e' & Hrun & Hl' & Ht & Ho' & Hcalls).
  exists w', e'. split; [done|]. split; [|done]. rewrite fmap_cons in Hkeys. apply NoDup_cons in Hkeys as [Hk1 Hk2].
  split; rewrite ?Ho'; try done.
  - intros o2 Ho2. rewrite Hmap, lookup_insert_ne; [apply Hheld; by right|].
    rewrite Hk. intros Heq. apply Hk1. rewrite Heq. by apply list_elem_of_fmap_2.
  - intros o2 Hlive Hop. assert (table_map os' !! slot_key o2 = Some o2) as Hl2 by (by apply table_map_Some).
    rewrite Hmap in Hl2. apply lookup_insert_Some in Hl2 as [[_ <-]|[Hne Hl2]]; [congruence|].
    apply table_map_Some in Hl2 as [Hin _]; [|done].
    pose proof (Hopen o2 Hin Hop) as Hos2. apply elem_of_cons in Hos2 as [-> |?]; [|done].
    by rewrite Hk in Hne.
Qed.

Lemma unwind_all os : ∀ ms rs w es,
  unwinding os w es → Forall2 (λ o m, ∃ id, cancels m id o) os ms → Forall2 confirms_order ms rs →
  Forall (λ o, (length (cstr 8 (o_symbol o)) < 8)%nat) os →
  Z.of_nat (length es) + Z.of_nat (length rs) <= MAX_EVENTS →
  ∃ w' es', deliver rs w = (w', Ok tt) ∧ unwinding [] w' (es ++ es') ∧ length es' = length rs ∧
    w_tracker w' = w_tracker w ∧ sys_calls (w_system w') = sys_calls (w_system w).
Proof.
  induction os as [|o os IH]; intros ms rs w es Huw Hms Hrs Hlen Hroom.
  { apply Forall2_nil_inv_l in Hms as ->. apply Forall2_nil_inv_l in Hrs as ->.
    exists w, []. by rewrite app_nil_r. }
  apply Forall2_cons_inv_l in Hms as (m & ms' & [id Hm] & Hms & ->).
  apply Forall2_cons_inv_l in Hrs as (r & rs' & Hr & Hrs & ->).
  apply Forall_cons in Hlen as [Ho Hlen]. cbn [length] in Hroom.
  destruct (unwind_one o os m r id w es) as (w1 & e1 & Hrun & Huw1 & Ht1 & Hc1); [done..|lia|].
  destruct (IH ms' rs' w1 (es ++ [e1])) as (w' & es' & Hrun' & Huw' & Hl' & Ht' & Hc'); try done.
  { rewrite length_app. cbn [length]. lia. }
  exists w', (e1 :: es'). rewrite <- app_assoc in Huw'. cbn [length]. rewrite Hl', Ht', Hc', Ht1, Hc1.
  split; [cbn [deliver]; by erewrite st_bind_Ok by exact Hrun|]. by split.
Qed.

(** ** Confirmations that name the request *)

Lemma unmatched_all os : ∀ ms rs w es,
  table_wf (w_orders w) → log_rep (w_log w) es →
  Forall2 (λ o m, ∃ id, cancels m id o ∧ table_map (w_orders w) !! cstr 8 (id ++ [NUL]) = None) os ms →
  Forall2 confirms_request ms rs →
  Forall (λ o, (length (cstr 8 (o_symbol o)) < 8)%nat) os →
  Z.of_nat (length es) + Z.of_nat (length rs) <= MAX_EVENTS →
  ∃ w' es', deliver rs w = (w', Ok tt) ∧ log_rep (w_log w') (es ++ es') ∧ length es' = length rs ∧
    w_tracker w' = w_tracker w ∧ w_orders w' = w_orders w.
Proof.
  induction os as [|o os IH]; intros ms rs w es Hwf Hl Hms Hrs Hlen Hroom.
  { apply Forall2_nil_inv_l in Hms as ->. apply Forall2_nil_inv_l in Hrs as ->.
    exists w, []. by rewrite app_nil_r. }
  apply Forall2_cons_inv_l in Hms as (m & ms' & (id & Hm & Hnone) & Hms & ->).
  apply Forall2_cons_inv_l in Hrs as (r & rs' & (rid & Hrid & Hr) & Hrs & ->).
  assert (rid = id) as -> by (destruct Hm as (_ & Hm & _); congruence).
  apply Forall_cons in Hlen as [Ho Hlen]. cbn [length] in Hroom.
  destruct (confirmation_event id id m r o Hm Hr) as (e & He & Hty & Hids & Hf & Hk & Hs).
  rewrite <- Hk in Hnone.
  assert (Hos : OrderManager.apply_event e (w_orders w) = Ok (w_orders w))
    by (apply manager_unknown; by rewrite ?Hty).
  destruct (confirmation_handled id id m r o w es _ e Hm Hr Ho He Hf Hids Hs Hos Hl)
    as (w1 & e1 & Hrun & Hl1 & Ht1 & Ho1 & _); [lia|].
  destruct (IH ms' rs' w1 (es ++ [e1])) as (w' & es' & Hrun' & Hl' & Hle' & Ht' & Ho');
    try done; rewrite ?Ho1; try done.
  { rewrite length_app. cbn [length]. lia. }
  exists w', (e1 :: es'). rewrite <- app_assoc in Hl'. cbn [length]. rewrite Hle', Ht', Ho', Ht1, Ho1.
  split; [cbn [deliver]; by erewrite st_bind_Ok by exact Hrun|]. by split.
Qed.

(** What the kill switch handed over, order by order. *)
Lemma emergency_requests w w1 ms :
  table_wf (w_orders w) → symbols_ok (w_orders w) → emergency_cancel_all w = (w1, Ok tt) →
  sys_calls (w_system w1) = sys_calls (w_system w) ++ ((λ m, (m, w_session_id w)) <$> ms) →
  ∃ s1, w1 = set_system s1 w ∧ length ms = OrderManager.open_order_count (w_orders w) ∧
    Forall2 (λ o m, ∃ id, cancels m id o) (open_orders (w_orders w)) ms.
Proof.
  intros How Hsym Hem Hms.
  destruct (emergency_calls w (wf_sized _ How Hsym)) as (s1 & ms' & Hem' & Hcalls & Hcount & Hcan).
  assert (w1 = set_system s1 w) as -> by congruence. cbn [w_system set_system] in Hms.
  rewrite Hcalls in Hms. apply app_inv_head in Hms.
  assert (ms' = ms) as -> by (apply (inj (fmap (λ m, (m, w_session_id w)))) in Hms; done).
  exists s1. split; [done|]. split; [done|].
  apply Forall2_same_length_lookup. split; [by symmetry|]. intros i o m Ho Hm.
  eexists. by apply (Hcan i m o).
Qed.
End Unwind.

(** ** Properties *)

(** C17. The emergency path to its end: on any reachable gateway, when the kill switch
    has been executed and the counterparty confirms every cancel request it was handed
    under the identifier of the order, the confirmations are handled without an
    exception and recorded, and no order is open and no symbol has open exposure any
    more; the positions are as they were. *)
Theorem confirmed_cancels_close_the_book {L E M SID} `{LogLaws L} `{FixMessageLaws M} `{FixValues}
    `{EnvLaws E M SID} `{Cracker M} (w0 w w1 : world L E M SID) es ms rs :
  gw_start w0 → rtc FIXGateway.gw_step w0 w → log_rep (w_log w) es →
  Forall (λ o, (length (cstr 8 (o_symbol o)) < 8)%nat) (open_orders (w_orders w)) →
  FIXGateway.emergency_cancel_all w = (w1, Ok tt) →
  sys_calls (w_system w1) = sys_calls (w_system w) ++ ((λ m, (m, w_session_id w)) <$> ms) →
  Forall2 confirms_order ms rs →
  Z.of_nat (length es) + Z.of_nat (length rs) <= MAX_EVENTS →
  ∃ w' es', deliver rs w1 = (w', Ok tt) ∧ rtc FIXGateway.gw_step w1 w' ∧
    log_rep (w_log w') (es ++ es') ∧ length es' = OrderManager.open_order_count (w_orders w) ∧
    w_tracker w' = w_tracker w ∧ OrderManager.open_order_count (w_orders w') = 0%nat ∧
    ∀ k, map_sum (exposure_of k) (table_map (w_orders w')) = 0.
Proof.
  intros Hstart Hsteps Hl Hlen Hem Hms Hrs Hroom.
  pose proof (reachable_inv w0 w Hstart Hsteps) as Hinv.
  destruct (gw_inv_tables w Hinv) as (Htw & How & Hsym).
  destruct (emergency_requests w w1 ms How Hsym Hem Hms) as (s1 & -> & Hcount & Hcan).
  pose proof (unwinding_start (set_system s1 w) es How Hsym Hl) as Huw.
  destruct (unwind_all (open_orders (w_orders w)) ms rs (set_system s1 w) es)
    as (w' & es' & Hdel & [Hwf' _ Hl' _ Hopen' _] & Hle' & Ht' & _); try done.
  assert (Hall : all_closed (w_orders w')).
  { intros o Ho. destruct (is_open o) eqn:Hop; [|done].
    pose proof (Hopen' o Ho Hop) as Hn. by apply not_elem_of_nil in Hn. }
  exists w', es'. split; [done|]. split; [by eapply deliver_steps|]. split; [done|].
  split; [by rewrite Hle', <- (Forall2_length _ _ _ Hrs)|]. split; [done|].
  split; [by apply all_closed_count|]. intros k. by apply all_closed_exposure.
Qed.

(** The examples: a session with two buys, the second of them filled; the requests of its
    kill switch; and the confirmation of the first under an identifier. *)
Definition two_orders_script : list script_call :=
  [Order_of Buy 100; Order_of Buy 50; Report_of "1"%char "ORD1" 50].
Definition two_orders : sample_w := default sample_session (play two_orders_script sample_session).
Definition two_orders_killed : sample_w := (FIXGateway.emergency_cancel_all two_orders).1.
Definition two_orders_requests : list field_store :=
  drop (length (sys_calls (w_system two_orders))) (fst <$> sys_calls (w_system two_orders_killed)).
Definition sample_confirmation (oid : string) : field_store :=
  sample_report "4"%char "1"%char "AAPL" oid None.

Lemma two_orders_steps : rtc FIXGateway.gw_step sample_session two_orders.
Proof. apply (play_steps two_orders_script). apply played_default. vm_compute. reflexivity. Qed.

Lemma two_orders_killed_run : FIXGateway.emergency_cancel_all two_orders = (two_orders_killed, Ok tt).
Proof. unfold two_orders_killed. apply pair_result. vm_compute. reflexivity. Qed.

Lemma short_symbols (os : list Order) :
  forallb (λ o, Nat.ltb (length (cstr 8 (o_symbol o))) 8) os = true →
  Forall (λ o, (length (cstr 8 (o_symbol o)) < 8)%nat) os.
Proof.
  intros Hall. apply Forall_forall. intros o Ho%list_elem_of_In.
  rewrite forallb_forall in Hall. by apply Nat.ltb_lt, Hall.
Qed.

Lemma two_orders_open :
  Forall (λ o, (length (cstr 8 (o_symbol o)) < 8)%nat) (open_orders (w_orders two_orders)).
Proof.
  apply short_symbols. vm_compute. reflexivity.
Qed.

Lemma confirmed_cancels_close_the_book_witness :
  OrderManager.open_order_count (w_orders two_orders) = 1%nat ∧
  ∃ w', deliver [sample_confirmation "ORD0"] two_orders_killed = (w', Ok tt) ∧
    OrderManager.open_order_count (w_orders w') = 0%nat ∧ w_tracker w' = w_tracker two_orders.
Proof.
  split; [vm_compute; reflexivity|].
  destruct (confirmed_cancels_close_the_book sample_session two_orders two_orders_killed
    (w_log two_orders) two_orders_requests [sample_confirmation "ORD0"])
    as (w' & _ & Hdel & _ & _ & _ & Ht & Hopen & _).
  - exact sample_session_start.
  - exact two_orders_steps.
  - split; [reflexivity|vm_compute; congruence].
  - exact two_orders_open.
  - exact two_orders_killed_run.
  - vm_compute. reflexivity.
  - replace two_orders_requests with [nth 0 two_orders_requests (λ _, None)] by (vm_compute; reflexivity).
    constructor; [|constructor]. exists (lit "ORD0").
    split; [vm_compute; reflexivity|split; vm_compute; reflexivity].
  - vm_compute. congruence.
  - exists w'. split; [exact Hdel|]. split; [exact Hopen|exact Ht].
Defined.

(** C18. Confirmed by the protocol's identifier, the orders stay open: in FIX 4.2 the
    report that confirms a cancel carries the ClOrdID of the cancel request (and the
    order's in OrigClOrdID); the translator books every report under its ClOrdID and
    never reads OrigClOrdID, so after all confirmations of the kill switch's requests
    have been handled and logged, both books are exactly as before them: every order
    that was cancelled at the exchange is still open, and still counts as exposure. *)
Theorem request_confirmations_leave_orders_open {L E M SID} `{LogLaws L} `{FixMessageLaws M}
    `{FixValues} `{EnvLaws E M SID} `{Cracker M} (w0 w w1 : world L E M SID) es ms rs :
  gw_start w0 → rtc FIXGateway.gw_step w0 w → log_rep (w_log w) es →
  Forall (λ o, (length (cstr 8 (o_symbol o)) < 8)%nat) (open_orders (w_orders w)) →
  FIXGateway.emergency_cancel_all w = (w1, Ok tt) →
  sys_calls (w_system w1) = sys_calls (w_system w) ++ ((λ m, (m, w_session_id w)) <$> ms) →
  (∀ m id, m ∈ ms → fix_get F_ClOrdID m = Ok id →
     table_map (w_orders w) !! cstr 8 (id ++ [NUL]) = None) →
  Forall2 confirms_request ms rs →
  Z.of_nat (length es) + Z.of_nat (length rs) <= MAX_EVENTS →
  ∃ w' es', deliver rs w1 = (w', Ok tt) ∧ rtc FIXGateway.gw_step w1 w' ∧
    log_rep (w_log w') (es ++ es') ∧ length es' = OrderManager.open_order_count (w_orders w) ∧
    w_tracker w' = w_tracker w ∧ w_orders w' = w_orders w.
Proof.
  intros Hstart Hsteps Hl Hlen Hem Hms Hfree Hrs Hroom.
  pose proof (reachable_inv w0 w Hstart Hsteps) as Hinv.
  destruct (gw_inv_tables w Hinv) as (Htw & How & Hsym).
  destruct (emergency_requests w w1 ms How Hsym Hem Hms) as (s1 & -> & Hcount & Hcan).
  destruct (unmatched_all (open_orders (w_orders w)) ms rs (set_system s1 w) es)
    as (w' & es' & Hdel & Hl' & Hle' & Ht' & Ho'); try done.
  { clear -Hcan Hfree. induction Hcan as [|o m os ms [id Hm] Hms IH]; constructor.
    - exists id. split; [done|]. apply (Hfree m); [by left|apply Hm].
    - apply IH. intros m' id' Hm'. apply Hfree. by right. }
  exists w', es'. split; [done|]. split; [by eapply deliver_steps|]. split; [done|].
  by rewrite Hle', <- (Forall2_length _ _ _ Hrs).
Qed.

Lemma request_confirmations_leave_orders_open_witness :
  ∃ w', deliver [sample_confirmation "KS1"] two_orders_killed = (w', Ok tt) ∧
    OrderManager.open_order_count (w_orders w') = 1%nat.
Proof.
  destruct (request_confirmations_leave_orders_open sample_session two_orders two_orders_killed
    (w_log two_orders) two_orders_requests [sample_confirmation "KS1"])
    as (w' & _ & Hdel & _ & _ & _ & _ & Ho).
  - exact sample_session_start.
  - exact two_orders_steps.
  - split; [reflexivity|vm_compute; congruence].
  - exact two_orders_open.
  - exact two_orders_killed_run.
  - vm_compute. reflexivity.
  - assert (Hids : (fix_get F_ClOrdID <$> two_orders_requests) = [Ok (lit "KS1")]) by (vm_compute; reflexivity).
    intros m id Hm Hid. apply (list_elem_of_fmap_2 (fix_get F_ClOrdID)) in Hm.
    rewrite Hids, Hid in Hm. apply list_elem_of_singleton in Hm. injection Hm as ->.
    vm_compute. reflexivity.
  - replace two_orders_requests with [nth 0 two_orders_requests (λ _, None)] by (vm_compute; reflexivity).
    constructor; [|constructor]. exists (lit "KS1").
    split; [vm_compute; reflexivity|split; vm_compute; reflexivity].
  - vm_compute. congruence.
  - exists w'. split; [exact Hdel|]. rewrite Ho. vm_compute. reflexivity.
Defined.
