(* ===== verification/Flatten.v ===== *)
(** * [Flatten]: the closing orders of the kill switch and their executions

    [flatten] sends a market order per open position and enters none of them into the
    manager; their executions reach the tracker alone. *)

From stdpp Require Import relations.
From S2P Require Import Prelude CString OrderEvent EventLog SlotTable PositionTracker OrderManager.
From S2P Require Import Projection RiskChecker Fixed FixMessages MessageTranslator Environment.
From S2P Require Import Killswitch FIXGateway Scripts Trade Writes Unwind.

Local Open Scope Z_scope.

(** The volume a position has traded, and room for closing it. *)
Definition volume (p : Position) : Z := p_total_buy_qty p + p_total_sell_qty p.

Record closable (lo hi : Z) (p : Position) : Prop := {
  cl_bounded : bounded lo hi (volume p) p;
  cl_volume : volume p + Z.abs (p_net_qty p) <= INT32_MAX;
  cl_cost : hi * (volume p + Z.abs (p_net_qty p)) <= INT64_MAX;
  cl_symbol : (length (slot_key p) < 8)%nat;
}.

Definition close_side (p : Position) : Side := if 0 <? p_net_qty p then Sell else Buy.

Section Flatten.
Context {L E M SID : Type} `{LogLaws L} `{FixMessageLaws M} `{FixValues} `{EnvLaws E M SID}
  `{Cracker M}.
Import FIXGateway.
Notation W := (world L E M SID).
Implicit Types (w : W) (r m : M).

(** The execution that answers a closing order in full, at a price. *)
Definition closes_in_full (lo hi : Z) (p : Position) (m r : M) : Prop :=
  ∃ px, lo < px <= hi ∧ answers m (Z.abs (p_net_qty p), px) r.

Lemma closing_event lo hi id p m r :
  closes m id p → closes_in_full lo hi p m r → is_flat p = false → 0 <= lo → hi < 2 ^ 52 →
  Z.abs (p_net_qty p) <= INT32_MAX →
  ∃ e, executes (cstr 8 (id ++ [NUL])) (slot_key p) (close_side p) (Z.abs (p_net_qty p))
         (oe_fill_price e) r e ∧ lo <= oe_fill_price e <= hi.
Proof.
  intros (Ho & Hs & Hsd & _) (px & Hpx & [Hr (c & ty & Hc & Hty & Hfill) Hro Hrs Hrsd [Hq Hp] Hqv Hpv])
    Hflat Hlo Hhi Hnet.
  apply Z.eqb_neq in Hflat. rewrite <- Hro in Ho. rewrite <- Hrs in Hs. rewrite <- Hrsd in Hsd.
  set (evt := {| oe_sequence := 0; oe_timestamp_ns := 0; oe_price := 0; oe_fill_price := 0;
    oe_qty := 0; oe_fill_qty := 0; oe_symbol := p_symbol p;
    oe_order_id := pad 8 (cstr 8 (id ++ [NUL])); oe_type := NewOrder; oe_side := close_side p;
    oe_pad := [] |}).
  assert (Hk : order_key evt = cstr 8 (id ++ [NUL])) by apply cstr_idemp. rewrite <- Hk in Ho.
  destruct (report_of_order r evt c ty (Z.abs (p_net_qty p)) px)
    as (e & He & _ & Hte & Hke & Hsy & Hse & Hf & _); try done.
  { unfold evt, close_side. cbn [oe_side]. destruct (0 <? p_net_qty p); auto. }
  { apply in_i32_spec. unfold INT32_MAX in *. lia. }
  { lia. }
  assert (Hfe : is_fill e = true) by (unfold is_fill; destruct Hfill as [-> | ->]; by rewrite Hte).
  destruct (Hf Hfe) as [Hqe Hpe]. rewrite Z.sgn_pos in Hpe by lia. exists e.
  split; [|lia]. split; try done. by rewrite Hke, Hk.
Qed.

(** [ps] are the open positions, as the table holds them. *)
Record flattening (ps : list Position) w (os : OrderManager.t) (es : list OrderEvent) : Prop := {
  fn_wf : table_wf (w_tracker w);
  fn_orders : w_orders w = os;
  fn_log : log_rep (w_log w) es;
  fn_held p : p ∈ ps → table_map (w_tracker w) !! slot_key p = Some p;
  fn_open p : p ∈ live (w_tracker w) → is_flat p = false → p ∈ ps;
  fn_keys : NoDup (slot_key <$> ps);
}.

Lemma flattening_start w es :
  table_wf (w_tracker w) → log_rep (w_log w) es →
  flattening (open_positions (w_tracker w)) w (w_orders w) es.
Proof.
  intros Hwf Hl. split; try done.
  - intros p [_ Hp]%list_elem_of_filter. by apply table_map_Some.
  - intros p Hp Hop. apply list_elem_of_filter. by rewrite Hop.
  - eapply sublist_NoDup; [apply (tw_nodup _ Hwf)|apply fmap_sublist, sublist_filter].
Qed.

Lemma flatten_one lo hi p ps id m r w os es :
  flattening (p :: ps) w os es → closable lo hi p → is_flat p = false →
  closes m id p → closes_in_full lo hi p m r → table_wf os →
  table_map os !! cstr 8 (id ++ [NUL]) = None → 0 <= lo → hi < 2 ^ 52 →
  Z.of_nat (length es) < MAX_EVENTS →
  ∃ w' e', fromApp r w = (w', Ok tt) ∧ flattening ps w' os (es ++ [e']).
Proof.
  intros [Hwf Hor Hl Hheld Hopen Hkeys] [Hbd HV Hmax Hlen] Hflat Hm Hr How Hnone Hlo Hhi Hroom.
  pose proof (bd_totals _ _ _ _ Hbd) as Htot.
  assert (Hnz : p_net_qty p ≠ 0) by (by apply Z.eqb_neq).
  destruct (closing_event lo hi id p m r) as (e & [Hrep He Hf Hk Hs Hsd Hq _] & Hpx);
    [done..|lia|].
  destruct (from_execution_report_wf r e He) as (Hewf & _ & Hty).
  destruct (wf_event_ids e Hewf) as [Hesym Hids].
  pose proof (Hheld p ltac:(by left)) as Hp. rewrite <- Hs in Hp.
  assert (Hpos : position_of (cstr 8 (oe_symbol e)) (w_tracker w) = p) by (unfold position_of; by rewrite Hp).
  destruct (tracker_fill lo hi (volume p) e (w_tracker w)) as (t' & p' & Ht' & Hwf' & Hmap & _ & Hnet);
    rewrite ?Hpos, ?Hq; try done; [left; by eexists|lia|].
  assert (Hos : OrderManager.apply_event e (w_orders w) = Ok (w_orders w)).
  { rewrite Hor. apply manager_unknown; [done|done| |by rewrite Hk].
    intros Hn. unfold is_fill in Hf. by rewrite Hn in Hf. }
  destruct (onMessage_booked r e w es t' (w_orders w)) as (l' & s' & ts & Hl' & _ & Hrun); [done..|].
  assert (Hnul : NUL ∈ oe_symbol e) by (apply (NUL_in_short 8); [unfold symbol_ok in Hesym; lia|by rewrite Hs]).
  destruct (c_str_NUL (oe_symbol e)) as [[_ Hn]|[_ [s0 Hs0]]]; [done|]. rewrite Hs0 in Hrun.
  eexists _, _. split; [unfold fromApp, st_noexcept; by rewrite Hrep, Hrun|].
  assert (Hflat' : is_flat p' = true).
  { apply Z.eqb_eq. rewrite Hnet. unfold net_of. rewrite Hp. cbn [fmap option_fmap option_map default from_option].
    unfold signed_qty, Datatypes.id. rewrite Hq, Hsd. unfold close_side, sgn_side.
    destruct (Z.ltb_spec 0 (p_net_qty p)); case_decide; try done; lia. }
  rewrite fmap_cons in Hkeys. apply NoDup_cons in Hkeys as [Hk1 Hk2].
  split; cbn [fst w_tracker w_orders w_log set_system set_orders set_tracker set_log]; try done.
  - intros p2 Hp2. rewrite Hmap, lookup_insert_ne; [apply Hheld; by right|].
    rewrite Hs. intros Heq. apply Hk1. rewrite Heq. by apply list_elem_of_fmap_2.
  - intros p2 Hlive Hop. assert (table_map t' !! slot_key p2 = Some p2) as Hl2 by (by apply table_map_Some).
    rewrite Hmap in Hl2. apply lookup_insert_Some in Hl2 as [[_ <-]|[Hne Hl2]]; [congruence|].
    apply table_map_Some in Hl2 as [Hin _]; [|done].
    pose proof (Hopen p2 Hin Hop) as Hos2. apply elem_of_cons in Hos2 as [-> |?]; [|done].
    by rewrite Hs in Hne.
Qed.

Lemma flatten_all lo hi ps : ∀ ms rs w os es,
  flattening ps w os es → Forall (λ p, closable lo hi p ∧ is_flat p = false) ps →
  Forall2 (λ p m, ∃ id, closes m id p ∧ table_map os !! cstr 8 (id ++ [NUL]) = None) ps ms →
  Forall2 (λ '(p, m) r, closes_in_full lo hi p m r) (zip ps ms) rs → table_wf os →
  0 <= lo → hi < 2 ^ 52 → Z.of_nat (length es) + Z.of_nat (length rs) <= MAX_EVENTS →
  ∃ w' es', deliver rs w = (w', Ok tt) ∧ flattening [] w' os (es ++ es') ∧ length es' = length rs.
Proof.
  induction ps as [|p ps IH]; intros ms rs w os es Hfl Hps Hms Hrs How Hlo Hhi Hroom.
  { apply Forall2_nil_inv_l in Hms as ->. apply Forall2_nil_inv_l in Hrs as ->.
    exists w, []. by rewrite app_nil_r. }
  apply Forall2_cons_inv_l in Hms as (m & ms' & (id & Hm & Hnone) & Hms & ->).
  cbn [zip zip_with] in Hrs. apply Forall2_cons_inv_l in Hrs as (r & rs' & Hr & Hrs & ->).
  apply Forall_cons in Hps as [[Hcl Hflat] Hps]. cbn [length] in Hroom.
  destruct (flatten_one lo hi p ps id m r w os es) as (w1 & e1 & Hrun & Hfl1); [done..|lia|].
  destruct (IH ms' rs' w1 os (es ++ [e1])) as (w' & es' & Hrun' & Hfl' & Hl'); try done.
  { rewrite length_app. cbn [length]. lia. }
  exists w', (e1 :: es'). rewrite <- app_assoc in Hfl'. cbn [length]. rewrite Hl'.
  split; [cbn [deliver]; by erewrite st_bind_Ok by exact Hrun|]. by split.
Qed.
End Flatten.

(** ** Properties *)

(** C19. The book is flat in the end: on any reachable gateway, when the market orders of
    [flatten] are executed in full, at any prices within the machine limits and in the
    order they were sent, the reports are handled without an exception and recorded,
    every position is flat afterwards, and the order book is untouched. *)
Theorem executed_flatten_leaves_no_position {L E M SID} `{LogLaws L} `{FixMessageLaws M}
    `{FixValues} `{EnvLaws E M SID} `{Cracker M} (w0 w : world L E M SID) s1 prefix es ms rs lo hi :
  gw_start w0 → rtc FIXGateway.gw_step w0 w → log_rep (w_log w) es →
  Forall (closable lo hi) (open_positions (w_tracker w)) → 0 <= lo → hi < 2 ^ 52 →
  Killswitch.flatten (Killswitch.make (w_session_id w)) prefix (w_tracker w) (w_system w) = (s1, Ok tt) →
  sys_calls s1 = sys_calls (w_system w) ++ ((λ m, (m, w_session_id w)) <$> ms) →
  (∀ m id, m ∈ ms → fix_get F_ClOrdID m = Ok (cstr 8 (id ++ [NUL])) →
     table_map (w_orders w) !! cstr 8 (id ++ [NUL]) = None) →
  Forall2 (λ '(p, m) r, closes_in_full lo hi p m r) (zip (open_positions (w_tracker w)) ms) rs →
  Z.of_nat (length es) + Z.of_nat (length rs) <= MAX_EVENTS →
  ∃ w' es', deliver rs (set_system s1 w) = (w', Ok tt) ∧
    log_rep (w_log w') (es ++ es') ∧ length es' = length (open_positions (w_tracker w)) ∧
    (∀ p, p ∈ live (w_tracker w') → is_flat p = true) ∧ w_orders w' = w_orders w.
Proof.
  intros Hstart Hsteps Hl Hcl Hlo Hhi Hfl Hms Hfree Hrs Hroom.
  pose proof (reachable_inv w0 w Hstart Hsteps) as Hinv.
  destruct (gw_inv_tables w Hinv) as (Htw & How & _).
  assert (Hnet : ∀ p, p ∈ live (w_tracker w) → Z.abs (p_net_qty p) <= INT64_MAX).
  { intros p Hp. rewrite Forall_forall in Hcl. destruct (is_flat p) eqn:Hf.
    - apply Z.eqb_eq in Hf. rewrite Hf. done.
    - destruct (Hcl p) as [[_ _ _ Htot _] HV _ _]; [by apply list_elem_of_filter; rewrite Hf|].
      unfold INT32_MAX, INT64_MAX in *. lia. }
  destruct (flatten_ok (Killswitch.make (w_session_id w)) prefix (w_tracker w) (w_system w) Htw Hnet)
    as (s1' & ms' & Hfl' & Hcalls & Hlen & Hclose).
  assert (s1' = s1) as -> by congruence. rewrite Hcalls in Hms. apply app_inv_head in Hms.
  assert (ms' = ms) as -> by (apply (inj (fmap (λ m, (m, w_session_id w)))) in Hms; done).
  pose proof (flattening_start (set_system s1 w) es Htw Hl) as Hst.
  destruct (flatten_all lo hi (open_positions (w_tracker w)) ms rs (set_system s1 w) (w_orders w) es)
    as (w' & es' & Hdel & [Hwf' Hor' Hl' _ Hopen' _] & Hle'); try done.
  { apply Forall_forall. intros p Hp. rewrite Forall_forall in Hcl. split; [by apply Hcl|].
    apply list_elem_of_filter in Hp as [Hp _]. by apply negb_true_iff. }
  { apply Forall2_same_length_lookup. split; [by symmetry|]. intros i p m Hp Hm.
    pose proof (Hclose i m p Hm Hp) as Hcm. eexists. split; [exact Hcm|].
    apply (Hfree m); [by eapply list_elem_of_lookup_2|apply Hcm]. }
  exists w', es'. split; [done|]. split; [done|].
  split; [rewrite Hle', <- (Forall2_length _ _ _ Hrs), length_zip; lia|]. split; [|done].
  intros p Hp. destruct (is_flat p) eqn:Hf; [done|].
  pose proof (Hopen' p Hp Hf) as Hn. by apply not_elem_of_nil in Hn.
Qed.

(** The position of the example of [Unwind], and the execution of its closing order. *)
Definition long_50 : Position := {|
  p_symbol := pad 8 (lit "AAPL"); p_net_qty := 50; p_avg_entry_price := 1000000;
  p_realized_pnl := 0; p_unrealized_pnl := 0; p_total_buy_qty := 50; p_total_sell_qty := 0;
  p_last_price := 0; p_last_updated_seq := 0;
|}.
Definition closing_report : field_store :=
  sample_report "2"%char "2"%char "AAPL" "FL1" (Some (of_int 50, from_fixed 1000000)).
Definition two_orders_flatten : system sample_env field_store string * outcome unit :=
  Killswitch.flatten (Killswitch.make (w_session_id two_orders)) default_flatten_prefix
    (w_tracker two_orders) (w_system two_orders).
Definition closing_orders : list field_store :=
  drop (length (sys_calls (w_system two_orders))) (fst <$> sys_calls two_orders_flatten.1).

Lemma long_50_closable : closable 999999 1000000 long_50.
Proof.
  split; [split|..]; unfold volume, INT32_MAX, INT64_MAX; cbn [long_50 p_net_qty p_avg_entry_price
    p_realized_pnl p_total_buy_qty p_total_sell_qty p_last_price]; try lia.
  - change (50 =? 0) with false. cbn iota. lia.
  - apply Nat.ltb_lt. reflexivity.
Qed.

Lemma executed_flatten_leaves_no_position_witness :
  open_positions (w_tracker two_orders) = [long_50] ∧
  ∃ w', deliver [closing_report] (set_system two_orders_flatten.1 two_orders) = (w', Ok tt) ∧
    ∀ p, p ∈ live (w_tracker w') → is_flat p = true.
Proof.
  assert (Hpos : open_positions (w_tracker two_orders) = [long_50]) by (vm_compute; reflexivity).
  split; [exact Hpos|].
  destruct (executed_flatten_leaves_no_position sample_session two_orders two_orders_flatten.1
    default_flatten_prefix (w_log two_orders) closing_orders [closing_report] 999999 1000000)
    as (w' & _ & Hdel & _ & _ & Hflat & _).
  - exact sample_session_start.
  - exact two_orders_steps.
  - split; [reflexivity|vm_compute; congruence].
  - rewrite Hpos. constructor; [exact long_50_closable|constructor].
  - lia.
  - lia.
  - apply pair_result. vm_compute. reflexivity.
  - vm_compute. reflexivity.
  - assert (Hids : (fix_get F_ClOrdID <$> closing_orders) = [Ok (lit "FL1")]) by (vm_compute; reflexivity).
    intros m id Hm. generalize (cstr 8 (id ++ [NUL])). intros k Hid.
    apply (list_elem_of_fmap_2 (fix_get F_ClOrdID)) in Hm.
    rewrite Hids, Hid in Hm. apply list_elem_of_singleton in Hm. injection Hm as ->.
    vm_compute. reflexivity.
  - rewrite Hpos.
    replace closing_orders with [nth 0 closing_orders (λ _, None)] by (vm_compute; reflexivity).
    constructor; [|constructor]. exists 1000000. split; [lia|].
    split; try (vm_compute; reflexivity).
    + exists "2"%char, FullFill. split; [reflexivity|]. split; [reflexivity|by right].
    + by split.
  - vm_compute. congruence.
  - exists w'. split; [exact Hdel|exact Hflat].
Defined.
