(* ===== verification/Calls.v ===== *)
(** * [Calls]: the gateway's calls, one component call at a time

    The same calls as in [FIXGateway] and [Killswitch], written as resumptions whose
    atomic steps are the calls into the log, the tracker, the manager and the engine:
    the places where another thread, or a signal, may come in between.  Run alone they
    are the calls of [FIXGateway]. *)

From S2P Require Import Prelude CString OrderEvent EventLog SlotTable PositionTracker OrderManager.
From S2P Require Import Projection RiskChecker Fixed FixMessages MessageTranslator Environment.
From S2P Require Import Killswitch FIXGateway Resumption.

Local Open Scope Z_scope.

Module Calls.
Section Calls.
Context {L E M SID : Type} `{LogOps L} `{FixMessage M} `{FixValues} `{Env E M SID}
  `{Cracker M}.
Notation W := (world L E M SID).
Import FIXGateway.

(** ** Inbound reports *)

(** The three bookkeeping calls and the trace, from each of them on. *)
Definition book_traced (evt : OrderEvent) : res W unit := atom (trace_report evt).
Definition book_managed (evt : OrderEvent) : res W unit :=
  _ ← atom (manage_event evt); book_traced evt.
Definition book_tracked (evt : OrderEvent) : res W unit :=
  _ ← atom (track_event evt); book_managed evt.
Definition book (evt : OrderEvent) : res W unit :=
  _ ← atom (log_event evt); book_tracked evt.

Definition onMessage (report : M) : res W unit :=
  res_noexcept (
    maybe_evt ← local (MessageTranslator.from_execution_report report);
    match maybe_evt with
    | None => mret tt
    | Some evt => book evt
    end).

Definition fromApp (msg : M) : res W unit :=
  res_noexcept (
    if is_execution_report msg then onMessage msg
    else local (Throw UnsupportedMessageType)).

(** ** The complete risk check: three reads of the books

    [tracker.get(sym)] with [pos->net_qty], [orders.open_exposure(sym)], and
    [pos->realized_pnl] through the same pointer at the end. *)
Definition check (symbol : string_view) (side : Side) (qty price_fp : Z) : res W RiskResult :=
  limits ← peek (λ w, Ok (w_limits w));
  if max_order_qty limits <? qty then mret FailMaxQty else
  notional ← local (i64 (qty * price_fp));
  if max_order_notional limits <? notional then mret FailMaxNotional else
  pos ← peek (λ w, find symbol (w_tracker w));
  filled_qty ← peek (λ w,
    Ok (match deref pos (w_tracker w) with Some p => p_net_qty p | None => 0 end));
  pending_qty ← peek (λ w, OrderManager.open_exposure symbol (w_orders w));
  true_qty ← local (i64 (filled_qty + pending_qty));
  delta ← local (signed_order_qty side qty);
  projected ← local (i64 (true_qty + delta));
  over ← local (over_limit projected (max_net_position limits));
  if over : bool then mret FailPositionLimit else
  if negb (allow_position_cross limits) && crosses true_qty projected
  then mret FailPositionCross else
  peek (λ w,
    match deref pos (w_tracker w) with
    | None => Ok Pass
    | Some p => loss ← loss_breached limits p; if loss : bool then Ok FailMaxLoss else Ok Pass
    end).

(** ** Outbound orders *)

(** [send_order] once the order is in the books. *)
Definition send_recorded (evt : OrderEvent) (oid : list char) : res W (list char) :=
  now ← atom (gw_do utc_now);
  fix_order ← local (MessageTranslator.to_new_order_single now evt);
  _ ← atom (λ w, gw_do (sendToTarget fix_order (session_id w)) w);
  mret oid.

(** [send_order] once the check has passed. *)
Definition send_passed (symbol : string_view) (side : Side) (qty price_fp : Z) :
    res W (list char) :=
  oid ← atom next_order_id;
  evt ← local (make_new_order symbol side qty price_fp (sv_of_string oid));
  _ ← atom (log_event evt);
  _ ← atom (manage_event evt);
  send_recorded evt oid.

Definition send_order (symbol : string_view) (side : Side) (qty price_fp : Z) :
    res W (list char) :=
  connected ← peek (λ w, Ok (is_connected w));
  if negb connected then _ ← atom (gw_do (print Out_not_connected)); mret [] else
  result ← check symbol side qty price_fp;
  if negb (bool_decide (result = Pass)) then
    _ ← atom (gw_do (print (Out_risk_blocked (RiskResult_to_string result)))); mret []
  else send_passed symbol side qty price_fp.

(** ** The kill switch *)

(** One cancel request, with the counter of [cancel_all]. *)
Definition cancel_order (session_id : SID) (id_prefix : string_view) (o : Order) (count : Z) :
    res W Z :=
  atom (λ w,
    let r := Killswitch.cancel_order session_id id_prefix o (count, w_system w) in
    (set_system r.1.2 w, (λ _, r.1.1) <$> r.2)).

(** The test of the loop of [for_each_open] at index [i], and the slot there. *)
Definition slot_at (i : nat) (t : OrderManager.t) : outcome (option Order) :=
  if (i <? count_ t)%nat then
    match slots_ t !! i with Some o => Ok (Some o) | None => UB end
  else Ok None.

(** The loop; [count_] is read again on every iteration, so that orders of other
    threads are seen.  [fuel] is [MAX_ORDERS] iterations and the last test. *)
Fixpoint cancel_loop (session_id : SID) (id_prefix : string_view) (fuel i : nat) (count : Z) :
    res W Z :=
  match fuel with
  | O => Done UB
  | S fuel =>
      slot ← peek (λ w, slot_at i (w_orders w));
      match slot with
      | None => mret count
      | Some o =>
          count' ← (if is_open o then cancel_order session_id id_prefix o count else mret count);
          cancel_loop session_id id_prefix fuel (S i) count'
      end
  end.

Definition cancel_all (session_id : SID) (id_prefix : string_view) : res W unit :=
  count ← cancel_loop session_id id_prefix (S MAX_ORDERS) 0 0;
  atom (gw_do (print (Out_cancels count))).

Definition execute (session_id : SID) (id_prefix : string_view) (budget_ms : Z) : res W Z :=
  t0 ← atom (gw_do steady_now);
  _ ← cancel_all session_id id_prefix;
  t1 ← atom (gw_do steady_now);
  let elapsed := Z.quot (t1 - t0) 1000000 in
  _ ← atom (gw_do (print (if budget_ms <? elapsed then Out_cancel_all_late elapsed budget_ms
                          else Out_cancel_all_sent elapsed)));
  mret elapsed.

Definition emergency_cancel_all : res W unit :=
  _ ← atom (gw_do (print Out_emergency));
  sid ← peek (λ w, Ok (session_id w));
  _ ← execute sid default_cancel_prefix default_budget_ms;
  mret tt.
End Calls.
End Calls.

(** ** Run alone, they are the calls of the gateway *)

Section Alone.
Context {L E M SID : Type} `{LogOps L} `{FixMessage M} `{FixValues} `{Env E M SID}
  `{Cracker M}.
Notation W := (world L E M SID).

Lemma st_bind_run {A B} (m : stO W A) (f : A → res W B) (g : A → stO W B) w :
  (∀ a w', run (f a) w' = g a w') → run (a ← atom m; f a) w = (m ≫= g) w.
Proof.
  intros Hfg. rewrite run_bind. unfold mbind, stO_bind. rewrite run_atom.
  by destruct (m w) as [w' [a|e| |]].
Qed.

Lemma st_bind_local {A B} (m : outcome A) (f : A → res W B) (g : A → stO W B) w :
  (∀ a w', run (f a) w' = g a w') → run (a ← local m; f a) w = (st_lift m ≫= g) w.
Proof. intros Hfg. destruct m; cbn; [apply Hfg|done..]. Qed.

(** A step that looks, then goes on with what it saw. *)
Lemma run_peek {A B} (f : W → outcome A) (k : A → res W B) w :
  run (a ← peek f; k a) w
    = match f w with Ok a => run (k a) w | Throw e => (w, Throw e) | UB => (w, UB)
      | Terminate => (w, Terminate) end.
Proof. rewrite run_bind. unfold mbind, stO_bind, peek. rewrite run_atom. by destruct (f w). Qed.

Lemma run_local {A B} (m : outcome A) (k : A → res W B) w :
  run (a ← local m; k a) w
    = match m with Ok a => run (k a) w | Throw e => (w, Throw e) | UB => (w, UB)
      | Terminate => (w, Terminate) end.
Proof. by destruct m. Qed.

Lemma run_book evt (w : W) : run (Calls.book evt) w = book_event evt w.
Proof.
  apply st_bind_run. intros _ w1. apply st_bind_run. intros _ w2.
  apply st_bind_run. intros _ w3. apply run_atom.
Qed.

Lemma run_onMessage (msg : M) (w : W) : run (Calls.onMessage msg) w = FIXGateway.onMessage msg w.
Proof.
  unfold Calls.onMessage. rewrite run_noexcept. unfold FIXGateway.onMessage, st_noexcept.
  set (r := MessageTranslator.from_execution_report msg).
  assert (Hr : run (maybe_evt ← local r; match maybe_evt with None => mret tt | Some evt => Calls.book evt end) w
    = (maybe_evt ← st_lift r; match maybe_evt with None => mret tt | Some evt => book_event evt end : stO W unit) w).
  { apply st_bind_local. intros [evt|] w'; [apply run_book|done]. }
  by rewrite Hr.
Qed.

Lemma run_fromApp (msg : M) (w : W) : run (Calls.fromApp msg) w = FIXGateway.fromApp msg w.
Proof.
  unfold Calls.fromApp. rewrite run_noexcept. unfold FIXGateway.fromApp, st_noexcept.
  destruct (is_execution_report msg); [by rewrite run_onMessage|done].
Qed.

(** The three reads, when nothing happens in between, are the check. *)
Lemma run_check symbol side qty price (w : W) :
  run (Calls.check symbol side qty price) w
    = (w, check (w_limits w) symbol side qty price (w_tracker w) (w_orders w)).
Proof.
  unfold Calls.check. rewrite run_peek. unfold check.
  destruct (max_order_qty (w_limits w) <? qty); [done|]. rewrite run_local.
  destruct (i64 (qty * price)) as [notional| | |]; try done. cbn [mbind outcome_bind].
  destruct (max_order_notional (w_limits w) <? notional); [done|].
  unfold PositionTracker.get, get. rewrite run_peek.
  destruct (find symbol (w_tracker w)) as [pos| | |]; try done. cbn [mbind outcome_bind].
  rewrite !run_peek. set (filled := match deref pos (w_tracker w) with Some p => _ | None => _ end).
  destruct (OrderManager.open_exposure symbol (w_orders w)) as [pending| | |]; try done. cbn [mbind outcome_bind].
  rewrite run_local. destruct (i64 (filled + pending)) as [tq| | |]; try done. cbn [mbind outcome_bind].
  rewrite run_local. destruct (signed_order_qty side qty) as [delta| | |]; try done. cbn [mbind outcome_bind].
  rewrite run_local. destruct (i64 (tq + delta)) as [projected| | |]; try done. cbn [mbind outcome_bind].
  rewrite run_local. destruct (over_limit projected _) as [[]| | |]; try done.
  cbn [mbind outcome_bind]. destruct (_ && _); [done|].
  unfold peek. rewrite run_atom. by destruct (deref pos (w_tracker w)).
Qed.

Lemma run_send_passed symbol side qty price (w : W) :
  run (Calls.send_passed symbol side qty price) w = FIXGateway.record_order symbol side qty price w.
Proof.
  apply st_bind_run. intros oid w1. apply st_bind_local. intros evt w2.
  apply st_bind_run. intros _ w3. apply st_bind_run. intros _ w4.
  apply st_bind_run. intros now w5. apply st_bind_local. intros order w6.
  rewrite run_bind. unfold mbind, stO_bind. rewrite run_atom. done.
Qed.

Lemma run_send_order symbol side qty price (w : W) :
  run (Calls.send_order symbol side qty price) w = FIXGateway.send_order symbol side qty price w.
Proof.
  unfold Calls.send_order. rewrite run_peek. unfold FIXGateway.send_order.
  rewrite (st_bind_Ok st_get _ w w w) by done.
  destruct (negb (FIXGateway.is_connected w)).
  { by apply st_bind_run. }
  destruct (check (w_limits w) symbol side qty price (w_tracker w) (w_orders w))
    as [result| | |] eqn:Hc.
  2-4: rewrite run_bind; unfold mbind, stO_bind, st_lift; by rewrite run_check, Hc.
  rewrite (run_bind_Ok (Calls.check symbol side qty price) _ w w result) by (by rewrite run_check, Hc).
  rewrite (st_bind_Ok _ _ w w result) by done.
  destruct (negb (bool_decide (result = Pass))); [by apply st_bind_run|].
  apply run_send_passed.
Qed.

(** ** The kill switch, alone *)

(** The part of a kill-switch call on the system is a step of the world. *)
Definition on_system {A} (r : (Z * system E M SID) * outcome A) (w : W) : W * outcome Z :=
  (set_system r.1.2 w, (λ _, r.1.1) <$> r.2).

Lemma set_system_id (w : W) : set_system (w_system w) w = w.
Proof. by destruct w. Qed.

Lemma drop_live (t : OrderManager.t) i o :
  slots_ t !! i = Some o → (i < count_ t)%nat → drop i (live t) = o :: drop (S i) (live t).
Proof. intros Ho Hi. apply drop_S. by apply live_lookup. Qed.

Lemma run_cancel_loop sid prefix fuel : ∀ i count (w : W),
  table_wf (w_orders w) → (i ≤ count_ (w_orders w))%nat → (count_ (w_orders w) < i + fuel)%nat →
  run (Calls.cancel_loop sid prefix fuel i count) w
    = on_system (st_for (λ o, if is_open o then Killswitch.cancel_order sid prefix o else mret tt)
                   (drop i (live (w_orders w))) (count, w_system w)) w.
Proof.
  induction fuel as [|fuel IH]; intros i count w Hwf Hi Hfuel; [lia|].
  cbn [Calls.cancel_loop]. rewrite run_peek. unfold Calls.slot_at.
  destruct (Nat.ltb_spec i (count_ (w_orders w))) as [Hlt|Hge]; cycle 1.
  { assert (i = count_ (w_orders w)) as -> by lia.
    rewrite drop_ge by (by rewrite live_length). unfold on_system. cbn. by rewrite set_system_id. }
  destruct (lookup_lt_is_Some_2 (slots_ (w_orders w)) i) as [o Ho].
  { rewrite (tw_length _ Hwf). pose proof (tw_count _ Hwf). lia. }
  rewrite Ho, (drop_live _ i o) by done. cbn [st_for]. destruct (is_open o).
  - rewrite run_bind. unfold mbind, stO_bind. unfold Calls.cancel_order. rewrite run_atom.
    destruct (Killswitch.cancel_order sid prefix o (count, w_system w)) as [[n s] [[]|e| |]]; [|done..].
    cbn [fst snd fmap outcome_fmap mbind outcome_bind]. rewrite IH by (cbn; done || lia). done.
  - apply IH; [done|lia..].
Qed.

Lemma run_cancel_all ks prefix (w : W) :
  table_wf (w_orders w) →
  run (Calls.cancel_all (Killswitch.ks_session_id ks) prefix) w
    = FIXGateway.gw_do (Killswitch.cancel_all ks prefix (w_orders w)) w.
Proof.
  intros Hwf. unfold Calls.cancel_all. rewrite run_bind. unfold mbind, stO_bind.
  pose proof (tw_count _ Hwf) as Hcount. cbn in Hcount.
  rewrite run_cancel_loop by (done || lia). rewrite drop_0.
  unfold FIXGateway.gw_do, st_zoom, Killswitch.cancel_all, Killswitch.with_count, for_each_open_do, on_system.
  destruct (st_for _ _ _) as [[n s] [[]|e| |]]; [|done..].
  cbn [fst snd fmap outcome_fmap mbind outcome_bind]. rewrite run_atom. done.
Qed.

Lemma run_execute ks prefix budget (w : W) :
  table_wf (w_orders w) →
  run (Calls.execute (Killswitch.ks_session_id ks) prefix budget) w
    = FIXGateway.gw_do (Killswitch.execute ks prefix budget (w_orders w)) w.
Proof.
  intros Hwf. unfold Calls.execute, Killswitch.execute.
  set (w1 := (FIXGateway.gw_do steady_now w).1).
  rewrite (run_bind_Ok _ _ w w1 (env_steady (sys_env (w_system w))).2) by done.
  unfold FIXGateway.gw_do at 3, st_zoom.
  rewrite (st_bind_Ok steady_now _ (w_system w) (w_system w1) (env_steady (sys_env (w_system w))).2) by done.
  rewrite run_bind. unfold mbind, stO_bind. rewrite run_cancel_all by done.
  unfold FIXGateway.gw_do, st_zoom. change (w_orders w1) with (w_orders w).
  by destruct (Killswitch.cancel_all ks prefix (w_orders w) (w_system w1)) as [s [[]|e| |]].
Qed.

Lemma run_emergency (w : W) :
  table_wf (w_orders w) → run Calls.emergency_cancel_all w = FIXGateway.emergency_cancel_all w.
Proof.
  intros Hwf. unfold Calls.emergency_cancel_all, FIXGateway.emergency_cancel_all.
  set (w1 := (FIXGateway.gw_do (print Out_emergency) w).1).
  rewrite (run_bind_Ok _ _ w w1 tt) by done. rewrite (st_bind_Ok _ _ w w1 tt) by done.
  rewrite run_peek, (st_bind_Ok st_get _ w1 w1 w1) by done.
  rewrite run_bind. unfold mbind, stO_bind.
  by rewrite (run_execute (Killswitch.make (FIXGateway.session_id w1))).
Qed.
End Alone.
