(* ===== verification/Threads.v ===== *)
(** * [Threads]: the gateway under overlapping calls

    The engine's I/O thread, the strategy's thread and any number of signal handlers
    run their calls ([Calls]) beside each other; between two steps of one call the
    others may do any number of theirs.  A step is a whole call into one component.  The
    code takes no lock, so that two of them may in fact overlap: [Races] has the machine
    in which they do, with the conditions under which its executions are those of
    this one. *)

From stdpp Require Import relations.
From S2P Require Import Prelude CString OrderEvent EventLog SlotTable PositionTracker OrderManager.
From S2P Require Import Projection Commute RiskChecker Fixed FixMessages MessageTranslator Environment.
From S2P Require Import Killswitch FIXGateway Scripts Resumption Calls.

Local Open Scope Z_scope.

(** ** The machine *)

(** What each thread is executing; [Done] when it is between two calls.  Beside a
    running call stands the key of the order it is about: the order a report names,
    the order being sent. *)
Record machine (L E M SID : Type) : Type := {
  mc_world : world L E M SID;
  mc_engine : res (world L E M SID) unit;
  mc_report : option (list char);
  mc_strategy : res (world L E M SID) (list char);
  mc_sending : option (list char);
  mc_signals : list (res (world L E M SID) unit);
}.
Arguments mc_world {L E M SID} c : rename.
Arguments mc_engine {L E M SID} c : rename.
Arguments mc_report {L E M SID} c : rename.
Arguments mc_strategy {L E M SID} c : rename.
Arguments mc_sending {L E M SID} c : rename.
Arguments mc_signals {L E M SID} c : rename.

Section Machine.
Context {L E M SID : Type} `{LogOps L} `{FixMessage M} `{FixValues} `{Env E M SID}
  `{Cracker M}.
Notation W := (world L E M SID).
Notation C := (machine L E M SID).

(** The process goes on: no thread terminated it or ran into undefined behaviour. *)
Definition alive (c : C) : bool :=
  survives (mc_engine c) && survives (mc_strategy c) && forallb survives (mc_signals c).

(** No thread is in a call. *)
Definition quiet (c : C) : bool :=
  ended (mc_engine c) && ended (mc_strategy c) && forallb ended (mc_signals c).

(** The order a running call is about. *)
Definition busy {A} (p : res W A) (k : option (list char)) : option (list char) :=
  if ended p then None else k.

(** One step of the call of each thread. *)
Definition engine_does (r : W * res W unit) (c : C) : C := {|
  mc_world := r.1; mc_engine := r.2; mc_report := mc_report c;
  mc_strategy := mc_strategy c; mc_sending := mc_sending c; mc_signals := mc_signals c;
|}.
Definition strategy_does (r : W * res W (list char)) (c : C) : C := {|
  mc_world := r.1; mc_engine := mc_engine c; mc_report := mc_report c;
  mc_strategy := r.2; mc_sending := mc_sending c; mc_signals := mc_signals c;
|}.
Definition signal_does (i : nat) (r : W * res W unit) (c : C) : C := {|
  mc_world := r.1; mc_engine := mc_engine c; mc_report := mc_report c;
  mc_strategy := mc_strategy c; mc_sending := mc_sending c;
  mc_signals := <[i := r.2]> (mc_signals c);
|}.

(** A call begins. *)
Definition engine_calls (p : res W unit) (k : option (list char)) (c : C) : C := {|
  mc_world := mc_world c; mc_engine := p; mc_report := k;
  mc_strategy := mc_strategy c; mc_sending := mc_sending c; mc_signals := mc_signals c;
|}.
Definition strategy_calls (p : res W (list char)) (k : option (list char)) (c : C) : C := {|
  mc_world := mc_world c; mc_engine := mc_engine c; mc_report := mc_report c;
  mc_strategy := p; mc_sending := k; mc_signals := mc_signals c;
|}.
Definition signal_calls (p : res W unit) (c : C) : C := {|
  mc_world := mc_world c; mc_engine := mc_engine c; mc_report := mc_report c;
  mc_strategy := mc_strategy c; mc_sending := mc_sending c; mc_signals := mc_signals c ++ [p];
|}.

(** The session callbacks. *)
Inductive callback : res W unit → Prop :=
  | callback_create id : callback (atom (FIXGateway.onCreate id))
  | callback_logon id : callback (atom (FIXGateway.onLogon id))
  | callback_logout id : callback (atom (FIXGateway.onLogout id)).

(** The order a message reports on. *)
Definition reported (msg : M) : option (list char) :=
  match MessageTranslator.from_execution_report msg with
  | Ok (Some e) => Some (order_key e)
  | _ => None
  end.

(** A step inside the calls that are running. *)
Inductive inner_step : C → C → Prop :=
  | inner_engine m c :
      alive c = true → mc_engine c = Step m → inner_step c (engine_does (m (mc_world c)) c)
  | inner_strategy m c :
      alive c = true → mc_strategy c = Step m → inner_step c (strategy_does (m (mc_world c)) c)
  | inner_signal i m c :
      alive c = true → mc_signals c !! i = Some (Step m) →
      inner_step c (signal_does i (m (mc_world c)) c).

(** A new call on a thread that is free. *)
Inductive call_step : C → C → Prop :=
  | call_message msg c :
      alive c = true → ended (mc_engine c) = true →
      call_step c (engine_calls (Calls.fromApp msg) (reported msg) c)
  | call_callback p c :
      alive c = true → ended (mc_engine c) = true → callback p →
      call_step c (engine_calls p None c)
  | call_send symbol side qty price_fp c :
      alive c = true → ended (mc_strategy c) = true →
      sv_ok symbol = true → side = Buy ∨ side = Sell →
      in_i32 qty = true → in_i64 price_fp = true →
      call_step c (strategy_calls (Calls.send_order symbol side qty price_fp)
                     (Some (order_id_key (w_order_counter (mc_world c)))) c)
  | call_signal c : alive c = true → call_step c (signal_calls Calls.emergency_cancel_all c).

(** The machine. *)
Inductive mc_step : C → C → Prop :=
  | mc_inner c c' : inner_step c c' → mc_step c c'
  | mc_call c c' : call_step c c' → mc_step c c'.

(** No report is being handled about the order that is being sent.  The exchange cannot
    know a new order yet, but identifiers come again after a restart. *)
Definition apart (c : C) : Prop :=
  ∀ k, busy (mc_engine c) (mc_report c) = Some k → busy (mc_strategy c) (mc_sending c) ≠ Some k.
Definition apart_step (c c' : C) : Prop := mc_step c c' ∧ apart c'.

(** A gateway between calls. *)
Definition at_rest (w : W) : C := {|
  mc_world := w; mc_engine := Done (Ok tt); mc_report := None;
  mc_strategy := Done (Ok []); mc_sending := None; mc_signals := [];
|}.

(** A schedule names the threads in the order they step: 0 is the engine, 1 the
    strategy, [i + 2] the [i]-th signal handler. *)
Definition thread_step (t : nat) (c : C) : C :=
  if negb (alive c) then c else
  match t with
  | 0%nat => engine_does (advance (mc_engine c) (mc_world c)) c
  | 1%nat => strategy_does (advance (mc_strategy c) (mc_world c)) c
  | S (S i) =>
      match mc_signals c !! i with
      | Some p => signal_does i (advance p (mc_world c)) c
      | None => c
      end
  end.
Definition run_threads (sched : list nat) (c : C) : C := foldl (λ c t, thread_step t c) c sched.

Lemma thread_step_inner t c : thread_step t c = c ∨ inner_step c (thread_step t c).
Proof.
  unfold thread_step. destruct (alive c) eqn:Hal; [|by left]. cbn [negb].
  destruct t as [|[|i]].
  - destruct (mc_engine c) as [r|m] eqn:Hp; [left|right; by apply inner_engine].
    cbn. unfold engine_does. cbn. rewrite <- Hp. by destruct c.
  - destruct (mc_strategy c) as [r|m] eqn:Hp; [left|right; by apply inner_strategy].
    cbn. unfold strategy_does. cbn. rewrite <- Hp. by destruct c.
  - destruct (mc_signals c !! i) as [[r|m]|] eqn:Hp; [left|right; by apply inner_signal|by left].
    cbn. unfold signal_does. cbn. rewrite list_insert_id by done. by destruct c.
Qed.

(** Threads that go on with their calls do not become busy with another order. *)
Lemma busy_rest {A} (p p' : res W A) k x : ended p = false → busy p' k = Some x → busy p k = Some x.
Proof. unfold busy. intros ->. by destruct (ended p'). Qed.

Lemma inner_step_apart c c' : inner_step c c' → apart c → apart c'.
Proof.
  intros Hstep Hap. destruct Hstep as [m c _ Hm|m c _ Hm|i m c _ Hm]; [| |exact Hap].
  - intros k Hk. apply Hap. eapply busy_rest; [|exact Hk]. by rewrite Hm.
  - intros k Hk Hs. apply (Hap k Hk). eapply busy_rest; [|exact Hs]. by rewrite Hm.
Qed.

Lemma run_threads_apart sched c : apart c → rtc apart_step c (run_threads sched c).
Proof.
  revert c. induction sched as [|t sched IH]; intros c Hap; [done|].
  destruct (thread_step_inner t c) as [Heq|Hs].
  - cbn [run_threads foldl]. rewrite Heq. by apply IH.
  - eapply rtc_l; [split; [by apply mc_inner|by eapply inner_step_apart]|].
    apply IH. by eapply inner_step_apart.
Qed.

Lemma run_threads_steps sched c : rtc mc_step c (run_threads sched c).
Proof.
  revert c. induction sched as [|t sched IH]; intros c; [done|].
  transitivity (thread_step t c); [|apply IH].
  destruct (thread_step_inner t c) as [->|Hs]; [done|]. by apply rtc_once, mc_inner.
Qed.
End Machine.

(** ** What is in flight

    The events of the log that a book has not seen yet. *)

Section Flight.
Context {L E M SID : Type} `{LogLaws L} `{FixMessageLaws M} `{FixValues} `{EnvLaws E M SID}
  `{Cracker M}.
Notation W := (world L E M SID).
Notation C := (machine L E M SID).

(** Whether the calls have been apart all along, which only the manager's part needs. *)
Context (ok : Prop).

(** Steps that leave the log and the books alone; the counter too. *)
Definition same_books (w w' : W) : Prop :=
  w_log w' = w_log w ∧ w_tracker w' = w_tracker w ∧ w_orders w' = w_orders w ∧
  w_order_counter w' = w_order_counter w.

#[export] Instance same_books_refl : Reflexive same_books.
Proof. by intros w. Qed.

Lemma same_books_system (w : W) s : same_books w (set_system s w).
Proof. done. Qed.

Lemma only_system_books {A} (m : stO W A) w : only_system m → same_books w (m w).1.
Proof. intros Hm. destruct (Hm w) as [s ->]. done. Qed.

(** The engine's call: what it is about, what it has logged and not yet put into the
    tracker, into the manager. *)
Inductive engine_at : res W unit → option (list char) → list OrderEvent → list OrderEvent → Prop :=
  | at_dead p k pt pe :
      survives p = false → (length pt ≤ 1)%nat → (length pe ≤ 1)%nat → engine_at p k pt pe
  | at_quiet p k : within same_books p → engine_at p k [] []
  | at_book e :
      wf_event e = true → oe_type e ≠ NewOrder →
      engine_at (res_noexcept (res_noexcept (Calls.book e))) (Some (order_key e)) [] []
  | at_tracked e :
      wf_event e = true → oe_type e ≠ NewOrder →
      engine_at (res_noexcept (res_noexcept (Calls.book_tracked e))) (Some (order_key e)) [e] [e]
  | at_managed e :
      wf_event e = true → oe_type e ≠ NewOrder →
      engine_at (res_noexcept (res_noexcept (Calls.book_managed e))) (Some (order_key e)) [] [e].

(** The strategy's call before it is numbered: [n] is the next number. *)
Definition send_logged (evt : OrderEvent) (oid : list char) : res W (list char) :=
  _ ← atom (FIXGateway.manage_event evt); Calls.send_recorded evt oid.
Definition send_numbered (evt : OrderEvent) (oid : list char) : res W (list char) :=
  _ ← atom (FIXGateway.log_event evt); send_logged evt oid.

Definition order_event (n : Z) (evt : OrderEvent) : Prop :=
  wf_event evt = true ∧ oe_type evt = NewOrder ∧ order_key evt = order_id_key n.

Inductive before (n : Z) : res W (list char) → Prop :=
  | before_done r : before n (Done r)
  | before_step m : (∀ w, same_books w (m w).1 ∧ before n (m w).2) → before n (Step m)
  | before_number symbol side qty price :
      sv_ok symbol = true → side = Buy ∨ side = Sell → in_i32 qty = true → in_i64 price = true →
      before n (Calls.send_passed symbol side qty price).

(** The strategy's call: the order it is about, and what it has logged and not yet put
    into the manager. *)
Inductive strategy_at (w : W) : res W (list char) → option (list char) → list OrderEvent → Prop :=
  | at_before p n :
      w_order_counter w = n → before n p → strategy_at w p (Some (order_id_key n)) []
  | at_numbered evt oid n :
      order_event n evt → strategy_at w (send_numbered evt oid) (Some (order_id_key n)) []
  | at_logged evt oid n :
      order_event n evt → strategy_at w (send_logged evt oid) (Some (order_id_key n)) [evt]
  | at_recorded p k : within same_books p → strategy_at w p k [].

(** The log is the history; the tracker and the manager are what the history builds,
    but for the events in flight. *)
Record in_flight (c : C) (hs pt pe ps : list OrderEvent) : Prop := {
  fl_log : ∃ es, log_rep (w_log (mc_world c)) es ∧ Forall2 (≡) hs es;
  fl_wf : Forall (λ e, wf_event e = true) hs;
  fl_manager_wf : table_wf (w_orders (mc_world c));
  fl_symbols : symbols_ok (w_orders (mc_world c));
  fl_tracker : foldO PositionTracker.apply_event hs PositionTracker.init
             = foldO PositionTracker.apply_event pt (w_tracker (mc_world c));
  fl_manager : ok → foldO OrderManager.apply_event hs OrderManager.init
             = foldO OrderManager.apply_event (pe ++ ps) (w_orders (mc_world c));
  fl_engine : engine_at (mc_engine c) (mc_report c) pt pe;
  fl_strategy : strategy_at (mc_world c) (mc_strategy c) (mc_sending c) ps;
  fl_signals : Forall (within same_books) (mc_signals c);
  fl_apart : ok → apart c;
}.

(** ** Lemmas on the stages *)

Lemma engine_at_alive p k pt pe :
  engine_at p k pt pe → survives p = true →
  (pt = [] ∧ pe = []) ∨
  (∃ e, pe = [e] ∧ wf_event e = true ∧ oe_type e ≠ NewOrder ∧ busy p k = Some (order_key e)).
Proof.
  intros Hat Hs. destruct Hat as [p k pt pe Hd| | | |]; [congruence|by left|by left| |].
  all: right; exists e; by split_and!.
Qed.

Lemma engine_at_ended p k pt pe :
  engine_at p k pt pe → survives p = true → ended p = true → pt = [] ∧ pe = [].
Proof.
  intros Hat Hs Hend. destruct (engine_at_alive p k pt pe Hat Hs) as [?|(e & _ & _ & _ & Hb)]; [done|].
  unfold busy in Hb. by rewrite Hend in Hb.
Qed.

Lemma strategy_at_pending w p k ps :
  strategy_at w p k ps →
  ps = [] ∨ ∃ n evt, ps = [evt] ∧ order_event n evt ∧ busy p k = Some (order_id_key n).
Proof. destruct 1 as [| |evt oid n Hev|]; [by left|by left| |by left]. right. by exists n, evt. Qed.

Lemma strategy_at_ended w p k ps : strategy_at w p k ps → ended p = true → ps = [].
Proof.
  intros Hat Hend. destruct (strategy_at_pending w p k ps Hat) as [?|(n & evt & _ & _ & Hb)]; [done|].
  unfold busy in Hb. by rewrite Hend in Hb.
Qed.

Lemma strategy_at_same w w' p k ps :
  w_order_counter w' = w_order_counter w → strategy_at w p k ps → strategy_at w' p k ps.
Proof.
  intros Hn. destruct 1 as [p n Hc Hb|evt oid n Hev|evt oid n Hev|p k Hw];
    [apply at_before; [congruence|done]|by apply at_numbered|by apply at_logged|by apply at_recorded].
Qed.

Lemma busy_Some {A} (p : res W A) k x : busy p k = Some x → k = Some x.
Proof. unfold busy. by destruct (ended p). Qed.

(** A step of one thread does not make it busier. *)
Lemma busy_step {A} (m : W → W * res W A) (p' : res W A) k x :
  busy p' k = Some x → busy (Step m) k = Some x.
Proof. apply busy_Some. Qed.

(** The books are where they were; only the code of the threads has moved. *)
Lemma in_flight_frame (c c' : C) hs pt pe ps :
  in_flight c hs pt pe ps →
  w_log (mc_world c') = w_log (mc_world c) → w_tracker (mc_world c') = w_tracker (mc_world c) →
  w_orders (mc_world c') = w_orders (mc_world c) →
  engine_at (mc_engine c') (mc_report c') pt pe →
  strategy_at (mc_world c') (mc_strategy c') (mc_sending c') ps →
  Forall (within same_books) (mc_signals c') →
  (ok → apart c') →
  in_flight c' hs pt pe ps.
Proof.
  intros [Hl Hwf Hm Hsy Ht Ho _ _ _ _] El Et Eo He Hs Hsig Hap.
  split; rewrite ?El, ?Et, ?Eo; done.
Qed.

(** ** The calls begin in their first stage *)

Lemma fromApp_at (msg : M) : engine_at (Calls.fromApp msg) (reported msg) [] [].
Proof.
  unfold Calls.fromApp, Calls.onMessage, reported.
  destruct (is_execution_report msg); [|by apply at_dead; cbn; auto].
  pose proof (from_execution_report_wf msg) as Hwf.
  destruct (MessageTranslator.from_execution_report msg) as [[e|]|e| |].
  - destruct (Hwf e eq_refl) as (He & _ & Hty). apply at_book; [done|].
    intros Hn. rewrite Hn in Hty. naive_solver.
  - apply at_quiet, within_done.
  - by apply at_dead; cbn; auto.
  - by apply at_dead; cbn; auto.
  - by apply at_dead; cbn; auto.
Qed.

Lemma callback_at p : callback p → engine_at p None [] [].
Proof. intros Hp. apply at_quiet. destruct Hp; by apply within_atom. Qed.

(** Reads before the number is taken. *)
Lemma before_bind {A} n (p : res W A) (f : A → res W (list char)) :
  within eq p → (∀ a, before n (f a)) → before n (p ≫= f).
Proof.
  intros Hp Hf. revert p Hp. fix IH 2. intros p Hp. destruct Hp as [[a|e| |]|m Hm].
  - apply Hf.
  - apply before_done.
  - apply before_done.
  - apply before_done.
  - apply before_step. intros w. destruct (Hm w) as [HR Hw]. destruct (m w) as [w' p'].
    cbn [fst snd] in *. split; [rewrite <- HR; reflexivity|exact (IH p' Hw)].
Qed.

Lemma before_tail n (p : res W (list char)) : within same_books p → before n p.
Proof.
  intros Hp. revert p Hp. fix IH 2. intros p Hp. destruct Hp as [r|m Hm]; [apply before_done|].
  apply before_step. intros w. destruct (Hm w) as [HR Hw]. split; [exact HR|exact (IH _ Hw)].
Qed.

Ltac reads :=
  repeat match goal with
  | |- within _ (_ ≫= _) => apply within_bind; [|intros ?]
  | |- within _ (peek _) => apply within_peek; apply _
  | |- within _ (local _) => apply within_local
  | |- within _ (if ?b then _ else _) => destruct b
  | |- within _ (mret _) => apply within_done
  end.

Lemma check_reads symbol side qty price :
  within (S := W) eq (Calls.check symbol side qty price).
Proof. unfold Calls.check. reads. Qed.

Lemma print_within (l : console_line) : within same_books (atom (FIXGateway.gw_do (print l)) : res W unit).
Proof. by apply within_atom. Qed.

Lemma send_order_before n symbol side qty price :
  sv_ok symbol = true → side = Buy ∨ side = Sell → in_i32 qty = true → in_i64 price = true →
  before n (Calls.send_order symbol side qty price).
Proof.
  intros Hs Hside Hq Hp. unfold Calls.send_order. apply before_bind; [reads|]. intros connected.
  destruct (negb connected).
  { apply before_tail, within_bind; [apply print_within|intros; apply within_done]. }
  apply before_bind; [apply check_reads|]. intros result.
  destruct (negb _); [|by apply before_number].
  apply before_tail, within_bind; [apply print_within|intros; apply within_done].
Qed.

Lemma send_recorded_within evt oid : within same_books (Calls.send_recorded evt oid : res W (list char)).
Proof.
  unfold Calls.send_recorded. apply within_bind; [by apply within_atom|]. intros now.
  apply within_bind; [apply within_local|]. intros m. apply within_bind; [by apply within_atom|].
  intros b. apply within_done.
Qed.

Lemma cancel_loop_within sid prefix fuel i count :
  within same_books (Calls.cancel_loop sid prefix fuel i count : res W Z).
Proof.
  revert i count. induction fuel as [|fuel IH]; intros i count; [apply within_done|].
  cbn [Calls.cancel_loop]. apply within_bind; [apply within_peek, _|]. intros [o|]; [|apply within_done].
  apply within_bind; [|intros; apply IH]. destruct (is_open o); [by apply within_atom|apply within_done].
Qed.

Lemma emergency_within : within same_books (Calls.emergency_cancel_all : res W unit).
Proof.
  unfold Calls.emergency_cancel_all, Calls.execute, Calls.cancel_all.
  repeat match goal with
  | |- within _ (Calls.cancel_loop _ _ _ _ _) => apply cancel_loop_within
  | |- within _ (atom _) => by apply within_atom
  | |- _ => progress reads
  end.
Qed.

(** ** Every step keeps the books in flight *)

(** The manager's events in flight, and one more. *)
Lemma flight_manager_snoc hs e (o : OrderManager.t) pend :
  foldO OrderManager.apply_event hs OrderManager.init = foldO OrderManager.apply_event pend o →
  foldO OrderManager.apply_event (hs ++ [e]) OrderManager.init
    = foldO OrderManager.apply_event (pend ++ [e]) o.
Proof. intros Heq. by rewrite !foldO_app, Heq. Qed.

Lemma flight_tracker_snoc hs e (t : PositionTracker.t) pend :
  foldO PositionTracker.apply_event hs PositionTracker.init = foldO PositionTracker.apply_event pend t →
  foldO PositionTracker.apply_event (hs ++ [e]) PositionTracker.init
    = foldO PositionTracker.apply_event (pend ++ [e]) t.
Proof. intros Heq. by rewrite !foldO_app, Heq. Qed.

Lemma fold_one {A} (f : OrderEvent → A → outcome A) e s : foldO f [e] s = f e s.
Proof. cbn. by destruct (f e s). Qed.

(** A report in flight and a new order in flight may be applied in either order. *)
Lemma flight_swap (o : OrderManager.t) e n evt :
  table_wf o → wf_event e = true → oe_type e ≠ NewOrder → order_event n evt →
  order_key e ≠ order_id_key n →
  foldO OrderManager.apply_event [e; evt] o = foldO OrderManager.apply_event [evt; e] o.
Proof.
  intros Ho He Hty (Hwf & Hnew & Hkey) Hne.
  change (foldO OrderManager.apply_event [e; evt] o)
    with (OrderManager.apply_event e o ≫= foldO OrderManager.apply_event [evt]).
  change (foldO OrderManager.apply_event [evt; e] o)
    with (OrderManager.apply_event evt o ≫= foldO OrderManager.apply_event [e]).
  rewrite (bind_ext _ _ _ (fold_one OrderManager.apply_event evt)).
  rewrite (bind_ext _ _ _ (fold_one OrderManager.apply_event e)). symmetry.
  apply manager_commute; [done|by apply wf_event_ids|by apply wf_event_ids|done|done|congruence].
Qed.

(** One step of the engine, stage by stage: the log, the tracker, the manager. *)
Lemma book_step (c : C) e hs ps :
  in_flight c hs [] [] ps → alive c = true →
  mc_engine c = res_noexcept (res_noexcept (Calls.book e)) → mc_report c = Some (order_key e) →
  wf_event e = true → oe_type e ≠ NewOrder →
  ∃ hs' pt' pe', in_flight (engine_does (advance (mc_engine c) (mc_world c)) c) hs' pt' pe' ps.
Proof.
  intros Hfl Hal Hp Hk He Hty. pose proof Hfl as [(es & Hl & Hes) Hwf Ho Hsy Htr Hmg _ Hst Hsig Hap].
  assert (Hbusy : busy (mc_engine c) (mc_report c) = Some (order_key e)) by (by rewrite Hp, Hk).
  unfold engine_does. rewrite Hp, !advance_noexcept. unfold Calls.book. rewrite advance_atom. cbn [fst snd].
  set (w := mc_world c) in *. pose proof (log_bound_rep _ _ Hl) as Hb.
  destruct (Z.eq_dec (Z.of_nat (length es)) MAX_EVENTS) as [Hfull|Hroom].
  { destruct (log_event_full w es e Hl Hfull) as (s' & -> & _).
    exists hs, [], []. eapply in_flight_frame; [exact Hfl|done|done|done|by apply at_dead; cbn; auto| |done|].
    - by apply (strategy_at_same w).
    - intros Hok k Hk'. done. }
  destruct (log_event_room w es e Hl He ltac:(lia)) as (l' & s' & ts & -> & Hrep & _).
  exists (hs ++ [e]), [e], [e]. split; cbn [mc_world mc_engine mc_report mc_strategy mc_sending mc_signals
    w_log w_tracker w_orders set_log set_system fst snd].
  - eexists. split; [exact Hrep|]. apply Forall2_app; [done|].
    constructor; [symmetry; apply stamp_equiv|constructor].
  - apply Forall_app. split; [done|by constructor].
  - done.
  - done.
  - exact (flight_tracker_snoc hs e (w_tracker w) [] Htr).
  - intros Hok. rewrite (flight_manager_snoc hs e (w_orders w) ps (Hmg Hok)).
    destruct (strategy_at_pending w _ _ ps Hst) as [->|(n & evt & -> & Hev & Hn)]; [done|].
    symmetry. apply (flight_swap (w_orders w) e n evt); [done..|].
    intros Heq. apply (Hap Hok _ Hbusy). by rewrite Hn, Heq.
  - rewrite Hk. by apply at_tracked.
  - by apply (strategy_at_same w).
  - done.
  - intros Hok k Hk'. apply (Hap Hok). rewrite Hbusy. rewrite Hk in Hk'. exact Hk'.
Qed.

Lemma tracked_step (c : C) e hs ps :
  in_flight c hs [e] [e] ps →
  mc_engine c = res_noexcept (res_noexcept (Calls.book_tracked e)) → mc_report c = Some (order_key e) →
  wf_event e = true → oe_type e ≠ NewOrder →
  ∃ pt', in_flight (engine_does (advance (mc_engine c) (mc_world c)) c) hs pt' [e] ps.
Proof.
  intros Hfl Hp Hk He Hty. pose proof Hfl as [(es & Hl & Hes) Hwf Ho Hsy Htr Hmg _ Hst Hsig Hap].
  assert (Hbusy : busy (mc_engine c) (mc_report c) = Some (order_key e)) by (by rewrite Hp, Hk).
  unfold engine_does. rewrite Hp, !advance_noexcept. unfold Calls.book_tracked. rewrite advance_atom.
  cbn [fst snd]. set (w := mc_world c) in *. unfold FIXGateway.track_event.
  destruct (PositionTracker.apply_event e (w_tracker w)) as [t'|x| |] eqn:Ht.
  2-4: exists [e]; eapply in_flight_frame;
    [exact Hfl|done|done|done|by apply at_dead; cbn; auto|done|done|intros Hok k Hk'; done].
  exists []. split; cbn [mc_world mc_engine mc_report mc_strategy mc_sending mc_signals
    w_log w_tracker w_orders set_tracker fst snd]; try done.
  - by eexists.
  - rewrite Htr, fold_one. exact Ht.
  - rewrite Hk. by apply at_managed.
  - by apply (strategy_at_same w).
  - intros Hok k Hk'. apply (Hap Hok). rewrite Hbusy. rewrite Hk in Hk'. exact Hk'.
Qed.

Lemma managed_step (c : C) e hs ps :
  in_flight c hs [] [e] ps →
  mc_engine c = res_noexcept (res_noexcept (Calls.book_managed e)) → mc_report c = Some (order_key e) →
  wf_event e = true → oe_type e ≠ NewOrder →
  ∃ pe', in_flight (engine_does (advance (mc_engine c) (mc_world c)) c) hs [] pe' ps.
Proof.
  intros Hfl Hp Hk He Hty. pose proof Hfl as [(es & Hl & Hes) Hwf Ho Hsy Htr Hmg _ Hst Hsig Hap].
  assert (Hbusy : busy (mc_engine c) (mc_report c) = Some (order_key e)) by (by rewrite Hp, Hk).
  destruct (wf_event_ids e He) as [_ Hids].
  destruct (manager_apply_event e (w_orders (mc_world c)) Hids Ho) as [_ Ho'].
  unfold engine_does. rewrite Hp, !advance_noexcept. unfold Calls.book_managed. rewrite advance_atom.
  cbn [fst snd]. set (w := mc_world c) in *. unfold FIXGateway.manage_event.
  destruct (OrderManager.apply_event e (w_orders w)) as [o'|x| |] eqn:He'.
  2-4: exists [e]; eapply in_flight_frame;
    [exact Hfl|done|done|done|by apply at_dead; cbn; auto|done|done|intros Hok k Hk'; done].
  exists []. split; cbn [mc_world mc_engine mc_report mc_strategy mc_sending mc_signals
    w_log w_tracker w_orders set_orders fst snd]; try done.
  - by eexists.
  - by apply Ho'.
  - by eapply apply_event_symbols.
  - intros Hok. rewrite (Hmg Hok). cbn [app foldO]. by rewrite He'.
  - apply at_quiet. cbn. constructor. intros w'. cbn.
    destruct (trace_report_result e w') as (s' & -> & _). destruct (c_str (oe_symbol e)); split;
      try done; apply within_done.
  - by apply (strategy_at_same w).
  - intros Hok k Hk'. apply (Hap Hok). rewrite Hbusy. rewrite Hk in Hk'. exact Hk'.
Qed.

Lemma engine_step_flight (c : C) m hs pt pe ps :
  in_flight c hs pt pe ps → alive c = true → mc_engine c = Step m →
  ∃ hs' pt' pe', in_flight (engine_does (m (mc_world c)) c) hs' pt' pe' ps.
Proof.
  intros Hfl Hal Hm.
  replace (m (mc_world c)) with (advance (mc_engine c) (mc_world c)) by (by rewrite Hm).
  pose proof (fl_engine c hs pt pe ps Hfl) as Hen.
  remember (mc_engine c) as p0 eqn:Hp. remember (mc_report c) as k0 eqn:Hk.
  destruct Hen as [p k pt pe Hd|p k Hw|e He Hty|e He Hty|e He Hty]; rewrite Hp.
  - rewrite Hm in Hd. done.
  - rewrite <- Hp, Hm. rewrite Hm in Hw. inversion Hw as [|m' Hw']; subst m'.
    destruct (Hw' (mc_world c)) as [(E1 & E2 & E3 & E4) Hrest].
    exists hs, [], []. eapply in_flight_frame; [exact Hfl|done|done|done| | | |].
    + by apply at_quiet.
    + apply (strategy_at_same (mc_world c)); [done|apply (fl_strategy _ _ _ _ _ Hfl)].
    + apply (fl_signals _ _ _ _ _ Hfl).
    + intros Hok k' Hb. apply (fl_apart _ _ _ _ _ Hfl Hok). rewrite <- Hp, Hm. by eapply busy_Some.
  - by apply (book_step c e hs ps).
  - destruct (tracked_step c e hs ps) as [pt' ?]; [done..|]. by exists hs, pt', [e].
  - destruct (managed_step c e hs ps) as [pe' ?]; [done..|]. by exists hs, [], pe'.
Qed.

(** One step of the strategy: the number, the log, the manager. *)
Lemma number_step (c : C) n symbol side qty price hs pt pe :
  in_flight c hs pt pe [] → w_order_counter (mc_world c) = n → mc_sending c = Some (order_id_key n) →
  sv_ok symbol = true → side = Buy ∨ side = Sell → in_i32 qty = true → in_i64 price = true →
  mc_strategy c = Calls.send_passed symbol side qty price →
  in_flight (strategy_does (advance (mc_strategy c) (mc_world c)) c) hs pt pe [].
Proof.
  intros Hfl Hn Hk Hs Hside Hq Hpr Hp.
  destruct (order_event_ok symbol side qty price n) as (evt & Hevt & Hwf & Hty & _ & _ & _ & Hkey & _);
    [done..|].
  assert (Hbusy : busy (mc_strategy c) (mc_sending c) = Some (order_id_key n)) by (by rewrite Hp, Hk).
  assert (Hadv : advance (Calls.send_passed symbol side qty price) (mc_world c)
    = (set_order_counter (u64 (n + 1)) (mc_world c), send_numbered evt (order_id n))).
  { unfold Calls.send_passed. rewrite advance_atom, next_order_id_eq, Hn.
    unfold mbind, res_bind, local. cbn [res_bind_def fst snd]. by rewrite Hevt. }
  rewrite Hp, Hadv.
  eapply in_flight_frame; [exact Hfl|done|done|done| | | |].
  - apply (fl_engine _ _ _ _ _ Hfl).
  - cbn [mc_sending mc_strategy mc_world strategy_does fst snd]. rewrite Hk. by apply (at_numbered _ evt (order_id n) n).
  - apply (fl_signals _ _ _ _ _ Hfl).
  - intros Hok k He Hb. apply (fl_apart _ _ _ _ _ Hfl Hok k He). rewrite Hbusy, <- Hk.
    exact (busy_Some _ _ _ Hb).
Qed.

Lemma numbered_step (c : C) n evt oid hs pt pe :
  in_flight c hs pt pe [] → order_event n evt →
  mc_strategy c = send_numbered evt oid → mc_sending c = Some (order_id_key n) →
  ∃ hs' ps', in_flight (strategy_does (advance (mc_strategy c) (mc_world c)) c) hs' pt pe ps'.
Proof.
  intros Hfl Hev Hp Hk. pose proof Hfl as [(es & Hl & Hes) Hwf Ho Hsy Htr Hmg Hen _ Hsig Hap].
  pose proof Hev as (He & Hty & Hkey).
  assert (Hbusy : busy (mc_strategy c) (mc_sending c) = Some (order_id_key n)) by (by rewrite Hp, Hk).
  unfold strategy_does. rewrite Hp. unfold send_numbered. rewrite advance_atom. cbn [fst snd].
  set (w := mc_world c) in *. pose proof (log_bound_rep _ _ Hl) as Hb.
  destruct (Z.eq_dec (Z.of_nat (length es)) MAX_EVENTS) as [Hfull|Hroom].
  { destruct (log_event_full w es evt Hl Hfull) as (s' & -> & _).
    exists hs, []. eapply in_flight_frame; [exact Hfl|done|done|done|done| |done|].
    - apply at_recorded, within_done.
    - intros Hok k _. done. }
  destruct (log_event_room w es evt Hl He ltac:(lia)) as (l' & s' & ts & -> & Hrep & _).
  exists (hs ++ [evt]), [evt]. split; cbn [mc_world mc_engine mc_report mc_strategy mc_sending mc_signals
    w_log w_tracker w_orders set_log set_system fst snd].
  - eexists. split; [exact Hrep|]. apply Forall2_app; [done|].
    constructor; [symmetry; apply stamp_equiv|constructor].
  - apply Forall_app. split; [done|by constructor].
  - done.
  - done.
  - rewrite foldO_app, Htr. rewrite (bind_ext _ _ Ok).
    + by destruct (foldO _ pt _).
    + intros t. rewrite fold_one. apply tracker_ignores. unfold is_fill. by rewrite Hty.
  - intros Hok. rewrite (flight_manager_snoc hs evt (w_orders w) _ (Hmg Hok)). by rewrite app_nil_r.
  - done.
  - rewrite Hk. by apply (at_logged _ evt oid n).
  - done.
  - intros Hok k Hk' Hb'. apply (Hap Hok k Hk'). rewrite Hbusy, <- Hk. exact (busy_Some _ _ _ Hb').
Qed.

Lemma logged_step (c : C) n evt oid hs pt pe :
  in_flight c hs pt pe [evt] → alive c = true → order_event n evt →
  mc_strategy c = send_logged evt oid → mc_sending c = Some (order_id_key n) →
  in_flight (strategy_does (advance (mc_strategy c) (mc_world c)) c) hs pt pe [].
Proof.
  intros Hfl Hal Hev Hp Hk. pose proof Hfl as [(es & Hl & Hes) Hwf Ho Hsy Htr Hmg Hen _ Hsig Hap].
  pose proof Hev as (He & Hty & Hkey). destruct (wf_event_ids evt He) as [_ Hids].
  assert (Hbusy : busy (mc_strategy c) (mc_sending c) = Some (order_id_key n)) by (by rewrite Hp, Hk).
  unfold alive in Hal. rewrite !andb_true_iff in Hal. destruct Hal as [[Hal _] _].
  destruct (manager_new_order_Ok evt (w_orders (mc_world c)) Hids Ho Hty) as [o' Ho'].
  destruct (manager_apply_event evt (w_orders (mc_world c)) Hids Ho) as [_ Hwfo].
  unfold strategy_does. rewrite Hp. unfold send_logged. rewrite advance_atom. cbn [fst snd].
  set (w := mc_world c) in *. unfold FIXGateway.manage_event. rewrite Ho'.
  split; cbn [mc_world mc_engine mc_report mc_strategy mc_sending mc_signals
    w_log w_tracker w_orders set_orders fst snd]; try done.
  - by eexists.
  - by apply Hwfo.
  - by eapply apply_event_symbols.
  - intros Hok. rewrite (Hmg Hok), app_nil_r.
    destruct (engine_at_alive _ _ _ _ Hen Hal) as [[_ ->]|(e & -> & Hwe & Hte & Hbe)].
    + cbn [app foldO]. by rewrite Ho'.
    + cbn [app]. rewrite (flight_swap (w_orders w) e n evt); [|done..|].
      * change (foldO OrderManager.apply_event [evt; e] (w_orders w))
          with (OrderManager.apply_event evt (w_orders w) ≫= foldO OrderManager.apply_event [e]).
        by rewrite Ho'.
      * intros Heq. apply (Hap Hok _ Hbe). by rewrite Hbusy, Heq.
  - apply at_recorded. apply send_recorded_within.
  - intros Hok k Hk' Hb'. apply (Hap Hok k Hk'). rewrite Hbusy, <- Hk. exact (busy_Some _ _ _ Hb').
Qed.

Lemma strategy_step_flight (c : C) m hs pt pe ps :
  in_flight c hs pt pe ps → alive c = true → mc_strategy c = Step m →
  ∃ hs' ps', in_flight (strategy_does (m (mc_world c)) c) hs' pt pe ps'.
Proof.
  intros Hfl Hal Hm.
  replace (m (mc_world c)) with (advance (mc_strategy c) (mc_world c)) by (by rewrite Hm).
  pose proof (fl_strategy c hs pt pe ps Hfl) as Hst.
  assert (Hframe : ∀ w' p', same_books (mc_world c) w' → strategy_at w' p' (mc_sending c) ps →
    in_flight (strategy_does (w', p') c) hs pt pe ps).
  { intros w' p' (E1 & E2 & E3 & E4) Hp'.
    eapply in_flight_frame; [exact Hfl|done|done|done|apply (fl_engine _ _ _ _ _ Hfl)|done
      |apply (fl_signals _ _ _ _ _ Hfl)|].
    intros Hok k He Hb. apply (fl_apart _ _ _ _ _ Hfl Hok k He). rewrite Hm. by eapply busy_Some. }
  remember (mc_strategy c) as p0 eqn:Hp. remember (mc_sending c) as k0 eqn:Hk.
  destruct Hst as [p n Hn Hb|evt oid n Hev|evt oid n Hev|p k Hw].
  - destruct Hb as [r|m' Hm'|symbol side qty price Hs Hside Hq Hpr].
    + done.
    + exists hs, []. cbn [advance]. destruct (Hm' (mc_world c)) as [Hsame Hrest].
      destruct (m' (mc_world c)) as [w' p']. apply Hframe; [exact Hsame|].
      apply at_before; [|exact Hrest]. destruct Hsame as (_ & _ & _ & E4). cbn in E4. congruence.
    + exists hs, []. rewrite Hp.
      apply (number_step c n symbol side qty price hs); [done|done|by rewrite <- Hk|done..|by rewrite <- Hp].
  - rewrite Hp. apply (numbered_step c n evt oid hs); [done|done|by rewrite <- Hp|by rewrite <- Hk].
  - exists hs, []. rewrite Hp. apply (logged_step c n evt oid hs); [done|done|done|by rewrite <- Hp|by rewrite <- Hk].
  - exists hs, []. destruct Hw as [r|m' Hw']; [done|]. cbn [advance].
    destruct (Hw' (mc_world c)) as [Hsame Hrest]. destruct (m' (mc_world c)) as [w' p'].
    apply Hframe; [exact Hsame|]. by apply at_recorded.
Qed.

Lemma signal_step_flight (c : C) i m hs pt pe ps :
  in_flight c hs pt pe ps → mc_signals c !! i = Some (Step m) →
  in_flight (signal_does i (m (mc_world c)) c) hs pt pe ps.
Proof.
  intros Hfl Hi. pose proof (fl_signals _ _ _ _ _ Hfl) as Hsig.
  pose proof (proj1 (Forall_lookup _ _) Hsig i _ Hi) as Hw.
  inversion Hw as [|m' Hw']; subst m'. destruct (Hw' (mc_world c)) as [(E1 & E2 & E3 & E4) Hrest].
  eapply in_flight_frame; [exact Hfl|done|done|done|apply (fl_engine _ _ _ _ _ Hfl)| | |
    apply (fl_apart _ _ _ _ _ Hfl)].
  - apply (strategy_at_same (mc_world c)); [done|apply (fl_strategy _ _ _ _ _ Hfl)].
  - by apply Forall_insert.
Qed.

Lemma call_step_flight (c c' : C) hs pt pe ps :
  in_flight c hs pt pe ps → call_step c c' → (ok → apart c') →
  ∃ pt' pe' ps', in_flight c' hs pt' pe' ps'.
Proof.
  intros Hfl Hstep Hap. destruct Hstep as [msg c Hal Hend|p c Hal Hend Hp
    |symbol side qty price c Hal Hend Hs Hside Hq Hpr|c Hal].
  - unfold alive in Hal. rewrite !andb_true_iff in Hal. destruct Hal as [[Hal _] _].
    destruct (engine_at_ended _ _ _ _ (fl_engine _ _ _ _ _ Hfl) Hal Hend) as [-> ->].
    exists [], [], ps. eapply in_flight_frame;
      [exact Hfl|done|done|done|apply fromApp_at|apply (fl_strategy _ _ _ _ _ Hfl)
      |apply (fl_signals _ _ _ _ _ Hfl)|exact Hap].
  - unfold alive in Hal. rewrite !andb_true_iff in Hal. destruct Hal as [[Hal _] _].
    destruct (engine_at_ended _ _ _ _ (fl_engine _ _ _ _ _ Hfl) Hal Hend) as [-> ->].
    exists [], [], ps. eapply in_flight_frame;
      [exact Hfl|done|done|done|by apply callback_at|apply (fl_strategy _ _ _ _ _ Hfl)
      |apply (fl_signals _ _ _ _ _ Hfl)|exact Hap].
  - pose proof (strategy_at_ended _ _ _ _ (fl_strategy _ _ _ _ _ Hfl) Hend) as ->.
    exists pt, pe, []. eapply in_flight_frame;
      [exact Hfl|done|done|done|apply (fl_engine _ _ _ _ _ Hfl)| |apply (fl_signals _ _ _ _ _ Hfl)|exact Hap].
    apply at_before; [done|]. by apply send_order_before.
  - exists pt, pe, ps. eapply in_flight_frame;
      [exact Hfl|done|done|done|apply (fl_engine _ _ _ _ _ Hfl)|apply (fl_strategy _ _ _ _ _ Hfl)
      | |exact Hap].
    apply Forall_app. split; [apply (fl_signals _ _ _ _ _ Hfl)|].
    constructor; [apply emergency_within|constructor].
Qed.

Lemma mc_step_flight (c c' : C) :
  mc_step c c' → (ok → apart c') →
  (∃ hs pt pe ps, in_flight c hs pt pe ps) → ∃ hs pt pe ps, in_flight c' hs pt pe ps.
Proof.
  intros Hstep Hap (hs & pt & pe & ps & Hfl). destruct Hstep as [c c' Hin|c c' Hcall].
  - destruct Hin as [m c Hal Hm|m c Hal Hm|i m c Hal Hm].
    + destruct (engine_step_flight c m hs pt pe ps) as (hs' & pt' & pe' & ?); [done..|].
      by exists hs', pt', pe', ps.
    + destruct (strategy_step_flight c m hs pt pe ps) as (hs' & ps' & ?); [done..|].
      by exists hs', pt, pe, ps'.
    + exists hs, pt, pe, ps. by apply signal_step_flight.
  - destruct (call_step_flight c c' hs pt pe ps Hfl Hcall Hap) as (pt' & pe' & ps' & ?).
    by exists hs, pt', pe', ps'.
Qed.

Lemma at_rest_flight (w : W) : gw_start w → ∃ hs pt pe ps, in_flight (at_rest w) hs pt pe ps.
Proof.
  intros Hstart%gw_start_inv. pose proof (gw_inv_tables w Hstart) as (_ & How & Hsy).
  destruct Hstart as (es & hs & Hl & Hes & [Hwf Ht Ho]). exists hs, [], [], []. split; try done.
  - by exists es.
  - apply at_quiet, within_done.
  - apply at_recorded, within_done.
Qed.

Lemma in_flight_quiet (c : C) hs pt pe ps :
  in_flight c hs pt pe ps → alive c = true → quiet c = true → pt = [] ∧ pe = [] ∧ ps = [].
Proof.
  intros Hfl Hal Hq. unfold alive, quiet in *. rewrite !andb_true_iff in *.
  destruct Hal as [[Hal _] _], Hq as [[Hqe Hqs] _].
  destruct (engine_at_ended _ _ _ _ (fl_engine _ _ _ _ _ Hfl) Hal Hqe) as [-> ->].
  by rewrite (strategy_at_ended _ _ _ _ (fl_strategy _ _ _ _ _ Hfl) Hqs).
Qed.

Lemma reachable_flight (w : W) (c : C) :
  gw_start w → rtc (λ a b, mc_step a b ∧ (ok → apart b)) (at_rest w) c →
  ∃ hs pt pe ps, in_flight c hs pt pe ps.
Proof.
  intros Hstart Hsteps. pose proof (at_rest_flight w Hstart) as Hfl.
  induction Hsteps as [|c1 c2 c3 [Hstep Hap] _ IH]; [done|]. by eapply IH, mc_step_flight.
Qed.
End Flight.

(** The two uses: calls that are apart, and any calls. *)
Lemma apart_flight {L E M SID} `{LogLaws L} `{FixMessageLaws M} `{FixValues} `{EnvLaws E M SID}
    `{Cracker M} (w : world L E M SID) (c : machine L E M SID) :
  gw_start w → rtc apart_step (at_rest w) c → ∃ hs pt pe ps, in_flight True c hs pt pe ps.
Proof.
  intros Hstart Hsteps. apply (reachable_flight True w); [done|].
  eapply rtc_subrel; [|exact Hsteps]. by intros a b [? ?].
Qed.

Lemma any_flight {L E M SID} `{LogLaws L} `{FixMessageLaws M} `{FixValues} `{EnvLaws E M SID}
    `{Cracker M} (w : world L E M SID) (c : machine L E M SID) :
  gw_start w → rtc mc_step (at_rest w) c → ∃ hs pt pe ps, in_flight False c hs pt pe ps.
Proof.
  intros Hstart Hsteps. apply (reachable_flight False w); [done|].
  eapply rtc_subrel; [|exact Hsteps]. by intros a b ?.
Qed.

(** ** Properties *)

(** Equivalent histories leave equivalent outcomes, whatever they are. *)
Lemma foldO_proper {A} `{Equiv A} (f : OrderEvent → A → outcome A) es es' t :
  Proper ((≡) ==> (≡) ==> outcome_equiv) f → Equivalence (≡@{A}) →
  Forall2 (≡) es es' → outcome_equiv (foldO f es t) (foldO f es' t).
Proof.
  intros Hf Heq Hes. assert (Ht : t ≡ t) by done. revert Ht. generalize t at 1 3 as t1.
  revert t. induction Hes as [|e e' es es' He Hes IH]; intros t' t1 Ht; [done|].
  cbn [foldO]. pose proof (Hf e e' He t1 t' Ht) as Hstep.
  destruct (f e t1) as [a|x| |], (f e' t') as [b|y| |]; try done. by apply IH.
Qed.

(** A report about another order. *)
Definition other_report : field_store :=
  sample_report "2"%char "1"%char "AAPL" "EXT1" (Some (of_int 100, from_fixed 175500000)).

(** An order is logged, a report is booked from beginning to end, and only then the
    order reaches the manager. *)
Definition sample_sending : machine (list OrderEvent) sample_env field_store string :=
  strategy_calls (Calls.send_order (sv_of_string (lit "AAPL")) Buy 100 175500000)
    (Some (order_id_key 0)) (at_rest sample_session).
Definition sample_logged : machine (list OrderEvent) sample_env field_store string :=
  run_threads (replicate 8 1%nat) sample_sending.
Definition sample_overlap : machine (list OrderEvent) sample_env field_store string :=
  run_threads [0; 0; 0; 0; 1; 1; 1]%nat
    (engine_calls (Calls.fromApp other_report) (reported other_report) sample_logged).

Lemma at_rest_apart {L E M SID} (w : world L E M SID) : apart (at_rest w).
Proof. intros k Hk. done. Qed.

Lemma sample_sending_step : mc_step (at_rest sample_session) sample_sending.
Proof.
  apply mc_call, (call_send (sv_of_string (lit "AAPL")) Buy 100 175500000 (at_rest sample_session));
    [reflexivity|reflexivity|reflexivity|by left|reflexivity|reflexivity].
Qed.

Lemma sample_sending_apart : apart sample_sending.
Proof. intros k Hk. done. Qed.

Lemma sample_overlap_apart : rtc apart_step (at_rest sample_session) sample_overlap.
Proof.
  assert (Ha : alive sample_logged = true) by (vm_compute; reflexivity).
  assert (He : ended (mc_engine sample_logged) = true) by (vm_compute; reflexivity).
  assert (Hr : reported other_report = Some (lit "EXT1")) by (vm_compute; reflexivity).
  assert (Hs : mc_sending sample_logged = Some (lit "ORD0")) by (vm_compute; reflexivity).
  assert (Hap : apart (engine_calls (Calls.fromApp other_report) (reported other_report) sample_logged)).
  { rewrite Hr. intros k Hk%busy_Some. injection Hk as <-. cbn [mc_strategy mc_sending engine_calls].
    rewrite Hs. intros Hb%busy_Some. discriminate Hb. }
  eapply rtc_l; [split; [exact sample_sending_step|exact sample_sending_apart]|].
  transitivity sample_logged;
    [exact (run_threads_apart (replicate 8 1%nat) sample_sending sample_sending_apart)|].
  eapply rtc_l; [split; [exact (mc_call _ _ (call_message other_report sample_logged Ha He))|exact Hap]|].
  exact (run_threads_apart _ _ Hap).
Qed.

Lemma sample_overlap_steps : rtc mc_step (at_rest sample_session) sample_overlap.
Proof. eapply rtc_subrel; [|exact sample_overlap_apart]. by intros a b []. Qed.
