(* ===== verification/Forward.v ===== *)
(** * [Forward]: what every step of every thread keeps

    The machine of [Threads] only moves forward: the log is only appended to, messages are
    only added to those handed over, and slots of the manager to those in use. *)

From stdpp Require Import relations.
From S2P Require Import Prelude CString OrderEvent EventLog SlotTable PositionTracker OrderManager.
From S2P Require Import Projection Commute RiskChecker Fixed FixMessages MessageTranslator Environment.
From S2P Require Import Killswitch FIXGateway Resumption Calls Threads.

Local Open Scope Z_scope.

Section Forward.
Context {L E M SID : Type} `{LogLaws L} `{FixMessageLaws M} `{FixValues} `{EnvLaws E M SID}
  `{Cracker M}.
Notation W := (world L E M SID).
Notation C := (machine L E M SID).

Record forward (w w' : W) : Prop := {
  fw_log es : log_rep (w_log w) es → ∃ es', log_rep (w_log w') (es ++ es');
  fw_calls : ∃ ms, sys_calls (w_system w') = sys_calls (w_system w) ++ ms;
  fw_slots : table_wf (w_orders w) → ∃ ks, slot_keys (w_orders w') = slot_keys (w_orders w) ++ ks;
}.

Lemma forward_same (w w' : W) :
  w_log w' = w_log w → sys_calls (w_system w') = sys_calls (w_system w) → w_orders w' = w_orders w →
  forward w w'.
Proof.
  intros Hl Hc Ho. split; [intros es Hes; exists []; by rewrite app_nil_r, Hl| |].
  { exists []. by rewrite app_nil_r, Hc. }
  intros _. exists []. by rewrite app_nil_r, Ho.
Qed.

#[export] Instance forward_refl : Reflexive forward.
Proof. intros w. by apply forward_same. Qed.

Lemma log_event_forward e :
  wf_event e = true → within forward (atom (FIXGateway.log_event e) : res W unit).
Proof.
  intros He. apply within_atom. intros w. split.
  - intros es Hl. pose proof (log_bound_rep _ _ Hl) as Hbound.
    destruct (Z.eq_dec (Z.of_nat (length es)) MAX_EVENTS) as [Hfull|Hroom].
    + destruct (log_event_full w es e) as (s' & -> & _); [done..|]. exists []. by rewrite app_nil_r.
    + destruct (log_event_room w es e) as (l' & s' & ts & -> & Hl' & _); [done|done|lia|].
      eexists. exact Hl'.
  - exists []. rewrite app_nil_r. unfold FIXGateway.log_event. erewrite st_bind_Ok by reflexivity.
    unfold FIXGateway.append_at. by destruct (log_append _ _ _) as [[seq l]| | |].
  - intros _. exists []. rewrite app_nil_r. unfold FIXGateway.log_event.
    erewrite st_bind_Ok by reflexivity. unfold FIXGateway.append_at.
    by destruct (log_append _ _ _) as [[seq l]| | |].
Qed.

Lemma track_event_forward e : within forward (atom (FIXGateway.track_event e) : res W unit).
Proof.
  apply within_atom. intros w. unfold FIXGateway.track_event.
  destruct (PositionTracker.apply_event _ _); by apply forward_same.
Qed.

Lemma manage_event_forward e : ids_ok e → within forward (atom (FIXGateway.manage_event e) : res W unit).
Proof.
  intros He. apply within_atom. intros w. unfold FIXGateway.manage_event.
  destruct (OrderManager.apply_event e (w_orders w)) as [o'| | |] eqn:Ho; [|by apply forward_same..].
  split; [intros es Hl; exists []; by rewrite app_nil_r|exists []; by rewrite app_nil_r|].
  intros Hwf. by eapply manager_slot_keys.
Qed.

Lemma print_forward (l : console_line) :
  within forward (atom (FIXGateway.gw_do (print l)) : res W unit).
Proof. apply within_atom. intros w. by apply forward_same. Qed.

Lemma trace_forward e : within forward (atom (FIXGateway.trace_report e) : res W unit).
Proof.
  apply within_atom. intros w. destruct (trace_report_result e w) as (s' & -> & Hc).
  destruct (c_str (oe_symbol e)); by apply forward_same.
Qed.

Lemma send_forward (m : M) :
  within forward (atom (λ w, FIXGateway.gw_do (sendToTarget m (FIXGateway.session_id w)) w) : res W bool).
Proof.
  apply within_atom. intros w. destruct (send_result m w) as (s' & r & Heq & Hc & _).
  unfold FIXGateway.session_id. rewrite Heq. cbn [fst]. split.
  - intros es Hl. exists []. by rewrite app_nil_r.
  - eexists. exact Hc.
  - intros _. exists []. by rewrite app_nil_r.
Qed.

Lemma cancel_order_forward sid prefix o count :
  within forward (Calls.cancel_order sid prefix o count : res W Z).
Proof.
  apply within_atom. intros w. cbn [fst].
  split; [intros es Hl; exists []; by rewrite app_nil_r| |intros _; exists []; by rewrite app_nil_r].
  unfold Killswitch.cancel_order. erewrite st_bind_Ok by reflexivity. cbv zeta.
  erewrite st_bind_Ok by reflexivity. cbn [fst snd].
  unfold mbind at 1, stO_bind at 1, st_lift at 1.
  destruct (MessageTranslator.to_cancel_request _ _ _) as [m| | |];
    [|exists []; by rewrite app_nil_r..].
  edestruct (send_completes m sid) as (s' & -> & Hc). cbn [fst snd]. eexists. exact Hc.
Qed.

Ltac forward :=
  repeat match goal with
  | |- within _ (_ ≫= _) => apply within_bind; [|intros ?]
  | |- within _ (peek _) => apply within_peek; apply _
  | |- within _ (local _) => apply within_local
  | |- within _ (mret _) => apply within_done
  | |- within _ (if ?b then _ else _) => destruct b
  | |- within _ (atom (FIXGateway.gw_do (print _))) => apply print_forward
  | |- within _ (atom (FIXGateway.log_event _)) => apply log_event_forward; done
  | |- within _ (atom (FIXGateway.track_event _)) => apply track_event_forward
  | |- within _ (atom (FIXGateway.trace_report _)) => apply trace_forward
  | |- within _ (Calls.cancel_order _ _ _ _) => apply cancel_order_forward
  end.

Lemma fromApp_forward (msg : M) : within forward (Calls.fromApp msg : res W unit).
Proof.
  unfold Calls.fromApp. apply within_noexcept. destruct (is_execution_report msg); [|apply within_local].
  unfold Calls.onMessage. apply within_noexcept.
  pose proof (from_execution_report_wf msg) as Hwf.
  destruct (MessageTranslator.from_execution_report msg) as [[e|]|x| |]; try apply within_done.
  destruct (Hwf e eq_refl) as [He _]. destruct (wf_event_ids e He) as [_ Hids].
  change (within forward (Calls.book e : res W unit)).
  unfold Calls.book, Calls.book_tracked, Calls.book_managed, Calls.book_traced. forward.
  by apply manage_event_forward.
Qed.

Lemma callback_forward (p : res W unit) : callback p → within forward p.
Proof. intros Hp. destruct Hp; apply within_atom; intros w; by apply forward_same. Qed.

Lemma send_passed_forward symbol side qty price :
  sv_ok symbol = true → side = Buy ∨ side = Sell → in_i32 qty = true → in_i64 price = true →
  within forward (Calls.send_passed symbol side qty price : res W (list char)).
Proof.
  intros Hs Hside Hq Hp. unfold Calls.send_passed. constructor. intros w.
  split; [by apply forward_same|]. cbn [fst snd FIXGateway.next_order_id].
  destruct (order_event_ok symbol side qty price (w_order_counter w)) as (evt & Hevt & Hwf & _); [done..|].
  change (within forward (evt ← local (make_new_order symbol side qty price
    (sv_of_string (order_id (w_order_counter w)))); _ ← atom (FIXGateway.log_event evt);
    _ ← atom (FIXGateway.manage_event evt); Calls.send_recorded evt (order_id (w_order_counter w)) : res W (list char))).
  rewrite Hevt. change (local (Ok evt) ≫= ?f) with (f evt). cbv beta.
  destruct (wf_event_ids evt Hwf) as [_ Hids]. forward; [by apply manage_event_forward|].
  unfold Calls.send_recorded. forward; [|apply send_forward].
  apply within_atom. intros w'. by apply forward_same.
Qed.

Lemma send_order_forward symbol side qty price :
  sv_ok symbol = true → side = Buy ∨ side = Sell → in_i32 qty = true → in_i64 price = true →
  within forward (Calls.send_order symbol side qty price : res W (list char)).
Proof.
  intros Hs Hside Hq Hp. unfold Calls.send_order, Calls.check. forward. by apply send_passed_forward.
Qed.

Lemma cancel_loop_forward sid prefix fuel i count :
  within forward (Calls.cancel_loop sid prefix fuel i count : res W Z).
Proof.
  revert i count. induction fuel as [|fuel IH]; intros i count; [apply within_done|].
  cbn [Calls.cancel_loop]. apply within_bind; [apply within_peek, _|]. intros [o|]; [|apply within_done].
  apply within_bind; [|intros; apply IH]. forward.
Qed.

Lemma emergency_forward : within forward (Calls.emergency_cancel_all : res W unit).
Proof.
  unfold Calls.emergency_cancel_all, Calls.execute, Calls.cancel_all. forward.
  - apply within_atom. intros w. by apply forward_same.
  - apply cancel_loop_forward.
  - apply within_atom. intros w. by apply forward_same.
Qed.

(** Every thread's code goes forward. *)
Record forwarding (c : C) : Prop := {
  fwd_engine : within forward (mc_engine c);
  fwd_strategy : within forward (mc_strategy c);
  fwd_signals : Forall (within forward) (mc_signals c);
}.

Lemma within_step_inv {A} (R : W → W → Prop) (m : W → W * res W A) w :
  within R (Step m) → R w (m w).1 ∧ within R (m w).2.
Proof. intros Hw. inversion Hw as [|m' Hm]; subst. apply Hm. Qed.

Lemma inner_step_forward (c c' : C) :
  inner_step c c' → forwarding c → forward (mc_world c) (mc_world c') ∧ forwarding c'.
Proof.
  intros Hin [He Hs Hk]. destruct Hin as [m c Hal Hm|m c Hal Hm|i m c Hal Hm].
  - rewrite Hm in He. destruct (within_step_inv _ _ (mc_world c) He). by split.
  - rewrite Hm in Hs. destruct (within_step_inv _ _ (mc_world c) Hs). by split.
  - pose proof (proj1 (Forall_lookup _ _) Hk i _ Hm) as Hi.
    destruct (within_step_inv _ _ (mc_world c) Hi). split; [done|].
    split; [done|done|by apply Forall_insert].
Qed.

Lemma mc_step_forward (c c' : C) :
  mc_step c c' → forwarding c → forward (mc_world c) (mc_world c') ∧ forwarding c'.
Proof.
  intros Hstep Hf. destruct Hstep as [c c' Hin|c c' Hcall]; [by apply inner_step_forward|].
  destruct Hcall as [msg c Hal Hend|p c Hal Hend Hp|symbol side qty price c Hal Hend Hs Hside Hq Hpr|c Hal].
  - destruct Hf as [He Hst Hk]. split; [reflexivity|]. split; [apply fromApp_forward|done..].
  - destruct Hf as [He Hst Hk]. split; [reflexivity|]. split; [by apply callback_forward|done..].
  - destruct Hf as [He Hst Hk]. split; [reflexivity|]. split; [done|by apply send_order_forward|done].
  - destruct Hf as [He Hst Hk]. split; [reflexivity|]. split; [done|done|].
    apply Forall_app. split; [done|]. constructor; [apply emergency_forward|constructor].
Qed.

Lemma reachable_forwarding (w : W) (c : C) : rtc mc_step (at_rest w) c → forwarding c.
Proof.
  intros Hsteps. assert (Hf : forwarding (at_rest w)).
  { split; [apply within_done|apply within_done|constructor]. }
  induction Hsteps as [|c1 c2 c3 Hstep _ IH]; [done|]. by eapply IH, mc_step_forward.
Qed.
End Forward.
