(* ===== verification/Schedules.v ===== *)
(** * [Schedules]: a call that runs alone

    A thread that is given all the steps of its call, with no step of another thread in
    between, does what the call does when it is run as one computation.  The schedules of
    [Interrupts], [Exposure], [Stale] and [Races] are put together from such runs. *)

From stdpp Require Import relations.
From S2P Require Import Prelude CString OrderEvent EventLog SlotTable PositionTracker OrderManager.
From S2P Require Import Projection Commute RiskChecker Fixed FixMessages MessageTranslator Environment.
From S2P Require Import Killswitch FIXGateway Scripts Resumption Calls Threads.

Local Open Scope Z_scope.

(** ** A thread of the machine, abstractly *)

Section Thread.
Context {L E M SID A : Type} `{LogOps L} `{FixMessage M} `{FixValues} `{Env E M SID} `{Cracker M}.
Notation W := (world L E M SID).
Notation C := (machine L E M SID).

(** [code c p]: the thread's call in [c] is [p]; [put] is a step of the thread; [ok]:
    the other threads are alive. *)
Variable code : C → res W A → Prop.
Variable put : W * res W A → C → C.
Variable ok : C → Prop.
Hypothesis put_same : ∀ c p, code c p → put (mc_world c, p) c = c.
Hypothesis put_put : ∀ c x y, put x (put y c) = put x c.
Hypothesis put_code : ∀ c p w q, code c p → code (put (w, q) c) q.
Hypothesis put_world : ∀ c w q, mc_world (put (w, q) c) = w.
Hypothesis put_ok : ∀ c x, ok c → ok (put x c).
Hypothesis put_step : ∀ c m, code c (Step m) → ok c → mc_step c (put (m (mc_world c)) c).

Lemma thread_run p c w' r :
  code c p → ok c → run p (mc_world c) = (w', r) → rtc mc_step c (put (w', Done r) c).
Proof.
  revert c w' r. induction p as [r'|m IH] using res_ind'; intros c w' r Hc Hok Hrun.
  - injection Hrun as <- <-. rewrite (put_same c _ Hc). apply rtc_refl.
  - cbn in Hrun. pose proof (put_step c m Hc Hok) as Hstep. specialize (IH (mc_world c)).
    destruct (m (mc_world c)) as [w1 p1]. pose proof (put_code c _ w1 p1 Hc) as Hc1.
    eapply rtc_l; [exact Hstep|]. rewrite <- (put_put c (w', Done r) (w1, p1)).
    apply IH; [done|by apply put_ok|by rewrite put_world].
Qed.

Lemma thread_run_bind {B} (p : res W B) (f : B → res W A) c w' b :
  code c (p ≫= f) → ok c → run p (mc_world c) = (w', Ok b) → rtc mc_step c (put (w', f b) c).
Proof.
  revert c w' b. induction p as [r'|m IH] using res_ind'; intros c w' b Hc Hok Hrun.
  - injection Hrun as <- ->. rewrite (put_same c (f b) Hc). apply rtc_refl.
  - cbn in Hrun. pose proof (put_step c _ Hc Hok) as Hstep. cbn beta in Hstep. specialize (IH (mc_world c)).
    destruct (m (mc_world c)) as [w1 p1]. pose proof (put_code c _ w1 (p1 ≫= f) Hc) as Hc1.
    eapply rtc_l; [exact Hstep|]. rewrite <- (put_put c (w', f b) (w1, p1 ≫= f)).
    apply IH; [done|by apply put_ok|by rewrite put_world].
Qed.
End Thread.

(** ** The three kinds of thread *)

Section Threads.
Context {L E M SID : Type} `{LogOps L} `{FixMessage M} `{FixValues} `{Env E M SID} `{Cracker M}.
Notation W := (world L E M SID).
Notation C := (machine L E M SID).

Lemma engine_does_same (c : C) p : mc_engine c = p → engine_does (mc_world c, p) c = c.
Proof. intros <-. by destruct c. Qed.
Lemma strategy_does_same (c : C) p : mc_strategy c = p → strategy_does (mc_world c, p) c = c.
Proof. intros <-. by destruct c. Qed.
Lemma signal_does_same i (c : C) p : mc_signals c !! i = Some p → signal_does i (mc_world c, p) c = c.
Proof. intros Hp. unfold signal_does. cbn. rewrite list_insert_id by done. by destruct c. Qed.
Lemma signal_does_twice i (c : C) x y : signal_does i x (signal_does i y c) = signal_does i x c.
Proof. unfold signal_does. cbn. by rewrite list_insert_insert_eq. Qed.

Lemma engine_runs (c : C) p w' r :
  mc_engine c = p → survives (mc_strategy c) = true → forallb survives (mc_signals c) = true →
  run p (mc_world c) = (w', r) → rtc mc_step c (engine_does (w', Done r) c).
Proof.
  intros Hp Hs Hk Hrun.
  apply (thread_run (λ c p, mc_engine c = p) engine_does
    (λ c, survives (mc_strategy c) = true ∧ forallb survives (mc_signals c) = true)) with p; try done.
  - apply engine_does_same.
  - intros c1 m Hm [H1s H1k]. apply mc_inner, inner_engine; [|done]. unfold alive.
    by rewrite Hm, H1s, H1k.
Qed.

Lemma strategy_step_ok (c : C) m :
  mc_strategy c = Step m → survives (mc_engine c) = true ∧ forallb survives (mc_signals c) = true →
  mc_step c (strategy_does (m (mc_world c)) c).
Proof.
  intros Hm [H1e H1k]. apply mc_inner, inner_strategy; [|done]. unfold alive. by rewrite Hm, H1e, H1k.
Qed.

Lemma strategy_runs (c : C) p w' r :
  mc_strategy c = p → survives (mc_engine c) = true → forallb survives (mc_signals c) = true →
  run p (mc_world c) = (w', r) → rtc mc_step c (strategy_does (w', Done r) c).
Proof.
  intros Hp He Hk Hrun.
  apply (thread_run (λ c p, mc_strategy c = p) strategy_does
    (λ c, survives (mc_engine c) = true ∧ forallb survives (mc_signals c) = true)) with p; try done.
  - apply strategy_does_same.
  - apply strategy_step_ok.
Qed.

Lemma strategy_runs_to {B} (c : C) (p : res W B) f w' b :
  mc_strategy c = p ≫= f → survives (mc_engine c) = true → forallb survives (mc_signals c) = true →
  run p (mc_world c) = (w', Ok b) → rtc mc_step c (strategy_does (w', f b) c).
Proof.
  intros Hp He Hk Hrun.
  apply (thread_run_bind (λ c p, mc_strategy c = p) strategy_does
    (λ c, survives (mc_engine c) = true ∧ forallb survives (mc_signals c) = true)) with p; try done.
  - apply strategy_does_same.
  - apply strategy_step_ok.
Qed.

(** The handlers other than number [i]. *)
Definition other_signals (i : nat) (c : C) : Prop :=
  ∀ j p, mc_signals c !! j = Some p → j ≠ i → survives p = true.

Lemma signal_runs (c : C) i p w' r :
  mc_signals c !! i = Some p → survives (mc_engine c) = true → survives (mc_strategy c) = true →
  other_signals i c →
  run p (mc_world c) = (w', r) → rtc mc_step c (signal_does i (w', Done r) c).
Proof.
  intros Hp He Hs Hk Hrun.
  apply (thread_run (λ c p, mc_signals c !! i = Some p) (signal_does i)
    (λ c, survives (mc_engine c) = true ∧ survives (mc_strategy c) = true ∧ other_signals i c))
    with p; try done.
  - apply signal_does_same.
  - apply signal_does_twice.
  - intros c1 p1 w q Hq. cbn. apply list_lookup_insert_eq. by eapply lookup_lt_Some.
  - intros c1 x (H1e & H1s & H1k). split_and!; [done|done|]. intros j q Hj Hne. cbn in Hj.
    rewrite list_lookup_insert_ne in Hj by done. by eapply H1k.
  - intros c1 m Hm (H1e & H1s & H1k). apply mc_inner, inner_signal; [|done]. unfold alive.
    rewrite H1e, H1s. cbn. apply forallb_forall. intros q Hq%list_elem_of_In.
    apply list_elem_of_lookup_1 in Hq as [j Hj]. destruct (decide (j = i)) as [->|Hne].
    + by assert (q = Step m) as -> by congruence.
    + by eapply H1k.
Qed.
End Threads.
