(* ===== verification/Termination.v ===== *)
(** * [Termination]: every call ends, under every schedule

    How many steps each call takes at most, whatever the other threads do in between,
    and that a signal handler always returns normally: its loop over the orders reads
    the count again on every iteration and yet stays inside the array. *)

From stdpp Require Import relations.
From S2P Require Import Prelude CString OrderEvent EventLog SlotTable PositionTracker OrderManager.
From S2P Require Import Projection RiskChecker Fixed FixMessages MessageTranslator Environment.
From S2P Require Import Killswitch FIXGateway Scripts Resumption Calls Threads.

Local Open Scope Z_scope.

(** The calls into components of a report, of an order entry, and of the kill switch
    with a full order table. *)
Definition report_steps : nat := 4.
Definition send_steps : nat := 11.
Definition kill_steps : nat := 2 * S MAX_ORDERS + 6.

(** ** Each call *)

Section Bounds.
Context {L E M SID : Type} `{LogLaws L} `{FixMessageLaws M} `{FixValues} `{EnvLaws E M SID}
  `{Cracker M}.
Notation W := (world L E M SID).
Notation C := (machine L E M SID).

Lemma bounded_step {A B} n (m : stO W A) (f : A → res W B) :
  (∀ a, bounded n (f a)) → bounded (S n) (a ← atom m; f a).
Proof. apply (bounded_bind 1 n), bounded_atom. Qed.

Lemma bounded_local {A B} n (m : outcome A) (f : A → res W B) :
  (∀ a, bounded n (f a)) → bounded n (a ← local m; f a).
Proof. apply (bounded_bind 0 n), bounded_done. Qed.

Lemma fromApp_bounded (msg : M) : bounded report_steps (Calls.fromApp msg : res W unit).
Proof.
  unfold Calls.fromApp. apply bounded_noexcept. destruct (is_execution_report msg); [|done].
  unfold Calls.onMessage. apply bounded_noexcept, bounded_local. intros [e|]; [|done].
  unfold Calls.book, Calls.book_tracked, Calls.book_managed, Calls.book_traced.
  do 3 (apply bounded_step; intros _). apply bounded_atom.
Qed.

Lemma callback_bounded (p : res W unit) : callback p → bounded report_steps p.
Proof. intros Hp. apply (bounded_mono 1); [by apply Nat.leb_le|]. destruct Hp; apply bounded_atom. Qed.

Lemma check_bounded symbol side qty price :
  bounded 5 (Calls.check symbol side qty price : res W RiskResult).
Proof.
  unfold Calls.check. apply bounded_step. intros limits.
  destruct (max_order_qty limits <? qty); [done|]. apply bounded_local. intros notional.
  destruct (max_order_notional limits <? notional); [done|].
  do 3 (apply bounded_step; intros ?). do 4 (apply bounded_local; intros ?).
  case_match; [done|]. case_match; [done|]. apply bounded_peek.
Qed.

Lemma send_order_bounded symbol side qty price :
  bounded send_steps (Calls.send_order symbol side qty price : res W (list char)).
Proof.
  unfold Calls.send_order. apply bounded_step. intros connected.
  destruct (negb connected); [by apply bounded_step|].
  apply (bounded_bind 5 5); [apply check_bounded|]. intros result.
  destruct (negb _); [by apply bounded_step|].
  unfold Calls.send_passed. apply bounded_step. intros oid. apply bounded_local. intros evt.
  do 2 (apply bounded_step; intros _). unfold Calls.send_recorded.
  apply bounded_step. intros now. apply bounded_local. intros order. by apply bounded_step.
Qed.

Lemma cancel_loop_bounded sid prefix fuel i count :
  bounded (2 * fuel) (Calls.cancel_loop sid prefix fuel i count : res W Z).
Proof.
  revert i count. induction fuel as [|fuel IH]; intros i count; [done|].
  cbn [Calls.cancel_loop]. replace (2 * S fuel)%nat with (S (1 + 2 * fuel)) by lia.
  apply bounded_step. intros [o|]; [|apply bounded_done].
  apply bounded_bind; [|intros; apply IH]. destruct (is_open o); [apply bounded_atom|apply bounded_done].
Qed.

Lemma emergency_bounded : bounded kill_steps (Calls.emergency_cancel_all : res W unit).
Proof.
  unfold Calls.emergency_cancel_all, kill_steps.
  replace (2 * S MAX_ORDERS + 6)%nat with (S (S (S (2 * S MAX_ORDERS + 1) + 2 + 0))) by lia.
  apply bounded_step. intros _. apply bounded_step. intros sid.
  apply bounded_bind; [|done]. unfold Calls.execute.
  replace (S (2 * S MAX_ORDERS + 1) + 2)%nat with (S ((2 * S MAX_ORDERS + 1) + 2)) by lia.
  apply bounded_step. intros t0. apply bounded_bind.
  - unfold Calls.cancel_all. apply bounded_bind; [apply cancel_loop_bounded|intros; apply bounded_atom].
  - intros _. apply bounded_step. intros t1. by apply bounded_step.
Qed.

(** ** The handler returns *)

(** The manager as every thread keeps it. *)
Definition orders_ok (w : W) : Prop := table_wf (w_orders w) ∧ symbols_ok (w_orders w).

Definition whole_order (o : Order) : Prop := length (o_order_id o) = 8%nat ∧ length (o_symbol o) = 8%nat.

Lemma slot_at_ok (w : W) i :
  orders_ok w → ∃ slot, Calls.slot_at i (w_orders w) = Ok slot ∧
    (is_Some slot → (i < MAX_ORDERS)%nat) ∧ ∀ o, slot = Some o → whole_order o.
Proof.
  intros [Hwf Hsym]. unfold Calls.slot_at. pose proof (tw_count _ Hwf) as Hmax. cbn in Hmax.
  destruct (Nat.ltb_spec i (count_ (w_orders w))) as [Hlt|Hge]; cycle 1.
  { exists None. split; [done|]. by split; [intros [? [=]]|]. }
  destruct (lookup_lt_is_Some_2 (slots_ (w_orders w)) i) as [o Ho].
  { rewrite (tw_length _ Hwf). cbn. lia. }
  rewrite Ho. exists (Some o). split; [done|]. split; [intros _; lia|]. intros ? [= <-].
  assert (Hlive : o ∈ live (w_orders w)) by (apply (list_elem_of_lookup_2 _ i), live_lookup; done).
  split; [by apply (tw_id _ Hwf)|by apply Hsym].
Qed.

Lemma cancel_order_returns sid prefix o count :
  whole_order o → returns orders_ok (λ _, True) (Calls.cancel_order sid prefix o count : res W Z).
Proof.
  intros [Hid Hsym]. apply returns_atom. intros w _.
  destruct (cancel_order_ok (M := M) sid prefix o count (w_system w) Hid Hsym)
    as (s' & msg & Heq & _).
  rewrite Heq. cbn [fst snd]. by eexists.
Qed.

Lemma cancel_loop_returns sid prefix fuel i count :
  (S MAX_ORDERS = i + fuel)%nat →
  returns orders_ok (λ _, True) (Calls.cancel_loop sid prefix fuel i count : res W Z) ∨ fuel = 0%nat.
Proof.
  revert i count. induction fuel as [|fuel IH]; intros i count Hi; [by right|left].
  cbn [Calls.cancel_loop].
  apply (returns_bind _ (λ slot, (is_Some slot → (i < MAX_ORDERS)%nat) ∧
                                 ∀ o, slot = Some o → whole_order o)).
  { apply returns_atom. intros w Hw. destruct (slot_at_ok w i Hw) as (slot & Hslot & Hs).
    exists slot. by split. }
  intros [o|] [Hlt Ho]; [|by apply returns_done]. apply (returns_bind _ (λ _, True)).
  - destruct (is_open o); [by apply cancel_order_returns, Ho|by apply returns_done].
  - intros count' _. destruct (IH (S i) count' ltac:(lia)) as [?|Hf]; [done|].
    specialize (Hlt ltac:(by eexists)). lia.
Qed.

Lemma emergency_returns : returns orders_ok (λ u, u = tt) (Calls.emergency_cancel_all : res W unit).
Proof.
  assert (Hatom : ∀ A (m : stO (system E M SID) A), (∀ s, ∃ a, (m s).2 = Ok a) →
    returns orders_ok (λ _, True) (atom (FIXGateway.gw_do m) : res W A)).
  { intros A m Hm. apply returns_atom. intros w _. destruct (Hm (w_system w)) as [a Ha].
    exists a. split; [|done]. unfold FIXGateway.gw_do, st_zoom. by destruct (m (w_system w)). }
  unfold Calls.emergency_cancel_all, Calls.execute, Calls.cancel_all.
  apply (returns_bind _ (λ _, True)); [apply Hatom; by eexists|intros _ _].
  apply (returns_bind _ (λ _, True)); [apply returns_atom; by eexists|intros sid _].
  apply (returns_bind _ (λ _, True)); [|intros _ _; by apply returns_done].
  apply (returns_bind _ (λ _, True)); [apply Hatom; by eexists|intros t0 _].
  apply (returns_bind _ (λ _, True)).
  - apply (returns_bind _ (λ _, True)).
    + by destruct (cancel_loop_returns sid default_cancel_prefix (S MAX_ORDERS) 0 0 eq_refl).
    + intros count _. apply Hatom. by eexists.
  - intros _ _. apply (returns_bind _ (λ _, True)); [apply Hatom; by eexists|intros t1 _].
    apply (returns_bind _ (λ _, True)); [apply Hatom; by eexists|intros _ _]. by apply returns_done.
Qed.
End Bounds.

(** ** The machine *)

Section Machine.
Context {L E M SID : Type} `{LogLaws L} `{FixMessageLaws M} `{FixValues} `{EnvLaws E M SID}
  `{Cracker M}.
Notation W := (world L E M SID).
Notation C := (machine L E M SID).

(** What each thread may still do: the steps left to the engine, to the strategy and to
    the handlers. *)
Record budget (a b : nat) (ls : list nat) (c : C) : Prop := {
  bg_engine : bounded a (mc_engine c);
  bg_strategy : bounded b (mc_strategy c);
  bg_signals : Forall2 bounded ls (mc_signals c);
}.

Lemma sum_list_insert (ls : list nat) i x :
  ls !! i = Some (S x) → S (sum_list (<[i := x]> ls)) = sum_list ls.
Proof.
  revert i. induction ls as [|l ls IH]; intros [|i] Hi; try done.
  - injection Hi as ->. done.
  - change (S (l + sum_list (<[i := x]> ls)) = l + sum_list ls)%nat. specialize (IH i Hi). lia.
Qed.

Lemma bounded_next {A} n (m : W → W * res W A) w :
  bounded n (Step m) → ∃ n', n = S n' ∧ bounded n' (m w).2.
Proof. destruct n as [|n]; [done|]. intros Hm. exists n. split; [done|apply Hm]. Qed.

Lemma inner_step_budget a b ls (c c' : C) :
  inner_step c c' → budget a b ls c →
  ∃ a' b' ls', budget a' b' ls' c' ∧ (S (a' + b' + sum_list ls') = a + b + sum_list ls)%nat.
Proof.
  intros Hin [Ha Hb Hl]. destruct Hin as [m c Hal Hm|m c Hal Hm|i m c Hal Hm].
  - rewrite Hm in Ha. destruct (bounded_next a m (mc_world c) Ha) as (a' & -> & Ha').
    exists a', b, ls. split; [by split|lia].
  - rewrite Hm in Hb. destruct (bounded_next b m (mc_world c) Hb) as (b' & -> & Hb').
    exists a, b', ls. split; [by split|lia].
  - destruct (Forall2_lookup_r _ _ _ _ _ Hl Hm) as (n & Hn & Hbn).
    destruct (bounded_next n m (mc_world c) Hbn) as (n' & -> & Hn').
    exists a, b, (<[i := n']> ls). split; [split; [done|done|by apply Forall2_insert]|].
    pose proof (sum_list_insert ls i n' Hn). lia.
Qed.

Lemma inner_steps_budget n a b ls (c c' : C) :
  nsteps inner_step n c c' → budget a b ls c → (n <= a + b + sum_list ls)%nat.
Proof.
  intros Hsteps. revert a b ls. induction Hsteps as [c|n c1 c2 c3 Hstep _ IH]; intros a b ls Hb; [lia|].
  destruct (inner_step_budget a b ls c1 c2 Hstep Hb) as (a' & b' & ls' & Hb' & Hsum).
  specialize (IH a' b' ls' Hb'). lia.
Qed.

(** The bounds of the calls, and that the handlers return, along every execution. *)
Record ending (c : C) : Prop := {
  en_engine : bounded report_steps (mc_engine c);
  en_strategy : bounded send_steps (mc_strategy c);
  en_signals : Forall (bounded kill_steps) (mc_signals c);
  en_returns : Forall (returns orders_ok (λ u, u = tt)) (mc_signals c);
}.

Lemma bounded_after {A} n (m : W → W * res W A) w : bounded n (Step m) → bounded n (m w).2.
Proof. intros Hm. destruct (bounded_next n m w Hm) as (n' & -> & Hn'). by apply (bounded_mono n'); [lia|]. Qed.

Lemma mc_step_ending (c c' : C) :
  mc_step c c' → orders_ok (mc_world c) → ending c → ending c'.
Proof.
  intros Hstep Hok [He Hs Hk Hr]. destruct Hstep as [c c' Hin|c c' Hcall];
    [|destruct Hcall as [msg c Hal Hend|p c Hal Hend Hp|symbol side qty price c Hal Hend Hsym Hside Hq Hpr
      |c Hal]].
  - destruct Hin as [m c Hal Hm|m c Hal Hm|i m c Hal Hm].
    + rewrite Hm in He. split; [by apply bounded_after|done..].
    + rewrite Hm in Hs. split; [done|by apply bounded_after|done..].
    + pose proof (proj1 (Forall_lookup _ _) Hk i _ Hm) as Hb.
      pose proof (proj1 (Forall_lookup _ _) Hr i _ Hm) as Hret.
      split; [done|done|apply Forall_insert; [done|by apply bounded_after]
        |apply Forall_insert; [done|by eapply returns_next]].
  - split; [apply fromApp_bounded|done..].
  - split; [by apply callback_bounded|done..].
  - split; [done|apply send_order_bounded|done..].
  - split; [done|done|apply Forall_app; split; [done|]..].
    + constructor; [apply emergency_bounded|constructor].
    + constructor; [apply emergency_returns|constructor].
Qed.

Lemma reachable_ending (w : W) (c : C) : gw_start w → rtc mc_step (at_rest w) c → ending c.
Proof.
  intros Hstart Hsteps.
  assert (Hend : ending (at_rest w)) by (split; [apply bounded_done|apply bounded_done|constructor..]).
  pose proof (at_rest_flight False w Hstart) as Hfl.
  induction Hsteps as [|c1 c2 c3 Hstep _ IH]; [done|]. apply IH.
  - apply (mc_step_ending c1); [done| |done]. destruct Hfl as (hs & pt & pe & ps & Hfl).
    split; [by eapply fl_manager_wf|by eapply fl_symbols].
  - by apply (mc_step_flight False c1).
Qed.
End Machine.

(** ** Property *)

(** C25. Every call ends under every schedule: from any moment on, the calls that are
    running can together make at most 15 more steps and 1,032 for every signal handler,
    in whatever order the threads take them; and a handler that has ended has returned
    normally: its loop, which reads the number of orders again on every iteration while
    other threads add orders, neither runs on nor leaves the array. *)
Theorem calls_end_under_every_schedule {L E M SID} `{LogLaws L} `{FixMessageLaws M}
    `{FixValues} `{EnvLaws E M SID} `{Cracker M} (w : world L E M SID) (c : machine L E M SID) :
  gw_start w → rtc mc_step (at_rest w) c →
  (∀ n c', nsteps inner_step n c c' → (n <= 15 + 1032 * length (mc_signals c))%nat) ∧
  (∀ p, p ∈ mc_signals c → ended p = true → p = Done (Ok tt)).
Proof.
  intros Hstart Hsteps. destruct (reachable_ending w c Hstart Hsteps) as [He Hs Hk Hr]. split.
  - intros n c' Hn.
    pose proof (inner_steps_budget n report_steps send_steps (replicate (length (mc_signals c)) kill_steps)
      c c' Hn) as Hle.
    rewrite sum_list_replicate in Hle. unfold report_steps, send_steps in Hle.
    replace kill_steps with 1032%nat in Hle by reflexivity. rewrite Nat.mul_comm. apply Hle.
    split; [done|done|]. by apply Forall2_replicate_l.
  - intros p Hp Hend. destruct p as [r|m]; [|done].
    destruct (returns_inv _ _ r (proj1 (Forall_forall _ _) Hr _ Hp)) as (u & -> & ->). done.
Qed.

Lemma calls_end_under_every_schedule_witness :
  let c := signal_calls Calls.emergency_cancel_all sample_overlap in
  length (mc_signals c) = 1%nat ∧ ∀ n c', nsteps inner_step n c c' → (n <= 1047)%nat.
Proof.
  intros c. assert (Hs : mc_signals sample_overlap = []) by (vm_compute; reflexivity).
  assert (Ha : alive sample_overlap = true) by (vm_compute; reflexivity).
  assert (Hl : length (mc_signals c) = 1%nat) by (cbn [c signal_calls mc_signals]; by rewrite Hs).
  destruct (calls_end_under_every_schedule sample_session c sample_session_start) as [Hn _].
  { eapply rtc_r; [exact sample_overlap_steps|by apply mc_call, call_signal]. }
  split; [exact Hl|]. intros n c' Hsteps. specialize (Hn n c' Hsteps). rewrite Hl in Hn. exact Hn.
Defined.
