(* ===== verification/Interrupts.v ===== *)
(** * [Interrupts]: the kill switch while the other threads go on

    A signal handler that runs beside the engine and the strategy cancels every order
    that stays open; an order whose [send_order] was interrupted by the handler escapes
    it. *)

From stdpp Require Import relations.
From S2P Require Import Prelude CString OrderEvent EventLog SlotTable PositionTracker OrderManager.
From S2P Require Import Projection Commute RiskChecker Fixed FixMessages MessageTranslator Environment.
From S2P Require Import Killswitch FIXGateway Scripts Resumption Calls Threads Forward Schedules.

Local Open Scope Z_scope.

(** ** A kill switch beside the other threads *)

Section Killing.
Context {L E M SID : Type} `{LogLaws L} `{FixMessageLaws M} `{FixValues} `{EnvLaws E M SID}
  `{Cracker M}.
Notation W := (world L E M SID).
Notation C := (machine L E M SID).

(** The order with the key [k] is in the manager and open. *)
Definition holds_open (k : list char) (c : C) : Prop :=
  ∃ o, table_map (w_orders (mc_world c)) !! k = Some o ∧ is_open o = true.

(** A cancel request for the order [k] is among the messages handed over since there
    were [n] of them. *)
Definition cancelled_since (n : nat) (k : list char) (w : W) : Prop :=
  ∃ m sid, (m, sid) ∈ drop n (sys_calls (w_system w)) ∧ fix_get F_OrigClOrdID m = Ok k.

Lemma cancelled_since_forward n k (w w' : W) :
  (n ≤ length (sys_calls (w_system w)))%nat → forward w w' →
  cancelled_since n k w → cancelled_since n k w'.
Proof.
  intros Hn [_ [ms Hms] _] (m & sid & Hin & Hk). exists m, sid. split; [|done].
  rewrite Hms, drop_app_le by done. apply elem_of_app. by left.
Qed.

(** What follows the loop: the report, the clock, and the return. *)
Definition after_loop (t0 : Z) (p : res W Z) : res W unit :=
  _ ← (_ ← (count ← p; atom (FIXGateway.gw_do (print (Out_cancels count))));
       t1 ← atom (FIXGateway.gw_do steady_now);
       let elapsed := Z.quot (t1 - t0) 1000000 in
       _ ← atom (FIXGateway.gw_do
             (print (if default_budget_ms <? elapsed then Out_cancel_all_late elapsed default_budget_ms
                     else Out_cancel_all_sent elapsed)));
       mret elapsed);
  mret tt.

Definition loop_from (sid : SID) (i : nat) (count : Z) : res W Z :=
  Calls.cancel_loop sid default_cancel_prefix (S MAX_ORDERS - i) i count.

(** A rest that returns whatever happens. *)
Inductive returning : res W unit → Prop :=
  | returning_done : returning (Done (Ok tt))
  | returning_step m : (∀ w, returning (m w).2) → returning (Step m).

(** The handler's call, for the order [k] in slot [j]: past the slot, the request has
    been handed over. *)
Inductive killing (n : nat) (k : list char) (j : nat) (w : W) : res W unit → Prop :=
  | killing_start : killing n k j w Calls.emergency_cancel_all
  | killing_session :
      killing n k j w (sid ← peek (λ w, Ok (FIXGateway.session_id w));
                       _ ← Calls.execute sid default_cancel_prefix default_budget_ms; mret tt)
  | killing_clock sid :
      killing n k j w (_ ← Calls.execute sid default_cancel_prefix default_budget_ms; mret tt)
  | killing_loop sid t0 i count :
      (i ≤ MAX_ORDERS)%nat → ((j < i)%nat → cancelled_since n k w) →
      killing n k j w (after_loop t0 (loop_from sid i count))
  | killing_slot sid t0 i count o :
      (i < MAX_ORDERS)%nat → ((j < i)%nat → cancelled_since n k w) →
      (i = j → slot_key o = k) → length (o_order_id o) = 8%nat → length (o_symbol o) = 8%nat →
      killing n k j w
        (after_loop t0 (count' ← Calls.cancel_order sid default_cancel_prefix o count;
                        loop_from sid (S i) count'))
  | killing_done p : returning p → cancelled_since n k w → killing n k j w p.

Lemma killing_forward n k j (w w' : W) p :
  (n ≤ length (sys_calls (w_system w)))%nat → forward w w' → killing n k j w p → killing n k j w' p.
Proof.
  intros Hn Hf Hk. pose proof (cancelled_since_forward n k w w' Hn Hf) as Hc.
  destruct Hk; constructor; auto.
Qed.

Lemma advance_after_loop t0 (m : W → W * res W Z) w :
  advance (after_loop t0 (Step m)) w = ((m w).1, after_loop t0 (m w).2).
Proof. cbn. by destruct (m w). Qed.

Lemma after_loop_returning t0 count : returning (after_loop t0 (Done (Ok count))).
Proof. repeat (cbn; constructor; intros ?). Qed.

(** The slot of a key never changes, and what is open in it is seen. *)
Lemma slot_of_key (t : OrderManager.t) j k :
  table_wf t → slot_keys t !! j = Some k →
  ∃ o, slots_ t !! j = Some o ∧ (j < count_ t)%nat ∧ slot_key o = k ∧ table_map t !! k = Some o.
Proof.
  intros Hwf Hj. unfold slot_keys in Hj. rewrite list_lookup_fmap in Hj.
  destruct (live t !! j) as [o|] eqn:Ho; [|done]. injection Hj as Hk. exists o.
  pose proof (list_elem_of_lookup_2 _ _ _ Ho) as Hin.
  apply live_lookup in Ho as [Ho Hlt]. split_and!; [done..|]. by apply table_map_Some.
Qed.

(** A step of the handler. *)
Lemma killing_step n k j (w : W) m :
  table_wf (w_orders w) → symbols_ok (w_orders w) → slot_keys (w_orders w) !! j = Some k →
  (∃ o, table_map (w_orders w) !! k = Some o ∧ is_open o = true) →
  (n ≤ length (sys_calls (w_system w)))%nat →
  forward w (m w).1 → killing n k j w (Step m) → killing n k j (m w).1 (m w).2.
Proof.
  intros Hwf Hsym Hj (o0 & Ho0 & Hopen) Hn Hfw Hk.
  replace (m w) with (advance (Step m) w) in * by done.
  remember (Step m) as p eqn:Hp. destruct Hk as [| |sid|sid t0 i count Hi Hc|sid t0 i count o Hi Hc Hij Hlo Hls|p Hr Hc].
  - apply killing_session.
  - apply killing_clock.
  - cbn. apply (killing_loop n k j _ sid _ 0 0); lia.
  - unfold loop_from. replace (S MAX_ORDERS - i)%nat with (S (MAX_ORDERS - i)) by lia.
    cbn [Calls.cancel_loop]. set (rest := λ slot : option Order, _).
    change (peek (λ w, Calls.slot_at i (w_orders w)) ≫= rest)
      with (Step (λ w : W, (w, local (Calls.slot_at i (w_orders w)) ≫= rest))).
    rewrite advance_after_loop. cbn [fst snd]. unfold Calls.slot_at.
    destruct (slot_of_key _ j k Hwf Hj) as (oj & Hoj & Hjlt & Hkj & Hmap).
    assert (oj = o0) as -> by congruence.
    destruct (Nat.ltb_spec i (count_ (w_orders w))) as [Hlt|Hge]; cycle 1.
    { cbn. apply killing_done; [apply (after_loop_returning t0 count)|]. apply Hc. lia. }
    pose proof (tw_count _ Hwf) as Hmax. cbn in Hmax.
    destruct (lookup_lt_is_Some_2 (slots_ (w_orders w)) i) as [o Ho].
    { rewrite (tw_length _ Hwf). cbn. lia. }
    rewrite Ho. unfold local. change (Done (Ok (Some o)) ≫= rest) with (rest (Some o)). unfold rest.
    assert (Hlive : o ∈ live (w_orders w)).
    { apply (list_elem_of_lookup_2 _ i), live_lookup. done. }
    replace (MAX_ORDERS - i)%nat with (S MAX_ORDERS - S i)%nat by lia.
    destruct (is_open o) eqn:Hio.
    + apply killing_slot; [lia|done|intros ->; congruence|by apply (tw_id _ Hwf)|by apply Hsym].
    + apply (killing_loop n k j w sid t0 (S i) count); [lia|]. intros Hji.
      destruct (decide (i = j)) as [->|]; [congruence|]. apply Hc. lia.
  - unfold Calls.cancel_order. set (rest := λ count' : Z, _).
    change (atom ?a ≫= rest) with (Step (λ w : W, ((a w).1, local (a w).2 ≫= rest))).
    rewrite advance_after_loop. cbn [fst snd].
    destruct (cancel_order_ok (M := M) sid default_cancel_prefix o count (w_system w) Hlo Hls)
      as (s' & msg & Heq & Hcalls & Hcancel & _).
    rewrite Heq in *. cbn [fst snd fmap outcome_fmap mbind outcome_bind].
    apply (killing_loop n k j _ sid t0 (S i) (Killswitch.next_count count)); [lia|]. intros Hji.
    destruct (decide (i = j)) as [->|Hne].
    + exists msg, sid. cbn [w_system set_system]. rewrite Hcalls, drop_app_le by done. split.
      * apply elem_of_app. right. by apply list_elem_of_singleton.
      * rewrite Hcancel. f_equal. by apply Hij.
    + apply (cancelled_since_forward n k w); [done| |apply Hc; lia].
      split; [intros es Hl; exists []; by rewrite app_nil_r|eexists; exact Hcalls|].
      intros _. exists []. by rewrite app_nil_r.
  - subst p. inversion Hr as [|m' Hm']; subst m'. cbn [advance].
    apply killing_done; [apply Hm'|]. by apply (cancelled_since_forward n k w).
Qed.

Lemma killing_ended n k j (w : W) r : killing n k j w (Done r) → r = Ok tt ∧ cancelled_since n k w.
Proof.
  intros Hk. remember (Done r) as p eqn:Hp.
  destruct Hk as [| |sid|sid t0 i count Hi Hc|sid t0 i count o Hi Hc Hij Hlo Hls|p Hr Hc]; try done.
  - unfold loop_from in Hp. by replace (S MAX_ORDERS - i)%nat with (S (MAX_ORDERS - i)) in Hp by lia.
  - subst p. by inversion Hr.
Qed.

(** What the machine keeps while handler number [i] is at work. *)
Definition handling (i n : nat) (k : list char) (j : nat) (c : C) : Prop :=
  (∃ hs pt pe ps, in_flight False c hs pt pe ps) ∧ forwarding c ∧
  slot_keys (w_orders (mc_world c)) !! j = Some k ∧
  (n ≤ length (sys_calls (w_system (mc_world c))))%nat ∧
  ∃ p, mc_signals c !! i = Some p ∧ killing n k j (mc_world c) p.

Lemma handling_step i n k j (c c' : C) :
  handling i n k j c → holds_open k c → mc_step c c' → handling i n k j c'.
Proof.
  intros (Hfl & Hfd & Hj & Hn & p & Hp & Hk) Hopen Hstep.
  destruct (mc_step_forward c c' Hstep Hfd) as [Hfw Hfd'].
  pose proof (mc_step_flight False c c' Hstep (False_ind _) Hfl) as Hfl'.
  destruct Hfl as (hs & pt & pe & ps & Hfl).
  pose proof (fl_manager_wf _ _ _ _ _ _ Hfl) as Hwf. pose proof (fl_symbols _ _ _ _ _ _ Hfl) as Hsym.
  split_and!; [done|done| | |].
  - destruct (fw_slots _ _ Hfw Hwf) as [ks ->]. by apply lookup_app_l_Some.
  - destruct (fw_calls _ _ Hfw) as [ms ->]. rewrite length_app. lia.
  - pose proof (killing_forward n k j _ _ p Hn Hfw Hk) as Hk'.
    destruct Hstep as [c c' Hin|c c' Hcall];
      [|destruct Hcall as [msg c Hal Hend|q c Hal Hend Hq|symbol side qty price c Hal Hend Hs Hside Hqt Hpr
        |c Hal]; [by exists p..|]].
    + destruct Hin as [m c Hal Hm|m c Hal Hm|i' m c Hal Hm]; [by exists p..|].
      destruct (decide (i' = i)) as [->|Hne].
      * assert (p = Step m) as -> by congruence.
        exists (m (mc_world c)).2. cbn. split.
        -- apply list_lookup_insert_eq. by eapply lookup_lt_Some.
        -- apply killing_step; try done.
      * exists p. cbn. by rewrite list_lookup_insert_ne.
    + exists p. split; [by apply lookup_app_l_Some|done].
Qed.
End Killing.

(** ** A signal in the middle of [send_order] *)

Section Interrupted.
Context {L E M SID : Type} `{LogLaws L} `{FixMessageLaws M} `{FixValues} `{EnvLaws E M SID}
  `{Cracker M}.
Notation W := (world L E M SID).
Notation C := (machine L E M SID).

(** The strategy reaches the point right after the check. *)
Lemma strategy_passes symbol side qty price (c : C) :
  mc_strategy c = Calls.send_order symbol side qty price →
  survives (mc_engine c) = true → forallb survives (mc_signals c) = true →
  w_connected (mc_world c) = true →
  check (w_limits (mc_world c)) symbol side qty price (w_tracker (mc_world c)) (w_orders (mc_world c))
    = Ok Pass →
  rtc mc_step c (strategy_does (mc_world c, Calls.send_passed symbol side qty price) c).
Proof.
  intros Hcode He Hk Hc Hpass.
  set (rest := result ← Calls.check symbol side qty price;
    (if negb (bool_decide (result = Pass)) then
       _ ← atom (FIXGateway.gw_do (print (Out_risk_blocked (RiskResult_to_string result)))); mret []
     else Calls.send_passed symbol side qty price) : res W (list char)).
  set (c1 := strategy_does (mc_world c, rest) c). transitivity c1.
  - eapply (strategy_runs_to c (peek (λ w, Ok (FIXGateway.is_connected w))) (λ connected : bool,
      if negb connected then _ ← atom (FIXGateway.gw_do (print Out_not_connected)); mret [] else rest)
      (mc_world c) true); [exact Hcode|done..|].
    unfold peek. rewrite run_atom. unfold FIXGateway.is_connected. by rewrite Hc.
  - pose proof (strategy_runs_to c1 (Calls.check symbol side qty price) (λ result : RiskResult,
      if negb (bool_decide (result = Pass)) then
        _ ← atom (FIXGateway.gw_do (print (Out_risk_blocked (RiskResult_to_string result)))); mret []
      else Calls.send_passed symbol side qty price) (mc_world c) Pass) as Hto.
    cbv beta in Hto. rewrite bool_decide_true in Hto by done. cbn [negb] in Hto.
    apply Hto; [done|done|done|].
    rewrite run_check. change (mc_world c1) with (mc_world c). by rewrite Hpass.
Qed.

(** The handler runs between the check and the rest of the order entry. *)
Definition interrupted symbol side qty price (w w1 w2 : W) (r : outcome (list char)) : C :=
  strategy_does (w2, Done r) (signal_does 0 (w1, Done (Ok tt))
    (signal_calls Calls.emergency_cancel_all
      (strategy_does (w, Calls.send_passed symbol side qty price)
        (strategy_calls (Calls.send_order symbol side qty price)
          (Some (order_id_key (w_order_counter w))) (at_rest w))))).

Lemma interrupted_steps symbol side qty price (w w2 : W) s1 r :
  w_connected w = true → sv_ok symbol = true → side = Buy ∨ side = Sell →
  in_i32 qty = true → in_i64 price = true → table_wf (w_orders w) →
  check (w_limits w) symbol side qty price (w_tracker w) (w_orders w) = Ok Pass →
  FIXGateway.emergency_cancel_all w = (set_system s1 w, Ok tt) →
  FIXGateway.send_order symbol side qty price (set_system s1 w) = (w2, r) →
  rtc mc_step (at_rest w) (interrupted symbol side qty price w (set_system s1 w) w2 r).
Proof.
  intros Hc Hs Hside Hq Hp How Hpass Hem Hrun.
  set (c1 := strategy_calls (Calls.send_order symbol side qty price)
    (Some (order_id_key (w_order_counter w))) (at_rest w)).
  set (c2 := strategy_does (w, Calls.send_passed symbol side qty price) c1).
  set (c3 := signal_calls Calls.emergency_cancel_all c2).
  set (c4 := signal_does 0 (set_system s1 w, Done (Ok tt)) c3).
  eapply rtc_l; [by apply mc_call, (call_send symbol side qty price)|]. fold c1.
  etransitivity; [by apply (strategy_passes symbol side qty price c1)|]. fold c2.
  eapply rtc_l; [by apply mc_call, call_signal|]. fold c3.
  etransitivity; [apply (signal_runs c3 0 Calls.emergency_cancel_all (set_system s1 w) (Ok tt)); try done|].
  - intros [|[|j]] p Hj Hne; done.
  - etransitivity; [by apply run_emergency|exact Hem].
  - apply (strategy_runs c4 (Calls.send_passed symbol side qty price)); try done.
    change (mc_world c4) with (set_system s1 w). rewrite run_send_passed, <- send_order_passed by done. exact Hrun.
Qed.

(** A new order under a free key is stored and open. *)
Lemma new_order_stored evt (o o' : OrderManager.t) :
  wf_event evt = true → oe_type evt = NewOrder → table_wf o →
  table_map o !! order_key evt = None → (count_ o < MAX_ORDERS)%nat →
  OrderManager.apply_event evt o = Ok o' →
  ∃ x, table_map o' !! order_key evt = Some x ∧ is_open x = true ∧ o_original_qty x = oe_qty evt.
Proof.
  intros He Hty Hwf Hnone Hroom Ho'. destruct (wf_event_ids evt He) as [_ Hids].
  destruct (manager_apply_event evt o Hids Hwf) as [Hm _]. rewrite Ho' in Hm. symmetry in Hm.
  cbn in Hm. unfold manage in Hm. rewrite decide_True in Hm by done.
  apply map_upsert_Ok in Hm as [(x & Hx & Hm)|(_ & _ & Hfull)]; cycle 1.
  { rewrite table_map_size in Hfull by done. cbn in Hfull. lia. }
  unfold order_step in Hx. rewrite Hty in Hx.
  apply new_order_Ok in Hx as (Hst & _ & _ & Hq & _); [|by destruct Hids].
  exists x. rewrite Hm, lookup_insert_eq. unfold is_open. by rewrite Hst.
Qed.

(** The open orders are those of the map. *)
Lemma open_orders_known (t : OrderManager.t) o :
  table_wf t → o ∈ open_orders t → table_map t !! slot_key o = Some o.
Proof. intros Hwf [_ Ho]%list_elem_of_filter. by apply table_map_Some. Qed.
End Interrupted.

(** ** Properties *)

(** C12. The kill switch misses no order under interleaving: a signal handler that starts
    while the engine and the strategy are anywhere in their calls, and runs while they
    go on (booking reports, adding orders, handling signals of their own), returns
    normally, and for every order that is open when it starts and stays open until it
    has finished, it has handed over a cancel request. *)
Theorem interleaved_cancel_all_misses_no_order {L E M SID} `{LogLaws L} `{FixMessageLaws M}
    `{FixValues} `{EnvLaws E M SID} `{Cracker M} (w : world L E M SID) (c c' : machine L E M SID) k r :
  gw_start w → rtc mc_step (at_rest w) c → holds_open k c →
  rtc (λ a b, holds_open k a ∧ mc_step a b) (signal_calls Calls.emergency_cancel_all c) c' →
  mc_signals c' !! length (mc_signals c) = Some (Done r) →
  r = Ok tt ∧ cancelled_since (length (sys_calls (w_system (mc_world c)))) k (mc_world c').
Proof.
  intros Hstart Hto (o & Ho & Hopen) Hrun Hend.
  set (n := length (sys_calls (w_system (mc_world c)))).
  destruct (any_flight w c Hstart Hto) as (hs & pt & pe & ps & Hfl).
  pose proof (fl_manager_wf _ _ _ _ _ _ Hfl) as Hwf.
  pose proof Ho as Ho'. apply table_map_Some in Ho' as [[j Hj]%list_elem_of_lookup_1 Hk]; [|done].
  assert (Hhand : handling (length (mc_signals c)) n k j c').
  { assert (Hhand : handling (length (mc_signals c)) n k j (signal_calls Calls.emergency_cancel_all c)).
    { split_and!.
      - exists hs, pt, pe, ps. eapply in_flight_frame; [exact Hfl|done|done|done
          |apply (fl_engine _ _ _ _ _ _ Hfl)|apply (fl_strategy _ _ _ _ _ _ Hfl)| |apply (fl_apart _ _ _ _ _ _ Hfl)].
        apply Forall_app. split; [apply (fl_signals _ _ _ _ _ _ Hfl)|].
        constructor; [apply emergency_within|constructor].
      - destruct (reachable_forwarding w c Hto) as [He Hs Hsig]. split; [done|done|].
        apply Forall_app. split; [done|]. constructor; [apply emergency_forward|constructor].
      - cbn. unfold slot_keys. rewrite list_lookup_fmap, Hj. exact (f_equal Some Hk).
      - done.
      - eexists. split; [apply list_lookup_middle; done|apply killing_start]. }
    clear Hend. induction Hrun as [|c1 c2 c3 [Ho1 Hstep] _ IH]; [done|].
    apply IH. by apply (handling_step _ _ _ _ c1). }
  destruct Hhand as (_ & _ & _ & _ & p & Hp & Hkill). rewrite Hend in Hp. injection Hp as <-.
  by apply (killing_ended n k j).
Qed.

(** A schedule along which an order is open at every step. *)
Definition holds_openb {L E M SID} (k : list char) (c : machine L E M SID) : bool :=
  match table_map (w_orders (mc_world c)) !! k with Some o => is_open o | None => false end.

Lemma holds_openb_true {L E M SID} k (c : machine L E M SID) : holds_openb k c = true → holds_open k c.
Proof. unfold holds_openb, holds_open. destruct (table_map _ !! k) as [o|]; [by exists o|done]. Qed.

Fixpoint run_open {L E M SID} (k : list char) (sched : list nat) (c : machine L E M SID) :
    option (machine L E M SID) :=
  match sched with
  | [] => Some c
  | t :: sched => if holds_openb k c then run_open k sched (thread_step t c) else None
  end.

Lemma run_open_steps {L E M SID} `{LogOps L} `{FixMessage M} `{FixValues} `{Env E M SID}
    `{Cracker M} k sched (c c' : machine L E M SID) :
  run_open k sched c = Some c' → rtc (λ a b, holds_open k a ∧ mc_step a b) c c'.
Proof.
  revert c. induction sched as [|t sched IH]; intros c Hrun; cbn in Hrun; [by injection Hrun as ->|].
  destruct (holds_openb k c) eqn:Hk; [|done]. specialize (IH _ Hrun).
  pose proof (holds_openb_true k c Hk) as Hopen.
  destruct (thread_step_inner t c) as [Heq|Hs]; [by rewrite Heq in IH|].
  eapply rtc_l; [split; [exact Hopen|by apply mc_inner]|exact IH].
Qed.

(** The order of [sample_sending] has been sent; a report about another order has been
    logged and is not in the books yet. *)
Definition sample_sent : machine (list OrderEvent) sample_env field_store string :=
  run_threads (replicate 11 1%nat) sample_sending.
Definition sample_booking : machine (list OrderEvent) sample_env field_store string :=
  run_threads [0%nat] (engine_calls (Calls.fromApp other_report) (reported other_report) sample_sent).

Lemma sample_booking_steps : rtc mc_step (at_rest sample_session) sample_booking.
Proof.
  assert (Ha : alive sample_sent = true) by (vm_compute; reflexivity).
  assert (He : ended (mc_engine sample_sent) = true) by (vm_compute; reflexivity).
  eapply rtc_l; [exact sample_sending_step|].
  transitivity sample_sent; [exact (run_threads_steps (replicate 11 1%nat) sample_sending)|].
  apply (rtc_l _ _ (engine_calls (Calls.fromApp other_report) (reported other_report) sample_sent));
    [exact (mc_call _ _ (call_message other_report sample_sent Ha He))|exact (run_threads_steps [0%nat] _)].
Qed.

Lemma interleaved_cancel_all_misses_no_order_witness :
  ∃ c, rtc mc_step (signal_calls Calls.emergency_cancel_all sample_booking) c ∧
    mc_signals c !! 0%nat = Some (Done (Ok tt)) ∧
    cancelled_since (length (sys_calls (w_system (mc_world sample_booking)))) (lit "ORD0") (mc_world c).
Proof.
  set (start := signal_calls Calls.emergency_cancel_all sample_booking).
  set (sched := [2; 2; 0; 2; 2; 0; 2; 2; 2; 0; 2; 2; 2]%nat).
  assert (Hb : (mc_signals <$> run_open (lit "ORD0") sched start) = Some [Done (Ok tt)])
    by (vm_compute; reflexivity).
  destruct (run_open (lit "ORD0") sched start) as [c|] eqn:Hrun; [|discriminate Hb].
  injection Hb as Hsig. pose proof (run_open_steps _ _ _ _ Hrun) as Hsteps.
  assert (Hopen : holds_open (lit "ORD0") sample_booking).
  { apply holds_openb_true. vm_compute. reflexivity. }
  assert (Hend : mc_signals c !! length (mc_signals sample_booking) = Some (Done (Ok tt)))
    by (rewrite Hsig; vm_compute; reflexivity).
  destruct (interleaved_cancel_all_misses_no_order sample_session sample_booking c (lit "ORD0") (Ok tt)
    sample_session_start sample_booking_steps Hopen Hsteps Hend) as [_ Hcan].
  exists c. split; [|split; [rewrite Hsig; reflexivity|exact Hcan]].
  clear -Hsteps. induction Hsteps as [|c1 c2 c3 [_ Hs] _ IH]; [apply rtc_refl|eapply rtc_l; [exact Hs|exact IH]].
Defined.

(** C32. A signal between the risk check and the log: when the handler interrupts an order
    entry that has just passed its check, it runs to its end and cancels what is open
    then; the interrupted call goes on, records and sends its order, and leaves it open
    although every thread is done and the kill switch has reported success: no cancel
    request names it. *)
Theorem interrupted_send_escapes_kill_switch {L E M SID} `{LogLaws L} `{FixMessageLaws M}
    `{FixValues} `{EnvLaws E M SID} `{Cracker M} (w : world L E M SID) symbol side qty price :
  let k := order_id_key (w_order_counter w) in
  gw_start w → w_connected w = true → log_size (w_log w) < MAX_EVENTS →
  sv_ok symbol = true → side = Buy ∨ side = Sell → in_i32 qty = true → in_i64 price = true →
  check (w_limits w) symbol side qty price (w_tracker w) (w_orders w) = Ok Pass →
  table_map (w_orders w) !! k = None → (count_ (w_orders w) < MAX_ORDERS)%nat →
  ∃ c cancels order,
    rtc mc_step (at_rest w) c ∧ quiet c = true ∧ mc_signals c = [Done (Ok tt)] ∧
    sys_calls (w_system (mc_world c)) = sys_calls (w_system w)
      ++ ((λ m, (m, w_session_id w)) <$> cancels) ++ [(order, w_session_id w)] ∧
    length cancels = OrderManager.open_order_count (w_orders w) ∧
    (∀ m, m ∈ cancels → fix_get F_OrigClOrdID m ≠ Ok k) ∧
    fix_get F_ClOrdID order = Ok k ∧ holds_open k c.
Proof.
  intros k Hstart Hc Hsize Hs Hside Hq Hp Hpass Hfree Hslot.
  pose proof (gw_inv_tables w (gw_start_inv w Hstart)) as (_ & How & Hsym).
  destruct (emergency_calls w (wf_sized _ How Hsym)) as (s1 & ms & Hem & Hcalls & Hlen & Hcancel).
  destruct Hstart as (es & Hl & _). rewrite (log_size_rep _ es) in Hsize by done.
  set (w1 := set_system s1 w) in *.
  destruct (send_order_room symbol side qty price w1 es)
    as (evt & ts & l' & o' & s' & m & r & Hevt & _ & Ho' & Hcar & Hcalls' & Hrun & Hr); [done..|].
  destruct (order_event_ok symbol side qty price (w_order_counter w1))
    as (evt' & Hevt' & Hwf & Hty & _ & _ & _ & Hkey & _); [done..|].
  assert (evt' = evt) as -> by congruence. change (order_id_key (w_order_counter w1)) with k in Hkey.
  set (w2 := set_system s' (set_orders o' (set_log l' (set_order_counter (u64 (w_order_counter w1 + 1)) w1)))).
  exists (interrupted symbol side qty price w w1 w2 r), ms, m. split_and!.
  - by apply (interrupted_steps symbol side qty price w w2 s1 r).
  - done.
  - done.
  - cbn [interrupted mc_world strategy_does fst w_system set_system w2]. rewrite Hcalls'.
    cbn [w_system set_system w1]. by rewrite Hcalls, <- app_assoc.
  - done.
  - intros m' [i Hi]%list_elem_of_lookup_1 Hk'.
    destruct (lookup_lt_is_Some_2 (open_orders (w_orders w)) i) as [o Ho].
    { apply lookup_lt_Some in Hi. unfold OrderManager.open_order_count in Hlen.
      unfold open_orders. lia. }
    destruct (Hcancel i m' o Hi Ho) as [Hid _]. rewrite Hk' in Hid. injection Hid as Hid.
    apply list_elem_of_lookup_2, open_orders_known in Ho; [|done].
    unfold slot_key in Ho. cbn in Ho. congruence.
  - destruct Hcar as [-> _]. by rewrite Hkey.
  - destruct (new_order_stored evt (w_orders w1) o') as (x & Hx & Hox & _);
      [done|done|done|by rewrite Hkey|done|done|].
    exists x. rewrite <- Hkey. by split.
Qed.

Lemma interrupted_send_escapes_kill_switch_witness :
  ∃ c, rtc mc_step (at_rest sample_session) c ∧ mc_signals c = [Done (Ok tt)] ∧
    holds_open (lit "ORD0") c ∧ length (sys_calls (w_system (mc_world c))) = 1%nat.
Proof.
  destruct (interrupted_send_escapes_kill_switch sample_session (sv_of_string (lit "AAPL")) Buy 100 175500000)
    as (c & ms & m & Hsteps & _ & Hsig & Hcalls & Hlen & _ & _ & Hopen);
    [exact sample_session_start|reflexivity|vm_compute; reflexivity|reflexivity|by left|reflexivity
    |reflexivity|vm_compute; reflexivity|reflexivity|apply Nat.ltb_lt; reflexivity|].
  exists c. split; [exact Hsteps|]. split; [exact Hsig|]. split; [exact Hopen|].
  rewrite Hcalls. replace (OrderManager.open_order_count _) with 0%nat in Hlen by (vm_compute; reflexivity).
  destruct ms; [reflexivity|discriminate Hlen].
Defined.
