(* ===== verification/Exposure.v ===== *)
(** * [Exposure]: what the position limit does and does not bound

    The risk check between the two halves of booking a fill, and a sequence of orders
    that all pass although the filled position ends up beyond the limit. *)

From stdpp Require Import relations.
From S2P Require Import Prelude CString OrderEvent EventLog SlotTable PositionTracker OrderManager.
From S2P Require Import Projection Commute RiskChecker Fixed FixMessages MessageTranslator Environment.
From S2P Require Import Killswitch FIXGateway Scripts Resumption Calls Threads.

Local Open Scope Z_scope.

(** ** Between the tracker and the manager *)

(** A fill in the tracker only: its quantity is in the position and still in the open
    exposure. *)
Lemma half_booked_exposure e t t' (os : OrderManager.t) k :
  table_wf t → symbol_ok e → is_fill e = true →
  is_Some (table_map t !! cstr 8 (oe_symbol e)) ∨ (count_ t < MAX_SYMBOLS)%nat →
  PositionTracker.apply_event e t = Ok t' →
  true_exposure k (table_map t') (table_map os)
    = true_exposure k (table_map t) (table_map os)
      + if decide (cstr 8 (oe_symbol e) = k) then signed_qty e else 0.
Proof.
  intros Ht Hsym He Hroom Ht'. destruct (apply_event_tracks e t Hsym Ht) as [Htrack _].
  rewrite Ht' in Htrack. symmetry in Htrack. rewrite <- (table_map_size t) in Hroom by done.
  unfold true_exposure. rewrite (track_net k _ _ _ Htrack He Hroom). lia.
Qed.

Lemma signed_qty_bound e : 0 <= oe_fill_qty e → Z.abs (signed_qty e) <= oe_fill_qty e.
Proof. intros Hq. unfold signed_qty, sgn_side. case_decide; lia. Qed.

(** ** Properties *)

(** A check between the two halves of a booking counts the fill twice: when the fill
    of an open order is in the tracker and not yet in the manager (as under overlapping
    calls), the complete check decides the reference rule on the true exposure plus the
    fill once more, instead of on the true exposure it has before and after; an order
    that passes there is only known to stay within the position limit plus the
    quantity of the fill. *)
Theorem check_between_books_counts_twice e t os t' os' o limits sym side qty price r :
  table_wf t → table_wf os → symbols_ok os → symbol_ok e → ids_ok e → is_fill e = true →
  table_map os !! order_key e = Some o → is_open o = true → oe_side e = o_side o →
  cstr 8 (oe_symbol e) = cstr 8 (o_symbol o) →
  0 < oe_fill_qty e <= o_original_qty o - o_filled_qty o →
  is_Some (table_map t !! cstr 8 (oe_symbol e)) ∨ (count_ t < MAX_SYMBOLS)%nat →
  PositionTracker.apply_event e t = Ok t' → OrderManager.apply_event e os = Ok os' →
  sv_ok sym = true → check limits sym side qty price t' os = Ok r →
  let exposure := true_exposure (key sym) (table_map t') (table_map os') in
  let again := if decide (cstr 8 (oe_symbol e) = key sym) then signed_qty e else 0 in
  r = risk_rule limits side qty price (exposure + again) (p_realized_pnl <$> table_map t' !! key sym) ∧
  (r = Pass → Z.abs (exposure + sgn_side side * qty) <= max_net_position limits + oe_fill_qty e).
Proof.
  intros Ht Ho Hos Hsym Hids He Hk Hopen Hside Hsymbol Hq Hroom Ht' Ho' Hs Hcheck exposure again.
  destruct (fill_moves_exposure e t os t' os' o (key sym))
    as (_ & Hexp & Hwft & _); [done..|].
  apply check_rule in Hcheck; [|done..].
  assert (Hseen : true_exposure (key sym) (table_map t') (table_map os) = exposure + again).
  { unfold exposure, again, true_exposure. lia. }
  rewrite Hseen in Hcheck. split; [done|]. intros ->. symmetry in Hcheck.
  apply risk_rule_pass in Hcheck. cbn zeta in Hcheck. destruct Hcheck as (_ & _ & Hlim & _).
  pose proof (signed_qty_bound e ltac:(lia)) as Hb. clear -Hq Hb Hlim. unfold again in Hlim.
  revert Hlim. generalize exposure (sgn_side side * qty). intros x y Hlim.
  case_decide; lia.
Qed.

Lemma check_between_books_counts_twice_witness :
  let sym := sv_of_string (lit "AAPL") in
  let e := sample_event FullFill "AAPL" "O1" Buy 100 1000000 in
  ∃ os t' os', OrderManager.apply_event (sample_new "O1" Buy 100 1000000) OrderManager.init = Ok os ∧
    PositionTracker.apply_event e PositionTracker.init = Ok t' ∧ OrderManager.apply_event e os = Ok os' ∧
    check default_limits sym Sell 150 1000000 t' os = Ok Pass ∧
    check default_limits sym Sell 150 1000000 t' os' = Ok FailPositionCross ∧
    Z.abs (true_exposure (key sym) (table_map t') (table_map os') + sgn_side Sell * 150) <= 50000 + 100.
Proof.
  intros sym e. set (n := sample_new "O1" Buy 100 1000000).
  destruct (Ok_ex (OrderManager.apply_event n OrderManager.init)) as [os E]; [vm_compute; reflexivity|].
  destruct (Ok_ex (PositionTracker.apply_event e PositionTracker.init)) as [t' Et]; [vm_compute; reflexivity|].
  destruct (Ok_ex (os ← OrderManager.apply_event n OrderManager.init; OrderManager.apply_event e os))
    as [os' E']; [vm_compute; reflexivity|]. rewrite E in E'. cbn [mbind outcome_bind] in E'.
  assert (Hpass : (os ← OrderManager.apply_event n OrderManager.init;
     t' ← PositionTracker.apply_event e PositionTracker.init;
     check default_limits sym Sell 150 1000000 t' os) = Ok Pass) by (vm_compute; reflexivity).
  rewrite E, Et in Hpass. cbn [mbind outcome_bind] in Hpass.
  assert (Hcross : (os ← OrderManager.apply_event n OrderManager.init;
     os ← OrderManager.apply_event e os;
     t' ← PositionTracker.apply_event e PositionTracker.init;
     check default_limits sym Sell 150 1000000 t' os) = Ok FailPositionCross) by (vm_compute; reflexivity).
  rewrite E in Hcross. cbn [mbind outcome_bind] in Hcross. rewrite E', Et in Hcross.
  cbn [mbind outcome_bind] in Hcross.
  assert (Hn : Forall ids_ok [n]) by (repeat constructor).
  assert (Hf : foldO OrderManager.apply_event [n] OrderManager.init = Ok os)
    by (cbn [foldO]; by rewrite E).
  destruct (manager_fold [n] os Hn Hf) as [Hwf Hm].
  destruct (manager_run [n] os Hn Hf) as [_ Hsym].
  assert (Hk : (m ← foldO manage [n] ∅; Ok (m !! lit "O1")) = Ok (table_map os !! lit "O1"))
    by (rewrite Hm; reflexivity).
  vm_compute (_ ← _; _) in Hk. injection Hk as Hk.
  match type of Hk with Some ?x = _ => set (o := x) in Hk end.
  edestruct (check_between_books_counts_twice e PositionTracker.init os t' os' o
      default_limits sym Sell 150 1000000 Pass) as [_ Hlim];
    [apply table_init_wf|exact Hwf|exact Hsym|reflexivity|split; reflexivity|reflexivity
    |symmetry; exact Hk|reflexivity|reflexivity|reflexivity|vm_compute; split; congruence
    |right; apply Nat.ltb_lt; reflexivity|exact Et|exact E'|reflexivity|exact Hpass|].
  exists os, t', os'. split; [exact E|]. split; [exact Et|]. split; [exact E'|].
  split; [exact Hpass|]. split; [exact Hcross|]. exact (Hlim eq_refl).
Defined.

(** Six buys of 10,000 filled one by one beside a resting sell of 10,000. *)
Definition hiding_script : list script_call :=
  Order_of Sell 10000 ::
  (["1"; "2"; "3"; "4"; "5"; "6"] ≫=
    λ i, [Order_of Buy 10000; Report_of "1"%char ("ORD" +:+ i)%string 10000]).

(** Resting orders hide the position: the position limit is on filled plus open
    exposure, in which a resting sell offsets a long position; with the default limits
    (50,000) the seven orders of [hiding_script] all pass the check, the engine reports
    the six buys filled once each for their quantity, and the filled position is 60,000
    while the exposure the check sees is at the limit. *)
Theorem resting_orders_hide_position :
  ∃ w p, play hiding_script sample_session = Some w ∧ rtc FIXGateway.gw_step sample_session w ∧
    table_map (w_tracker w) !! lit "AAPL" = Some p ∧
    true_exposure (lit "AAPL") (table_map (w_tracker w)) (table_map (w_orders w))
      = max_net_position (w_limits w) ∧
    p_net_qty p = max_net_position (w_limits w) + 10000.
Proof.
  destruct (play_check hiding_script sample_session (λ w,
      let k := lit "AAPL" in
      (true_exposure k (table_map (w_tracker w)) (table_map (w_orders w)) =? max_net_position (w_limits w))
      && bool_decide (p_net_qty <$> table_map (w_tracker w) !! k
                      = Some (max_net_position (w_limits w) + 10000))))
    as (w & Hplay & Hsteps & [Hexp%Z.eqb_eq Hnet%bool_decide_eq_true]%andb_true_iff);
    [vm_compute; reflexivity|].
  apply fmap_Some in Hnet as (p & Hp & Hnet). exists w, p. by split_and!.
Qed.
