(* ===== verification/Stale.v ===== *)
(** * [Stale]: a fill between the two reads of the risk check

    The check reads the net position from the tracker and then the open exposure from
    the manager.  When the engine's thread books a whole fill between the two reads, the
    fill is in neither number. *)

From stdpp Require Import relations.
From S2P Require Import Prelude CString OrderEvent EventLog SlotTable PositionTracker OrderManager.
From S2P Require Import Projection RiskChecker Fixed FixMessages MessageTranslator Environment.
From S2P Require Import Killswitch FIXGateway Scripts Trade Resumption Calls Threads Schedules Interrupts Exposure.

Local Open Scope Z_scope.

Section Stale.
Context {L E M SID : Type} `{LogLaws L} `{FixMessageLaws M} `{FixValues} `{EnvLaws E M SID}
  `{Cracker M}.
Notation W := (world L E M SID).
Notation C := (machine L E M SID).
Implicit Types (w : W) (c : C).

(** The check once the net position has been read. *)
Definition check_pending (limits : RiskLimits) (pos : option nat) (filled_qty : Z)
    (symbol : string_view) (side : Side) (qty : Z) : res W RiskResult :=
  pending_qty ← peek (λ w, OrderManager.open_exposure symbol (w_orders w));
  true_qty ← local (i64 (filled_qty + pending_qty));
  delta ← local (signed_order_qty side qty);
  projected ← local (i64 (true_qty + delta));
  over ← local (over_limit projected (max_net_position limits));
  if over : bool then mret FailPositionLimit else
  if negb (allow_position_cross limits) && crosses true_qty projected
  then mret FailPositionCross else
  peek (λ w,
    match deref pos (w_tracker w) with
    | None => Ok Pass
    | Some p => loss ← loss_breached limits p; if loss : bool then Ok FailMaxLoss else Ok Pass
    end).

(** From the two reads of the position on, and from the limits on. *)
Definition net_at (pos : option nat) w : Z :=
  match deref pos (w_tracker w) with Some p => p_net_qty p | None => 0 end.
Definition check_net (limits : RiskLimits) (symbol : string_view) (side : Side) (qty : Z)
    (pos : option nat) : res W RiskResult :=
  filled_qty ← peek (λ w, Ok (net_at pos w));
  check_pending limits pos filled_qty symbol side qty.
Definition check_limits (symbol : string_view) (side : Side) (qty price : Z) (limits : RiskLimits) :
    res W RiskResult :=
  if max_order_qty limits <? qty then mret FailMaxQty else
  notional ← local (i64 (qty * price));
  if max_order_notional limits <? notional then mret FailMaxNotional else
  pos ← peek (λ w, find symbol (w_tracker w));
  check_net limits symbol side qty pos.

Lemma check_in_parts symbol side qty price :
  Calls.check symbol side qty price
    = limits ← peek (λ w, Ok (w_limits w)); check_limits symbol side qty price limits.
Proof. done. Qed.

(** What the strategy does with the answer. *)
Definition after_check (symbol : string_view) (side : Side) (qty price : Z) (result : RiskResult) :
    res W (list char) :=
  if negb (bool_decide (result = Pass)) then
    _ ← atom (FIXGateway.gw_do (print (Out_risk_blocked (RiskResult_to_string result)))); mret []
  else Calls.send_passed symbol side qty price.

Definition others_alive c : Prop :=
  survives (mc_engine c) = true ∧ forallb survives (mc_signals c) = true.

(** One read of the strategy, inside a call inside a call. *)
Lemma strategy_reads {A B} c (f : W → outcome A) (g : A → res W B) (k : B → res W (list char)) a :
  mc_strategy c = (x ← (y ← peek f; g y); k x) → others_alive c → f (mc_world c) = Ok a →
  mc_step c (strategy_does (mc_world c, x ← g a; k x) c).
Proof.
  intros Hc Hok Hf. pose proof (strategy_step_ok c _ Hc Hok) as Hstep.
  cbn beta iota zeta delta [peek atom mbind res_bind res_bind_def fst snd] in Hstep.
  rewrite Hf in Hstep. exact Hstep.
Qed.

(** The strategy reaches the point between the two reads. *)
Lemma strategy_reads_position c symbol side qty price pos n :
  mc_strategy c = (result ← Calls.check symbol side qty price; after_check symbol side qty price result) →
  others_alive c → (max_order_qty (w_limits (mc_world c)) <? qty) = false →
  i64 (qty * price) = Ok n → (max_order_notional (w_limits (mc_world c)) <? n) = false →
  find symbol (w_tracker (mc_world c)) = Ok pos →
  rtc mc_step c (strategy_does (mc_world c,
    result ← check_pending (w_limits (mc_world c)) pos (net_at pos (mc_world c)) symbol side qty;
    after_check symbol side qty price result) c).
Proof.
  intros Hc Hok Hq Hn Hno Hpos. set (k := after_check symbol side qty price) in *.
  rewrite check_in_parts in Hc. set (limits := w_limits (mc_world c)) in *.
  pose proof (strategy_reads c (λ w, Ok (w_limits w)) (check_limits symbol side qty price) k limits
    Hc Hok eq_refl) as Hstep.
  eapply rtc_l; [exact Hstep|clear Hstep]. unfold check_limits. rewrite Hq, Hn.
  cbn [local mbind res_bind res_bind_def]. rewrite Hno.
  match goal with |- rtc _ ?x _ => set (c1 := x) end.
  pose proof (strategy_reads c1 (λ w, find symbol (w_tracker w)) (check_net limits symbol side qty)
    k pos eq_refl Hok Hpos) as Hstep.
  eapply rtc_l; [exact Hstep|clear Hstep].
  match goal with |- rtc _ ?x _ => set (c2 := x) end.
  pose proof (strategy_reads c2 (λ w, Ok (net_at pos w))
    (λ filled_qty, check_pending limits pos filled_qty symbol side qty) k _ eq_refl Hok eq_refl) as Hstep.
  eapply rtc_l; [exact Hstep|]. apply rtc_refl.
Qed.

(** The rest of the check, from the books it then finds. *)
Lemma check_pending_passes limits pos n symbol side qty price w :
  let seen := n + map_sum (exposure_of (key symbol)) (table_map (w_orders w)) in
  table_wf (w_orders w) → symbols_ok (w_orders w) → sv_ok symbol = true →
  Z.abs qty <= INT32_MAX → map_sum open_size (table_map (w_orders w)) <= INT32_MAX →
  Z.abs n <= INT64_MAX - 2 * INT32_MAX →
  Z.abs (max_net_position limits) <= INT64_MAX → Z.abs (max_loss_fp limits) <= INT64_MAX →
  (∀ p, p ∈ slots_ (w_tracker w) → - max_loss_fp limits <= p_realized_pnl p) →
  risk_rule limits side qty price seen None = Pass →
  run (check_pending limits pos n symbol side qty) w = (w, Ok Pass).
Proof.
  intros seen Hwf Hsym Hs Hq Hsum Hn Hmax Hloss Hpnl Hrule. unfold check_pending.
  pose proof (exposure_sum_bound (key symbol) INT32_MAX _ Hwf Hsum) as Hpend.
  rewrite run_peek, open_exposure_total by done. fold seen. unfold risk_rule in Hrule.
  destruct (max_order_qty limits <? qty); [done|].
  destruct (max_order_notional limits <? qty * price); [done|].
  pose proof (sgn_side_cases side). unfold INT32_MAX, INT64_MAX in *.
  rewrite run_local, i64_ok by (unfold seen; lia). fold seen.
  rewrite run_local, signed_order_qty_ok by done.
  rewrite run_local, i64_ok by (unfold seen; lia). rewrite run_local.
  destruct (_ || _) eqn:Hover in Hrule; [done|]. apply orb_false_iff in Hover as [Hhi Hlo].
  unfold over_limit. rewrite Hhi, i64_ok by lia. cbn [mbind outcome_bind]. rewrite Hlo.
  destruct (_ && _); [done|]. unfold peek. rewrite run_atom.
  destruct (deref pos (w_tracker w)) as [p|] eqn:Hp; [|done].
  assert (p ∈ slots_ (w_tracker w)) as Hin%Hpnl.
  { unfold deref in Hp. destruct pos as [i|]; [|done]. by apply list_elem_of_lookup_2 in Hp. }
  unfold loss_breached. rewrite i64_ok by lia. cbn [mbind outcome_bind].
  by rewrite (proj2 (Z.ltb_ge _ _)) by lia.
Qed.

Lemma net_at_find symbol w :
  table_wf (w_tracker w) → sv_ok symbol = true →
  ∃ pos, find symbol (w_tracker w) = Ok pos ∧ net_at pos w = net_of (key symbol) (table_map (w_tracker w)).
Proof.
  intros Hwf Hs. destruct (find_spec symbol (w_tracker w) Hwf Hs) as (pos & Hpos & _).
  exists pos. split; [done|]. pose proof (get_spec symbol (w_tracker w) Hwf Hs) as Hg.
  unfold get in Hg. rewrite Hpos in Hg. injection Hg as Hg. unfold net_at, net_of. rewrite Hg.
  by destruct (table_map _ !! key symbol).
Qed.

(** What a report that was handled has done, when it is a fill of an open order. *)
Record fill_booked (e : OrderEvent) (es : list OrderEvent) w w1 : Prop := {
  fb_tracker : table_wf (w_tracker w1);
  fb_orders : table_wf (w_orders w1);
  fb_symbols : symbols_ok (w_orders w1);
  fb_log : ∃ e', log_rep (w_log w1) (es ++ [e']);
  fb_calls : sys_calls (w_system w1) = sys_calls (w_system w);
  fb_counter : w_order_counter w1 = w_order_counter w;
  fb_session : w_session_id w1 = w_session_id w;
  fb_seen k : net_of k (table_map (w_tracker w)) + map_sum (exposure_of k) (table_map (w_orders w1))
    = exposure k w - if decide (cstr 8 (oe_symbol e) = k) then signed_qty e else 0;
  fb_exposure k : exposure k w1 = exposure k w;
  fb_keys k : table_map (w_orders w) !! k = None → table_map (w_orders w1) !! k = None;
  fb_count : count_ (w_orders w1) = count_ (w_orders w);
}.

Lemma fill_is_booked msg e o w w1 es :
  gw_inv w → log_rep (w_log w) es →
  MessageTranslator.from_execution_report msg = Ok (Some e) → is_fill e = true →
  table_map (w_orders w) !! order_key e = Some o → is_open o = true → oe_side e = o_side o →
  cstr 8 (oe_symbol e) = cstr 8 (o_symbol o) →
  0 < oe_fill_qty e <= o_original_qty o - o_filled_qty o →
  tracker_room (cstr 8 (oe_symbol e)) (w_tracker w) →
  FIXGateway.fromApp msg w = (w1, Ok tt) → fill_booked e es w w1.
Proof.
  intros Hinv Hl He Hf Ho Hopen Hsd Hsy Hfq Hroom Hbook.
  destruct (gw_inv_tables w Hinv) as (Htw & How & Hsym).
  assert (Hon : FIXGateway.onMessage msg w = (w1, Ok tt)).
  { unfold FIXGateway.fromApp, st_noexcept in Hbook. destruct (is_execution_report msg); [|done].
    destruct (FIXGateway.onMessage msg w) as [w1' [[]|x| |]]; cbn in Hbook; congruence. }
  destruct (onMessage_inv msg w w1 es Hl Hon)
    as [[He' _]|(e' & _ & t' & os' & _ & _ & He' & Hlen & Ht' & Hos' & _)]; [congruence|].
  assert (e' = e) as -> by congruence. clear He'.
  destruct (onMessage_booked msg e w es t' os') as (l1 & s1 & ts & Hl1 & Hcalls1 & Hw1); [done..|].
  assert (w1 = set_system s1 (set_orders os' (set_tracker t' (set_log l1 w)))) as -> by congruence.
  destruct (from_execution_report_wf msg e He) as [Hwf _].
  destruct (wf_event_ids e Hwf) as [Hesym Heids].
  pose proof (λ k, fill_moves_exposure e (w_tracker w) (w_orders w) t' os' o k
    Htw How Hesym Heids Hf Ho Hopen Hsd Hsy Hfq Hroom Ht' Hos') as Hmoved.
  destruct (Hmoved []) as (_ & _ & Htw1 & How1 & o1 & _ & Hm1).
  split; unfold exposure, true_exposure;
    cbn [w_tracker w_orders w_log w_system w_order_counter w_session_id set_system set_orders
         set_tracker set_log]; try done.
  - by apply (apply_event_symbols e (w_orders w)).
  - by eexists.
  - intros k. destruct (Hmoved k) as (_ & -> & _). lia.
  - intros k. destruct (Hmoved k) as (-> & -> & _). lia.
  - intros k Hk. rewrite Hm1, lookup_insert_ne; congruence.
  - rewrite <- !(table_map_size (A := Order)), Hm1 by done. apply map_size_insert_Some. by eexists.
Qed.

(** The engine books a report between the two reads of an order entry. *)
Lemma raced_steps msg symbol side qty price w w1 w2 pos n r :
  w_connected w = true → sv_ok symbol = true → side = Buy ∨ side = Sell →
  in_i32 qty = true → in_i64 price = true →
  (max_order_qty (w_limits w) <? qty) = false →
  i64 (qty * price) = Ok n → (max_order_notional (w_limits w) <? n) = false →
  find symbol (w_tracker w) = Ok pos →
  FIXGateway.fromApp msg w = (w1, Ok tt) →
  run (check_pending (w_limits w) pos (net_at pos w) symbol side qty) w1 = (w1, Ok Pass) →
  FIXGateway.record_order symbol side qty price w1 = (w2, r) →
  ∃ c, rtc mc_step (at_rest w) c ∧ mc_world c = w2 ∧ mc_engine c = Done (Ok tt) ∧
    mc_strategy c = Done r ∧ mc_signals c = [].
Proof.
  intros Hc Hs Hside Hq Hp Hmax Hn Hno Hpos Hbook Hcheck Hrec.
  set (k := Some (order_id_key (w_order_counter w))).
  set (c1 := strategy_calls (Calls.send_order symbol side qty price) k (at_rest w)).
  set (c2 := strategy_does (w, result ← Calls.check symbol side qty price;
    after_check symbol side qty price result) c1).
  set (c3 := strategy_does (w, result ← check_pending (w_limits w) pos (net_at pos w) symbol side qty;
    after_check symbol side qty price result) c2).
  set (c4 := engine_calls (Calls.fromApp msg) (reported msg) c3).
  set (c5 := engine_does (w1, Done (Ok tt)) c4).
  set (c6 := strategy_does (w1, Calls.send_passed symbol side qty price) c5).
  exists (strategy_does (w2, Done r) c6). split; [|done].
  eapply rtc_l; [by apply mc_call, (call_send symbol side qty price)|]. fold k c1.
  transitivity c2.
  { eapply (strategy_runs_to c1 (peek (λ w, Ok (FIXGateway.is_connected w))) (λ connected : bool,
      if negb connected then _ ← atom (FIXGateway.gw_do (print Out_not_connected)); mret []
      else result ← Calls.check symbol side qty price; after_check symbol side qty price result)
      w true); [done..|].
    unfold peek. rewrite run_atom. unfold FIXGateway.is_connected. cbn [mc_world c1 strategy_calls at_rest].
    by rewrite Hc. }
  transitivity c3; [by apply (strategy_reads_position c2 symbol side qty price pos n)|].
  eapply rtc_l; [exact (mc_call _ _ (call_message msg c3 eq_refl eq_refl))|fold c4].
  transitivity c5; [apply (engine_runs c4 (Calls.fromApp msg)); try done; by rewrite run_fromApp|].
  transitivity c6.
  - apply (strategy_runs_to c5 (check_pending (w_limits w) pos (net_at pos w) symbol side qty)
      (after_check symbol side qty price) w1 Pass); done.
  - apply (strategy_runs c6 (Calls.send_passed symbol side qty price)); try done.
    by rewrite run_send_passed.
Qed.
End Stale.

(** ** Properties *)

(** C16. A fill between the two reads of the check is not seen: when the strategy has read
    the net position of a symbol and the engine's thread then books a whole fill of an
    open order on it before the strategy reads the open exposure, the check decides on
    the true exposure less the fill, although the fill changes the true exposure not at
    all; an order that passes so is recorded and sent, and the books end with its whole
    quantity on top of the true exposure, with nothing to keep that within the limit. *)
Theorem stale_position_passes_check {L E M SID} `{LogLaws L} `{FixMessageLaws M} `{FixValues}
    `{EnvLaws E M SID} `{Cracker M} (w0 w w1 : world L E M SID) msg e o symbol side qty price :
  let k := order_id_key (w_order_counter w) in
  let ks := key symbol in
  gw_start w0 → rtc FIXGateway.gw_step w0 w →
  w_connected w = true → log_size (w_log w) + 1 < MAX_EVENTS →
  sv_ok symbol = true → side = Buy ∨ side = Sell → in_i32 qty = true → in_i64 price = true →
  Z.abs qty <= INT32_MAX → Z.abs (qty * price) <= INT64_MAX →
  table_map (w_orders w) !! k = None → (count_ (w_orders w) < MAX_ORDERS)%nat →
  MessageTranslator.from_execution_report msg = Ok (Some e) → is_fill e = true →
  table_map (w_orders w) !! order_key e = Some o → is_open o = true → oe_side e = o_side o →
  cstr 8 (oe_symbol e) = cstr 8 (o_symbol o) → cstr 8 (oe_symbol e) = ks →
  0 < oe_fill_qty e <= o_original_qty o - o_filled_qty o → tracker_room ks (w_tracker w) →
  FIXGateway.fromApp msg w = (w1, Ok tt) →
  map_sum open_size (table_map (w_orders w1)) <= INT32_MAX →
  Z.abs (net_of ks (table_map (w_tracker w))) <= INT64_MAX - 2 * INT32_MAX →
  Z.abs (max_net_position (w_limits w)) <= INT64_MAX → Z.abs (max_loss_fp (w_limits w)) <= INT64_MAX →
  (∀ p, p ∈ slots_ (w_tracker w1) → - max_loss_fp (w_limits w) <= p_realized_pnl p) →
  risk_rule (w_limits w) side qty price (exposure ks w - signed_qty e) None = Pass →
  exposure ks w1 = exposure ks w ∧
  ∃ c m, rtc mc_step (at_rest w) c ∧ quiet c = true ∧ alive c = true ∧ holds_open k c ∧
    sys_calls (w_system (mc_world c)) = sys_calls (w_system w) ++ [(m, w_session_id w)] ∧
    fix_get F_ClOrdID m = Ok k ∧
    exposure ks (mc_world c) = exposure ks w + sgn_side side * qty.
Proof.
  intros k ks Hstart Hsteps Hc Hsize Hs Hside Hq Hp Habs Hnot Hfree Hslot He Hf Ho Hopen Hsd Hsy Hks
    Hfq Hroom Hbook Hsum Hnet Hmax Hloss Hpnl Hrule.
  pose proof (reachable_inv w0 w Hstart Hsteps) as Hinv.
  destruct (gw_inv_tables w Hinv) as (Htw & How & Hsym). pose proof Hinv as (es & hs & Hl & _).
  rewrite (log_size_rep _ es) in Hsize by done. rewrite <- Hks in Hroom.
  destruct (fill_is_booked msg e o w w1 es)
    as [Htw1 How1 Hsym1 [e1 Hl1] Hcalls1 Hcnt1 Hsid1 Hseen1 Hexp1 Hkeys1 Hcount1]; [done..|].
  specialize (Hkeys1 k Hfree). split; [done|].
  destruct (record_order_room symbol side qty price w1 _ Hs Hside Hq Hp How1 Hl1)
    as (evt & ts2 & l2 & o2 & s2 & m & r & Hevt & Hl2 & Ho2 & Hcar & Hcalls2 & Hrec & Hr).
  { rewrite length_app. cbn [length]. lia. }
  rewrite Hcnt1 in Hevt.
  destruct (order_event_ok symbol side qty price (w_order_counter w))
    as (evt' & Hevt' & Hewf & Hty & Hesd & Heq & _ & Hkey & Hsymk); [done..|].
  assert (evt' = evt) as -> by congruence. fold k in Hkey. rewrite <- Hkey in Hkeys1.
  assert (Hslot1 : (count_ (w_orders w1) < MAX_ORDERS)%nat) by (by rewrite Hcount1).
  destruct (net_at_find symbol w Htw Hs) as (pos & Hpos & Hat). fold ks in Hat.
  specialize (Hseen1 ks). rewrite decide_True in Hseen1 by done.
  pose proof Hrule as (Hmq & Hmn & _)%risk_rule_pass.
  match type of Hrec with _ = (?x, _) => set (w2 := x) in Hrec end.
  destruct (raced_steps msg symbol side qty price w w1 w2 pos (qty * price) r) as (c & Hto & Hcw & Hce & Hcs & Hck); try done.
  { by apply Z.ltb_ge. }
  { apply i64_ok. unfold INT64_MAX in *. lia. }
  { by apply Z.ltb_ge. }
  { apply (check_pending_passes _ _ _ _ _ _ price); try done; rewrite Hat; [done|].
    fold ks. by rewrite Hseen1. }
  exists c, m. rewrite Hcw. unfold quiet, alive, holds_open. rewrite Hce, Hcs, Hck, Hcw.
  cbn [w_system w_orders set_system set_orders w2]. rewrite Hcalls2, Hcalls1, Hsid1.
  split; [done|]. split; [done|]. split; [by destruct Hr as [-> | ->]|].
  destruct (new_order_stored evt (w_orders w1) o2) as (x & Hx & Hox & _); try done.
  split; [exists x; by rewrite <- Hkey|]. split; [done|].
  split; [destruct Hcar as [-> _]; by rewrite Hkey|].
  pose proof (new_order_exposure evt _ _ ks Hewf Hty How1 Hkeys1 Hslot1 Ho2) as Hexp2.
  rewrite decide_True, Hesd, Heq in Hexp2 by done. rewrite <- (Hexp1 ks).
  unfold exposure, true_exposure. cbn [w_tracker w_orders set_system set_orders set_log set_order_counter w2].
  lia.
Qed.

(** Five resting buys at the default limit, and the report that fills the first. *)
Definition full_book : sample_w :=
  default sample_session (play (replicate 5 (Order_of Buy 10000)) sample_session).
Definition first_fill : field_store :=
  sample_report "2"%char "1"%char "AAPL" "ORD0" (Some (of_int 10000, from_fixed 1000000)).

Lemma within_loss (floor : Z) (t : PositionTracker.t) :
  forallb (λ p, floor <=? p_realized_pnl p) (slots_ t) = true →
  ∀ p, p ∈ slots_ t → floor <= p_realized_pnl p.
Proof. intros Hall p Hp%list_elem_of_In. rewrite forallb_forall in Hall. by apply Z.leb_le, Hall. Qed.

Lemma stale_position_passes_check_witness :
  let sym := sv_of_string (lit "AAPL") in
  let w1 := (FIXGateway.fromApp first_fill full_book).1 in
  check default_limits sym Buy 10000 1000000 (w_tracker full_book) (w_orders full_book)
    = Ok FailPositionLimit ∧
  check default_limits sym Buy 10000 1000000 (w_tracker w1) (w_orders w1) = Ok FailPositionLimit ∧
  ∃ c, rtc mc_step (at_rest full_book) c ∧ quiet c = true ∧ holds_open (lit "ORD5") c ∧
    exposure (lit "AAPL") (mc_world c) = max_net_position default_limits + 10000.
Proof.
  intros sym w1. split; [vm_compute; reflexivity|]. split; [vm_compute; reflexivity|].
  set (e := match MessageTranslator.from_execution_report first_fill with
    Ok (Some e) => e | _ => sample_fill "AAPL" Buy 0 0 end).
  set (o := default (Order_fresh []) (table_map (w_orders full_book) !! lit "ORD0")).
  destruct (stale_position_passes_check sample_session full_book w1 first_fill e o sym Buy 10000 1000000)
    as (_ & c & m & Hto & Hq & _ & Hopen & _ & _ & Hexp).
  - exact sample_session_start.
  - apply (play_steps (replicate 5 (Order_of Buy 10000))), played_default. vm_compute. reflexivity.
  - vm_compute. reflexivity.
  - vm_compute. reflexivity.
  - reflexivity.
  - by left.
  - reflexivity.
  - reflexivity.
  - unfold INT32_MAX. lia.
  - unfold INT64_MAX. lia.
  - vm_compute. reflexivity.
  - apply Nat.ltb_lt. vm_compute. reflexivity.
  - vm_compute. reflexivity.
  - vm_compute. reflexivity.
  - vm_compute. reflexivity.
  - vm_compute. reflexivity.
  - vm_compute. reflexivity.
  - vm_compute. reflexivity.
  - vm_compute. reflexivity.
  - vm_compute. split; congruence.
  - right. apply Nat.ltb_lt. vm_compute. reflexivity.
  - apply pair_result. vm_compute. reflexivity.
  - vm_compute. congruence.
  - vm_compute. congruence.
  - vm_compute. congruence.
  - vm_compute. congruence.
  - apply within_loss. vm_compute. reflexivity.
  - vm_compute. reflexivity.
  - exists c. split; [exact Hto|]. split; [exact Hq|]. split; [exact Hopen|].
    transitivity (exposure (key sym) full_book + sgn_side Buy * 10000); [exact Hexp|vm_compute; reflexivity].
Defined.
