(* ===== verification/Races.v ===== *)
(** * [Races]: component calls that overlap

    A component call ([log_.append], [tracker_.apply_event], [orders_.apply_event], a
    read of the check, a step of the kill switch) takes time, and the code holds no lock
    while it runs: in the machine of this file a thread is inside such a call from its
    beginning to its end, and any number of threads are inside at once.  A race is two
    threads inside at once, one of which writes what the other uses.  The code does race
    ([gateway_calls_race], [two_writers_lose_an_event]); what it keeps is stated for the
    executions without a race, which are those of [Threads]. *)

From stdpp Require Import relations.
From S2P Require Import Prelude CString OrderEvent EventLog Concurrency SlotTable PositionTracker.
From S2P Require Import OrderManager Projection RiskChecker Fixed FixMessages MessageTranslator.
From S2P Require Import Environment Killswitch FIXGateway Scripts Trade Main Resumption Calls.
From S2P Require Import Threads Forward Schedules Interrupts.

Local Open Scope Z_scope.

(** The plain data of the process.  [connected_] and [order_counter_] are atomics, the
    limits never change, and the FIX engine and the streams take care of themselves. *)
Inductive part : Type := Log | Tracker | Orders | SessionId.

#[export] Instance part_eq_dec : EqDecision part.
Proof. solve_decision. Defined.

Section Races.
Context {L E M SID : Type} `{LogOps L} `{FixMessage M} `{FixValues} `{Env E M SID}
  `{Cracker M}.
Notation W := (world L E M SID).
Notation C := (machine L E M SID).

(** ** What a component call uses *)

Definition same_at (x : part) (w w' : W) : Prop :=
  match x with
  | Log => w_log w' = w_log w
  | Tracker => w_tracker w' = w_tracker w
  | Orders => w_orders w' = w_orders w
  | SessionId => w_session_id w' = w_session_id w
  end.
Definition same_but (x : part) (w w' : W) : Prop :=
  match x with
  | Log => w' = set_log (w_log w') w
  | Tracker => w' = set_tracker (w_tracker w') w
  | Orders => w' = set_orders (w_orders w') w
  | SessionId => w' = set_session_id (w_session_id w') w
  end.

(** It leaves part [x] as it is; it does the same whatever is in part [x]. *)
Definition leaves (x : part) {A} (m : W → W * A) : Prop := ∀ w, same_at x w (m w).1.
Definition avoids (x : part) {A} (m : W → W * A) : Prop :=
  leaves x m ∧ ∀ w w', same_but x w w' → same_but x (m w).1 (m w').1 ∧ (m w').2 = (m w).2.

(** ** Threads inside component calls *)

(** The component call that a thread is at; threads are numbered as in [thread_step]. *)
Definition at_call (P : ∀ A, (W → W * res W A) → Prop) (t : nat) (c : C) : Prop :=
  let ask A (p : res W A) := match p with Step m => P A m | Done _ => False end in
  match t with
  | 0%nat => ask unit (mc_engine c)
  | 1%nat => ask (list char) (mc_strategy c)
  | S (S i) => match mc_signals c !! i with Some p => ask unit p | None => False end
  end.
Definition pending : nat → C → Prop := at_call (λ _ _, True).
Definition writes_at (x : part) : nat → C → Prop := at_call (λ A m, ¬ leaves x m).
Definition uses_at (x : part) : nat → C → Prop := at_call (λ A m, ¬ avoids x m).

(** The machine, and the threads that are inside a component call. *)
Definition running : Type := C * list nat.

Inductive run_step : running → running → Prop :=
  | run_enter t c ts :
      alive c = true → pending t c → t ∉ ts → run_step (c, ts) (c, t :: ts)
  | run_leave t c ts :
      alive c = true → t ∈ ts →
      run_step (c, ts) (thread_step t c, base.filter (λ j, j ≠ t) ts)
  | run_call c c' ts : call_step c c' → run_step (c, ts) (c', ts).

Definition race (s : running) : Prop :=
  ∃ x t t', t ∈ s.2 ∧ t' ∈ s.2 ∧ t ≠ t' ∧ writes_at x t s.1 ∧ uses_at x t' s.1.

(** Executions that do not race, and those in which moreover no report is handled about
    the order that is being sent. *)
Definition tame_step (s s' : running) : Prop := run_step s s' ∧ ¬ race s'.
Definition apart_tame_step (s s' : running) : Prop := tame_step s s' ∧ apart s'.1.

(** ** Without races they are the executions of [Threads] *)

Lemma run_step_threads s s' : run_step s s' → s'.1 = s.1 ∨ mc_step s.1 s'.1.
Proof.
  destruct 1 as [t c ts|t c ts|c c' ts Hcall]; [by left| |by right; apply mc_call].
  destruct (thread_step_inner t c) as [Heq|Hs]; [by left|right; by apply mc_inner].
Qed.

Lemma tame_threads s s' : rtc tame_step s s' → rtc mc_step s.1 s'.1.
Proof.
  induction 1 as [|s1 s2 s3 [Hstep _] _ IH]; [done|].
  destruct (run_step_threads s1 s2 Hstep) as [<-|Hs]; [done|by eapply rtc_l].
Qed.

Lemma apart_tame_threads s s' : rtc apart_tame_step s s' → rtc apart_step s.1 s'.1.
Proof.
  induction 1 as [|s1 s2 s3 [[Hstep _] Hap] _ IH]; [done|].
  destruct (run_step_threads s1 s2 Hstep) as [<-|Hs]; [done|by eapply rtc_l].
Qed.

(** A thread that is inside alone does not race. *)
Lemma alone_no_race (c : C) t : ¬ race (c, [t]).
Proof. intros (x & t1 & t2 & ->%list_elem_of_singleton & ->%list_elem_of_singleton & Hne & _). done. Qed.
Lemma nobody_no_race (c : C) : ¬ race (c, []).
Proof. intros (x & t1 & t2 & Ht & _). by apply not_elem_of_nil in Ht. Qed.

Lemma inner_is_thread (c c' : C) :
  inner_step c c' → ∃ t, alive c = true ∧ pending t c ∧ c' = thread_step t c.
Proof.
  destruct 1 as [m c Ha Hm|m c Ha Hm|i m c Ha Hm].
  - exists 0%nat. unfold pending, at_call, thread_step. by rewrite Ha, Hm.
  - exists 1%nat. unfold pending, at_call, thread_step. by rewrite Ha, Hm.
  - exists (S (S i)). unfold pending, at_call, thread_step. by rewrite Ha, Hm.
Qed.

(** Conversely, every execution of [Threads] is one in which a thread leaves its
    component call before another enters one. *)
Lemma threads_tame (c c' : C) : rtc mc_step c c' → rtc tame_step (c, []) (c', []).
Proof.
  induction 1 as [|c1 c2 c3 Hstep _ IH]; [done|]. destruct Hstep as [c1 c2 Hin|c1 c2 Hcall].
  - destruct (inner_is_thread c1 c2 Hin) as (t & Ha & Hp & ->).
    eapply rtc_l; [split; [by apply (run_enter t), not_elem_of_nil|apply alone_no_race]|].
    eapply rtc_l; [|exact IH]. split; [|apply nobody_no_race].
    assert (Hleave := run_leave t c1 [t] Ha ltac:(by apply list_elem_of_singleton)).
    by rewrite filter_cons_False, filter_nil in Hleave by tauto.
  - eapply rtc_l; [split; [by apply run_call|apply nobody_no_race]|exact IH].
Qed.

Lemma threads_apart_tame (c c' : C) :
  apart c → rtc apart_step c c' → rtc apart_tame_step (c, []) (c', []).
Proof.
  intros Hap Hsteps. revert Hap. induction Hsteps as [|c1 c2 c3 [Hstep Hap2] _ IH]; intros Hap; [done|].
  destruct Hstep as [c1 c2 Hin|c1 c2 Hcall].
  - destruct (inner_is_thread c1 c2 Hin) as (t & Ha & Hp & ->).
    eapply rtc_l; [split; [split; [by apply (run_enter t), not_elem_of_nil|apply alone_no_race]|done]|].
    eapply rtc_l; [|by apply IH]. split; [|done]. split; [|apply nobody_no_race].
    assert (Hleave := run_leave t c1 [t] Ha ltac:(by apply list_elem_of_singleton)).
    by rewrite filter_cons_False, filter_nil in Hleave by tauto.
  - eapply rtc_l; [split; [split; [by apply run_call|apply nobody_no_race]|done]|by apply IH].
Qed.
End Races.

(** ** What the bookkeeping calls use *)

Section Footprints.
Context {L E M SID : Type} `{LogOps L} `{FixMessage M} `{FixValues} `{Env E M SID}
  `{Cracker M}.
Notation W := (world L E M SID).
Notation C := (machine L E M SID).

(** Each of them uses its own component only, whatever the caller does next. *)
Lemma log_event_avoids x (e : OrderEvent) : x ≠ Log → avoids x (FIXGateway.log_event e : stO W unit).
Proof.
  intros Hx. split.
  - intros w. unfold FIXGateway.log_event, FIXGateway.append_at, mbind, stO_bind. cbn.
    destruct (log_append _ _ _) as [[? ?]|? | |]; by destruct x.
  - intros w w' Hw. unfold FIXGateway.log_event, FIXGateway.append_at, mbind, stO_bind.
    destruct x; [done|..]; cbn in Hw; rewrite Hw; cbn;
      by destruct (log_append _ _ _) as [[? ?]|? | |].
Qed.

Lemma track_event_avoids x (e : OrderEvent) : x ≠ Tracker → avoids x (FIXGateway.track_event e : stO W unit).
Proof.
  intros Hx. split.
  - intros w. unfold FIXGateway.track_event.
    destruct (PositionTracker.apply_event _ _); by destruct x.
  - intros w w' Hw. unfold FIXGateway.track_event.
    destruct x; try done; cbn in Hw; rewrite Hw; cbn; by destruct (PositionTracker.apply_event _ _).
Qed.

Lemma manage_event_avoids x (e : OrderEvent) : x ≠ Orders → avoids x (FIXGateway.manage_event e : stO W unit).
Proof.
  intros Hx. split.
  - intros w. unfold FIXGateway.manage_event.
    destruct (OrderManager.apply_event _ _); by destruct x.
  - intros w w' Hw. unfold FIXGateway.manage_event.
    destruct x; try done; cbn in Hw; rewrite Hw; cbn; by destruct (OrderManager.apply_event _ _).
Qed.

(** What the caller does next depends on the outcome only. *)
Lemma avoids_then x {A B} (m : stO W A) (f : outcome A → B) :
  avoids x m → avoids x (λ w, ((m w).1, f (m w).2)).
Proof.
  intros [Hl Ha]. split; [exact Hl|]. intros w w' Hw. destruct (Ha w w' Hw) as [Hs Hr].
  split; [exact Hs|]. cbn. by rewrite Hr.
Qed.

(** Calls into different components do not race: the engine's thread in the tracker,
    the strategy's in the log. *)
Lemma tracker_log_no_race (c : C) e e' k k' :
  mc_engine c = Step (λ w, ((FIXGateway.track_event e w).1, k (FIXGateway.track_event e w).2)) →
  mc_strategy c = Step (λ w, ((FIXGateway.log_event e' w).1, k' (FIXGateway.log_event e' w).2)) →
  ¬ race (c, [0; 1]%nat).
Proof.
  intros Hm Hs (x & t & t' & Ht & Ht' & Hne & Hw & Hu). cbn in Ht, Ht'.
  assert (Htr : x ≠ Tracker → avoids x (λ w : W, ((FIXGateway.track_event e w).1, k (FIXGateway.track_event e w).2))).
  { intros Hx. apply (avoids_then x (FIXGateway.track_event e) k), track_event_avoids, Hx. }
  assert (Hlg : x ≠ Log → avoids x (λ w : W, ((FIXGateway.log_event e' w).1, k' (FIXGateway.log_event e' w).2))).
  { intros Hx. apply (avoids_then x (FIXGateway.log_event e') k'), log_event_avoids, Hx. }
  apply list_elem_of_In in Ht, Ht'. destruct Ht as [<-|[<-|[]]], Ht' as [<-|[<-|[]]]; try done;
    unfold writes_at, uses_at, at_call in *; cbn [fst] in Hw, Hu; rewrite Hm, Hs in *.
  - destruct (decide (x = Tracker)) as [->|Hx]; [by apply Hu, Hlg|by apply Hw, Htr].
  - destruct (decide (x = Log)) as [->|Hx]; [by apply Hu, Htr|by apply Hw, Hlg].
Qed.
End Footprints.

(** ** The order entry up to its append *)

Section Entry.
Context {L E M SID : Type} `{LogLaws L} `{FixMessageLaws M} `{FixValues} `{EnvLaws E M SID}
  `{Cracker M}.
Notation W := (world L E M SID).
Notation C := (machine L E M SID).

(** An order that passes the check is numbered, and the strategy is at its append. *)
Lemma strategy_at_append symbol side qty price w :
  w_connected w = true → sv_ok symbol = true → side = Buy ∨ side = Sell →
  in_i32 qty = true → in_i64 price = true →
  check (w_limits w) symbol side qty price (w_tracker w) (w_orders w) = Ok Pass →
  ∃ evt, wf_event evt = true ∧ oe_type evt = NewOrder ∧ order_key evt = order_id_key (w_order_counter w) ∧
    rtc mc_step (at_rest w)
      (strategy_does (set_order_counter (u64 (w_order_counter w + 1)) w,
         send_numbered evt (order_id (w_order_counter w)))
        (strategy_calls (Calls.send_order symbol side qty price)
          (Some (order_id_key (w_order_counter w))) (at_rest w))).
Proof.
  intros Hc Hs Hside Hq Hp Hpass.
  destruct (order_event_ok symbol side qty price (w_order_counter w)) as (evt & Hevt & Hwf & Hty & _ & _ & _ & Hkey & _);
    [done..|].
  exists evt. split; [done|]. split; [done|]. split; [done|].
  set (c1 := strategy_calls (Calls.send_order symbol side qty price)
    (Some (order_id_key (w_order_counter w))) (at_rest w)).
  eapply rtc_l; [by apply mc_call, (call_send symbol side qty price)|]. fold c1.
  etransitivity; [by apply (strategy_passes symbol side qty price c1)|].
  set (c2 := strategy_does (mc_world c1, Calls.send_passed symbol side qty price) c1).
  apply rtc_once. assert (Hin : mc_strategy c2 = Calls.send_passed symbol side qty price) by done.
  pose proof (strategy_step_ok c2 _ Hin (conj eq_refl eq_refl)) as Hstep. cbn beta in Hstep.
  rewrite next_order_id_eq in Hstep. cbn [fst snd] in Hstep.
  change (mc_world c2) with w in Hstep. cbn [local mbind res_bind res_bind_def] in Hstep.
  rewrite Hevt in Hstep. exact Hstep.
Qed.

(** The engine's thread at the append of a report. *)
Lemma fromApp_at_append (msg : M) e :
  is_execution_report msg = true → MessageTranslator.from_execution_report msg = Ok (Some e) →
  Calls.fromApp msg = res_noexcept (res_noexcept (Calls.book e)).
Proof. intros Hm He. unfold Calls.fromApp, Calls.onMessage. by rewrite Hm, He. Qed.

(** An append on a log with room is a write of the log. *)
Lemma append_writes {A} (e : OrderEvent) (k : outcome unit → res W A) w es :
  log_rep (w_log w) es → wf_event e = true → Z.of_nat (length es) < MAX_EVENTS →
  let m : W → W * res W A := λ w, ((FIXGateway.log_event e w).1, k (FIXGateway.log_event e w).2) in
  log_size (w_log (m w).1) = Z.of_nat (length es) + 1 ∧ ¬ leaves Log m.
Proof.
  intros Hl He Hroom m. destruct (log_event_room w es e Hl He Hroom) as (l' & s' & ts & Hlog & Hl' & _).
  assert (Hsize : log_size (w_log (m w).1) = Z.of_nat (length es) + 1).
  { unfold m. rewrite Hlog. cbn [fst w_log set_log]. rewrite (log_size_rep _ _ Hl'), length_app. cbn. lia. }
  split; [exact Hsize|]. intros Hleave. pose proof (Hleave w : w_log (m w).1 = w_log w) as Hsame.
  rewrite Hsame, (log_size_rep _ _ Hl) in Hsize. lia.
Qed.
End Entry.

(** ** Properties *)

(** C2. Event sourcing under overlapping calls that do not race.  The code takes no lock
    and the log asks for a single writer, so two conditions are part of the statement:
    no two threads are ever inside component calls of which one writes what the other
    uses (with such a race it is false, [gateway_calls_race]), and no report is handled
    about the very order that is being entered (the exchange cannot know it yet, but
    identifiers come again after a restart).  In every execution of inbound reports,
    order entries, session callbacks and signal handlers that meets them, at every
    moment, what replaying the log would give (after a crash, say) is the live books
    with the logged events that are still in flight applied to them: at most one report
    not yet in the tracker, at most one report and one new order not yet in the manager;
    when no call is running nothing is in flight, and the live books are the replay. *)
Theorem overlapping_calls_project {L E M SID} `{LogLaws L} `{FixMessageLaws M} `{FixValues}
    `{EnvLaws E M SID} `{Cracker M} (w : world L E M SID) (c : machine L E M SID) ts :
  gw_start w → rtc apart_tame_step (at_rest w, []) (c, ts) →
  ∃ pt pe ps, (length pt ≤ 1)%nat ∧ (length pe ≤ 1)%nat ∧ (length ps ≤ 1)%nat ∧
    outcome_equiv (foldO PositionTracker.apply_event pt (w_tracker (mc_world c)))
      (PositionTracker.replay_from (w_log (mc_world c))) ∧
    outcome_equiv (foldO OrderManager.apply_event (pe ++ ps) (w_orders (mc_world c)))
      (OrderManager.replay_from (w_log (mc_world c))) ∧
    (alive c = true → quiet c = true → pt = [] ∧ pe = [] ∧ ps = []).
Proof.
  intros Hstart Hsteps%apart_tame_threads.
  destruct (apart_flight w c Hstart Hsteps) as (hs & pt & pe & ps & Hfl).
  pose proof Hfl as [(es & Hl & Hes) _ _ _ Ht Ho Hen Hst _ _]. exists pt, pe, ps.
  unfold PositionTracker.replay_from, OrderManager.replay_from.
  rewrite !(log_replay_rep _ es) by done. rewrite <- Ht, <- (Ho I).
  split_and!; [by destruct Hen; cbn; auto|by destruct Hen; cbn; auto|by destruct Hst; cbn; auto
    |apply foldO_proper; [apply _|apply _|done]|apply foldO_proper; [apply _|apply _|done]|].
  by eapply in_flight_quiet.
Qed.

Lemma overlapping_calls_project_witness :
  quiet sample_overlap = true ∧ alive sample_overlap = true ∧
  log_size (w_log (mc_world sample_overlap)) = 2 ∧
  outcome_equiv (Ok (w_orders (mc_world sample_overlap)))
    (OrderManager.replay_from (w_log (mc_world sample_overlap))).
Proof.
  assert (Hq : quiet sample_overlap = true) by (vm_compute; reflexivity).
  assert (Ha : alive sample_overlap = true) by (vm_compute; reflexivity).
  split; [exact Hq|]. split; [exact Ha|]. split; [vm_compute; reflexivity|].
  destruct (overlapping_calls_project sample_session sample_overlap [] sample_session_start
    (threads_apart_tame _ _ (at_rest_apart sample_session) sample_overlap_apart))
    as (pt & pe & ps & _ & _ & _ & _ & Ho & Hnone).
  destruct (Hnone Ha Hq) as (-> & -> & ->). exact Ho.
Defined.

(** A gateway on a new log, connected. *)
Definition fresh_log : EventLog :=
  match (open_or_create sys_ok session_path None).2 with
  | Ok l => l
  | _ => {| el_file := {| lf_size := 0; lf_bytes := ∅ |}; el_next_seq := 0 |}
  end.

Lemma fresh_log_wf : log_wf fresh_log [].
Proof. unfold fresh_log. by destruct (create_wf session_path) as (l & -> & Hwf). Qed.

Definition fresh_world : world EventLog sample_env field_store string :=
  set_connected true (FIXGateway.make fresh_log PositionTracker.init OrderManager.init
    default_limits (sample_system true)).

Lemma fresh_world_start : gw_start fresh_world.
Proof.
  assert (Hl : log_rep (L := EventLog) fresh_log []) by exact fresh_log_wf.
  exists []. split; [exact Hl|]. split; [constructor|].
  unfold PositionTracker.replay_from, OrderManager.replay_from.
  change (w_log fresh_world) with fresh_log. by rewrite !(log_replay_rep fresh_log []).
Qed.

(** C11. The gateway races, and loses an order to it: from any state with a session and room
    in the log, for every order that passes its check and every report, the strategy's
    [send_order] and the engine's [fromApp] come to be inside [EventLog::append] at the
    same time, each about to write the log; the two appends, write by write, can then
    both return the same sequence number, and the file, reopened, holds one event more,
    the report's: the order's event, whose append has returned, is not in it. *)
Theorem gateway_calls_race {E M SID} `{FixMessageLaws M} `{FixValues} `{EnvLaws E M SID}
    `{Cracker M} (w : world EventLog E M SID) es symbol side qty price msg e ts1 ts2 path :
  let n := Z.of_nat (length es) in
  log_wf (w_log w) es → n < MAX_EVENTS → w_connected w = true →
  sv_ok symbol = true → side = Buy ∨ side = Sell → in_i32 qty = true → in_i64 price = true →
  check (w_limits w) symbol side qty price (w_tracker w) (w_orders w) = Ok Pass →
  is_execution_report msg = true → MessageTranslator.from_execution_report msg = Ok (Some e) →
  ∃ c evt s l',
    rtc run_step (at_rest w, []) (c, [0; 1]%nat) ∧ alive c = true ∧ race (c, [0; 1]%nat) ∧
    mc_engine c = res_noexcept (res_noexcept (Calls.book e)) ∧
    mc_strategy c = send_numbered evt (order_id (w_order_counter w)) ∧
    oe_type evt = NewOrder ∧ order_key evt = order_id_key (w_order_counter w) ∧
    run_schedule (overlapped evt e ts1 ts2) (machine_of 2 (w_log (mc_world c))) = Some s ∧
    cs_returned s = [n; n] ∧
    open_or_create sys_ok path (Some (cs_file s)) = (Some (cs_file s), Ok l') ∧
    log_wf l' (es ++ [stamp e n (now_ns ts2)]).
Proof.
  intros n Hl Hroom Hc Hs Hside Hq Hp Hpass Hm He.
  destruct (from_execution_report_wf msg e He) as [Hwfe _].
  destruct (strategy_at_append symbol side qty price w) as (evt & Hwf & Hty & Hkey & Hto); [done..|].
  match type of Hto with rtc _ _ ?x => set (c1 := x) in Hto end.
  set (c2 := engine_calls (Calls.fromApp msg) (reported msg) c1).
  assert (Hen : mc_engine c2 = res_noexcept (res_noexcept (Calls.book e)))
    by (by apply fromApp_at_append).
  assert (Ha : alive c2 = true) by (unfold alive; by rewrite Hen).
  destruct (two_writers_lose_an_event (w_log w) es evt e ts1 ts2) as (s & Hrun & Hret & Hwf'); [done..|].
  exists c2, evt, s. eexists. split; [|split; [exact Ha|split]].
  - etransitivity; [eapply rtc_subrel; [|exact (threads_tame _ _ Hto)]; by intros ? ? []|].
    eapply rtc_l; [apply run_call, (call_message msg c1); reflexivity|]. fold c2.
    eapply rtc_l; [apply (run_enter 1); [exact Ha|done|apply not_elem_of_nil]|].
    apply rtc_once, (run_enter 0); [exact Ha|unfold pending, at_call; by rewrite Hen|].
    intros ?%list_elem_of_singleton. done.
  - assert (Hrep : log_rep (L := EventLog) (w_log (mc_world c2)) es) by exact Hl.
    destruct (append_writes e (λ r, res_noexcept (res_noexcept (_ ← local r; Calls.book_tracked e)))
      (mc_world c2) es) as [_ Hw0]; [done..|].
    destruct (append_writes evt (λ r, _ ← local r; send_logged evt (order_id (w_order_counter w)))
      (mc_world c2) es) as [_ Hw1]; [done..|].
    exists Log, 0%nat, 1%nat. split_and!; [by left|by right; left|done| |by intros [? _]; apply Hw1].
    unfold writes_at, at_call. cbn [fst]. rewrite Hen. exact Hw0.
  - split_and!; try done. exact (reopen_wf path _ _ Hwf').
Qed.

Lemma gateway_calls_race_witness :
  ∃ c s l' e, rtc run_step (at_rest fresh_world, []) (c, [0; 1]%nat) ∧ race (c, [0; 1]%nat) ∧
    cs_returned s = [0; 0] ∧ log_wf l' [e] ∧ oe_type e = FullFill.
Proof.
  set (sym := sv_of_string (lit "AAPL")).
  set (e := match MessageTranslator.from_execution_report other_report with
    Ok (Some e) => e | _ => sample_fill "AAPL" Buy 0 0 end).
  destruct (gateway_calls_race fresh_world [] sym Buy 100 175500000 other_report e
    sample_clock sample_clock "session.bin")
    as (c & evt & s & l' & Hto & _ & Hrace & _ & _ & _ & _ & _ & Hret & _ & Hwf).
  - exact fresh_log_wf.
  - reflexivity.
  - reflexivity.
  - reflexivity.
  - by left.
  - reflexivity.
  - reflexivity.
  - vm_compute. reflexivity.
  - vm_compute. reflexivity.
  - vm_compute. reflexivity.
  - exists c, s, l', (stamp e 0 (now_ns sample_clock)).
    split; [exact Hto|]. split; [exact Hrace|]. split; [exact Hret|]. split; [exact Hwf|].
    vm_compute. reflexivity.
Defined.
