(* ===== verification/Crash.v ===== *)
(** * [Crash]: a crash at any moment of overlapping calls

    The calls of [Races] interleave at the granularity of component calls, the append
    of [Concurrency] at the granularity of single writes.  Here both together, for
    executions without a race: the process stops between two steps of any threads, or
    between two writes of an append that one of them is in. *)

From stdpp Require Import relations.
From S2P Require Import Prelude CString OrderEvent EventLog Concurrency SlotTable PositionTracker.
From S2P Require Import OrderManager Projection RiskChecker Fixed FixMessages MessageTranslator.
From S2P Require Import Environment Killswitch FIXGateway Main Resumption Calls Threads Races.

Local Open Scope Z_scope.

(** A crash in the middle of an append: no append has returned since [l]. *)
Definition crash_of (l : EventLog) (file : LogFile) : Prop :=
  ∃ s, rtc single_writer (machine_of 1 l) s ∧ cs_returned s = [] ∧ cs_file s = file.

Lemma crash_reopens_same path l es file :
  log_wf l es → crash_of l file →
  ∃ l', open_or_create sys_ok path (Some file) = (Some file, Ok l') ∧ el_file l' = file ∧ log_wf l' es.
Proof.
  intros Hwf (s & Hsteps & Hret & <-).
  destruct (crash_reopens path l es s Hwf Hsteps) as (es' & l' & Hopen & Hfile & Hwf' & [k ->] & Hlen).
  rewrite Hret, length_app in Hlen. cbn [length] in Hlen. destruct k; [|cbn in Hlen; lia].
  rewrite app_nil_r in Hwf'. by exists l'.
Qed.

(** C9. A crash at any moment of an execution that does not race: the calls of the
    engine, the strategy and the signal handlers interleave, but no two threads are
    inside component calls of which one writes what the other uses (appends that overlap
    do lose a returned event, [gateway_calls_race]), and no report is handled about the
    order being entered.  At whatever moment, and at whatever write of an append, the
    process then stops, the next start reopens the log with every event whose append had
    returned and rebuilds both books as they were, with the logged events that were
    still in flight applied to them: at most a report and a new order, none between
    calls. *)
Theorem crash_at_any_moment_recovers {E M SID} `{FixMessageLaws M} `{FixValues} `{EnvLaws E M SID}
    `{Cracker M} (w : world EventLog E M SID) (c : machine EventLog E M SID) ts file :
  gw_start w → rtc apart_tame_step (at_rest w, []) (c, ts) → crash_of (w_log (mc_world c)) file →
  ∃ pt pe ps, (length pt ≤ 1)%nat ∧ (length pe ≤ 1)%nat ∧ (length ps ≤ 1)%nat ∧
    (alive c = true → quiet c = true → pt = [] ∧ pe = [] ∧ ps = []) ∧
    ∀ t o (s : system E M SID),
      foldO PositionTracker.apply_event pt (w_tracker (mc_world c)) = Ok t →
      foldO OrderManager.apply_event (pe ++ ps) (w_orders (mc_world c)) = Ok o →
      ∃ w', startup sys_ok (Some file) s = (Some file, Ok w') ∧ gw_start w' ∧
        log_size (w_log w') = log_size (w_log (mc_world c)) ∧
        t ≡ w_tracker w' ∧ o ≡ w_orders w'.
Proof.
  intros Hstart Hsteps%apart_tame_threads Hcrash.
  destruct (apart_flight w c Hstart Hsteps) as (hs & pt & pe & ps & Hfl).
  pose proof Hfl as [(es & Hl & Hes) Hwf _ _ Ht Ho Hen Hst _ _].
  destruct (crash_reopens_same session_path _ es file Hl Hcrash) as (l' & Hopen & Hfile & Hl').
  exists pt, pe, ps.
  split_and!; [by destruct Hen; cbn; auto|by destruct Hen; cbn; auto|by destruct Hst; cbn; auto| |].
  { by eapply in_flight_quiet. }
  intros t o s Htr Hor. rewrite <- Ht in Htr. rewrite <- (Ho I) in Hor.
  destruct (startup_reopens l' es hs t o s Hl' Hes) as (w' & Hrun & Hlog & Het & Heo & Hrt & Hro & _);
    [by split|].
  rewrite Hfile in Hrun. exists w'. split; [done|]. rewrite Hlog.
  assert (Hrep : log_rep (L := EventLog) l' es) by exact Hl'.
  split; [|rewrite !(log_size_rep _ es) by done; done].
  exists es. rewrite Hlog. split_and!; [done| |done|done].
  apply Forall_lookup. intros i e Hi. by apply (lw_seq _ _ Hl' i).
Qed.

(** An order entry that has run to its end on a new log, and a second append torn after
    three bytes. *)
Definition fresh_sending : machine EventLog sample_env field_store string :=
  strategy_calls (Calls.send_order (sv_of_string (lit "AAPL")) Buy 100 175500000)
    (Some (order_id_key 0)) (at_rest fresh_world).
Definition fresh_sent : machine EventLog sample_env field_store string :=
  run_threads (replicate 12 1%nat) fresh_sending.

Definition torn_schedule : list (nat * append_action) :=
  (0%nat, A_start (sample_event FullFill "AAPL" "ORD0" Buy 100 175500000) sample_clock)
    :: ((λ k, (0%nat, A_byte k)) <$> [5; 0; 61]%nat).

Lemma crash_at_any_moment_recovers_witness :
  ∃ file w', rtc apart_tame_step (at_rest fresh_world, []) (fresh_sent, []) ∧
    crash_of (w_log (mc_world fresh_sent)) file ∧
    OrderManager.open_order_count (w_orders (mc_world fresh_sent)) = 1%nat ∧
    startup sys_ok (Some file) (sample_system true) = (Some file, Ok w') ∧
    log_size (w_log w') = 1 ∧ w_orders (mc_world fresh_sent) ≡ w_orders w'.
Proof.
  set (l := w_log (mc_world fresh_sent)).
  assert (Hsteps : rtc apart_tame_step (at_rest fresh_world, []) (fresh_sent, [])).
  { apply threads_apart_tame; [apply at_rest_apart|].
    assert (Hap : apart fresh_sending) by (intros k Hk; discriminate Hk).
    eapply rtc_l; [split; [|exact Hap]|exact (run_threads_apart (replicate 12 1%nat) fresh_sending Hap)].
    apply mc_call, (call_send (sv_of_string (lit "AAPL")) Buy 100 175500000 (at_rest fresh_world));
      [reflexivity|reflexivity|reflexivity|by left|reflexivity|reflexivity]. }
  assert (Hrun : (λ s, bool_decide (cs_returned s = [])) <$> run_schedule torn_schedule (machine_of 1 l)
    = Some true) by (vm_compute; reflexivity).
  apply fmap_Some in Hrun as (s & Hrun & Hret). symmetry in Hret. apply bool_decide_eq_true in Hret.
  assert (Hcrash : crash_of l (cs_file s)).
  { exists s. split; [|split; [exact Hret|reflexivity]].
    apply (run_schedule_single torn_schedule); [repeat constructor|exact Hrun]. }
  destruct (crash_at_any_moment_recovers fresh_world fresh_sent [] (cs_file s) fresh_world_start Hsteps Hcrash)
    as (pt & pe & ps & _ & _ & _ & Hquiet & Hstart).
  destruct Hquiet as (-> & -> & ->); [vm_compute; reflexivity|vm_compute; reflexivity|].
  destruct (Hstart _ _ (sample_system true) eq_refl eq_refl) as (w' & Hup & _ & Hsize & _ & Ho).
  exists (cs_file s), w'. split; [exact Hsteps|]. split; [exact Hcrash|].
  split; [vm_compute; reflexivity|]. split; [exact Hup|]. split; [|exact Ho].
  transitivity (log_size l); [exact Hsize|vm_compute; reflexivity].
Defined.
