(* ===== verification/Lives.v ===== *)
(** * [Lives]: any number of starts, runs and crashes on one file

    A process starts on the file of the one before it, runs its overlapping calls
    ([Races], without a race) and stops at any of their steps and any write of an append
    ([Crash]).  What the logs of all these lives have in common is the file. *)

From stdpp Require Import relations.
From S2P Require Import Prelude CString OrderEvent EventLog Concurrency SlotTable PositionTracker.
From S2P Require Import OrderManager Projection RiskChecker Fixed FixMessages MessageTranslator.
From S2P Require Import Environment Killswitch FIXGateway Main Resumption Calls Threads Forward Races Crash.

Local Open Scope Z_scope.

(** The events that a file holds; there may be no file yet. *)
Definition file_holds (file : option LogFile) (es : list OrderEvent) : Prop :=
  match file with
  | None => es = []
  | Some f => ∃ l, log_wf l es ∧ el_file l = f
  end.

Section Lives.
Context {E M SID : Type} `{FixMessageLaws M} `{FixValues} `{EnvLaws E M SID} `{Cracker M}.
Notation W := (world EventLog E M SID).
Implicit Types (w : W) (s : system E M SID).

(** One life: the start returns, the threads run without a race, the process stops. *)
Definition life (file file' : option LogFile) : Prop :=
  ∃ s f0 w c ts f, startup sys_ok file s = (f0, Ok w) ∧ rtc tame_step (at_rest w, []) (c, ts) ∧
    crash_of (w_log (mc_world c)) f ∧ file' = Some f.

(** A start on a file that holds [es]. *)
Record started_on (es : list OrderEvent) w : Prop := {
  so_start : gw_start w;
  so_log : log_rep (w_log w) es;
  so_tracker : foldO PositionTracker.apply_event es PositionTracker.init = Ok (w_tracker w);
  so_orders : foldO OrderManager.apply_event es OrderManager.init = Ok (w_orders w);
}.

Lemma startup_on file es s f0 w :
  file_holds file es → startup sys_ok file s = (f0, Ok w) → started_on es w.
Proof.
  intros Hfile Hrun. destruct file as [f|]; cbn in Hfile.
  - destruct Hfile as (l & Hwf & <-). unfold startup in Hrun.
    rewrite (reopen_wf session_path l es Hwf) in Hrun. cbn [fst snd mbind outcome_bind] in Hrun.
    assert (Hl : log_rep (L := EventLog) l es) by exact Hwf.
    unfold PositionTracker.replay_from, OrderManager.replay_from in Hrun.
    rewrite !(log_replay_rep l es) in Hrun by done.
    destruct (foldO PositionTracker.apply_event es _) as [t| | |] eqn:Ht; try done.
    destruct (foldO OrderManager.apply_event es _) as [o| | |] eqn:Ho; try done.
    injection Hrun as _ <-. split; [|done..]. exists es.
    unfold PositionTracker.replay_from, OrderManager.replay_from.
    split; [done|]. split; [|by rewrite !(log_replay_rep l es)].
    apply Forall_lookup. intros i e Hi. by apply (lw_seq _ _ Hwf i).
  - subst es. destruct (startup_fresh s) as (w' & Hrun' & Hstart & _ & Ho).
    assert (w' = w) as -> by congruence. pose proof Hstart as (es & Hl & _ & Ht & Hor).
    assert (Hsize : el_size (w_log w) = 0).
    { unfold startup in Hrun. destruct (create_wf session_path) as (l & Hopen & Hwf).
      rewrite Hopen in Hrun. cbn [fst snd mbind outcome_bind] in Hrun.
      destruct (PositionTracker.replay_from l); try done. cbn [mbind outcome_bind] in Hrun.
      destruct (OrderManager.replay_from l); try done. injection Hrun as _ <-. exact (lw_next _ _ Hwf). }
    assert (es = []) as ->.
    { assert (Hwf : log_wf (w_log w) es) by exact Hl. pose proof (lw_next _ _ Hwf) as Hn.
      unfold el_size in Hsize. destruct es; [done|]. cbn [length] in Hn. lia. }
    unfold PositionTracker.replay_from, OrderManager.replay_from in Ht, Hor.
    rewrite (log_replay_rep (w_log w) []) in Ht by done.
    rewrite (log_replay_rep (w_log w) []) in Hor by done. by split.
Qed.

(** A start on a good file fails neither on the file nor with an exception. *)
Lemma startup_no_throw file es s : file_holds file es → (startup sys_ok file s : _ * outcome W).2 ≠ Terminate.
Proof.
  intros Hfile. destruct file as [f|]; cbn in Hfile.
  - destruct Hfile as (l & Hwf & <-). unfold startup.
    rewrite (reopen_wf session_path l es Hwf). cbn [fst snd mbind outcome_bind].
    assert (Hl : log_rep (L := EventLog) l es) by exact Hwf.
    unfold PositionTracker.replay_from, OrderManager.replay_from. rewrite !(log_replay_rep l es) by done.
    pose proof (foldO_no_throw PositionTracker.apply_event es PositionTracker.init tracker_no_throw) as Ht.
    pose proof (foldO_no_throw OrderManager.apply_event es OrderManager.init manager_no_throw) as Ho.
    destruct (foldO PositionTracker.apply_event es _); try done. cbn [mbind outcome_bind].
    by destruct (foldO OrderManager.apply_event es _).
  - destruct (startup_fresh s) as (w & Hrun & _). by rewrite Hrun.
Qed.

(** The log of a running machine only grows. *)
Lemma machine_log_grows (c c' : machine EventLog E M SID) es :
  forwarding c → rtc mc_step c c' → log_rep (w_log (mc_world c)) es →
  ∃ es', log_rep (w_log (mc_world c')) (es ++ es').
Proof.
  intros Hf Hsteps. revert es Hf. induction Hsteps as [c|c1 c2 c3 Hstep _ IH]; intros es Hf Hl.
  { exists []. by rewrite app_nil_r. }
  destruct (mc_step_forward c1 c2 Hstep Hf) as [Hfw Hf2].
  destruct (fw_log _ _ Hfw es Hl) as [k1 Hl2]. destruct (IH _ Hf2 Hl2) as [k2 Hl3].
  exists (k1 ++ k2). by rewrite app_assoc.
Qed.

Lemma life_keeps file file' es :
  file_holds file es → life file file' → ∃ es', file_holds file' (es ++ es').
Proof.
  intros Hfile (s & f0 & w & c & ts & f & Hrun & Hsteps%tame_threads & Hcrash & ->).
  destruct (startup_on file es s f0 w Hfile Hrun) as [_ Hl _ _].
  destruct (machine_log_grows (at_rest w) c es) as [es' Hl']; [|done..|].
  { apply (reachable_forwarding w), rtc_refl. }
  assert (Hwf : log_wf (w_log (mc_world c)) (es ++ es')) by exact Hl'.
  destruct (crash_reopens_same session_path _ _ f Hwf Hcrash) as (l' & _ & Hf & Hwf').
  exists es', l'. done.
Qed.

Lemma lives_keep file file' es :
  file_holds file es → rtc life file file' → ∃ es', file_holds file' (es ++ es').
Proof.
  intros Hfile Hlives. revert es Hfile. induction Hlives as [f|f1 f2 f3 Hlife _ IH]; intros es Hfile.
  { exists []. by rewrite app_nil_r. }
  destruct (life_keeps f1 f2 es Hfile Hlife) as [k1 Hf2]. destruct (IH _ Hf2) as [k2 Hf3].
  exists (k1 ++ k2). by rewrite app_assoc.
Qed.

(** What a symbol's position and an order are, from the events alone. *)
Definition position_from (es : list OrderEvent) (sym : string_view) : outcome (option Position) :=
  if decide (fills_of (key sym) es = []) then Ok None
  else Some <$> run_fills (fills_of (key sym) es) (Position_fresh (pad 8 (key sym))).
Definition order_from (es : list OrderEvent) (oid : string_view) : outcome (option Order) :=
  order_history (events_of (key oid) es) None.

Lemma started_books es w :
  started_on es w →
  (∀ sym, sv_ok sym = true → (size (fill_symbols es) ≤ MAX_SYMBOLS)%nat →
     PositionTracker.get sym (w_tracker w) = position_from es sym) ∧
  (∀ oid, sv_ok oid = true → (size (new_ids es) ≤ MAX_ORDERS)%nat →
     OrderManager.get oid (w_orders w) = order_from es oid).
Proof.
  intros [_ Hl Ht Ho]. assert (Hwf : log_wf (w_log w) es) by exact Hl.
  assert (Hes : Forall (λ e, symbol_ok e ∧ ids_ok e) es).
  { apply Forall_lookup. intros i e Hi. apply wf_event_ids. by apply (lw_seq _ _ Hwf i). }
  split.
  - intros sym Hs Hsize. apply folded_position; [|done..]. eapply Forall_impl; [exact Hes|]. by intros e [].
  - intros oid Hs Hsize. apply folded_order; [|done..]. eapply Forall_impl; [exact Hes|]. by intros e [].
Qed.

Lemma position_from_net es sym p :
  position_from es sym = Ok (Some p) →
  p_net_qty p = sumZ bought (fills_of (key sym) es) - sumZ sold (fills_of (key sym) es).
Proof.
  intros Hp. unfold position_from in Hp. case_decide; [done|]. apply fmap_Ok in Hp as (p' & Hrun & [= <-]).
  apply run_fills_net in Hrun. rewrite sumZ_signed in Hrun. cbn [Position_fresh p_net_qty] in Hrun. lia.
Qed.
End Lives.

(** ** Properties *)

(** C10. Nothing is lost in any number of lives without a race: whatever runs have happened
    on a file, each of them with calls that interleave and stopped at any step of any
    thread or at any write of an append, but in none of them two threads inside
    component calls of which one writes what the other uses (two appends that overlap
    do lose an event, [gateway_calls_race]), the file still holds everything it held
    before, followed by what the later lives recorded; the next start neither refuses
    the file nor ends with an exception; and the books it returns are those of the whole
    history: the position of every symbol is the result of its fills in all lives, its
    net quantity what was bought less what was sold, and every order is the result of
    its events in all lives.  (As many symbols and orders as there are slots.) *)
Theorem history_survives_every_life {E M SID} `{FixMessageLaws M} `{FixValues} `{EnvLaws E M SID}
    `{Cracker M} file file' es (s : system E M SID) :
  file_holds file es → rtc (life (E := E) (M := M) (SID := SID)) file file' →
  ∃ es', file_holds file' (es ++ es') ∧
    (startup sys_ok file' s : _ * outcome (world EventLog E M SID)).2 ≠ Terminate ∧
    ∀ f0 (w : world EventLog E M SID), startup sys_ok file' s = (f0, Ok w) →
      gw_start w ∧ log_rep (w_log w) (es ++ es') ∧
      (∀ sym, sv_ok sym = true → (size (fill_symbols (es ++ es')) ≤ MAX_SYMBOLS)%nat →
         PositionTracker.get sym (w_tracker w) = position_from (es ++ es') sym ∧
         ∀ p, PositionTracker.get sym (w_tracker w) = Ok (Some p) →
           p_net_qty p = sumZ bought (fills_of (key sym) (es ++ es'))
                         - sumZ sold (fills_of (key sym) (es ++ es'))) ∧
      (∀ oid, sv_ok oid = true → (size (new_ids (es ++ es')) ≤ MAX_ORDERS)%nat →
         OrderManager.get oid (w_orders w) = order_from (es ++ es') oid).
Proof.
  intros Hfile Hlives. destruct (lives_keep file file' es Hfile Hlives) as [es' Hfile'].
  exists es'. split; [done|]. split; [by eapply startup_no_throw|]. intros f0 w Hrun.
  pose proof (startup_on file' _ s f0 w Hfile' Hrun) as Hon.
  destruct (started_books _ w Hon) as [Hpos Hord]. destruct Hon as [Hstart Hl _ _].
  split; [done|]. split; [done|]. split; [|done].
  intros sym Hs Hsize. specialize (Hpos sym Hs Hsize). split; [done|].
  intros p Hp. rewrite Hpos in Hp. by apply position_from_net.
Qed.

(** Two lives: an order is sent in the first, which ends inside the append of an event
    that is never recorded; the second does nothing. *)
Notation live_world := (world EventLog sample_env field_store string).

Definition started (file : option LogFile) : live_world :=
  match (startup sys_ok file (sample_system true)).2 with Ok w => w | _ => fresh_world end.
Definition is_started (file : option LogFile) : bool :=
  match (startup sys_ok file (sample_system true) : _ * outcome live_world).2 with Ok _ => true | _ => false end.

Lemma started_eq file : is_started file = true →
  ∃ f0, startup sys_ok file (sample_system true) = (f0, Ok (started file)).
Proof.
  unfold is_started, started. destruct (startup sys_ok file (sample_system true)) as [f0 [w|x| |]]; try done.
  intros _. by exists f0.
Qed.

Definition life_logged_on : machine EventLog sample_env field_store string :=
  run_threads [0%nat] (engine_calls (atom (FIXGateway.onLogon "S")) None (at_rest (started None))).
Definition life_sent : machine EventLog sample_env field_store string :=
  run_threads (replicate 12 1%nat)
    (strategy_calls (Calls.send_order (sv_of_string (lit "AAPL")) Buy 100 175500000)
       (Some (order_id_key 0)) life_logged_on).
Definition torn_file : option LogFile :=
  cs_file <$> run_schedule torn_schedule (machine_of 1 (w_log (mc_world life_sent))).

Lemma life_sent_steps : rtc mc_step (at_rest (started None)) life_sent.
Proof.
  eapply rtc_l; [apply mc_call, (call_callback (atom (FIXGateway.onLogon "S")) (at_rest (started None)));
    [reflexivity|reflexivity|constructor]|].
  transitivity life_logged_on; [exact (run_threads_steps [0%nat] _)|].
  assert (Ha : alive life_logged_on = true) by (vm_compute; reflexivity).
  assert (Hs : ended (mc_strategy life_logged_on) = true) by (vm_compute; reflexivity).
  assert (Hk : order_id_key (w_order_counter (mc_world life_logged_on)) = order_id_key 0)
    by (vm_compute; reflexivity).
  unfold life_sent. rewrite <- Hk.
  eapply rtc_l; [|exact (run_threads_steps (replicate 12 1%nat) _)].
  apply mc_call, call_send; [exact Ha|exact Hs|reflexivity|by left|reflexivity|reflexivity].
Qed.

Lemma first_life : life (E := sample_env) (M := field_store) (SID := string) None torn_file.
Proof.
  destruct (started_eq None) as [f0 Hrun]; [vm_compute; reflexivity|].
  assert (Hret : (λ s, bool_decide (cs_returned s = [])) <$>
    run_schedule torn_schedule (machine_of 1 (w_log (mc_world life_sent))) = Some true)
    by (vm_compute; reflexivity).
  apply fmap_Some in Hret as (s & Hs & Hret). symmetry in Hret. apply bool_decide_eq_true in Hret.
  exists (sample_system true), f0, (started None), life_sent, [], (cs_file s).
  split; [exact Hrun|]. split; [exact (threads_tame _ _ life_sent_steps)|]. split.
  - exists s. split; [|split; [exact Hret|reflexivity]].
    apply (run_schedule_single torn_schedule); [repeat constructor|exact Hs].
  - unfold torn_file. rewrite Hs. reflexivity.
Qed.

Lemma second_life :
  life (E := sample_env) (M := field_store) (SID := string) torn_file
    (Some (el_file (w_log (started torn_file)))).
Proof.
  destruct (started_eq torn_file) as [f0 Hrun]; [vm_compute; reflexivity|].
  exists (sample_system true), f0, (started torn_file), (at_rest (started torn_file)), [],
    (el_file (w_log (started torn_file))).
  split; [exact Hrun|]. split; [apply rtc_refl|]. split; [|reflexivity].
  eexists. split; [apply rtc_refl|]. split; reflexivity.
Qed.

Lemma history_survives_every_life_witness :
  let file := Some (el_file (w_log (started torn_file))) in
  rtc (life (E := sample_env) (M := field_store) (SID := string)) None file ∧
  ∃ es', file_holds file es' ∧ log_rep (w_log (started file)) es' ∧ length es' = 1%nat.
Proof.
  intros file.
  assert (Hlives : rtc (life (E := sample_env) (M := field_store) (SID := string)) None file).
  { eapply rtc_l; [exact first_life|]. eapply rtc_l; [exact second_life|apply rtc_refl]. }
  split; [exact Hlives|].
  destruct (history_survives_every_life None file [] (sample_system true) eq_refl Hlives)
    as (es' & Hfile & _ & Hstart).
  destruct (started_eq file) as [f0 Hrun]; [vm_compute; reflexivity|].
  destruct (Hstart f0 (started file) Hrun) as (_ & Hl & _).
  exists es'. split; [exact Hfile|]. split; [exact Hl|].
  assert (Hsize : log_size (w_log (started file)) = 1) by (vm_compute; reflexivity).
  rewrite (log_size_rep _ _ Hl) in Hsize. cbn [app] in Hsize. apply Nat2Z.inj. exact Hsize.
Defined.
