(* ===== verification/Conformance.v ===== *)
(** * [Conformance]: the program's own tests, on the model (src/tests)

    Every test case of src/tests is translated to a computation on the definitions of this
    library and evaluated: the model gives the results the authors expect of the code.
    The fixtures of tests/fixtures/sample_msgs.h are the reports with the fields that the
    translator reads; the file system is one optional file per test. *)

From Stdlib Require Import Floats.SpecFloat.
From S2P Require Import Prelude CString OrderEvent EventLog SlotTable PositionTracker OrderManager.
From S2P Require Import RiskChecker Fixed FixMessages MessageTranslator Environment.
From S2P Require Import Killswitch FIXGateway Layout.

Local Open Scope Z_scope.

(** ** Test cases *)

Definition test : Type := outcome unit.

Definition failed {A} : outcome A := Throw (runtime_error "expectation failed").
Definition expect (b : bool) : test := if b then Ok tt else failed.
(** [ASSERT_NE(p, nullptr)], and the object behind a pointer that is followed. *)
Definition not_null {A} (p : option A) : outcome A :=
  match p with Some a => Ok a | None => UB end.
(** [ASSERT_STREQ] of a member array. *)
Definition str_eq (a : list char) (s : string) : test :=
  str ← c_str a; expect (bool_decide (str = lit s)).
Definition view_eq (v : string_view) (s : string) : test := expect (bool_decide (sv_chars v = lit s)).

Definition sv (s : string) : string_view := sv_of_string (lit s).

(** A literal in dollars, written in cents: the double nearest to the quotient. *)
Definition usd (cents : Z) : spec_float := double_div (of_int cents) (of_int 100).
(** The tests' [fp]: [static_cast<int64_t>(p * PRICE_SCALE)]. *)
Definition fp (cents : Z) : outcome Z := to_fixed (usd cents).

Definition order (sym : string) (side : Side) (qty cents : Z) (oid : string) : outcome OrderEvent :=
  p ← fp cents; make_new_order (sv sym) side qty p (sv oid).
Definition fill (sym : string) (side : Side) (qty cents : Z) (oid : string) : outcome OrderEvent :=
  p ← fp cents; make_fill (sv sym) side qty p (sv oid) false.
Definition partial (sym : string) (side : Side) (qty cents : Z) (oid : string) : outcome OrderEvent :=
  p ← fp cents; make_fill (sv sym) side qty p (sv oid) true.
(** An [OrderEvent{}] of type [Cancel] with an identifier. *)
Definition cancel (oid : string) : outcome OrderEvent :=
  order_id ← strncpy (sv_data (sv oid)) 8;
  Ok {|
    oe_sequence := 0; oe_timestamp_ns := 0; oe_price := 0; oe_fill_price := 0;
    oe_qty := 0; oe_fill_qty := 0; oe_symbol := oe_symbol OrderEvent_zero;
    oe_order_id := order_id; oe_type := Cancel; oe_side := oe_side OrderEvent_zero;
    oe_pad := oe_pad OrderEvent_zero;
  |}.

(** A component after the events of a test. *)
Fixpoint feed {S} (apply : OrderEvent → S → outcome S) (es : list (outcome OrderEvent)) (s : S) :
    outcome S :=
  match es with
  | [] => Ok s
  | e :: es => e ← e; s ← apply e s; feed apply es s
  end.
Definition tracked := feed PositionTracker.apply_event.
Definition managed := feed OrderManager.apply_event.
Definition tracker_after es : outcome PositionTracker.t := tracked es PositionTracker.init.
Definition orders_after es : outcome OrderManager.t := managed es OrderManager.init.

Definition position (sym : string) (t : PositionTracker.t) : outcome Position :=
  p ← PositionTracker.get (sv sym) t; not_null p.
Definition order_of (oid : string) (t : OrderManager.t) : outcome Order :=
  o ← OrderManager.get (sv oid) t; not_null o.

(** ** test_OrderEvent.cpp *)

Definition size_is (n : nat) (image : list char) : test := expect (bool_decide (length image = n)).

Definition OrderEvent_structSize : test := size_is 64 (encode_event OrderEvent_zero).
Definition OrderEvent_makeFill : test :=
  e ← fill "AAPL" Buy 100 17500 "O1"; p ← fp 17500;
  _ ← expect (bool_decide (oe_type e = FullFill)); _ ← str_eq (oe_symbol e) "AAPL";
  _ ← expect (bool_decide (oe_side e = Buy)); _ ← expect (oe_fill_qty e =? 100);
  _ ← expect (oe_fill_price e =? p); _ ← str_eq (oe_order_id e) "O1";
  v ← symbol_view e; str_eq (sv_data v) "AAPL".
Definition OrderEvent_makeNewOrder : test :=
  e ← order "AAPL" Buy 100 13500 "O1"; p ← fp 13500;
  _ ← expect (bool_decide (oe_type e = NewOrder)); _ ← str_eq (oe_symbol e) "AAPL";
  _ ← expect (bool_decide (oe_side e = Buy)); _ ← expect (oe_qty e =? 100);
  _ ← expect (oe_price e =? p); str_eq (oe_order_id e) "O1".

Definition test_OrderEvent : list test :=
  [OrderEvent_structSize; OrderEvent_makeFill; OrderEvent_makeNewOrder].

(** ** test_EventLog.cpp: the file is the log's bytes when its scope ends *)

Definition open_log (fs : option LogFile) : outcome EventLog :=
  (open_or_create sys_ok "/tmp/hft_test.bin" fs).2.
Fixpoint append_events (es : list (outcome OrderEvent)) (l : EventLog) : outcome (list Z * EventLog) :=
  match es with
  | [] => Ok ([], l)
  | e :: es =>
      e ← e; r ← append e sample_clock l; rest ← append_events es r.2;
      Ok (r.1 :: rest.1, rest.2)
  end.
Definition written (es : list (outcome OrderEvent)) : outcome LogFile :=
  l ← open_log None; r ← append_events es l; Ok (el_file r.2).

Definition EventLog_structSize : test := expect (HEADER_SIZE =? 64).
Definition EventLog_basic : test :=
  l ← open_log None; _ ← expect (el_size l =? 0);
  r ← append_events [fill "AAPL" Buy 100 17500 "O1"; fill "AAPL" Sell 50 17600 "O2";
                     fill "TSLA" Buy 20 25000 "O3"] l;
  _ ← expect (bool_decide (r.1 = [0; 1; 2])); _ ← expect (el_size r.2 =? 3);
  e ← read 0 r.2; e ← not_null e; _ ← str_eq (oe_symbol e) "AAPL";
  _ ← expect (bool_decide (oe_side e = Buy)); _ ← expect (oe_fill_qty e =? 100);
  log2 ← open_log (Some (el_file r.2)); _ ← expect (el_size log2 =? 3);
  n ← replay (λ _ n, Ok (n + 1)) log2 0; expect (n =? 3).
Definition EventLog_replayPositionTracker : test :=
  f ← written [fill "AAPL" Buy 100 17500 "O1"; fill "AAPL" Sell 40 17600 "O2"];
  log2 ← open_log (Some f); t ← PositionTracker.replay_from log2; p ← position "AAPL" t;
  a ← fp 17600; b ← fp 17500;
  _ ← expect (p_net_qty p =? 60); expect (p_realized_pnl p =? 40 * (a - b)).
Definition EventLog_replayOrderManager : test :=
  f ← written [order "TSLA" Sell 50 25000 "O1"; fill "TSLA" Sell 50 25010 "O1"];
  log2 ← open_log (Some f); om ← OrderManager.replay_from log2; o ← order_of "O1" om;
  _ ← expect (bool_decide (o_state o = Filled)); expect (o_filled_qty o =? 50).

Definition test_EventLog : list test :=
  [EventLog_structSize; EventLog_basic; EventLog_replayPositionTracker; EventLog_replayOrderManager].

(** ** test_PositionTracker.cpp *)

Definition PositionTracker_structSize : test :=
  size_is 64 (encode_position (Position_fresh (pad 8 (lit "AAPL")))).
Definition PositionTracker_simpleLong : test :=
  t ← tracker_after [fill "AAPL" Buy 100 17550 "O1"]; p ← position "AAPL" t; a ← fp 17550;
  _ ← expect (p_net_qty p =? 100); _ ← expect (p_avg_entry_price p =? a);
  expect (p_realized_pnl p =? 0).
Definition PositionTracker_partialClose : test :=
  t ← tracker_after [fill "AAPL" Buy 100 17550 "O1"; fill "AAPL" Sell 50 17600 "O2"];
  p ← position "AAPL" t; a ← fp 17600; b ← fp 17550;
  _ ← expect (p_net_qty p =? 50); expect (p_realized_pnl p =? 50 * (a - b)).
Definition PositionTracker_fullRoundTrip : test :=
  t ← tracker_after [fill "AAPL" Buy 100 17550 "O1"; fill "AAPL" Sell 100 17600 "O2"];
  p ← position "AAPL" t; a ← fp 17600; b ← fp 17550;
  _ ← expect (p_net_qty p =? 0); expect (p_realized_pnl p =? 100 * (a - b)).
Definition PositionTracker_multipleSymbols : test :=
  t ← tracker_after [fill "AAPL" Buy 100 17550 "O1"; fill "TSLA" Buy 20 25000 "O2";
                     fill "MSFT" Sell 30 33000 "O3"];
  p1 ← position "AAPL" t; p2 ← position "TSLA" t; p3 ← position "MSFT" t;
  _ ← expect (bool_decide (PositionTracker.symbol_count t = 3%nat));
  _ ← expect (p_net_qty p1 =? 100); _ ← expect (p_net_qty p2 =? 20); expect (p_net_qty p3 =? -30).
Definition PositionTracker_shortPosition : test :=
  t ← tracker_after [fill "SPY" Sell 100 20000 "O1"]; p ← position "SPY" t;
  _ ← expect (p_net_qty p =? -100);
  t ← tracked [fill "SPY" Buy 100 19800 "O2"] t; p ← position "SPY" t; a ← fp 20000; b ← fp 19800;
  _ ← expect (is_flat p); expect (p_realized_pnl p =? 100 * (a - b)).
(** From test_main.cpp, whose other cases are those of the other files. *)
Definition main_mark_to_market : test :=
  t ← tracker_after [fill "TSLA" Buy 50 25000 "O1"]; a ← fp 25500; b ← fp 25000;
  t ← PositionTracker.mark_to_market (sv "TSLA") a t; p ← position "TSLA" t;
  expect (p_unrealized_pnl p =? 50 * (a - b)).
Definition main_full_round_trip : test :=
  t ← tracker_after [fill "AAPL" Buy 100 17500 "O1"; fill "AAPL" Sell 100 17700 "O2"];
  p ← position "AAPL" t; a ← fp 17700; b ← fp 17500;
  _ ← expect (is_flat p); expect (p_realized_pnl p =? 100 * (a - b)).

Definition test_PositionTracker : list test :=
  [PositionTracker_structSize; PositionTracker_simpleLong; PositionTracker_partialClose; PositionTracker_fullRoundTrip;
   PositionTracker_multipleSymbols; PositionTracker_shortPosition; main_mark_to_market;
   main_full_round_trip].

(** ** test_OrderManager.cpp *)

Definition state_is (s : OrderState) (filled remaining : Z) (o : Order) : test :=
  rest ← remaining_qty o; _ ← expect (bool_decide (o_state o = s));
  _ ← expect (o_filled_qty o =? filled); expect (rest =? remaining).

Definition OrderManager_newOrder : test :=
  om ← orders_after [order "AAPL" Buy 100 17500 "O1"]; o ← order_of "O1" om;
  _ ← state_is Pending 0 100 o; _ ← expect (o_original_qty o =? 100);
  v ← Order_symbol_view o; _ ← view_eq v "AAPL"; expect (bool_decide (o_side o = Buy)).
Definition OrderManager_orderPartialFill : test :=
  om ← orders_after [order "AAPL" Buy 100 17500 "O1"; partial "AAPL" Buy 60 17498 "O1"];
  o ← order_of "O1" om; _ ← state_is PartiallyFilled 60 40 o; expect (is_open o).
Definition OrderManager_orderFullFill : test :=
  om ← orders_after [order "AAPL" Buy 100 17500 "O1"; partial "AAPL" Buy 60 17498 "O1";
                     fill "AAPL" Buy 40 17500 "O1"];
  o ← order_of "O1" om; _ ← state_is Filled 100 0 o; expect (is_terminal o).
Definition OrderManager_orderAvgFillPrice : test :=
  om ← orders_after [order "AAPL" Buy 100 17500 "O1"; partial "AAPL" Buy 60 17400 "O1";
                     fill "AAPL" Buy 40 17650 "O1"];
  o ← order_of "O1" om; a ← fp 17400; b ← fp 17650;
  expect (o_avg_fill_price o =? Z.quot (a * 60 + b * 40) 100).
Definition OrderManager_cancelOrder : test :=
  om ← orders_after [order "AAPL" Buy 100 17500 "O1"; partial "AAPL" Buy 30 17500 "O1"; cancel "O1"];
  o ← order_of "O1" om; _ ← state_is Cancelled 30 70 o; expect (is_terminal o).
Definition OrderManager_openExposure : test :=
  om ← orders_after [order "AAPL" Buy 100 17500 "O1"; order "AAPL" Buy 50 17450 "O2";
                     order "AAPL" Sell 30 17600 "O3"];
  e ← OrderManager.open_exposure (sv "AAPL") om; _ ← expect (e =? 120);
  om ← managed [fill "AAPL" Buy 100 17500 "O1"] om;
  e ← OrderManager.open_exposure (sv "AAPL") om; expect (e =? 20).

Definition test_OrderManager : list test :=
  [OrderManager_newOrder; OrderManager_orderPartialFill; OrderManager_orderFullFill;
   OrderManager_orderAvgFillPrice; OrderManager_cancelOrder; OrderManager_openExposure].

(** ** test_RiskChecker.cpp *)

Definition risk : RiskChecker.t := RiskChecker.make default_limits.

Definition verdict (sym : string) (side : Side) (qty cents : Z) (t : PositionTracker.t)
    (r : RiskResult) : test :=
  p ← fp cents; v ← check_tracker (RiskChecker.limits risk) (sv sym) side qty p t;
  expect (bool_decide (v = r)).
Definition full_verdict (sym : string) (side : Side) (qty cents : Z) (t : PositionTracker.t)
    (om : OrderManager.t) (r : RiskResult) : test :=
  p ← fp cents; v ← check (RiskChecker.limits risk) (sv sym) side qty p t om;
  expect (bool_decide (v = r)).

Definition RiskChecker_basicChecks : test :=
  _ ← verdict "AAPL" Buy 100 17500 PositionTracker.init Pass;
  _ ← verdict "AAPL" Buy 50000 17500 PositionTracker.init FailMaxQty;
  t ← tracker_after (replicate 5 (fill "AAPL" Buy 10000 17500 "Ox")); p ← position "AAPL" t;
  _ ← expect (p_net_qty p =? 50000);
  _ ← verdict "AAPL" Buy 1 17500 t FailPositionLimit; verdict "AAPL" Sell 5000 17600 t Pass.
Definition RiskChecker_blindSpot : test :=
  t ← tracker_after [fill "AAPL" Buy 40000 17500 "F1"];
  om ← orders_after [order "AAPL" Buy 15000 17500 "O1"];
  _ ← verdict "AAPL" Buy 5000 17500 t Pass; full_verdict "AAPL" Buy 5000 17500 t om FailPositionLimit.
Definition RiskChecker_pendingSellCross : test :=
  t ← tracker_after [fill "TSLA" Buy 1000 25000 "F1"];
  om ← orders_after [order "TSLA" Sell 500 25100 "O1"];
  _ ← verdict "TSLA" Sell 600 25100 t Pass;
  _ ← full_verdict "TSLA" Sell 600 25100 t om FailPositionCross;
  full_verdict "TSLA" Sell 400 25100 t om Pass.
Definition RiskChecker_openOrdersReduceOnFill : test :=
  t ← tracker_after [fill "MSFT" Buy 30000 33000 "F1"];
  om ← orders_after [order "MSFT" Buy 18000 33000 "O1"];
  _ ← full_verdict "MSFT" Buy 3000 33000 t om FailPositionLimit;
  t ← tracked [fill "MSFT" Buy 18000 33000 "O1"] t; om ← managed [fill "MSFT" Buy 18000 33000 "O1"] om;
  _ ← full_verdict "MSFT" Buy 3000 33000 t om FailPositionLimit;
  full_verdict "MSFT" Buy 2000 33000 t om Pass.
Definition RiskChecker_cancelledOrderReleasesExposure : test :=
  t ← tracker_after [fill "SPY" Buy 45000 45000 "F1"];
  om ← orders_after [order "SPY" Buy 4000 45000 "O1"];
  _ ← full_verdict "SPY" Buy 2000 45000 t om FailPositionLimit;
  om ← managed [cancel "O1"] om; full_verdict "SPY" Buy 2000 45000 t om Pass.

Definition test_RiskChecker : list test :=
  [RiskChecker_basicChecks; RiskChecker_blindSpot; RiskChecker_pendingSellCross;
   RiskChecker_openOrdersReduceOnFill; RiskChecker_cancelledOrderReleasesExposure].

(** ** test_MessageTranslator.cpp *)

Import MessageTranslator.

Notation report := field_store.

Definition make_ack (oid sym : string) : report := sample_report ExecType_NEW Side_BUY sym oid None.
Definition make_partial_fill (oid sym : string) (side : char) (qty cents : Z) : report :=
  sample_report ExecType_PARTIAL_FILL side sym oid (Some (of_int qty, usd cents)).
Definition make_full_fill (oid sym : string) (side : char) (qty cents : Z) : report :=
  sample_report ExecType_FILL side sym oid (Some (of_int qty, usd cents)).
Definition make_sell_fill (oid sym : string) (qty cents : Z) : report :=
  make_full_fill oid sym Side_SELL qty cents.
Definition make_cancel (oid sym : string) : report := sample_report ExecType_CANCELED Side_BUY sym oid None.
Definition make_reject (oid sym : string) : report := sample_report ExecType_REJECTED Side_BUY sym oid None.

(** A test of the event that a report is translated to. *)
Definition translated (r : report) (check : OrderEvent → test) : test :=
  e ← from_execution_report r; e ← not_null e; check e.
Definition type_is (ty : EventType) (e : OrderEvent) : test := expect (bool_decide (oe_type e = ty)).
Definition fill_is (qty cents : Z) (e : OrderEvent) : test :=
  p ← fp cents; _ ← expect (oe_fill_qty e =? qty); expect (oe_fill_price e =? p).

Definition FixedPoint_RoundTrip : test :=
  p ← fp 17550; _ ← expect (p =? 175500000); expect (SFeqb (from_fixed p) (usd 17550)).
Definition FixedPoint_ZeroPrice : test :=
  p ← fp 0; _ ← expect (p =? 0); expect (SFeqb (from_fixed 0) (usd 0)).
Definition FixedPoint_LargePrice : test := p ← fp 5000000; expect (p =? 50000000000).
Definition FromReport_AckReturnsNullopt : test :=
  e ← from_execution_report (make_ack "ORD001" "AAPL"); expect (bool_decide (e = None)).
Definition FromReport_PartialFillType : test :=
  translated (make_partial_fill "ORD001" "AAPL" Side_BUY 60 17550) (type_is PartialFill).
Definition FromReport_PartialFillSymbol : test :=
  translated (make_partial_fill "ORD001" "TSLA" Side_BUY 60 25000)
    (λ e, v ← symbol_view e; view_eq v "TSLA").
Definition FromReport_PartialFillSideBuy : test :=
  translated (make_partial_fill "ORD001" "AAPL" Side_BUY 60 17550)
    (λ e, expect (bool_decide (oe_side e = Buy))).
Definition FromReport_PartialFillSideSell : test :=
  translated (make_partial_fill "ORD002" "AAPL" Side_SELL 40 17600)
    (λ e, expect (bool_decide (oe_side e = Sell))).
Definition FromReport_PartialFillQtyAndPrice : test :=
  translated (make_partial_fill "ORD001" "AAPL" Side_BUY 60 17550) (fill_is 60 17550).
Definition FromReport_PartialFillOrderId : test :=
  translated (make_partial_fill "ORD999" "AAPL" Side_BUY 60 17550)
    (λ e, v ← order_id_view e; view_eq v "ORD999").
Definition FromReport_FullFillType : test :=
  translated (make_full_fill "ORD001" "AAPL" Side_BUY 100 17550) (type_is FullFill).
Definition FromReport_FullFillQtyAndPrice : test :=
  translated (make_full_fill "ORD001" "AAPL" Side_BUY 100 17550) (fill_is 100 17550).
Definition FromReport_CancelType : test := translated (make_cancel "ORD001" "AAPL") (type_is Cancel).
Definition FromReport_CancelHasNoFillData : test :=
  translated (make_cancel "ORD001" "AAPL") (fill_is 0 0).
Definition FromReport_RejectType : test := translated (make_reject "ORD001" "AAPL") (type_is Reject).

Definition ordered (sym : string) (side : Side) (qty cents : Z) (oid : string) : outcome report :=
  e ← order sym side qty cents oid; to_new_order_single 0 e.
Definition ToOrder_SymbolAndSideAndQty : test :=
  m ← ordered "AAPL" Buy 100 17500 "O1"; s ← fix_get F_Symbol m; sd ← fix_get F_Side m;
  q ← fix_get F_OrderQty m; _ ← expect (bool_decide (s = lit "AAPL"));
  _ ← expect (bool_decide (sd = Side_BUY)); expect (SFeqb q (of_int 100)).
Definition ToOrder_Price : test :=
  m ← ordered "AAPL" Buy 100 17550 "O1"; p ← fix_get F_Price m; expect (SFeqb p (usd 17550)).
Definition ToOrder_SellSide : test :=
  m ← ordered "AAPL" Sell 50 17600 "O2"; sd ← fix_get F_Side m; expect (bool_decide (sd = Side_SELL)).

Definition test_MessageTranslator : list test :=
  [FixedPoint_RoundTrip; FixedPoint_ZeroPrice; FixedPoint_LargePrice; FromReport_AckReturnsNullopt;
   FromReport_PartialFillType; FromReport_PartialFillSymbol; FromReport_PartialFillSideBuy;
   FromReport_PartialFillSideSell; FromReport_PartialFillQtyAndPrice;
   FromReport_PartialFillOrderId; FromReport_FullFillType; FromReport_FullFillQtyAndPrice;
   FromReport_CancelType; FromReport_CancelHasNoFillData; FromReport_RejectType;
   ToOrder_SymbolAndSideAndQty; ToOrder_Price; ToOrder_SellSide].

(** ** test_Killswitch.cpp: no session is registered with the engine *)

Notation link := (system sample_env field_store string).

Definition ks : Killswitch.t string := Killswitch.make "FIX.4.2:CLIENT->SERVER".
Definition no_throw_of {A} (m : stO link A) : outcome A := (m (sample_system false)).2.
Definition cancel_all (t : OrderManager.t) : test :=
  no_throw_of (Killswitch.cancel_all (M := field_store) ks default_cancel_prefix t).
Definition flatten (t : PositionTracker.t) : test :=
  no_throw_of (Killswitch.flatten (M := field_store) ks default_flatten_prefix t).

Definition Arm_InitiallyDisarmed : test := expect (negb (Killswitch.is_armed ks)).
Definition Arm_ArmSetsFlag : test := expect (Killswitch.is_armed (Killswitch.arm ks)).
Definition CancelAll_DoesNotCrashWithNoOpenOrders : test := cancel_all OrderManager.init.
Definition CancelAll_OnlyTargetsOpenOrders : test :=
  om ← orders_after [order "AAPL" Buy 100 17500 "O1"; order "TSLA" Buy 20 25000 "O2";
                     fill "TSLA" Buy 20 25000 "O2"];
  _ ← expect (bool_decide (OrderManager.open_order_count om = 1%nat)); cancel_all om.
Definition CancelAll_MultipleOpenOrders : test :=
  om ← orders_after (order "AAPL" Buy 100 17500 <$> ["O0"; "O1"; "O2"; "O3"; "O4"]%string);
  _ ← expect (bool_decide (OrderManager.open_order_count om = 5%nat)); cancel_all om.
Definition Flatten_DoesNotCrashWithFlatBook : test := flatten PositionTracker.init.
Definition Flatten_DoesNotCrashWithOpenPositions : test :=
  t ← tracker_after [fill "AAPL" Buy 100 17500 "O1"; fill "TSLA" Sell 20 25000 "O2"];
  p1 ← position "AAPL" t; p2 ← position "TSLA" t;
  _ ← expect (p_net_qty p1 =? 100); _ ← expect (p_net_qty p2 =? -20); flatten t.
Definition Execute_ReturnsElapsedTime : test :=
  om ← orders_after [order "AAPL" Buy 100 17500 "O1"];
  elapsed ← no_throw_of (Killswitch.execute (M := field_store) ks default_cancel_prefix 5000 om);
  _ ← expect (0 <=? elapsed); expect (elapsed <? 5000).
Definition Execute_DoesNotCrashOnEmptyBook : test :=
  _ ← no_throw_of (Killswitch.execute (M := field_store) ks default_cancel_prefix default_budget_ms
                     OrderManager.init);
  Ok tt.

Definition test_Killswitch : list test :=
  [Arm_InitiallyDisarmed; Arm_ArmSetsFlag; CancelAll_DoesNotCrashWithNoOpenOrders;
   CancelAll_OnlyTargetsOpenOrders; CancelAll_MultipleOpenOrders; Flatten_DoesNotCrashWithFlatBook;
   Flatten_DoesNotCrashWithOpenPositions; Execute_ReturnsElapsedTime;
   Execute_DoesNotCrashOnEmptyBook].

(** ** test_FIXGateway.cpp: a gateway on a new file *)

Notation W := (world EventLog sample_env field_store string).

(** [SetUp]; the events that a case applies to the order manager itself; the reports it
    delivers. *)
Definition SetUp : outcome W :=
  l ← open_log None;
  Ok (FIXGateway.make l PositionTracker.init OrderManager.init (RiskChecker.limits risk)
        (sample_system false)).
Definition register (es : list (outcome OrderEvent)) (w : W) : outcome W :=
  om ← managed es (w_orders w); Ok (set_orders om w).
Fixpoint delivered (rs : list report) (w : W) : outcome W :=
  match rs with
  | [] => Ok w
  | r :: rs => let run := FIXGateway.onMessage r w in _ ← run.2; delivered rs run.1
  end.
Definition gateway_after (es : list (outcome OrderEvent)) (rs : list report) : outcome W :=
  w ← SetUp; w ← register es w; delivered rs w.
Definition ord001 (cents : Z) : list (outcome OrderEvent) := [order "AAPL" Buy 100 cents "ORD001"].
Definition log_has (n : Z) (w : W) : test := expect (el_size (w_log w) =? n).
Definition no_position (sym : string) (w : W) : test :=
  p ← PositionTracker.get (sv sym) (w_tracker w); expect (negb (bool_decide (is_Some p))).
Definition net_is (sym : string) (n : Z) (w : W) : test :=
  p ← position sym (w_tracker w); expect (p_net_qty p =? n).

Definition Gateway_AckDoesNotUpdatePosition : test :=
  w ← gateway_after (ord001 10000) [make_ack "ORD001" "AAPL"]; _ ← no_position "AAPL" w; log_has 0 w.
Definition Gateway_FullFillUpdatesEventLog : test :=
  w ← gateway_after [] [make_full_fill "ORD001" "AAPL" Side_BUY 100 17550]; _ ← log_has 1 w;
  e ← read 0 (w_log w); e ← not_null e; _ ← type_is FullFill e; expect (oe_fill_qty e =? 100).
Definition Gateway_FullFillUpdatesPositionTracker : test :=
  w ← gateway_after (ord001 17500) [make_full_fill "ORD001" "AAPL" Side_BUY 100 17550];
  net_is "AAPL" 100 w.
Definition Gateway_FullFillUpdatesOrderManager : test :=
  w ← gateway_after (ord001 17500) [make_full_fill "ORD001" "AAPL" Side_BUY 100 17550];
  o ← order_of "ORD001" (w_orders w); state_is Filled 100 0 o.
Definition Gateway_PartialFillLeavesOrderOpen : test :=
  w ← gateway_after (ord001 17500) [make_partial_fill "ORD001" "AAPL" Side_BUY 60 17550];
  o ← order_of "ORD001" (w_orders w); state_is PartiallyFilled 60 40 o.
Definition Gateway_PartialThenFullFill : test :=
  w ← gateway_after (ord001 17500) [make_partial_fill "ORD001" "AAPL" Side_BUY 60 17500;
                                    make_partial_fill "ORD001" "AAPL" Side_BUY 40 17550];
  o ← order_of "ORD001" (w_orders w); _ ← net_is "AAPL" 100 w;
  _ ← expect (bool_decide (o_state o = Filled)); log_has 2 w.
Definition Gateway_CancelClosesOrder : test :=
  w ← gateway_after (ord001 17500) [make_cancel "ORD001" "AAPL"];
  o ← order_of "ORD001" (w_orders w); expect (bool_decide (o_state o = Cancelled)).
Definition Gateway_CancelDoesNotMovePosition : test :=
  w ← gateway_after (ord001 17500) [make_cancel "ORD001" "AAPL"]; _ ← log_has 1 w; no_position "AAPL" w.
Definition Gateway_RejectClosesOrder : test :=
  w ← gateway_after (ord001 17500) [make_reject "ORD001" "AAPL"];
  o ← order_of "ORD001" (w_orders w); expect (bool_decide (o_state o = Rejected)).
Definition Gateway_MultipleSymbolsTrackedIndependently : test :=
  w ← gateway_after [] [make_full_fill "O1" "AAPL" Side_BUY 100 17500;
                        make_full_fill "O2" "TSLA" Side_BUY 20 25000;
                        make_sell_fill "O3" "AAPL" 40 17600];
  _ ← net_is "AAPL" 60 w; _ ← net_is "TSLA" 20 w; log_has 3 w.
Definition Gateway_ReplayReconstructsState : test :=
  w ← gateway_after [] [make_full_fill "O1" "AAPL" Side_BUY 100 17500; make_sell_fill "O2" "AAPL" 40 17600];
  log2 ← open_log (Some (el_file (w_log w))); t ← PositionTracker.replay_from log2;
  p ← position "AAPL" t; expect (p_net_qty p =? 60).

Definition test_FIXGateway : list test :=
  [Gateway_AckDoesNotUpdatePosition; Gateway_FullFillUpdatesEventLog;
   Gateway_FullFillUpdatesPositionTracker; Gateway_FullFillUpdatesOrderManager;
   Gateway_PartialFillLeavesOrderOpen; Gateway_PartialThenFullFill; Gateway_CancelClosesOrder;
   Gateway_CancelDoesNotMovePosition; Gateway_RejectClosesOrder;
   Gateway_MultipleSymbolsTrackedIndependently; Gateway_ReplayReconstructsState].

(** ** The suites *)

Definition suites : list (list test) :=
  [test_OrderEvent; test_EventLog; test_PositionTracker; test_OrderManager; test_RiskChecker;
   test_MessageTranslator; test_Killswitch; test_FIXGateway].
Definition passes (t : test) : bool := bool_decide (t = Ok tt).

(** Every test of the repository passes on the model, the expectations of every case
    included. *)
Theorem suite_passes : forallb (forallb passes) suites = true ∧ length (concat suites) = 64%nat.
Proof. split; vm_compute; reflexivity. Qed.
