(* ===== verification/Bench.v ===== *)
(** * [Bench]: the benchmark harness (benchmarks/bench_harness.h)

    [LatencyStats] collects samples and prints order statistics of them; [RUN] times the
    iterations of a loop; [BenchRegistry] runs the cases, all or those of a group.  The
    counter that [rdtsc] reads by inline assembly and the monotonic clock are
    parameters, reading by reading.  The cases themselves are in [Cases]. *)

From Stdlib Require Import Floats.SpecFloat.
From stdpp Require Import sorting.
From S2P Require Import Prelude CString EventLog Fixed.

Local Open Scope Z_scope.

(** ** [LatencyStats]: the samples, in the order of recording *)

Definition LatencyStats : Type := list Z.
Definition stats_init : LatencyStats := [].
Definition record (ns : Z) (s : LatencyStats) : LatencyStats := s ++ [ns].

(** The numbers of the line that [print] writes. *)
Record summary : Type := {
  su_n : Z; su_min : Z; su_avg : spec_float;
  su_p50 : Z; su_p90 : Z; su_p99 : Z; su_p999 : Z; su_max : Z;
}.

(** [s[i]] of a vector. *)
Definition vec_at (s : list Z) (i : Z) : outcome Z :=
  match s !! Z.to_nat i with Some x => Ok x | None => UB end.

(** [std::accumulate] from [uint64_t{0}]. *)
Definition accumulate (s : list Z) : Z := foldl (λ acc x, u64 (acc + x)) 0 s.

(** [n * num / den] on a [size_t]. *)
Definition rank_of (n num den : Z) : Z := u64 (n * num) / den.

(** [None] is the line for no samples. *)
Definition print_stats (samples : LatencyStats) : outcome (option summary) :=
  if decide (samples = []) then Ok None else
  let s := merge_sort Z.le samples in
  let n := Z.of_nat (length s) in
  let avg := double_div (of_int (accumulate s)) (of_int n) in
  min ← vec_at s 0;
  p50 ← vec_at s (rank_of n 50 100);
  p90 ← vec_at s (rank_of n 90 100);
  p99 ← vec_at s (rank_of n 99 100);
  p999 ← vec_at s (rank_of n 999 1000);
  max ← vec_at s (n - 1);
  Ok (Some {| su_n := n; su_min := min; su_avg := avg; su_p50 := p50; su_p90 := p90;
              su_p99 := p99; su_p999 := p999; su_max := max |}).

(** ** The counter *)

Definition double_add : double → double → double := SFadd 53 1024.

Section Timing.
(** What [rdtsc] reads the [k]-th time, and what the [j]-th call of [clock_gettime] gives. *)
Context (rdtsc : nat → Z) (monotonic : nat → timespec).

Definition cycles_to_ns (g_tsc_ghz : double) (cycles : Z) : outcome Z :=
  double_to_int in_u64 (double_div (of_int cycles) g_tsc_ghz).

(** [RUN] with [todo] iterations left: [i] is [_i], and [k] counts the readings made. *)
Fixpoint run_loop {S} (g_tsc_ghz : double) (body : nat → S → outcome S) (todo i k : nat)
    (stats : LatencyStats) (s : S) : outcome (S * LatencyStats * nat) :=
  match todo with
  | 0%nat => Ok (s, stats, k)
  | Datatypes.S todo =>
      let t0 := rdtsc k in
      s ← body i s;
      ns ← cycles_to_ns g_tsc_ghz (u64 (rdtsc (k + 1)%nat - t0));
      run_loop g_tsc_ghz body todo (i + 1) (k + 2) (record ns stats) s
  end.

(** The loop without its timing. *)
Fixpoint plain_loop {S} (body : nat → S → outcome S) (todo i : nat) (s : S) : outcome S :=
  match todo with
  | 0%nat => Ok s
  | Datatypes.S todo => s ← body i s; plain_loop body todo (i + 1) s
  end.

(** [measure_tsc_ghz]: wait until the clock has reached the target. *)
Definition wait_target (t0 : timespec) : timespec :=
  let nsec := tv_nsec t0 + 10000000 in
  if 1000000000 <=? nsec
  then {| tv_sec := tv_sec t0 + 1; tv_nsec := nsec - 1000000000 |}
  else {| tv_sec := tv_sec t0; tv_nsec := nsec |}.

Definition target_reached (t1 target : timespec) : bool :=
  (tv_sec target <? tv_sec t1) || ((tv_sec t1 =? tv_sec target) && (tv_nsec target <=? tv_nsec t1)).

(** [None] when [fuel] readings have not reached it. *)
Fixpoint wait_until (fuel j : nat) (target : timespec) : option timespec :=
  match fuel with
  | 0%nat => None
  | S fuel => if target_reached (monotonic j) target then Some (monotonic j)
              else wait_until fuel (S j) target
  end.

Definition measure_tsc_ghz (fuel : nat) : option double :=
  let t0 := monotonic 0%nat in
  let c0 := rdtsc 0%nat in
  t1 ← wait_until fuel 1 (wait_target t0);
  let c1 := rdtsc 1%nat in
  Some (double_div (of_int (u64 (c1 - c0)))
          (double_add (double_mul (of_int (tv_sec t1 - tv_sec t0)) (of_int 1000000000))
                      (of_int (tv_nsec t1 - tv_nsec t0)))).
End Timing.

(** ** [BenchRegistry] *)

(** [bc_fn] gets the statistics, the number of iterations and the readings made so far. *)
Record BenchCase : Type := {
  bc_group : string; bc_name : string; bc_iterations : nat;
  bc_fn : LatencyStats → nat → nat → outcome (LatencyStats * nat);
}.

Inductive bench_line : Type :=
  | Out_group (group : string)
  | Out_stats (name : string) (r : option summary)
  | Out_no_match (prefix : string).

(** What has been printed, and how the call ended. *)
Definition printed (A : Type) : Type := (list bench_line * outcome A)%type.
Definition printed_bind {A B} (p : printed A) (f : A → printed B) : printed B :=
  match p.2 with
  | Ok a => let r := f a in (p.1 ++ r.1, r.2)
  | Throw e => (p.1, Throw e)
  | UB => (p.1, UB)
  | Terminate => (p.1, Terminate)
  end.

Definition add (c : BenchCase) (cases : list BenchCase) : list BenchCase := cases ++ [c].

(** One case: the heading when the group changes, the run, its statistics; [cur] is the
    group of the last heading and [k] the readings made. *)
Definition run_case (cur : option string) (c : BenchCase) (k : nat) : printed nat :=
  let heading := if decide (cur = Some (bc_group c)) then [] else [Out_group (bc_group c)] in
  printed_bind (heading, bc_fn c stats_init (bc_iterations c) k) (λ r,
    printed_bind ([], print_stats r.1) (λ su, ([Out_stats (bc_name c) su], Ok r.2))).

Fixpoint run_cases (cur : option string) (cases : list BenchCase) (k : nat) : printed nat :=
  match cases with
  | [] => ([], Ok k)
  | c :: cases => printed_bind (run_case cur c k) (run_cases (Some (bc_group c)) cases)
  end.

Definition run_all (cases : list BenchCase) (k : nat) : printed nat := run_cases None cases k.

(** The loop of [run_group]: [found] and [cur] are its locals. *)
Fixpoint run_group_loop (prefix : string) (found : bool) (cur : option string)
    (cases : list BenchCase) (k : nat) : printed nat :=
  match cases with
  | [] => (if found then [] else [Out_no_match prefix], Ok k)
  | c :: cases =>
      if negb (String.prefix prefix (bc_group c)) then run_group_loop prefix found cur cases k
      else printed_bind (run_case cur c k) (run_group_loop prefix true (Some (bc_group c)) cases)
  end.
Definition run_group (prefix : string) (cases : list BenchCase) (k : nat) : printed nat :=
  run_group_loop prefix false None cases k.

(** ** Order statistics *)

Lemma vec_at_ok s i : 0 <= i < Z.of_nat (length s) → ∃ x, vec_at s i = Ok x ∧ s !! Z.to_nat i = Some x.
Proof.
  intros Hi. destruct (lookup_lt_is_Some_2 s (Z.to_nat i)) as [x Hx]; [lia|].
  exists x. unfold vec_at. by rewrite Hx.
Qed.

Lemma rank_of_bound n num den :
  0 < n → 0 <= num < den → n * num < UINT64_MOD → 0 <= rank_of n num den < n.
Proof.
  unfold UINT64_MOD. intros Hn Hd Hfit. assert (0 <= n * num) by (apply Z.mul_nonneg_nonneg; lia).
  unfold rank_of, u64, UINT64_MOD. rewrite Z.mod_small by lia.
  split; [apply Z.div_pos; lia|]. apply Z.div_lt_upper_bound; [lia|]. nia.
Qed.

Lemma rank_of_exact n num den :
  0 < n < 2 ^ 54 → 0 <= num <= 999 → num < den →
  rank_of n num den = n * num / den ∧ 0 <= n * num / den < n.
Proof.
  intros Hn Hnum Hden. assert (n * num < UINT64_MOD) by (unfold UINT64_MOD; nia).
  assert (0 <= n * num) by (apply Z.mul_nonneg_nonneg; lia).
  pose proof (rank_of_bound n num den) as Hb. unfold rank_of in *.
  rewrite u64_id in * by (apply in_u64_spec; unfold UINT64_MOD in *; lia).
  split; [done|]. apply Hb; lia.
Qed.

(** How many samples are at most, and at least, a number. *)
Definition at_most (x : Z) (s : list Z) : Z := Z.of_nat (length (base.filter (λ y, y <= x) s)).
Definition at_least (x : Z) (s : list Z) : Z := Z.of_nat (length (base.filter (λ y, x <= y) s)).

Lemma count_split (P : Z → Prop) `{∀ y, Decision (P y)} l k :
  Forall P l → (length l ≤ length (base.filter P (l ++ k)))%nat ∧
    (length l ≤ length (base.filter P (k ++ l)))%nat.
Proof. intros Hl. rewrite !filter_app, !length_app, (filter_all P l) by done. lia. Qed.

(** The element at index [i] of a sorted list: the [i + 1] elements up to it are at most,
    the others from it on at least as large. *)
Lemma sorted_rank s i x :
  StronglySorted Z.le s → s !! i = Some x →
  Z.of_nat i + 1 <= at_most x s ∧ Z.of_nat (length s) - Z.of_nat i <= at_least x s.
Proof.
  intros Hs Hx. pose proof (lookup_lt_Some _ _ _ Hx) as Hi.
  rewrite <- (take_drop_middle s i x Hx) in Hs |- *. unfold at_most, at_least.
  rewrite StronglySorted_app, StronglySorted_cons in Hs. destruct Hs as (Hcross & _ & Htail & _).
  assert (Hbefore : Forall (λ y, y <= x) (take i s ++ [x])).
  { apply Forall_app. split; [|by constructor]. apply Forall_forall. intros y Hy.
    apply Hcross; [done|by left]. }
  assert (Hafter : Forall (λ y, x <= y) (x :: drop (S i) s)) by (by constructor).
  pose proof (count_split (λ y, y <= x) _ (drop (S i) s) Hbefore) as [H1 _].
  pose proof (count_split (λ y, x <= y) _ (take i s) Hafter) as [_ H2].
  rewrite <- app_assoc in H1. cbn [app] in H1.
  rewrite !length_app, length_take in *. cbn [length] in *. rewrite length_drop in *. lia.
Qed.

Lemma sorted_le s i j x y :
  StronglySorted Z.le s → (i <= j)%nat → s !! i = Some x → s !! j = Some y → x <= y.
Proof.
  intros Hs Hij Hx Hy. destruct (decide (i = j)) as [->|Hne]; [assert (x = y) by congruence; lia|].
  pose proof (take_drop_middle s i x Hx) as Hsplit. rewrite <- Hsplit in Hs.
  rewrite StronglySorted_app, StronglySorted_cons in Hs. destruct Hs as (_ & _ & Htail & _).
  rewrite Forall_forall in Htail. apply Htail, (list_elem_of_lookup_2 _ (j - S i)).
  rewrite lookup_drop. by replace (S i + (j - S i))%nat with j by lia.
Qed.

Lemma sorted_samples s : StronglySorted Z.le (merge_sort Z.le s).
Proof. apply StronglySorted_merge_sort; [apply _|intros x y; lia]. Qed.

#[export] Instance at_most_perm x : Proper ((≡ₚ) ==> (=)) (at_most x).
Proof. intros s t Hst. unfold at_most. by rewrite Hst. Qed.
#[export] Instance at_least_perm x : Proper ((≡ₚ) ==> (=)) (at_least x).
Proof. intros s t Hst. unfold at_least. by rewrite Hst. Qed.

(** [x] is a sample with rank [k] of [n]. *)
Definition order_statistic (samples : list Z) (k : Z) (x : Z) : Prop :=
  x ∈ samples ∧ k + 1 <= at_most x samples ∧ Z.of_nat (length samples) - k <= at_least x samples.

Lemma sorted_at samples k :
  0 <= k < Z.of_nat (length samples) →
  ∃ x, vec_at (merge_sort Z.le samples) k = Ok x ∧
    merge_sort Z.le samples !! Z.to_nat k = Some x ∧ order_statistic samples k x.
Proof.
  intros Hk. pose proof (merge_sort_Permutation Z.le samples) as Hperm.
  destruct (vec_at_ok (merge_sort Z.le samples) k) as (x & Hx & Hl); [by rewrite Hperm|].
  exists x. split; [done|]. split; [done|].
  destruct (sorted_rank _ _ _ (sorted_samples samples) Hl) as [H1 H2]. rewrite Hperm in H1, H2.
  split; [rewrite <- Hperm; by eapply list_elem_of_lookup_2|]. lia.
Qed.

Lemma print_stats_returns samples :
  samples ≠ [] → Z.of_nat (length samples) < 2 ^ 54 → ∃ su, print_stats samples = Ok (Some su).
Proof.
  intros Hne Hn. unfold print_stats. rewrite decide_False by done.
  rewrite (Permutation_length (merge_sort_Permutation Z.le samples)).
  set (n := Z.of_nat (length samples)) in *.
  assert (0 < n) by (unfold n; destruct samples; cbn [length]; done || lia).
  assert (Hat : ∀ i, 0 <= i < n → ∃ x, vec_at (merge_sort Z.le samples) i = Ok x).
  { intros i Hi. destruct (sorted_at samples i Hi) as (x & Hx & _). by exists x. }
  destruct (rank_of_exact n 50 100) as [-> H50]; [lia..|].
  destruct (rank_of_exact n 90 100) as [-> H90]; [lia..|].
  destruct (rank_of_exact n 99 100) as [-> H99]; [lia..|].
  destruct (rank_of_exact n 999 1000) as [-> H999]; [lia..|].
  destruct (Hat 0) as [a ->]; [lia|]. destruct (Hat _ H50) as [b ->]. destruct (Hat _ H90) as [c ->].
  destruct (Hat _ H99) as [d ->]. destruct (Hat _ H999) as [e ->]. destruct (Hat (n - 1)) as [f ->]; [lia|].
  by eexists.
Qed.

(** The cases whose statistics have been printed. *)
Definition reported (lines : list bench_line) : list string :=
  omap (λ l, match l with Out_stats name (Some _) => Some name | _ => None end) lines.

Lemma reported_app l1 l2 : reported (l1 ++ l2) = reported l1 ++ reported l2.
Proof. apply omap_app. Qed.

Definition measures (c : BenchCase) : Prop :=
  ∀ k, ∃ samples k', bc_fn c stats_init (bc_iterations c) k = Ok (samples, k') ∧
    samples ≠ [] ∧ Z.of_nat (length samples) < 2 ^ 54.

Lemma run_case_reports cur c k :
  measures c → ∃ lines k', run_case cur c k = (lines, Ok k') ∧ reported lines = [bc_name c].
Proof.
  intros Hc. destruct (Hc k) as (samples & k' & Hfn & Hne & Hlen).
  destruct (print_stats_returns samples Hne Hlen) as [su Hsu].
  unfold run_case, printed_bind. cbn [fst snd]. rewrite Hfn. cbn [fst snd]. rewrite Hsu. cbn [fst snd].
  eexists _, k'. split; [reflexivity|]. rewrite !reported_app. by case_decide.
Qed.

Lemma run_cases_report cases : ∀ cur k,
  Forall measures cases →
  ∃ lines k', run_cases cur cases k = (lines, Ok k') ∧ reported lines = bc_name <$> cases.
Proof.
  induction cases as [|c cases IH]; intros cur k Hall; [by exists [], k|].
  apply Forall_cons in Hall as [Hc Hall].
  destruct (run_case_reports cur c k Hc) as (l1 & k1 & H1 & Hr1).
  destruct (IH (Some (bc_group c)) k1 Hall) as (l2 & k2 & H2 & Hr2).
  exists (l1 ++ l2), k2. cbn [run_cases]. unfold printed_bind. rewrite H1. cbn [fst snd]. rewrite H2.
  split; [done|]. by rewrite reported_app, Hr1, Hr2.
Qed.

Lemma accumulate_from s : ∀ acc, (∀ x, x ∈ s → 0 <= x) → 0 <= acc → acc + sumZ id s < UINT64_MOD →
  foldl (λ acc x, u64 (acc + x)) acc s = acc + sumZ id s.
Proof.
  induction s as [|x s IH]; intros acc Hpos Hacc Hsum; [cbn; lia|].
  change (sumZ id (x :: s)) with (x + sumZ id s) in *. cbn [foldl].
  assert (0 <= sumZ id s) by (apply sumZ_nonneg; intros y Hy; apply Hpos; by right).
  assert (0 <= x) by (apply Hpos; by left). rewrite u64_id.
  - rewrite IH; [lia| |lia|lia]. intros y Hy. apply Hpos. by right.
  - apply in_u64_spec. unfold UINT64_MOD in *. lia.
Qed.

Lemma printed_bind_ext {A B} (p : printed A) (f g : A → printed B) :
  (∀ a, f a = g a) → printed_bind p f = printed_bind p g.
Proof. intros Hfg. unfold printed_bind. destruct p.2; [by rewrite Hfg|done..]. Qed.

(** ** Properties *)

(** The numbers that are printed: with samples, and fewer than 2^54 of them, every index is
    inside the vector; the least and the greatest sample are printed as such; the
    percentiles are samples of the ranks they name, in order; and the average is the
    quotient of the exact sum when that fits 64 bits. *)
Theorem printed_statistics samples :
  let n := Z.of_nat (length samples) in
  samples ≠ [] → (∀ x, x ∈ samples → 0 <= x) → n < 2 ^ 54 → sumZ id samples < UINT64_MOD →
  ∃ su, print_stats samples = Ok (Some su) ∧ su_n su = n ∧
    su_avg su = double_div (of_int (sumZ id samples)) (of_int n) ∧
    order_statistic samples 0 (su_min su) ∧ order_statistic samples (n * 50 / 100) (su_p50 su) ∧
    order_statistic samples (n * 90 / 100) (su_p90 su) ∧
    order_statistic samples (n * 99 / 100) (su_p99 su) ∧
    order_statistic samples (n * 999 / 1000) (su_p999 su) ∧
    order_statistic samples (n - 1) (su_max su) ∧
    su_min su <= su_p50 su <= su_p90 su ∧ su_p90 su <= su_p99 su <= su_p999 su ∧
    su_p999 su <= su_max su.
Proof.
  intros n Hne Hpos Hn Hsum. unfold print_stats. rewrite decide_False by done.
  set (s := merge_sort Z.le samples).
  assert (Hperm : s ≡ₚ samples) by apply merge_sort_Permutation.
  assert (Hlen : Z.of_nat (length s) = n) by (by rewrite Hperm). rewrite !Hlen.
  assert (0 < n) by (unfold n; destruct samples; cbn [length]; done || lia).
  destruct (rank_of_exact n 50 100) as [-> H50]; [lia..|].
  destruct (rank_of_exact n 90 100) as [-> H90]; [lia..|].
  destruct (rank_of_exact n 99 100) as [-> H99]; [lia..|].
  destruct (rank_of_exact n 999 1000) as [-> H999]; [lia..|].
  destruct (sorted_at samples 0) as (a & Ha & La & Sa); [lia|].
  destruct (sorted_at samples (n * 50 / 100)) as (b & Hb & Lb & Sb); [done|].
  destruct (sorted_at samples (n * 90 / 100)) as (c & Hc & Lc & Sc); [done|].
  destruct (sorted_at samples (n * 99 / 100)) as (d & Hd & Ld & Sd); [done|].
  destruct (sorted_at samples (n * 999 / 1000)) as (e & He & Le & Se); [done|].
  destruct (sorted_at samples (n - 1)) as (f & Hf & Lf & Sf); [lia|].
  fold s in Ha, Hb, Hc, Hd, He, Hf, La, Lb, Lc, Ld, Le, Lf.
  rewrite Ha, Hb, Hc, Hd, He, Hf. eexists. split; [reflexivity|]. cbn [su_n su_avg su_min su_p50 su_p90 su_p99 su_p999 su_max].
  assert (Hle : ∀ i j x y, 0 <= i <= j → s !! Z.to_nat i = Some x → s !! Z.to_nat j = Some y → x <= y).
  { intros i j x y Hij. apply sorted_le; [apply sorted_samples|lia]. }
  split; [done|]. split.
  { f_equal. f_equal. unfold accumulate. rewrite accumulate_from, (sumZ_perm id s samples) by
      (done || lia || (intros x Hx; apply Hpos; by rewrite <- Hperm) || by rewrite (sumZ_perm id s samples)). lia. }
  split_and!; try done.
  - eapply (Hle 0 (n * 50 / 100)); [lia|done..].
  - eapply (Hle (n * 50 / 100) (n * 90 / 100)); [|done..]. split; [lia|]. apply Z.div_le_mono; lia.
  - eapply (Hle (n * 90 / 100) (n * 99 / 100)); [|done..]. split; [lia|]. apply Z.div_le_mono; lia.
  - eapply (Hle (n * 99 / 100) (n * 999 / 1000)); [|done..]. split; [lia|].
    rewrite <- (Z.div_mul_cancel_r (n * 99) 100 10) by lia. apply Z.div_le_mono; lia.
  - eapply (Hle (n * 999 / 1000) (n - 1)); [lia|done..].
Qed.

Lemma printed_statistics_witness :
  ∃ su, print_stats (Z.of_nat <$> rev (seq 1 200)) = Ok (Some su) ∧
    su_min su = 1 ∧ su_p50 su = 101 ∧ su_p99 su = 199 ∧ su_max su = 200.
Proof.
  destruct (printed_statistics (Z.of_nat <$> rev (seq 1 200))) as (su & Hsu & _).
  - discriminate.
  - intros x (k & -> & _)%list_elem_of_fmap. lia.
  - rewrite length_fmap, length_rev, length_seq. lia.
  - vm_compute. reflexivity.
  - exists su. split; [exact Hsu|]. vm_compute in Hsu. injection Hsu as <-. by split_and!.
Defined.

(** The order in which the samples were recorded does not matter. *)
Theorem statistics_of_any_order samples samples' :
  samples ≡ₚ samples' → print_stats samples = print_stats samples'.
Proof.
  intros Hp. unfold print_stats.
  assert (merge_sort Z.le samples = merge_sort Z.le samples') as ->.
  { apply (StronglySorted_unique Z.le); [apply sorted_samples..|]. by rewrite !merge_sort_Permutation. }
  assert (Hnil : samples = [] ↔ samples' = []).
  { split; intros ->; [by apply Permutation_nil in Hp|by symmetry in Hp; apply Permutation_nil in Hp]. }
  by rewrite (decide_ext _ _ _ _ Hnil).
Qed.

(** A group is the registry with the cases of other groups left out; the message comes
    exactly when nothing is left. *)
Theorem run_group_filters prefix cases k :
  run_group prefix cases k =
    match base.filter (λ c, String.prefix prefix (bc_group c) = true) cases with
    | [] => ([Out_no_match prefix], Ok k)
    | chosen => run_all chosen k
    end.
Proof.
  assert (Hfound : ∀ cs cur k, run_group_loop prefix true cur cs k
    = run_cases cur (base.filter (λ c, String.prefix prefix (bc_group c) = true) cs) k).
  { induction cs as [|c cs IH]; intros cur k1; [done|]. cbn [run_group_loop]. rewrite filter_cons.
    destruct (String.prefix prefix (bc_group c)); cbn [negb]; [|rewrite decide_False by done; apply IH].
    rewrite decide_True by done. cbn [run_cases]. by apply printed_bind_ext. }
  unfold run_group, run_all. induction cases as [|c cases IH]; [done|].
  cbn [run_group_loop]. rewrite filter_cons.
  destruct (String.prefix prefix (bc_group c)); cbn [negb].
  - rewrite decide_True by done. cbn [run_cases]. by apply printed_bind_ext.
  - by rewrite decide_False by done.
Qed.

(** Timing changes nothing that is timed: when every iteration returns and every duration
    converts, [RUN] ends with the state of the plain loop and one sample more for each
    iteration, the truncated quotient of the cycles it took. *)
Theorem run_loop_samples {A} rdtsc ghz (body : nat → A → outcome A) (ns_of : nat → Z) n :
  ∀ i k stats s s',
  plain_loop body n i s = Ok s' →
  (∀ j, (j < n)%nat →
     cycles_to_ns ghz (u64 (rdtsc (k + 2 * j + 1)%nat - rdtsc (k + 2 * j)%nat)) = Ok (ns_of (i + j)%nat)) →
  run_loop rdtsc ghz body n i k stats s = Ok (s', stats ++ (ns_of <$> seq i n), (k + 2 * n)%nat).
Proof.
  induction n as [|n IH]; intros i k stats s s' Hrun Hns.
  { injection Hrun as <-. cbn. rewrite app_nil_r. by replace (k + 0)%nat with k by lia. }
  cbn [plain_loop] in Hrun. apply bind_Ok in Hrun as (s1 & H1 & Hrun). cbn [run_loop]. rewrite H1.
  pose proof (Hns 0%nat ltac:(lia)) as H0. rewrite !Nat.mul_0_r, !Nat.add_0_r in H0.
  cbn [mbind outcome_bind]. rewrite H0. cbn [mbind outcome_bind].
  rewrite (IH (i + 1)%nat (k + 2)%nat _ s1 s') ; [|done|].
  - unfold record. rewrite <- app_assoc. cbn [seq fmap list_fmap app].
    replace (i + 1)%nat with (S i) by lia. by replace (k + 2 + 2 * n)%nat with (k + 2 * S n)%nat by lia.
  - intros j Hj. specialize (Hns (S j) ltac:(lia)).
    replace (k + 2 + 2 * j)%nat with (k + 2 * S j)%nat by lia.
    by replace (i + 1 + j)%nat with (i + S j)%nat by lia.
Qed.

(** The frequency is measured over at least 10 ms of the monotonic clock, and the wait ends
    once the clock has gone that far. *)
Definition nanos (t : timespec) : Z := tv_sec t * 1000000000 + tv_nsec t.

Lemma wait_until_ends monotonic target fuel : ∀ i j,
  (i ≤ j < i + fuel)%nat → target_reached (monotonic j) target = true →
  ∃ t1, wait_until monotonic fuel i target = Some t1 ∧ target_reached t1 target = true ∧
    ∃ k, t1 = monotonic k.
Proof.
  induction fuel as [|fuel IH]; intros i j Hj Hreached; [lia|]. cbn [wait_until].
  destruct (target_reached (monotonic i) target) eqn:Hi; [by eauto 10|].
  destruct (decide (i = j)) as [->|Hne]; [congruence|]. apply (IH (S i) j); [lia|done].
Qed.

Lemma target_reached_nanos t1 target :
  0 <= tv_nsec t1 → tv_nsec target < 1000000000 → target_reached t1 target = true →
  nanos target <= nanos t1.
Proof.
  unfold target_reached, nanos. intros Hn Ht Hr. apply orb_true_iff in Hr as [Hr|Hr].
  - apply Z.ltb_lt in Hr. nia.
  - apply andb_true_iff in Hr as [Hs Hr]. apply Z.eqb_eq in Hs. apply Z.leb_le in Hr. nia.
Qed.

Theorem measurement_ends rdtsc monotonic fuel j :
  (∀ i, 0 <= tv_nsec (monotonic i) < 1000000000) → (1 ≤ j ≤ fuel)%nat →
  target_reached (monotonic j) (wait_target (monotonic 0%nat)) = true →
  is_Some (measure_tsc_ghz rdtsc monotonic fuel) ∧
  ∃ t1, wait_until monotonic fuel 1 (wait_target (monotonic 0%nat)) = Some t1 ∧
    nanos (monotonic 0%nat) + 10000000 <= nanos t1.
Proof.
  intros Hns Hj Hreached.
  destruct (wait_until_ends monotonic (wait_target (monotonic 0%nat)) fuel 1 j)
    as (t1 & Hwait & Hr & k & Hk); [lia|done|].
  split; [unfold measure_tsc_ghz; rewrite Hwait; by eexists|]. exists t1. split; [done|].
  pose proof (Hns 0%nat). pose proof (Hns k) as Hnk. rewrite <- Hk in Hnk.
  assert (Hsum : nanos (wait_target (monotonic 0%nat)) = nanos (monotonic 0%nat) + 10000000 ∧
      tv_nsec (wait_target (monotonic 0%nat)) < 1000000000).
  { unfold wait_target, nanos. destruct (Z.leb_spec 1000000000 (tv_nsec (monotonic 0%nat) + 10000000));
      cbn [tv_sec tv_nsec]; lia. }
  apply target_reached_nanos in Hr; lia.
Qed.
