(* ===== verification/Cases.v ===== *)
(** * [Cases]: what the benchmarks run (benchmarks/bench_main.cpp)

    Each benchmark case as its setup and its timed body, on the definitions of the
    components, in the loop [RUN] of [Bench]; the one-shot replay benchmark; and [main].
    The events and prices are built as in the tests ([Conformance]). *)

From Stdlib Require Import Floats.SpecFloat.
From S2P Require Import Prelude CString OrderEvent EventLog SlotTable PositionTracker OrderManager.
From S2P Require Import RiskChecker Fixed Environment Conformance Bench.

Local Open Scope Z_scope.

(** ** The cases *)

Record bench_body : Type := {
  bb_group : string; bb_name : string;
  bb_state : Type;
  bb_setup : outcome bb_state;
  bb_body : nat → bb_state → outcome bb_state;
}.

(** [BENCH_CASE]: 100'000 iterations each. *)
Definition iterations : nat := Z.to_nat 100000.
Definition case_of (rdtsc : nat → Z) (g_tsc_ghz : spec_float) (b : bench_body) : BenchCase := {|
  bc_group := bb_group b; bc_name := bb_name b; bc_iterations := iterations;
  bc_fn stats n k :=
    s ← bb_setup b; r ← run_loop rdtsc g_tsc_ghz (bb_body b) n 0 k stats s; Ok (r.1.2, r.2);
|}.

(** [_i % 2 == 0 ? Side::Buy : Side::Sell] *)
Definition side_of (i : nat) : Side := if Nat.even i then Buy else Sell.

Section Cases.
(** The clock that [append] reads for the event of a sequence number. *)
Context (clock : Z → timespec).

Definition append_on (e : OrderEvent) (l : EventLog) : outcome EventLog :=
  r ← append e (clock (el_size l)) l; Ok r.2.
Fixpoint append_times (n : nat) (e : OrderEvent) (l : EventLog) : outcome EventLog :=
  match n with 0%nat => Ok l | S n => l ← append_on e l; append_times n e l end.

Definition EventLog_append : bench_body := {|
  bb_group := "EventLog"; bb_name := "append() - mmap write"; bb_state := OrderEvent * EventLog;
  bb_setup :=
    log ← (open_or_create sys_ok "/tmp/hft_bench_log.bin" None).2;
    warmup ← fill "AAPL" Buy 1 17500 "W"; log ← append_times 1000 warmup log;
    evt ← fill "AAPL" Buy 100 17500 "O"; Ok (evt, log);
  bb_body _ '(evt, log) := log ← append_on evt log; Ok (evt, log);
|}.

Definition warm_tracker : outcome PositionTracker.t := tracker_after [fill "AAPL" Buy 1 17500 "W"].

Definition PositionTracker_buy : bench_body := {|
  bb_group := "PositionTracker"; bb_name := "apply_event() buy - warm cache";
  bb_state := OrderEvent * PositionTracker.t;
  bb_setup := t ← warm_tracker; evt ← fill "AAPL" Buy 100 17500 "O"; Ok (evt, t);
  bb_body _ '(evt, t) := t ← PositionTracker.apply_event evt t; _ ← position "AAPL" t; Ok (evt, t);
|}.
Definition PositionTracker_alternating : bench_body := {|
  bb_group := "PositionTracker"; bb_name := "apply_event() alternating buy/sell";
  bb_state := PositionTracker.t; bb_setup := warm_tracker;
  bb_body i t :=
    evt ← fill "AAPL" (side_of i) 100 17500 "O";
    t ← PositionTracker.apply_event evt t; _ ← position "AAPL" t; Ok t;
|}.
Definition PositionTracker_mark : bench_body := {|
  bb_group := "PositionTracker"; bb_name := "mark_to_market() single symbol";
  bb_state := PositionTracker.t * Z;
  bb_setup :=
    t ← tracker_after ((λ s, fill s Buy 1000 20000 "W") <$> ["AAPL"; "TSLA"; "MSFT"; "GOOGL"; "AMZN"]);
    px ← fp 20000; Ok (t, px);
  bb_body i '(t, px) :=
    px ← i64 (px + if Nat.even i then 1 else -1);
    t ← PositionTracker.mark_to_market (sv "AAPL") px t; _ ← position "AAPL" t; Ok (t, px);
|}.
Definition PositionTracker_get : bench_body := {|
  bb_group := "PositionTracker"; bb_name := "get() - symbol lookup hit";
  bb_state := PositionTracker.t; bb_setup := tracker_after [fill "AAPL" Buy 100 17500 "W"];
  bb_body _ t := _ ← PositionTracker.get (sv "AAPL") t; Ok t;
|}.

(** [snprintf(oid, sizeof(oid), "O%05zu", n)] *)
Definition padded_id (n : Z) : list char :=
  lit "O" ++ replicate (5 - length (to_string n)) "0"%char ++ to_string n.

Definition OrderManager_new : bench_body := {|
  bb_group := "OrderManager"; bb_name := "apply_event() NewOrder";
  bb_state := OrderManager.t; bb_setup := Ok OrderManager.init;
  bb_body i t :=
    let oid := sv_of_string (padded_id (Z.of_nat i mod 256)) in
    px ← fp 17500; e ← make_new_order (sv "AAPL") Buy 100 px oid;
    t ← OrderManager.apply_event e t; _ ← OrderManager.get oid t; Ok t;
|}.
Definition OrderManager_fill : bench_body := {|
  bb_group := "OrderManager"; bb_name := "apply_event() FullFill - existing order";
  bb_state := OrderEvent * OrderManager.t;
  bb_setup :=
    t ← orders_after [order "AAPL" Buy 100 17500 "O1"]; evt ← fill "AAPL" Buy 100 17500 "O1"; Ok (evt, t);
  bb_body _ '(evt, t) :=
    e ← order "AAPL" Buy 100 17500 "O1"; t ← OrderManager.apply_event e t;
    t ← OrderManager.apply_event evt t; _ ← order_of "O1" t; Ok (evt, t);
|}.
Definition OrderManager_partial : bench_body := {|
  bb_group := "OrderManager"; bb_name := "apply_event() PartialFill - avg price update";
  bb_state := OrderManager.t; bb_setup := orders_after [order "AAPL" Buy 10000 17500 "O1"];
  bb_body i t :=
    px ← fp 17500; price ← i64 (px + Z.of_nat i mod 100 * 1000);
    e ← make_fill (sv "AAPL") Buy 10 price (sv "O1") true;
    t ← OrderManager.apply_event e t; _ ← order_of "O1" t; Ok t;
|}.
Definition OrderManager_cancel : bench_body := {|
  bb_group := "OrderManager"; bb_name := "apply_event() Cancel";
  bb_state := OrderEvent * OrderManager.t;
  bb_setup := evt ← cancel "O1"; Ok (evt, OrderManager.init);
  bb_body _ '(evt, t) :=
    e ← order "AAPL" Buy 100 17500 "O1"; t ← OrderManager.apply_event e t;
    t ← OrderManager.apply_event evt t; _ ← order_of "O1" t; Ok (evt, t);
|}.

(** [n] open orders [O0], [O1], ... *)
Definition many_orders (n : nat) : outcome OrderManager.t :=
  foldO (λ i t, px ← fp 17500;
    e ← make_new_order (sv "AAPL") Buy 100 px (sv_of_string (lit "O" ++ to_string (Z.of_nat i)));
    OrderManager.apply_event e t) (seq 0 n) OrderManager.init.
Definition OrderManager_exposure (name : string) (n : nat) : bench_body := {|
  bb_group := "OrderManager"; bb_name := name;
  bb_state := OrderManager.t; bb_setup := many_orders n;
  bb_body _ t := _ ← OrderManager.open_exposure (sv "AAPL") t; Ok t;
|}.

Definition RiskChecker_position : bench_body := {|
  bb_group := "RiskChecker"; bb_name := "check() pass - position-only (legacy)";
  bb_state := PositionTracker.t; bb_setup := tracker_after [fill "AAPL" Buy 20000 17500 "F1"];
  bb_body _ t := px ← fp 17500; _ ← check_tracker default_limits (sv "AAPL") Buy 100 px t; Ok t;
|}.
(** The three cases of the complete check: the books and the quantity. *)
Definition RiskChecker_full (name : string) (fills orders : list (outcome OrderEvent)) (qty : Z) :
    bench_body := {|
  bb_group := "RiskChecker"; bb_name := name;
  bb_state := PositionTracker.t * OrderManager.t;
  bb_setup := t ← tracker_after fills; os ← orders_after orders; Ok (t, os);
  bb_body _ '(t, os) :=
    px ← fp 17500; _ ← check default_limits (sv "AAPL") Buy qty px t os; Ok (t, os);
|}.

Definition books_state : Type := EventLog * PositionTracker.t * OrderManager.t.
Definition book_event (e : OrderEvent) '((log, t, os) : books_state) : outcome books_state :=
  log ← append_on e log; t ← PositionTracker.apply_event e t;
  os ← OrderManager.apply_event e os; Ok (log, t, os).
Definition hot_setup (path : string) : outcome books_state :=
  log ← (open_or_create sys_ok path None).2;
  w ← fill "AAPL" Buy 1 17500 "W"; book_event w (log, PositionTracker.init, OrderManager.init).

Definition FullHotPath_books : bench_body := {|
  bb_group := "FullHotPath"; bb_name := "append + apply_event x2 (no risk)";
  bb_state := books_state; bb_setup := hot_setup "/tmp/hft_bench_full.bin";
  bb_body i s :=
    evt ← fill "AAPL" (side_of i) 100 17500 "O"; s ← book_event evt s;
    _ ← position "AAPL" s.1.2; Ok s;
|}.
Definition FullHotPath_risk : bench_body := {|
  bb_group := "FullHotPath"; bb_name := "risk check + append + apply_event x2";
  bb_state := books_state; bb_setup := hot_setup "/tmp/hft_bench_full2.bin";
  bb_body i s :=
    px ← fp 17500;
    result ← check default_limits (sv "AAPL") (side_of i) 100 px s.1.2 s.2;
    if bool_decide (result = Pass) then
      evt ← fill "AAPL" (side_of i) 100 17500 "O"; book_event evt s
    else Ok s;
|}.

(** In the order of their registration. *)
Definition bodies : list bench_body :=
  [EventLog_append;
   PositionTracker_buy; PositionTracker_alternating; PositionTracker_mark; PositionTracker_get;
   OrderManager_new; OrderManager_fill; OrderManager_partial; OrderManager_cancel;
   OrderManager_exposure "open_exposure() - 10 open orders" 10;
   OrderManager_exposure "open_exposure() - 50 open orders" 50;
   RiskChecker_position;
   RiskChecker_full "check() pass - full (tracker + orders)"
     [fill "AAPL" Buy 20000 17500 "F1"] [order "AAPL" Buy 5000 17500 "O1"] 100;
   RiskChecker_full "check() FailPositionLimit - full"
     [fill "AAPL" Buy 40000 17500 "F1"] [order "AAPL" Buy 15000 17500 "O1"] 100;
   RiskChecker_full "check() FailMaxQty - early exit" [] [] 50000;
   FullHotPath_books; FullHotPath_risk].

(** ** The replay benchmark *)

(** The events that it appends, and the two rebuilds it times. *)
Definition replay_event (i : nat) : outcome OrderEvent := fill "AAPL" (side_of i) 100 17500 "O".
Definition replay_write (i : nat) (log : EventLog) : outcome EventLog :=
  e ← replay_event i; append_on e log.
Definition replay_log (event_count : nat) : outcome EventLog :=
  log ← (open_or_create sys_ok "/tmp/hft_bench_replay.bin" None).2;
  foldO replay_write (seq 0 event_count) log.
Definition run_replay_bench (event_count : nat) : outcome (PositionTracker.t * OrderManager.t) :=
  written ← replay_log event_count;
  log ← (open_or_create sys_ok "/tmp/hft_bench_replay.bin" (Some (el_file written))).2;
  t ← PositionTracker.replay_from log; os ← OrderManager.replay_from log; Ok (t, os).

(** ** [main]: a group, or every case and then the replay *)
Definition bench_main (rdtsc : nat → Z) (g_tsc_ghz : spec_float) (k : nat) (group : option string) :
    printed unit :=
  let cases := case_of rdtsc g_tsc_ghz <$> bodies in
  match group with
  | Some prefix => printed_bind (run_group prefix cases k) (λ _, ([], Ok tt))
  | None => printed_bind (run_all cases k) (λ _, ([], _ ← run_replay_bench iterations; Ok tt))
  end.
End Cases.

(** ** Loops *)

Lemma loop_keeps {A} (body : nat → A → outcome A) (P : nat → A → Prop) n : ∀ i s,
  P i s →
  (∀ j s, (i ≤ j < i + n)%nat → P j s → ∃ s', body j s = Ok s' ∧ P (j + 1)%nat s') →
  ∃ s', plain_loop body n i s = Ok s' ∧ P (i + n)%nat s'.
Proof.
  induction n as [|n IH]; intros i s Hs Hstep; [exists s; by rewrite Nat.add_0_r|].
  destruct (Hstep i s) as (s1 & H1 & Hs1); [lia|done|].
  destruct (IH (i + 1)%nat s1 Hs1) as (s' & Hrun & Hs'); [intros j x Hj; apply Hstep; lia|].
  exists s'. cbn [plain_loop]. rewrite H1. split; [done|]. by replace (i + S n)%nat with (i + 1 + n)%nat by lia.
Qed.

Lemma Ok_checked {A} (m : outcome A) (P : A → bool) :
  match m with Ok a => P a | _ => false end = true → ∃ a, m = Ok a ∧ P a = true.
Proof. destruct m; [eauto|discriminate..]. Qed.

(** A case whose setup and loop return. *)
Definition returns_in (b : bench_body) (n : nat) : Prop :=
  ∃ s s', bb_setup b = Ok s ∧ plain_loop (bb_body b) n 0 s = Ok s'.

Lemma keeps_returns b (P : nat → bb_state b → Prop) n :
  (∃ s, bb_setup b = Ok s ∧ P 0%nat s) →
  (∀ j s, (j < n)%nat → P j s → ∃ s', bb_body b j s = Ok s' ∧ P (j + 1)%nat s') → returns_in b n.
Proof.
  intros (s & Hs & H0) Hstep.
  destruct (loop_keeps (bb_body b) P n 0 s H0) as (s' & Hrun & _); [intros j x Hj; apply Hstep; lia|].
  by exists s, s'.
Qed.

(** A body that reads only. *)
Lemma reads_returns b n :
  (∀ j s s', bb_body b j s = Ok s' → s' = s) → (∀ j s, bb_body b j s = bb_body b 0%nat s) →
  is_Ok (s ← bb_setup b; bb_body b 0%nat s) = true → returns_in b n.
Proof.
  intros Hsame Hconst Hok. apply Ok_ex in Hok as [s' Hok]. apply bind_Ok in Hok as (s & Hs & Hbody).
  pose proof (Hsame _ _ _ Hbody) as ->.
  apply (keeps_returns b (λ _ x, x = s)); [by exists s|]. intros j x _ ->.
  exists s. by rewrite Hconst.
Qed.

(** ** The events *)

Definition fill_event (sd : Side) (q px : Z) (oid : string) (partial : bool) : OrderEvent := {|
  oe_sequence := 0; oe_timestamp_ns := 0; oe_price := 0; oe_fill_price := px;
  oe_qty := q; oe_fill_qty := q;
  oe_symbol := pad 8 (key (sv "AAPL")); oe_order_id := pad 8 (key (sv oid));
  oe_type := if partial then PartialFill else FullFill; oe_side := sd; oe_pad := replicate 6 NUL;
|}.
Definition new_event (sd : Side) (q px : Z) (oid : string_view) : OrderEvent := {|
  oe_sequence := 0; oe_timestamp_ns := 0; oe_price := px; oe_fill_price := 0;
  oe_qty := q; oe_fill_qty := 0;
  oe_symbol := pad 8 (key (sv "AAPL")); oe_order_id := pad 8 (key oid);
  oe_type := NewOrder; oe_side := sd; oe_pad := replicate 6 NUL;
|}.

(** [fp(175.00)] *)
Definition PX : Z := 175000000.
Lemma fp_175 : fp 17500 = Ok PX.
Proof. vm_compute. reflexivity. Qed.

Lemma fill_aapl sd q oid : fill "AAPL" sd q 17500 oid = Ok (fill_event sd q PX oid false).
Proof. unfold fill. rewrite fp_175. cbn [mbind outcome_bind]. apply make_fill_ok; apply sv_ok_string. Qed.

Lemma order_aapl sd q oid : order "AAPL" sd q 17500 oid = Ok (new_event sd q PX (sv oid)).
Proof. unfold order. rewrite fp_175. cbn [mbind outcome_bind]. apply make_new_order_ok; apply sv_ok_string. Qed.

Lemma fill_event_wf i q oid :
  in_i32 q = true → wf_event (fill_event (side_of i) q PX oid false) = true.
Proof.
  intros Hq. unfold wf_event.
  replace (in_i32 (oe_qty _)) with true by (by symmetry).
  replace (in_i32 (oe_fill_qty _)) with true by (by symmetry).
  rewrite (bool_decide_eq_true_2 (length (oe_order_id _) = 8%nat)) by (apply pad_length, cstr_length).
  unfold side_of. by destruct (Nat.even i).
Qed.

(** ** The tracker: AAPL traded [V] shares at 175.00 *)

Definition AAPL : list char := lit "AAPL".
Definition aapl_position (t : PositionTracker.t) : Position :=
  default (Position_fresh (pad 8 AAPL)) (table_map t !! AAPL).
Record traded (V : Z) (t : PositionTracker.t) : Prop := {
  td_wf : table_wf t;
  td_bounded : bounded PX PX V (aapl_position t);
  td_room : table_map t !! AAPL = None → (size (table_map t) < MAX_SYMBOLS)%nat;
}.

Lemma init_traded : traded 0 PositionTracker.init.
Proof.
  split; [apply table_init_wf| |intros _; unfold PositionTracker.init; rewrite table_init_map; vm_compute; lia].
  unfold aapl_position, PositionTracker.init. rewrite table_init_map. by apply bounded_fresh.
Qed.

(** A fill of AAPL at 175.00, stamped or not. *)
Record aapl_fill (q : Z) (e : OrderEvent) : Prop := {
  af_fill : is_fill e = true;
  af_symbol : oe_symbol e = pad 8 (key (sv "AAPL"));
  af_qty : oe_fill_qty e = q;
  af_price : oe_fill_price e = PX;
  af_ids : ids_ok e;
}.

Lemma fill_event_aapl sd q oid partial : aapl_fill q (fill_event sd q PX oid partial).
Proof. split; [by destruct partial|done..|split; apply pad_length, cstr_length]. Qed.

Lemma traded_fill V t e q :
  traded V t → aapl_fill q e → 0 < q → V + q <= 20000000 →
  ∃ t', PositionTracker.apply_event e t = Ok t' ∧ traded (V + q) t' ∧
    is_Ok (position "AAPL" t') = true ∧
    core (aapl_position t') = rule_of e (core (aapl_position t)).
Proof.
  intros [Hwf Hbd Hroom] [Hfill Hsym Hqty Hprice [_ Hlen]] Hq HV. rewrite <- Hqty in *.
  assert (Hcap : PX * (V + oe_fill_qty e) <= INT64_MAX) by (unfold PX, INT64_MAX; lia).
  assert (H32 : V + oe_fill_qty e <= INT32_MAX) by (unfold INT32_MAX; lia).
  assert (Hpx : 0 <= PX) by done.
  assert (Hpx' : PX <= oe_fill_price e <= PX) by lia.
  destruct (apply_fill_total PX PX V e (aapl_position t) Hpx Hbd Hq Hpx' H32 Hcap) as [p' Hp'].
  pose proof (filled_bounded PX PX V e _ p' Hpx Hq Hpx' Hbd (apply_fill_Ok _ _ _ Hp')) as Hbd'.
  destruct (apply_event_tracks e t Hlen Hwf) as [Hmap Hwf'].
  assert (Htrack : track e (table_map t) = Ok (<[AAPL := p']> (table_map t))).
  { unfold track. rewrite Hfill, Hsym. unfold map_upsert.
    change (cstr 8 (pad 8 (key (sv "AAPL")))) with AAPL. unfold aapl_position in Hp'.
    destruct (table_map t !! AAPL) as [p|] eqn:Hp; cbn [default from_option id] in Hp'.
    - by rewrite Hp'.
    - rewrite decide_False by (specialize (Hroom eq_refl); cbn; lia).
      change (slot_fresh (pad 8 AAPL)) with (Position_fresh (pad 8 AAPL)). by rewrite Hp'. }
  rewrite Htrack in Hmap. apply fmap_Ok in Hmap as (t' & Ht' & Hmap'). specialize (Hwf' t' Ht').
  assert (Hp : aapl_position t' = p') by (unfold aapl_position; by rewrite <- Hmap', lookup_insert_eq).
  exists t'. split; [done|]. split; [|split; [|rewrite Hp; apply (apply_fill_Ok _ _ _ Hp')]].
  - split; [done|by rewrite Hp|by rewrite <- Hmap', lookup_insert_eq].
  - unfold position, PositionTracker.get. rewrite get_spec by (done || apply sv_ok_string).
    change (key (sv "AAPL")) with AAPL. by rewrite <- Hmap', lookup_insert_eq.
Qed.

Lemma warm_traded : ∃ t, warm_tracker = Ok t ∧ traded 1 t.
Proof.
  unfold warm_tracker, tracker_after, tracked. cbn [feed]. rewrite fill_aapl. cbn [mbind outcome_bind].
  destruct (traded_fill 0 PositionTracker.init _ 1 init_traded (fill_event_aapl Buy 1 "W" false)) as (t & -> & Ht & _); [lia..|].
  by exists t.
Qed.

Lemma within j : (j < iterations)%nat → Z.of_nat j < 100000.
Proof. intros Hj. apply Nat2Z.inj_lt in Hj. unfold iterations in Hj. by rewrite Z2Nat.id in Hj by done. Qed.

(** The shares traded when iteration [j] begins. *)
Definition after_rounds (j : nat) : Z := 1 + 100 * Z.of_nat j.

Lemma traded_round t j oid :
  (j < iterations)%nat → traded (after_rounds j) t →
  ∃ t', PositionTracker.apply_event (fill_event (side_of j) 100 PX oid false) t = Ok t' ∧
    traded (after_rounds (j + 1)) t' ∧ is_Ok (position "AAPL" t') = true ∧
    core (aapl_position t') = rule_of (fill_event (side_of j) 100 PX oid false) (core (aapl_position t)).
Proof.
  intros Hj%within Ht. unfold after_rounds in *.
  destruct (traded_fill _ t _ 100 Ht (fill_event_aapl (side_of j) 100 oid false)) as (t' & Ht' & Htr & Hp); [lia..|].
  exists t'. split; [done|]. split; [|exact Hp].
  by replace (1 + 100 * Z.of_nat (j + 1)) with (1 + 100 * Z.of_nat j + 100) by lia.
Qed.

Lemma buy_returns n : (n ≤ iterations)%nat → returns_in PositionTracker_buy n.
Proof.
  intros Hn. apply (keeps_returns PositionTracker_buy
    (λ j s, s.1 = fill_event Buy 100 PX "O" false ∧ traded (after_rounds j) s.2)).
  - destruct warm_traded as (t & Ht & Htr). exists (fill_event Buy 100 PX "O" false, t).
    cbn [bb_setup PositionTracker_buy]. rewrite Ht, fill_aapl.
    split; [reflexivity|]. split; [reflexivity|exact Htr].
  - intros j [e t] Hj [He Ht]. cbn [fst snd] in *. subst e.
    assert (Hj' : Z.of_nat j < 100000) by (apply within; lia).
    destruct (traded_fill (after_rounds j) t _ 100 Ht (fill_event_aapl Buy 100 "O" false)) as (t' & Hrun & Htr & Hp & _);
      [lia|unfold after_rounds; lia|].
    exists (fill_event Buy 100 PX "O" false, t'). cbn [bb_body PositionTracker_buy]. rewrite Hrun.
    cbn [mbind outcome_bind]. apply Ok_ex in Hp as [p ->]. split; [done|]. split; [done|]. cbn [snd].
    unfold after_rounds in *. by replace (1 + 100 * Z.of_nat (j + 1)) with (1 + 100 * Z.of_nat j + 100) by lia.
Qed.

Lemma alternating_returns n : (n ≤ iterations)%nat → returns_in PositionTracker_alternating n.
Proof.
  intros Hn. apply (keeps_returns PositionTracker_alternating (λ j t, traded (after_rounds j) t)).
  - exact warm_traded.
  - intros j t Hj Ht. destruct (traded_round t j "O") as (t' & Hrun & Htr & Hp & _); [lia|done|].
    exists t'. cbn [bb_body PositionTracker_alternating]. rewrite fill_aapl. cbn [mbind outcome_bind].
    rewrite Hrun. cbn [mbind outcome_bind]. apply Ok_ex in Hp as [p ->]. done.
Qed.

(** Every event of a test satisfies [Q], every step keeps [P]. *)
Lemma feed_keeps {A} (apply : OrderEvent → A → outcome A) (P : A → Prop) (Q : OrderEvent → Prop) es :
  Forall (λ m, ∀ e, m = Ok e → Q e) es →
  (∀ e s s', Q e → apply e s = Ok s' → P s → P s') → ∀ s s',
  feed apply es s = Ok s' → P s → P s'.
Proof.
  intros Hes Hstep. induction Hes as [|m es Hm _ IH]; intros s s' Hrun Hs; [by injection Hrun as <-|].
  cbn [feed] in Hrun. apply bind_Ok in Hrun as (e & He & Hrun). apply bind_Ok in Hrun as (s1 & H1 & Hrun).
  apply (IH s1 s' Hrun). eapply Hstep; [by apply Hm|exact H1|done].
Qed.

Lemma fill_symbol sym sd q c oid e : fill sym sd q c oid = Ok e → symbol_ok e.
Proof.
  intros He. unfold fill in He. apply bind_Ok in He as (px & _ & He).
  rewrite make_fill_ok in He by apply sv_ok_string. injection He as <-. apply pad_length, cstr_length.
Qed.

Lemma tracker_after_wf es t :
  Forall (λ m, ∀ e, m = Ok e → symbol_ok e) es → tracker_after es = Ok t → table_wf t.
Proof.
  intros Hes Hrun. eapply (feed_keeps PositionTracker.apply_event table_wf symbol_ok es); [done| |exact Hrun|apply table_init_wf].
  intros e s s' He Hs Hwf. exact (proj2 (apply_event_tracks e s He Hwf) s' Hs).
Qed.

(** Marking: the price moves one unit to and fro. *)
Definition marked_at (j : nat) (s : PositionTracker.t * Z) : Prop :=
  table_wf s.1 ∧ Z.abs (s.2 - 200000000) <= Z.of_nat j ∧
  ∃ p, table_map s.1 !! AAPL = Some p ∧ p_net_qty p = 1000 ∧ p_avg_entry_price p = 200000000.

Lemma mark_setup : ∃ s, bb_setup PositionTracker_mark = Ok s ∧ marked_at 0 s.
Proof.
  destruct (Ok_checked (bb_setup PositionTracker_mark) (λ s, bool_decide (s.2 = 200000000) &&
      bool_decide ((λ p, (p_net_qty p, p_avg_entry_price p)) <$> table_map s.1 !! AAPL
        = Some (1000, 200000000)))) as (s & Hs & Hok); [vm_compute; reflexivity|].
  assert (Hwf : table_wf s.1).
  { cbn [bb_setup PositionTracker_mark] in Hs. apply bind_Ok in Hs as (t & Ht & Hs).
    apply bind_Ok in Hs as (px & _ & Hs). injection Hs as <-. refine (tracker_after_wf _ t _ Ht).
    repeat constructor; apply fill_symbol. }
  exists s. split; [exact Hs|]. clear Hs. split; [exact Hwf|].
  apply andb_prop in Hok as [Hpx Hp]. apply bool_decide_eq_true in Hpx, Hp.
  apply fmap_Some in Hp as (p & Hp & Hq). injection Hq as Hnet Havg.
  split; [by rewrite Hpx|by exists p].
Qed.

Lemma mark_returns n : (n ≤ iterations)%nat → returns_in PositionTracker_mark n.
Proof.
  intros Hn. apply (keeps_returns PositionTracker_mark marked_at); [apply mark_setup|].
  intros j [t px] Hj (Hwf & Hpx & p & Hp & Hnet & Havg). cbn [fst snd] in *.
  assert (Hj' : Z.of_nat j < 100000) by (apply within; lia).
  set (px' := px + if Nat.even j then 1 else -1).
  assert (Hpx' : Z.abs (px' - 200000000) <= Z.of_nat (j + 1)) by (unfold px'; destruct (Nat.even j); lia).
  assert (Hmark : ∃ p', mark_position px' p = Ok p' ∧ p_net_qty p' = 1000 ∧ p_avg_entry_price p' = 200000000).
  { unfold mark_position, is_flat. rewrite Hnet, Havg. cbn [Z.eqb].
    rewrite (i64_ok (px' - _)) by lia. cbn [mbind outcome_bind].
    rewrite (i64_ok ((px' - _) * _)) by lia. by eexists. }
  destruct Hmark as (p' & Hp' & Hnet' & Havg').
  destruct (mark_to_market_refines (sv "AAPL") px' t Hwf (sv_ok_string _)) as [Hmap Hwf'].
  change (key (sv "AAPL")) with AAPL in Hmap. unfold map_update in Hmap. rewrite Hp, Hp' in Hmap.
  apply fmap_Ok in Hmap as (t' & Ht' & Hmap'). specialize (Hwf' t' Ht'). exists (t', px').
  cbn [bb_body PositionTracker_mark]. fold px'. rewrite i64_ok by lia. cbn [mbind outcome_bind].
  rewrite Ht'. cbn [mbind outcome_bind]. unfold position, PositionTracker.get.
  rewrite get_spec by (done || apply sv_ok_string). change (key (sv "AAPL")) with AAPL.
  rewrite <- Hmap', lookup_insert_eq. split; [done|]. split; [done|]. split; [done|].
  exists p'. cbn [fst]. by rewrite <- Hmap', lookup_insert_eq.
Qed.

Lemma get_returns n : returns_in PositionTracker_get n.
Proof.
  apply reads_returns; [|done|vm_compute; reflexivity].
  intros j s s' Hrun. cbn [bb_body PositionTracker_get] in Hrun. apply bind_Ok in Hrun as (p & _ & Hrun).
  by injection Hrun as <-.
Qed.

(** ** The log: [n] events *)

Definition logged (n : Z) (l : EventLog) : Prop := ∃ es, log_wf l es ∧ Z.of_nat (length es) = n.

Section Clock.
Context (clock : Z → timespec).

Lemma append_logged n e l :
  logged n l → n < MAX_EVENTS → wf_event e = true →
  ∃ l', append_on clock e l = Ok l' ∧ logged (n + 1) l'.
Proof.
  intros (es & Hwf & Hlen) Hn He.
  assert (Hrep : log_rep (L := EventLog) l es) by exact Hwf.
  destruct (log_append_rep l es e (clock (el_size l)) Hrep He) as (l' & Happ & Hrep'); [lia|].
  exists l'. change (append e (clock (el_size l)) l = Ok (Z.of_nat (length es), l')) in Happ.
  unfold append_on. rewrite Happ. split; [done|]. eexists. split; [exact Hrep'|].
  rewrite length_app. cbn [length]. lia.
Qed.

Lemma append_times_logged k e : ∀ n l,
  logged n l → n + Z.of_nat k <= MAX_EVENTS → wf_event e = true →
  ∃ l', append_times clock k e l = Ok l' ∧ logged (n + Z.of_nat k) l'.
Proof.
  induction k as [|k IH]; intros n l Hl Hn He; [exists l; by rewrite Z.add_0_r|].
  destruct (append_logged n e l Hl) as (l1 & H1 & Hl1); [lia|done|].
  destruct (IH (n + 1) l1 Hl1) as (l' & Hrun & Hl'); [lia|done|].
  exists l'. cbn [append_times]. rewrite H1. cbn [mbind outcome_bind]. split; [done|].
  by replace (n + Z.of_nat (S k)) with (n + 1 + Z.of_nat k) by lia.
Qed.

Lemma fresh_logged path : ∃ l, (open_or_create sys_ok path None).2 = Ok l ∧ logged 0 l.
Proof. destruct (create_wf path) as (l & -> & Hwf). exists l. split; [done|]. by exists []. Qed.

Lemma append_returns n : (n ≤ iterations)%nat → returns_in (EventLog_append clock) n.
Proof.
  intros Hn. set (evt := fill_event Buy 100 PX "O" false).
  apply (keeps_returns (EventLog_append clock) (λ j s, s.1 = evt ∧ logged (1000 + Z.of_nat j) s.2)).
  - destruct (fresh_logged "/tmp/hft_bench_log.bin") as (l0 & H0 & Hl0).
    destruct (append_times_logged 1000 (fill_event Buy 1 PX "W" false) 0 l0 Hl0) as (l1 & H1 & Hl1);
      [unfold MAX_EVENTS; lia|by apply (fill_event_wf 0)|].
    exists (evt, l1). cbn [bb_setup EventLog_append]. rewrite H0, fill_aapl. cbn [mbind outcome_bind].
    rewrite fill_aapl. cbn [mbind outcome_bind]. rewrite H1. split; [reflexivity|].
    split; [reflexivity|exact Hl1].
  - intros j [e l] Hj [He Hl]. cbn [fst snd] in *. subst e.
    assert (Hj' : Z.of_nat j < 100000) by (apply within; lia).
    destruct (append_logged _ evt l Hl) as (l' & Happ & Hl');
      [unfold MAX_EVENTS; lia|by apply (fill_event_wf 0)|].
    exists (evt, l'). cbn [bb_body EventLog_append]. rewrite Happ. split; [reflexivity|].
    split; [reflexivity|]. cbn [snd].
    by replace (1000 + Z.of_nat (j + 1)) with (1000 + Z.of_nat j + 1) by lia.
Qed.

(** ** The hot path: the manager never holds an order *)

Lemma fill_unknown e :
  is_fill e = true → ids_ok e → OrderManager.apply_event e OrderManager.init = Ok OrderManager.init.
Proof.
  intros Hfill Hids. destruct (order_id_view_ok e Hids) as (v & Hv & _).
  transitivity (OrderManager.handle_fill e OrderManager.init).
  { unfold OrderManager.apply_event. unfold is_fill in Hfill. by destruct (oe_type e). }
  unfold OrderManager.handle_fill. by rewrite Hv.
Qed.
Lemma fills_unknown es :
  Forall (λ e, is_fill e = true ∧ ids_ok e) es →
  foldO OrderManager.apply_event es OrderManager.init = Ok OrderManager.init.
Proof.
  induction 1 as [|e es [Hf Hi] _ IH]; [done|]. cbn [foldO]. rewrite fill_unknown by done. exact IH.
Qed.

Record hot (j : nat) (s : books_state) : Prop := {
  hot_log : logged (1 + Z.of_nat j) s.1.1;
  hot_tracker : traded (after_rounds j) s.1.2;
  hot_orders : s.2 = OrderManager.init;
  hot_core : core (aapl_position s.1.2) = (if Nat.even j then 1 else 101, PX, 0);
}.

Lemma hot_start path : ∃ s, hot_setup clock path = Ok s ∧ hot 0 s.
Proof.
  destruct (fresh_logged path) as (l0 & H0 & Hl0).
  destruct (append_logged 0 (fill_event Buy 1 PX "W" false) l0 Hl0) as (l & Happ & Hl);
    [done|by apply (fill_event_wf 0)|].
  destruct (traded_fill 0 PositionTracker.init _ 1 init_traded (fill_event_aapl Buy 1 "W" false)) as (t & Ht & Htr & _ & Hcore); [lia..|].
  exists (l, t, OrderManager.init). unfold hot_setup, book_event. rewrite H0, fill_aapl. cbn [mbind outcome_bind].
  rewrite Happ. cbn [mbind outcome_bind]. rewrite Ht. cbn [mbind outcome_bind]. rewrite fill_unknown by apply (fill_event_aapl Buy 1 "W" false).
  split; [reflexivity|]. split; [exact Hl|exact Htr|reflexivity|exact Hcore].
Qed.

Lemma hot_book j s :
  (j < iterations)%nat → hot j s →
  ∃ s', book_event clock (fill_event (side_of j) 100 PX "O" false) s = Ok s' ∧ hot (j + 1) s' ∧
    is_Ok (position "AAPL" s'.1.2) = true.
Proof.
  intros Hj [Hl Ht Ho Hcore]. destruct s as [[l t] os]. cbn [fst snd] in *. subst os.
  pose proof (within j Hj) as Hj'.
  destruct (append_logged _ (fill_event (side_of j) 100 PX "O" false) l Hl) as (l' & Happ & Hl');
    [unfold MAX_EVENTS; lia|by apply fill_event_wf|].
  destruct (traded_round t j "O" Hj Ht) as (t' & Ht' & Htr & Hp & Hcore').
  exists (l', t', OrderManager.init). unfold book_event. rewrite Happ. cbn [mbind outcome_bind].
  rewrite Ht'. cbn [mbind outcome_bind]. rewrite fill_unknown by apply (fill_event_aapl _ 100 "O" false). split; [reflexivity|].
  split; [|exact Hp]. split; [|exact Htr|reflexivity|].
  - cbn [fst]. by replace (1 + Z.of_nat (j + 1)) with (1 + Z.of_nat j + 1) by lia.
  - cbn [fst snd]. rewrite Hcore', Hcore, Nat.add_1_r, Nat.even_succ, <- Nat.negb_even.
    unfold side_of. by destruct (Nat.even j).
Qed.

Lemma books_step j s :
  (j < iterations)%nat → hot j s → ∃ s', bb_body (FullHotPath_books clock) j s = Ok s' ∧ hot (j + 1) s'.
Proof.
  intros Hj Hs. destruct (hot_book j s Hj Hs) as (s' & Hrun & Hs' & Hp). exists s'.
  cbn [bb_body FullHotPath_books]. rewrite fill_aapl. cbn [mbind outcome_bind]. rewrite Hrun.
  cbn [mbind outcome_bind]. apply Ok_ex in Hp as [p ->]. by split.
Qed.

(** The position stays between 1 and 101, so the check passes every time. *)
Lemma check_passes j s :
  hot j s → check default_limits (sv "AAPL") (side_of j) 100 PX s.1.2 s.2 = Ok Pass.
Proof.
  intros [_ [Hwf _ _] Ho Hcore]. rewrite Ho. unfold core, aapl_position in Hcore.
  assert (Hempty : table_map OrderManager.init = ∅) by apply table_init_map.
  destruct (table_map s.1.2 !! AAPL) as [p|] eqn:Hp; cycle 1.
  { cbn in Hcore. by destruct (Nat.even j). }
  injection Hcore as Hnet _ Hreal. cbn [default from_option id] in Hnet, Hreal.
  assert (Hnet_of : net_of AAPL (table_map s.1.2) = if Nat.even j then 1 else 101)
    by (unfold net_of; by rewrite Hp).
  assert (Hos : symbols_ok OrderManager.init) by (intros o Ho'; by apply not_elem_of_nil in Ho').
  destruct (check_total default_limits (sv "AAPL") (side_of j) 100 PX s.1.2 OrderManager.init) as [r Hr];
    [exact Hwf|apply table_init_wf|exact Hos|apply sv_ok_string|vm_compute; discriminate
    |vm_compute; discriminate| | |vm_compute; discriminate|vm_compute; discriminate|].
  - rewrite Hempty. vm_compute. discriminate.
  - change (key (sv "AAPL")) with AAPL. rewrite Hnet_of. by destruct (Nat.even j).
  - rewrite Hr. f_equal. apply check_rule in Hr; [|done|apply table_init_wf|exact Hos|apply sv_ok_string].
    rewrite Hr. change (key (sv "AAPL")) with AAPL. unfold true_exposure. rewrite Hnet_of, Hempty, Hp.
    cbn [fmap option_fmap option_map]. rewrite Hreal. unfold side_of. by destruct (Nat.even j).
Qed.

Lemma risk_step j s :
  (j < iterations)%nat → hot j s → ∃ s', bb_body (FullHotPath_risk clock) j s = Ok s' ∧ hot (j + 1) s'.
Proof.
  intros Hj Hs. destruct (hot_book j s Hj Hs) as (s' & Hrun & Hs' & _). exists s'. split; [|exact Hs'].
  cbn [bb_body FullHotPath_risk]. rewrite fp_175. cbn [mbind outcome_bind].
  rewrite (check_passes j s Hs). cbn [mbind outcome_bind]. rewrite bool_decide_eq_true_2 by reflexivity.
  by rewrite fill_aapl.
Qed.

Lemma books_returns n : (n ≤ iterations)%nat → returns_in (FullHotPath_books clock) n.
Proof.
  intros Hn. apply (keeps_returns (FullHotPath_books clock) hot); [exact (hot_start _)|].
  intros j s Hj Hs. refine (books_step j s _ Hs). lia.
Qed.

Lemma risk_returns n : (n ≤ iterations)%nat → returns_in (FullHotPath_risk clock) n.
Proof.
  intros Hn. apply (keeps_returns (FullHotPath_risk clock) hot); [exact (hot_start _)|].
  intros j s Hj Hs. refine (risk_step j s _ Hs). lia.
Qed.
End Clock.

(** ** The manager *)

Definition O1 : list char := lit "O1".

(** An event of the manager on an order that is there or has room. *)
Lemma managed_event e t o o' :
  ids_ok e → table_wf t →
  (table_map t !! order_key e = Some o ∨
   oe_type e = NewOrder ∧ table_map t !! order_key e = None ∧ o = Order_fresh (pad 8 (order_key e)) ∧
   (size (table_map t) < MAX_ORDERS)%nat) →
  order_step e o = Ok o' →
  ∃ t', OrderManager.apply_event e t = Ok t' ∧ table_wf t' ∧
    table_map t' = <[order_key e := o']> (table_map t).
Proof.
  intros He Hwf Ho Hstep. destruct (manager_apply_event e t He Hwf) as [Hmap Hwf'].
  assert (Hm : manage e (table_map t) = Ok (<[order_key e := o']> (table_map t))).
  { unfold manage, map_upsert, map_update. destruct Ho as [Ho|(Hn & Hnone & -> & Hroom)].
    - rewrite Ho, Hstep. by destruct (decide (oe_type e = NewOrder)).
    - rewrite decide_True, Hnone, decide_False by (done || cbn; lia).
      change (slot_fresh (pad 8 (order_key e))) with (Order_fresh (pad 8 (order_key e))). by rewrite Hstep. }
  rewrite Hm in Hmap. apply fmap_Ok in Hmap as (t' & Ht' & Hmap'). exists t'. eauto.
Qed.

Lemma event_ids sd q px oid partial : ids_ok (fill_event sd q px oid partial).
Proof. split; apply pad_length, cstr_length. Qed.
Lemma new_event_ids sd q px oid : ids_ok (new_event sd q px oid).
Proof. split; apply pad_length, cstr_length. Qed.

Lemma new_event_key sd q px oid : order_key (new_event sd q px oid) = key oid.
Proof. apply cstr_idemp. Qed.

(** What [handle_new] makes of the event, whatever the slot held. *)
Definition opened (q : Z) (o : Order) : Order := {|
  o_order_id := o_order_id o; o_symbol := pad 8 (key (sv "AAPL")); o_limit_price := PX;
  o_avg_fill_price := 0; o_opened_seq := 0; o_last_seq := 0;
  o_original_qty := q; o_filled_qty := 0; o_state := Pending; o_side := Buy;
|}.
Lemma new_step q oid o : order_step (new_event Buy q PX oid) o = Ok (opened q o).
Proof. reflexivity. Qed.

Lemma reopened q oid t :
  table_wf t → (table_map t !! key oid = None → (size (table_map t) < MAX_ORDERS)%nat) →
  ∃ t' o, OrderManager.apply_event (new_event Buy q PX oid) t = Ok t' ∧ table_wf t' ∧
    table_map t' = <[key oid := opened q o]> (table_map t).
Proof.
  intros Hwf Hroom. rewrite <- (new_event_key Buy q PX oid) in *.
  destruct (table_map t !! order_key (new_event Buy q PX oid)) as [o|] eqn:Ho.
  - destruct (managed_event (new_event Buy q PX oid) t o (opened q o)) as (t' & Ht' & Hwf' & Hm);
      [apply new_event_ids|done|by left|apply new_step|]. by exists t', o.
  - destruct (managed_event (new_event Buy q PX oid) t _ (opened q (Order_fresh _))
      (new_event_ids _ _ _ _) Hwf (or_intror (conj eq_refl (conj Ho (conj eq_refl (Hroom eq_refl)))))
      (new_step _ _ _)) as (t' & Ht' & Hwf' & Hm). by eexists t', _.
Qed.

Lemma order_of_ok oid t o :
  table_wf t → table_map t !! key (sv oid) = Some o → order_of oid t = Ok o.
Proof.
  intros Hwf Ho. unfold order_of, OrderManager.get. rewrite get_spec by (done || apply sv_ok_string).
  by rewrite Ho.
Qed.

(** Two of the cases open the order again and close it in every iteration. *)
Definition holds_O1 (t : OrderManager.t) : Prop := table_wf t ∧ is_Some (table_map t !! O1).

Lemma reopen_and_close e t :
  table_wf t → (table_map t !! O1 = None → (size (table_map t) < MAX_ORDERS)%nat) →
  ids_ok e → order_key e = O1 → (∀ o, is_Ok (order_step e (opened 100 o)) = true) →
  ∃ t1 t2 o, OrderManager.apply_event (new_event Buy 100 PX (sv "O1")) t = Ok t1 ∧
    OrderManager.apply_event e t1 = Ok t2 ∧ order_of "O1" t2 = Ok o ∧ holds_O1 t2.
Proof.
  intros Hwf Hroom He Hk Hstep.
  destruct (reopened 100 (sv "O1") t Hwf Hroom) as (t1 & o & H1 & Hwf1 & Hm1).
  change (key (sv "O1")) with O1 in Hm1. destruct (Ok_ex _ (Hstep o)) as [o' Ho'].
  destruct (managed_event e t1 (opened 100 o) o' He Hwf1) as (t2 & H2 & Hwf2 & Hm2);
    [left; by rewrite Hk, Hm1, lookup_insert_eq|done|]. rewrite Hk in Hm2.
  assert (Hl : table_map t2 !! O1 = Some o') by (by rewrite Hm2, lookup_insert_eq).
  exists t1, t2, o'. split; [exact H1|]. split; [exact H2|]. split; [by apply order_of_ok|].
  split; [exact Hwf2|by exists o'].
Qed.

Lemma init_has_room k :
  table_map OrderManager.init !! k = None ∧ (size (table_map OrderManager.init) < MAX_ORDERS)%nat.
Proof. unfold OrderManager.init. rewrite table_init_map. split; [done|vm_compute; lia]. Qed.

Definition cancel_event : OrderEvent := {|
  oe_sequence := 0; oe_timestamp_ns := 0; oe_price := 0; oe_fill_price := 0;
  oe_qty := 0; oe_fill_qty := 0; oe_symbol := oe_symbol OrderEvent_zero;
  oe_order_id := pad 8 (key (sv "O1")); oe_type := Cancel; oe_side := oe_side OrderEvent_zero;
  oe_pad := oe_pad OrderEvent_zero;
|}.
Lemma cancel_O1 : cancel "O1" = Ok cancel_event.
Proof. vm_compute. reflexivity. Qed.

Lemma fill_order_returns n : returns_in OrderManager_fill n.
Proof.
  set (evt := fill_event Buy 100 PX "O1" false).
  apply (keeps_returns OrderManager_fill (λ _ s, s.1 = evt ∧ holds_O1 s.2)).
  - destruct (init_has_room O1) as [_ Hroom].
    destruct (reopened 100 (sv "O1") OrderManager.init (table_init_wf) (λ _, Hroom)) as (t & o & Ht & Hwf & Hm).
    exists (evt, t). cbn [bb_setup OrderManager_fill]. unfold orders_after, managed. cbn [feed].
    rewrite order_aapl, fill_aapl. cbn [mbind outcome_bind]. rewrite Ht. split; [reflexivity|].
    split; [reflexivity|]. split; [exact Hwf|]. cbn [snd]. rewrite Hm.
    exists (opened 100 o). apply lookup_insert_eq.
  - intros j [e t] _ [He [Hwf Ho]]. cbn [fst snd] in *. subst e.
    destruct (reopen_and_close evt t Hwf) as (t1 & t2 & o & H1 & H2 & Hget & Hh);
      [intros Hnone; rewrite Hnone in Ho; by destruct Ho|apply event_ids|reflexivity|reflexivity|].
    exists (evt, t2). cbn [bb_body OrderManager_fill]. rewrite order_aapl. cbn [mbind outcome_bind].
    rewrite H1. cbn [mbind outcome_bind]. rewrite H2. cbn [mbind outcome_bind]. rewrite Hget. by split.
Qed.

Lemma cancel_returns n : returns_in OrderManager_cancel n.
Proof.
  apply (keeps_returns OrderManager_cancel (λ j s, s.1 = cancel_event ∧
    (holds_O1 s.2 ∨ s.2 = OrderManager.init))).
  - exists (cancel_event, OrderManager.init). cbn [bb_setup OrderManager_cancel]. rewrite cancel_O1.
    split; [reflexivity|]. split; [reflexivity|by right].
  - intros j [e t] _ [He Ht]. cbn [fst snd] in *. subst e.
    assert (Hstart : table_wf t ∧ (table_map t !! O1 = None → (size (table_map t) < MAX_ORDERS)%nat)).
    { destruct Ht as [[Hwf [o Ho]]| ->]; [split; [done|by rewrite Ho]|].
      split; [apply table_init_wf|intros _; apply (init_has_room O1)]. }
    destruct Hstart as [Hwf Hroom].
    destruct (reopen_and_close cancel_event t Hwf Hroom) as (t1 & t2 & o & H1 & H2 & Hget & Hh);
      [split; reflexivity|reflexivity|reflexivity|].
    exists (cancel_event, t2). cbn [bb_body OrderManager_cancel]. rewrite order_aapl. cbn [mbind outcome_bind].
    rewrite H1. cbn [mbind outcome_bind]. rewrite H2. cbn [mbind outcome_bind]. rewrite Hget.
    split; [reflexivity|]. split; [reflexivity|by left].
Qed.

(** Partial fills of ten: the order's quantity is long exceeded. *)
Definition partly_filled (j : nat) (t : OrderManager.t) : Prop :=
  table_wf t ∧ ∃ o, table_map t !! O1 = Some o ∧ o_original_qty o = 10000 ∧
    o_filled_qty o = 10 * Z.of_nat j ∧
    (o_filled_qty o = 0 ∨ PX <= o_avg_fill_price o <= PX + 99000) ∧ Z.abs (o_avg_fill_price o) <= INT64_MAX.

Lemma partial_returns n : (n ≤ iterations)%nat → returns_in OrderManager_partial n.
Proof.
  intros Hn. apply (keeps_returns OrderManager_partial partly_filled).
  - destruct (init_has_room O1) as [_ Hroom].
    destruct (reopened 10000 (sv "O1") OrderManager.init table_init_wf (λ _, Hroom)) as (t & o & Ht & Hwf & Hm).
    exists t. cbn [bb_setup OrderManager_partial]. unfold orders_after, managed. cbn [feed].
    rewrite order_aapl. cbn [mbind outcome_bind]. rewrite Ht. split; [reflexivity|]. split; [exact Hwf|].
    exists (opened 10000 o). rewrite Hm. split; [apply lookup_insert_eq|]. by split_and!; [..|left|].
  - intros j t Hj (Hwf & o & Ho & Horig & Hfilled & Havg & Habs).
    assert (Hj' : Z.of_nat j < 100000) by (apply within; lia).
    pose proof (Z.mod_pos_bound (Z.of_nat j) 100 ltac:(lia)) as Hmod.
    set (price := PX + Z.of_nat j mod 100 * 1000). set (e := fill_event Buy 10 price "O1" true).
    assert (Hprice : PX <= price <= PX + 99000) by (unfold price; lia).
    destruct (fill_order_total PX (PX + 99000) (10 * Z.of_nat j) e o) as (o' & Hstep & Havg');
      [done|done|exact Hprice|lia|exact Havg|unfold INT32_MAX; lia|unfold INT32_MAX; cbn; lia
      |unfold INT64_MAX, PX; cbn; lia|exact Habs|].
    pose proof (fill_order_Ok _ _ _ Hstep) as (_ & _ & _ & _ & Horig' & _ & _ & Hfilled' & _).
    destruct (managed_event e t o o' (event_ids _ _ _ _ _) Hwf) as (t' & Ht' & Hwf' & Hm);
      [by left|exact Hstep|]. change (order_key e) with O1 in Hm.
    assert (Hl : table_map t' !! O1 = Some o') by (by rewrite Hm, lookup_insert_eq).
    exists t'. cbn [bb_body OrderManager_partial]. rewrite fp_175. cbn [mbind outcome_bind].
    fold price. rewrite i64_ok by (unfold PX in *; lia). cbn [mbind outcome_bind].
    rewrite make_fill_ok by apply sv_ok_string. change (Ok _ ≫= ?f) with (f e). cbv beta.
    rewrite Ht'. cbn [mbind outcome_bind]. rewrite (order_of_ok "O1" t' o') by done.
    split; [reflexivity|]. split; [exact Hwf'|]. exists o'. rewrite Horig', Hfilled'. cbn [oe_fill_qty e].
    split_and!; [exact Hl|exact Horig|unfold e; cbn; lia|by right|unfold PX, INT64_MAX in *; lia].
Qed.

(** ** 256 identifiers in rotation *)

Definition rotating_id (m : nat) : list char := key (sv_of_string (padded_id (Z.of_nat m))).
Definition first_ids (n : nat) : gset (list char) := list_to_set (rotating_id <$> seq 0 n).

Lemma rotating_ids_distinct : NoDup (rotating_id <$> seq 0 256).
Proof. apply (bool_decide_eq_true_1 _). vm_compute. reflexivity. Qed.

Lemma first_ids_S n : first_ids (S n) = {[ rotating_id n ]} ∪ first_ids n.
Proof. unfold first_ids. rewrite seq_S, fmap_app, list_to_set_app_L. cbn. set_solver. Qed.

Lemma first_ids_in m n : (m < n)%nat → rotating_id m ∈ first_ids n.
Proof. intros Hm. apply elem_of_list_to_set, list_elem_of_fmap_2, elem_of_seq. lia. Qed.

Lemma first_ids_size n : (n ≤ 256)%nat → size (first_ids n) = n.
Proof.
  intros Hn. unfold first_ids. rewrite size_list_to_set; [by rewrite length_fmap, length_seq|].
  pose proof rotating_ids_distinct as Hd. replace 256%nat with (n + (256 - n))%nat in Hd by lia.
  rewrite seq_app, fmap_app in Hd. by apply NoDup_app in Hd as [Hd _].
Qed.

Lemma first_ids_next j :
  {[ rotating_id (j mod 256) ]} ∪ first_ids (j `min` 256) = first_ids ((j + 1) `min` 256).
Proof.
  destruct (decide (j < 256)%nat) as [Hj|Hj].
  - rewrite Nat.mod_small, !Nat.min_l, Nat.add_1_r by lia. by rewrite first_ids_S.
  - rewrite !Nat.min_r by lia. pose proof (first_ids_in (j mod 256) 256) as Hin.
    apply subseteq_union_1_L, singleton_subseteq_l, Hin, Nat.mod_upper_bound. lia.
Qed.

Definition rotated (j : nat) (t : OrderManager.t) : Prop :=
  table_wf t ∧ dom (table_map t) = first_ids (j `min` 256).

Lemma rotated_count j t : rotated j t → OrderManager.order_count t = (j `min` 256)%nat.
Proof.
  intros [Hwf Hdom]. unfold OrderManager.order_count. rewrite <- (table_map_size t Hwf), <- size_dom, Hdom.
  apply first_ids_size. lia.
Qed.

Lemma rotated_start : rotated 0 OrderManager.init.
Proof. split; [apply table_init_wf|]. unfold OrderManager.init. rewrite table_init_map. apply dom_empty_L. Qed.

Lemma rotated_step j t :
  rotated j t → ∃ t', bb_body OrderManager_new j t = Ok t' ∧ rotated (j + 1) t'.
Proof.
  intros Hrot. pose proof (rotated_count j t Hrot) as Hcount. destruct Hrot as [Hwf Hdom].
  set (oid := sv_of_string (padded_id (Z.of_nat j mod 256))).
  assert (Hkey : key oid = rotating_id (j mod 256)) by (unfold oid, rotating_id; by rewrite Nat2Z.inj_mod).
  destruct (reopened 100 oid t Hwf) as (t' & o & Ht' & Hwf' & Hm).
  { intros _. rewrite (table_map_size t Hwf). change (count_ t) with (OrderManager.order_count t).
    rewrite Hcount. unfold MAX_ORDERS. lia. }
  exists t'. cbn [bb_body OrderManager_new]. rewrite fp_175. cbn [mbind outcome_bind]. fold oid.
  rewrite make_new_order_ok by apply sv_ok_string. change (Ok _ ≫= ?f) with (f (new_event Buy 100 PX oid)).
  cbv beta. rewrite Ht'. cbn [mbind outcome_bind]. unfold OrderManager.get.
  rewrite get_spec by (done || apply sv_ok_string). split; [reflexivity|]. split; [exact Hwf'|].
  by rewrite Hm, dom_insert_L, Hdom, Hkey, first_ids_next.
Qed.

(** ** The cases that only read *)

Lemma exposure_returns name n k :
  is_Ok (t ← many_orders k; OrderManager.open_exposure (sv "AAPL") t) = true →
  returns_in (OrderManager_exposure name k) n.
Proof.
  intros Hok. apply reads_returns; [|done|].
  - intros j s s' Hrun. cbn [bb_body OrderManager_exposure] in Hrun.
    apply bind_Ok in Hrun as (x & _ & Hrun). by injection Hrun as <-.
  - cbn [bb_setup bb_body OrderManager_exposure]. apply Ok_ex in Hok as [x Hok].
    apply bind_Ok in Hok as (t & -> & Hx). cbn [mbind outcome_bind]. by rewrite Hx.
Qed.

Lemma position_check_returns n : returns_in RiskChecker_position n.
Proof.
  apply reads_returns; [|done|vm_compute; reflexivity].
  intros j s s' Hrun. cbn [bb_body RiskChecker_position] in Hrun.
  apply bind_Ok in Hrun as (x & _ & Hrun). apply bind_Ok in Hrun as (r & _ & Hrun). by injection Hrun as <-.
Qed.

Lemma full_check_returns name fills orders qty n :
  is_Ok (t ← tracker_after fills; os ← orders_after orders;
         check default_limits (sv "AAPL") Buy qty PX t os) = true →
  returns_in (RiskChecker_full name fills orders qty) n.
Proof.
  intros Hok. apply reads_returns; [|done|].
  - intros j [t os] s' Hrun. cbn [bb_body RiskChecker_full] in Hrun.
    apply bind_Ok in Hrun as (x & _ & Hrun). apply bind_Ok in Hrun as (r & _ & Hrun). by injection Hrun as <-.
  - cbn [bb_setup bb_body RiskChecker_full]. rewrite fp_175. apply Ok_ex in Hok as [x Hok].
    apply bind_Ok in Hok as (t & -> & Hok). cbn [mbind outcome_bind].
    apply bind_Ok in Hok as (os & -> & Hx). cbn [mbind outcome_bind]. by rewrite Hx.
Qed.

(** ** The replay benchmark *)

Lemma fills_traded es : ∀ V t,
  traded V t → Forall (aapl_fill 100) es → V + 100 * Z.of_nat (length es) <= 20000000 →
  ∃ t', foldO PositionTracker.apply_event es t = Ok t' ∧ traded (V + 100 * Z.of_nat (length es)) t'.
Proof.
  induction es as [|e es IH]; intros V t Ht Hes HV; cbn [length] in *.
  { exists t. by replace (V + 100 * Z.of_nat 0) with V by lia. }
  apply Forall_cons in Hes as [He Hes].
  destruct (traded_fill V t e 100 Ht He) as (t1 & H1 & Ht1 & _); [lia..|].
  destruct (IH (V + 100) t1 Ht1 Hes) as (t' & Hrun & Ht'); [lia|].
  exists t'. cbn [foldO]. rewrite H1. split; [exact Hrun|].
  by replace (V + 100 * Z.of_nat (S (length es))) with (V + 100 + 100 * Z.of_nat (length es)) by lia.
Qed.

Section Replay.
Context (clock : Z → timespec).

Lemma stamp_aapl e seq ts : aapl_fill 100 e → aapl_fill 100 (stamp e seq ts).
Proof. intros [Hf Hs Hq Hp Hi]. by split. Qed.

Lemma replay_written n : ∀ i l es,
  log_wf l es → Forall (aapl_fill 100) es → Z.of_nat (length es) + Z.of_nat n <= MAX_EVENTS →
  ∃ l' es', foldO (replay_write clock) (seq i n) l = Ok l' ∧
    log_wf l' es' ∧ Forall (aapl_fill 100) es' ∧ length es' = (length es + n)%nat.
Proof.
  induction n as [|n IH]; intros i l es Hwf Hes Hlen; [exists l, es; split_and!; (done || lia)|].
  set (e := fill_event (side_of i) 100 PX "O" false).
  assert (Hrep : log_rep (L := EventLog) l es) by exact Hwf.
  destruct (log_append_rep l es e (clock (el_size l)) Hrep) as (l1 & Happ & Hrep1);
    [by apply fill_event_wf|lia|].
  change (append e (clock (el_size l)) l = Ok (Z.of_nat (length es), l1)) in Happ.
  destruct (IH (S i) l1 _ Hrep1) as (l' & es' & Hrun & Hwf' & Hes' & Hlen').
  { apply Forall_app. split; [done|]. repeat constructor; apply stamp_aapl, fill_event_aapl. }
  { rewrite length_app. cbn [length]. lia. }
  assert (Hwrite : replay_write clock i l = Ok l1).
  { unfold replay_write, replay_event. rewrite fill_aapl. cbn [mbind outcome_bind]. unfold append_on.
    fold e. by rewrite Happ. }
  exists l', es'. cbn [seq foldO]. rewrite Hwrite. split; [exact Hrun|]. split; [done|]. split; [done|]. rewrite Hlen', length_app. cbn [length]. lia.
Qed.

Lemma replay_bench_run n :
  (n ≤ iterations)%nat →
  ∃ t, run_replay_bench clock n = Ok (t, OrderManager.init) ∧ traded (100 * Z.of_nat n) t.
Proof.
  intros Hn. assert (Hn' : Z.of_nat n <= 100000).
  { apply Nat2Z.inj_le in Hn. unfold iterations in Hn. by rewrite Z2Nat.id in Hn by done. }
  set (path := "/tmp/hft_bench_replay.bin"). destruct (create_wf path) as (l0 & Hopen & Hwf0).
  destruct (replay_written n 0 l0 [] Hwf0) as (l & es & Hrun & Hwf & Hes & Hlen);
    [constructor|cbn [length]; unfold MAX_EVENTS; lia|]. cbn [length Nat.add] in Hlen.
  destruct (fills_traded es 0 PositionTracker.init init_traded Hes) as (t & Ht & Htr); [lia|].
  assert (Hrep : log_rep (L := EventLog) l es) by exact Hwf.
  exists t. unfold run_replay_bench, replay_log. fold path. rewrite Hopen. cbn [snd mbind outcome_bind].
  rewrite Hrun. cbn [mbind outcome_bind]. rewrite (reopen_wf path l es Hwf). cbn [snd mbind outcome_bind].
  unfold PositionTracker.replay_from, OrderManager.replay_from. rewrite !(log_replay_rep l es) by done.
  rewrite Ht. cbn [mbind outcome_bind]. rewrite fills_unknown; cycle 1.
  { eapply Forall_impl; [exact Hes|]. intros e [? ? ? ? ?]. done. }
  split; [reflexivity|]. by rewrite <- Hlen.
Qed.
End Replay.

(** Every case of the benchmark returns: no iteration of any of them throws or is
    undefined, for the number of iterations they are registered with. *)
Lemma benchmark_cases_return clock b :
  b ∈ bodies clock → returns_in b iterations.
Proof.
  intros Hb. unfold bodies in Hb.
  repeat (apply elem_of_cons in Hb as [->|Hb]).
  - by apply append_returns.
  - by apply buy_returns.
  - by apply alternating_returns.
  - by apply mark_returns.
  - apply get_returns.
  - apply (keeps_returns OrderManager_new rotated); [|intros j t _; apply rotated_step].
    exists OrderManager.init. split; [reflexivity|apply rotated_start].
  - apply fill_order_returns.
  - by apply partial_returns.
  - apply cancel_returns.
  - apply exposure_returns. vm_compute. reflexivity.
  - apply exposure_returns. vm_compute. reflexivity.
  - apply position_check_returns.
  - apply full_check_returns. vm_compute. reflexivity.
  - apply full_check_returns. vm_compute. reflexivity.
  - apply full_check_returns. vm_compute. reflexivity.
  - by apply books_returns.
  - by apply risk_returns.
  - by apply elem_of_nil in Hb.
Qed.

(** With the counter: one sample per iteration. *)
Lemma iterations_Z : Z.of_nat iterations = 100000.
Proof. unfold iterations. by rewrite Z2Nat.id. Qed.

Lemma case_measures clock rdtsc ghz b :
  (∀ j, is_Ok (cycles_to_ns ghz (u64 (rdtsc (j + 1)%nat - rdtsc j))) = true) →
  b ∈ bodies clock → measures (case_of rdtsc ghz b).
Proof.
  intros Hns Hb k. destruct (benchmark_cases_return clock b Hb) as (s & s' & Hs & Hrun).
  set (ns_of := λ i, match cycles_to_ns ghz (u64 (rdtsc (k + 2 * i + 1)%nat - rdtsc (k + 2 * i)%nat)) with
                     | Ok ns => ns | _ => 0 end).
  pose proof (run_loop_samples rdtsc ghz (bb_body b) ns_of iterations 0 k stats_init s s' Hrun) as Hloop.
  eexists _, _. cbn [bc_fn bc_iterations case_of]. rewrite Hs. cbn [mbind outcome_bind]. rewrite Hloop.
  - split; [reflexivity|]. pose proof iterations_Z as Hi. cbn [fst snd stats_init app].
    split; [|rewrite length_fmap, length_seq; lia].
    intros Hnil%(f_equal length). rewrite length_fmap, length_seq in Hnil. cbn [length] in Hnil. lia.
  - intros j _. destruct (Ok_ex _ (Hns (k + 2 * j)%nat)) as [x Hx]. unfold ns_of.
    change (0 + j)%nat with j. by rewrite Hx.
Qed.

Lemma filter_cases (P : string → bool) rdtsc ghz (bs : list bench_body) :
  base.filter (λ c, P (bc_group c) = true) (case_of rdtsc ghz <$> bs)
    = case_of rdtsc ghz <$> base.filter (λ b, P (bb_group b) = true) bs.
Proof.
  induction bs as [|b bs IH]; [done|]. rewrite fmap_cons, !filter_cons. cbn [bc_group case_of].
  case_decide; rewrite IH; done.
Qed.

(** ** Properties *)

(** The numbers of the hot path and of the replay leave the order manager out: in both
    hot path cases and in the replay benchmark every event is a fill of an order that
    was never entered, so the manager is empty at the end, after any number of iterations;
    the log and the tracker have every event, and the risk check passes every time. *)
Theorem hot_path_holds_no_orders clock n :
  (n ≤ iterations)%nat →
  (∀ b, b = FullHotPath_books clock ∨ b = FullHotPath_risk clock → returns_in b n) ∧
  (∀ path s s', hot_setup clock path = Ok s →
     plain_loop (bb_body (FullHotPath_books clock)) n 0 s = Ok s' ∨
     plain_loop (bb_body (FullHotPath_risk clock)) n 0 s = Ok s' →
     s'.2 = OrderManager.init ∧ el_size s'.1.1 = 1 + Z.of_nat n) ∧
  ∃ t, run_replay_bench clock n = Ok (t, OrderManager.init) ∧
    p_total_buy_qty (aapl_position t) + p_total_sell_qty (aapl_position t) = 100 * Z.of_nat n.
Proof.
  intros Hn. split; [|split].
  - intros b [->| ->]; [by apply books_returns|by apply risk_returns].
  - intros path s s' Hs Hrun. destruct (hot_start clock path) as (s0 & Hs0 & Hhot).
    assert (s0 = s) as -> by congruence.
    assert (Hend : hot n s').
    { destruct Hrun as [Hrun|Hrun].
      - destruct (loop_keeps (bb_body (FullHotPath_books clock)) hot n 0 s Hhot) as (x & Hx & Hhot');
          [intros j y Hj Hy; refine (books_step clock j y _ Hy); lia|].
        assert (x = s') as -> by congruence. exact Hhot'.
      - destruct (loop_keeps (bb_body (FullHotPath_risk clock)) hot n 0 s Hhot) as (x & Hx & Hhot');
          [intros j y Hj Hy; refine (risk_step clock j y _ Hy); lia|].
        assert (x = s') as -> by congruence. exact Hhot'. }
    destruct Hend as [(es & Hwf & Hlen) _ Ho _]. split; [exact Ho|].
    rewrite <- Hlen. exact (lw_next _ _ Hwf).
  - destruct (replay_bench_run clock n Hn) as (t & Hrun & [_ [_ _ _ (_ & _ & Htotal) _] _]). by exists t.
Qed.

(** The case that is said to create an order in every iteration creates 256. *)
Theorem new_order_case_creates_256 n :
  ∃ t, plain_loop (bb_body OrderManager_new) n 0 OrderManager.init = Ok t ∧
    OrderManager.order_count t = (n `min` 256)%nat.
Proof.
  destruct (loop_keeps (bb_body OrderManager_new) rotated n 0 OrderManager.init rotated_start)
    as (t & Hrun & Hrot); [intros j t _; apply rotated_step|].
  exists t. split; [exact Hrun|]. exact (rotated_count _ _ Hrot).
Qed.

(** The program from its command line: when every duration converts to nanoseconds, the
    run of all cases or of a group ends normally, having reported every case of the group
    in the order of registration. *)
Theorem bench_main_reports_every_case clock rdtsc ghz k group :
  (∀ j, is_Ok (cycles_to_ns ghz (u64 (rdtsc (j + 1)%nat - rdtsc j))) = true) →
  ∃ lines, bench_main clock rdtsc ghz k group = (lines, Ok tt) ∧
    reported lines = bb_name <$>
      base.filter (λ b, match group with Some p => String.prefix p | None => λ _, true end (bb_group b) = true)
        (bodies clock).
Proof.
  intros Hns. set (pick := match group with Some p => String.prefix p | None => λ _, true end).
  set (chosen := base.filter (λ b, pick (bb_group b) = true) (bodies clock)).
  change (∃ lines, bench_main clock rdtsc ghz k group = (lines, Ok tt) ∧ reported lines = bb_name <$> chosen).
  assert (Hm : Forall measures (case_of rdtsc ghz <$> chosen)).
  { apply Forall_fmap, Forall_forall. intros b Hb. apply list_elem_of_filter in Hb as [_ Hb].
    by apply (case_measures clock). }
  destruct (run_cases_report _ None k Hm) as (lines & k' & Hrun & Hreported).
  assert (Hnames : reported lines = bb_name <$> chosen) by (rewrite Hreported, <- list_fmap_compose; reflexivity).
  unfold bench_main. destruct group as [p|].
  - rewrite run_group_filters. pose proof (filter_cases (String.prefix p) rdtsc ghz (bodies clock)) as Hf.
    rewrite Hf. change (base.filter _ (bodies clock)) with chosen. clearbody chosen.
    destruct chosen as [|b bs]; [by exists [Out_no_match p]|].
    exists (lines ++ []). unfold run_all. rewrite fmap_cons in *. unfold printed_bind. rewrite Hrun. cbn [fst snd].
    split; [done|]. by rewrite app_nil_r.
  - subst pick. assert (Hall : chosen = bodies clock) by (unfold chosen; apply filter_all, Forall_forall; done).
    destruct (replay_bench_run clock iterations) as (t & Hreplay & _); [done|].
    exists (lines ++ []). unfold run_all. rewrite <- Hall. unfold printed_bind. rewrite Hrun. cbn [fst snd].
    rewrite Hreplay. split; [done|]. by rewrite app_nil_r.
Qed.
